(** * Graph adjustment of pyvane: a shallow embedding

    The development follows [pyvane/graph/adjustment.py] and
    [pyvane/graph/creation.py].  The graphs are [networkx.MultiGraph]
    objects: undirected, with parallel edges and self-loops, every edge
    carrying one attribute dictionary that both directions of the
    adjacency share.  The embedding keeps one record per edge (the shared
    attribute dictionary); the edges of a pair of nodes stay together, in
    the order in which they were added, and the pairs are in the order in
    which they became adjacent.  The views of networkx derive from it:

    - [graph[u][v]], the key dictionary of a pair, is the list of the
      edges joining [u] and [v], in insertion order;
    - [graph[n]], the neighbours of [n], are the other end points of the
      edges at [n], in the order of the pairs;
    - [graph.degree(n)] counts the edge endpoints at [n] (a self-loop
      counts twice);
    - [graph.edges] reports every edge once, as [(n, nbr, key)] with [n]
      the endpoint that comes first in the node order.

    Python exceptions are the [Raise] outcomes of an error monad, and the
    [while] loops run on fuel, with a proof that the fuel given suffices. *)

From Stdlib Require Import ZArith List Bool Lia Arith QArith Sorted.
From Stdlib Require String.
Import String.StringSyntax.
Import ListNotations.
Local Open Scope Z_scope.
Delimit Scope string_scope with string.

Set Implicit Arguments.

(** ** Exceptions *)

Inductive exn : Type :=
| ValueError
| KeyError
| IndexError
| UnboundLocalError
| NetworkXError.

Inductive result (A : Type) : Type :=
| Ok (a : A)
| Raise (e : exn).

Arguments Ok {A} a.
Arguments Raise {A} e.

Definition bind {A B : Type} (r : result A) (k : A -> result B) : result B :=
  match r with
  | Ok a => k a
  | Raise e => Raise e
  end.

Notation "'do' x <- r ; k" := (bind r (fun x => k))
  (at level 10, x pattern, r at level 100, k at level 200).

Definition is_ok {A : Type} (r : result A) : bool :=
  match r with Ok _ => true | Raise _ => false end.

(** ** Nodes, pixels and edges *)

Definition node := Z.
Definition pixel := list Z.
Definition edge_id := (node * node * Z)%type.

Definition eqb_id (a b : edge_id) : bool :=
  let '(u1, v1, k1) := a in
  let '(u2, v2, k2) := b in
  (u1 =? u2) && (v1 =? v2) && (k1 =? k2).

(** The lengths are IEEE floats in the source.  The development is written
    over an arbitrary type of lengths with the operations the code applies
    to them: [<], [+], the doubling [2 * x], and the arc length of a pixel
    sequence for a pixel size ([path_length], numpy code). *)
Class Lengths (L : Type) : Type := {
  len_ltb : L -> L -> bool;
  len_add : L -> L -> L;
  len_twice : L -> L;
  path_length : list pixel -> list L -> L
}.

Section Model.

Context {L : Type} {LO : Lengths L}.

Record EdgeAttrs : Type := mkAttrs {
  path : list pixel;
  length : L;
  is_branch : bool
}.

Record Edge : Type := mkEdge {
  e_u : node;
  e_v : node;
  e_key : Z;
  e_attrs : EdgeAttrs
}.

(** [g_nodes] is [graph.nodes] with the ['center'] attribute, in insertion
    order; [g_edges] holds the edges in insertion order; [g_pix_size] is
    [graph.graph['pix_size']]. *)
Record MultiGraph : Type := mkGraph {
  g_nodes : list (node * pixel);
  g_edges : list Edge;
  g_pix_size : list L
}.

Definition with_edges (g : MultiGraph) (es : list Edge) : MultiGraph :=
  mkGraph (g_nodes g) es (g_pix_size g).

(** ** The networkx views *)

Definition joins (u v : node) (e : Edge) : bool :=
  ((e_u e =? u) && (e_v e =? v)) || ((e_u e =? v) && (e_v e =? u)).

Definition names (i : edge_id) (e : Edge) : bool :=
  let '(u, v, k) := i in joins u v e && (e_key e =? k).

(** [graph[u][v]]: the edges between [u] and [v]. *)
Definition keydict (g : MultiGraph) (u v : node) : list Edge :=
  filter (joins u v) (g_edges g).

Definition keys (kd : list Edge) : list Z := map e_key kd.

Definition has_edge (g : MultiGraph) (u v : node) : bool :=
  match keydict g u v with [] => false | _ => true end.

Definition has_node (g : MultiGraph) (n : node) : bool :=
  existsb (fun p => fst p =? n) (g_nodes g).

Definition ends_at (n : node) (e : Edge) : nat :=
  ((if Z.eqb (e_u e) n then 1 else 0) + (if Z.eqb (e_v e) n then 1 else 0))%nat.

(** [graph.degree(n)]. *)
Definition degree (g : MultiGraph) (n : node) : nat :=
  list_sum (map (ends_at n) (g_edges g)).

Definition nbr_of (n : node) (e : Edge) : list node :=
  if e_u e =? n then [e_v e] else if e_v e =? n then [e_u e] else [].

Fixpoint dedup (l : list node) (seen : list node) : list node :=
  match l with
  | [] => []
  | x :: r =>
      if existsb (Z.eqb x) seen then dedup r seen
      else x :: dedup r (x :: seen)
  end.

(** [list(graph[n].keys())]. *)
Definition neighbors (g : MultiGraph) (n : node) : list node :=
  dedup (flat_map (nbr_of n) (g_edges g)) [].

(** [graph[u][v][key]]. *)
Definition get_edge (g : MultiGraph) (u v : node) (k : Z) : result EdgeAttrs :=
  match find (names (u, v, k)) (g_edges g) with
  | Some e => Ok (e_attrs e)
  | None => Raise KeyError
  end.

Definition center_of (g : MultiGraph) (n : node) : result pixel :=
  match find (fun p => fst p =? n) (g_nodes g) with
  | Some p => Ok (snd p)
  | None => Raise KeyError
  end.

(** [MultiGraph.new_edge_key]: the number of edges of the pair, stepped up
    while it is taken. *)
Fixpoint free_key (ks : list Z) (k : Z) (fuel : nat) : Z :=
  match fuel with
  | O => k
  | S f => if existsb (Z.eqb k) ks then free_key ks (k + 1) f else k
  end.

Definition new_edge_key (g : MultiGraph) (u v : node) : Z :=
  let ks := keys (keydict g u v) in
  free_key ks (Z.of_nat (List.length ks)) (List.length ks).

(** The place of a new edge between [u] and [v] in the list of the edges:
    behind the last edge of the pair, or at the end of the list when the
    pair has no edge yet.  The edges of a pair so stay together, and the
    pairs stay in the order in which they became adjacent, which is the
    order of the adjacency dictionaries of networkx. *)
Fixpoint insert_edge (u v : node) (new : Edge) (l : list Edge) : list Edge :=
  match l with
  | [] => [new]
  | e :: r =>
      if joins u v e && negb (existsb (joins u v) r) then e :: new :: r
      else e :: insert_edge u v new r
  end.

(** [graph.add_edge(u, v, **attrs)]; both nodes are nodes of the graph at
    every call of the module. *)
Definition add_edge (g : MultiGraph) (u v : node) (a : EdgeAttrs) : MultiGraph * Z :=
  let k := new_edge_key g u v in
  (with_edges g (insert_edge u v (mkEdge u v k a) (g_edges g)), k).

(** [graph.remove_edge(u, v, key)]. *)
Definition remove_edge (g : MultiGraph) (i : edge_id) : result MultiGraph :=
  if existsb (names i) (g_edges g)
  then Ok (with_edges g (filter (fun e => negb (names i e)) (g_edges g)))
  else Raise NetworkXError.

(** [graph.remove_edges_from(ebunch)]: edges that are absent are skipped. *)
Definition remove_edges_from (g : MultiGraph) (l : list edge_id) : MultiGraph :=
  fold_left (fun g i => match remove_edge g i with Ok g' => g' | Raise _ => g end) l g.

(** [graph.edges(keys=True)]: for every node in node order, for every
    neighbour that was not yet the outer node, the keys of the pair. *)
Fixpoint edges_from (g : MultiGraph) (ns seen : list node) : list edge_id :=
  match ns with
  | [] => []
  | n :: rest =>
      flat_map (fun nbr =>
                  if existsb (Z.eqb nbr) seen then []
                  else map (fun e => (n, nbr, e_key e)) (keydict g n nbr))
               (neighbors g n)
      ++ edges_from g rest (n :: seen)
  end.

Definition graph_edges (g : MultiGraph) : list edge_id :=
  edges_from g (map fst (g_nodes g)) [].

(** [graph[u][v][key]['is_branch'] = b]. *)
Definition set_is_branch (g : MultiGraph) (i : edge_id) (b : bool) : MultiGraph :=
  with_edges g
    (map (fun e => if names i e
                   then mkEdge (e_u e) (e_v e) (e_key e)
                          (mkAttrs (path (e_attrs e)) (length (e_attrs e)) b)
                   else e)
         (g_edges g)).

(** ** adjustment.py: branch flags and multiple edges *)

(** [add_branch_info]. *)
Definition add_branch_info (g : MultiGraph) : MultiGraph :=
  fold_left
    (fun g i =>
       let '(node1, node2, key) := i in
       if (degree g node1 =? 1)%nat || (degree g node2 =? 1)%nat
       then set_is_branch g (node1, node2, key) true
       else set_is_branch g (node1, node2, key) false)
    (graph_edges g) g.

(** A Python [set] of node pairs.  The list keeps the pairs in the order of
    their first insertion; a Python set is gone through in an order of its
    own, and the statements about its users hold for every order. *)
Definition pair_set_add (s : list (node * node)) (p : node * node) : list (node * node) :=
  if existsb (fun q => (fst q =? fst p) && (snd q =? snd p)) s then s else s ++ [p].

(** [multiedge_iter]: the pairs of [graph.edges] that have more than one
    edge; the key dictionary of a yielded pair is [keydict g node1 node2]. *)
Definition multiedge_iter (g : MultiGraph) : list (node * node) :=
  fold_left
    (fun s i =>
       let '(node1, node2, _) := i in
       if (1 <? List.length (keydict g node1 node2))%nat
       then pair_set_add s (node1, node2) else s)
    (graph_edges g) [].

(** [is_multiple_edge]: [len(graph[u][v]) > 1]; [graph[u][v]] raises
    [KeyError] when no edge joins the two nodes. *)
Definition is_multiple_edge (g : MultiGraph) (u v : node) : result bool :=
  match keydict g u v with
  | [] => Raise KeyError
  | kd => Ok (1 <? List.length kd)%nat
  end.

(** [min(range(len(values)), key=values.__getitem__)]: a later index wins
    only with a strictly smaller value. *)
Fixpoint argmin_from (values : list L) (i best : nat) (best_v : L) : nat :=
  match values with
  | [] => best
  | x :: r => if len_ltb x best_v then argmin_from r (S i) i x
              else argmin_from r (S i) best best_v
  end.

Definition argmin (values : list L) : result nat :=
  match values with
  | [] => Raise ValueError
  | x :: r => Ok (argmin_from r 1 0 x)
  end.

(** [max(range(len(values)), key=values.__getitem__)]: a later index wins
    only with a strictly larger value. *)
Fixpoint argmax_from (values : list L) (i best : nat) (best_v : L) : nat :=
  match values with
  | [] => best
  | x :: r => if len_ltb best_v x then argmax_from r (S i) i x
              else argmax_from r (S i) best best_v
  end.

Definition argmax (values : list L) : result nat :=
  match values with
  | [] => Raise ValueError
  | x :: r => Ok (argmax_from r 1 0 x)
  end.

(** [get_single_neighbor]. *)
Definition get_single_neighbor (g : MultiGraph) (n : node) : result node :=
  if has_node g n then
    match neighbors g n with
    | [] => Raise IndexError
    | x :: _ => Ok x
    end
  else Raise KeyError.

(** [get_single_edge_key]. *)
Definition get_single_edge_key (g : MultiGraph) (node1 node2 : node) : result Z :=
  match keydict g node1 node2 with
  | [] => Raise KeyError
  | e :: _ => Ok (e_key e)
  end.

Inductive node_type : Type := Simple | Multiple | Loop | Unidentified.

Definition node_type_eqb (a b : node_type) : bool :=
  match a, b with
  | Simple, Simple | Multiple, Multiple | Loop, Loop
  | Unidentified, Unidentified => true
  | _, _ => false
  end.

(** [degree_two_node_type]. *)
Definition degree_two_node_type (g : MultiGraph) (n : node) : result node_type :=
  if has_node g n then
    match neighbors g n with
    | [_; _] => Ok Simple
    | [neighbor] => if neighbor =? n then Ok Loop else Ok Multiple
    | _ => Ok Unidentified
    end
  else Raise KeyError.

(** [degree_two_iter]; the node types of the nodes of the graph are
    always defined. *)
Definition degree_two_iter (g : MultiGraph) (self_loops multiple : bool) : list node :=
  flat_map
    (fun n =>
       if (degree g n =? 2)%nat then
         match degree_two_node_type g n with
         | Ok Simple => [n]
         | Ok Loop => if self_loops then [n] else []
         | Ok Multiple => if multiple then [n] else []
         | _ => []
         end
       else [])
    (map fst (g_nodes g)).

(** [values.remove(item)]: the first occurrence goes; [ValueError] when
    there is none. *)
Fixpoint list_remove (values : list node) (item : node) : result (list node) :=
  match values with
  | [] => Raise ValueError
  | x :: r =>
      if x =? item then Ok r
      else match list_remove r item with
           | Ok r' => Ok (x :: r')
           | Raise e => Raise e
           end
  end.

(** [remove_if_in_list]: the [try] around [values.remove(item)]. *)
Definition remove_if_in_list (values : list node) (item : node) : list node :=
  match list_remove values item with
  | Ok values' => values'
  | Raise _ => values
  end.

(** [remove_small_mul]. *)
Definition remove_small_mul (g : MultiGraph) (node1 node2 : node)
    (length_threshold : L) : result (MultiGraph * bool) :=
  match keydict g node1 node2 with
  | [] => Raise KeyError
  | e0 :: kd =>
      do ind_smal_edge <- argmin (map (fun e => length (e_attrs e)) (e0 :: kd));
      let smal := nth ind_smal_edge (e0 :: kd) e0 in
      if len_ltb (length (e_attrs smal)) length_threshold
      then do g' <- remove_edge g (node1, node2, e_key smal); Ok (g', true)
      else Ok (g, false)
  end.

(** [networkx.selfloop_edges(graph, keys=True, data='length')]. *)
Definition selfloop_edges (g : MultiGraph) : list (edge_id * L) :=
  flat_map
    (fun n => map (fun e => ((n, n, e_key e), length (e_attrs e))) (keydict g n n))
    (map fst (g_nodes g)).

(** The second loop of [remove_small_mul_all], for one yielded pair. *)
Definition small_parallel_edges (g : MultiGraph) (length_threshold : L)
    (p : node * node) : list edge_id :=
  let '(node1, node2) := p in
  let edges := keydict g node1 node2 in
  match argmax (map (fun e => length (e_attrs e)) edges) with
  | Ok ind_larg_edge =>
      let key_larg_edge := nth ind_larg_edge (keys edges) 0 in
      flat_map
        (fun e =>
           if len_ltb (length (e_attrs e)) length_threshold
              && negb (e_key e =? key_larg_edge)
           then [(node1, node2, e_key e)] else [])
        edges
  | Raise _ => []
  end.

(** [remove_small_mul_all]. *)
Definition remove_small_mul_all (g : MultiGraph) (length_threshold : L) : MultiGraph :=
  let edges_to_remove :=
    flat_map (fun il => if len_ltb (snd il) length_threshold then [fst il] else [])
             (selfloop_edges g) in
  let g1 := remove_edges_from g edges_to_remove in
  let edges_to_remove :=
    flat_map (small_parallel_edges g1 length_threshold) (multiedge_iter g1) in
  let g2 := remove_edges_from g1 edges_to_remove in
  add_branch_info g2.

(** ** adjustment.py: nodes of degree two *)

(** [two_neighbors_data]. *)
Definition two_neighbors_data (g : MultiGraph) (n : node)
    (node_type_arg : option node_type) : result (node * node * Z * Z) :=
  do nt <- match node_type_arg with
           | None => degree_two_node_type g n
           | Some t => Ok t
           end;
  do _ <- (if has_node g n then Ok tt else Raise NetworkXError);
  let neighbors := neighbors g n in
  do r <- match nt with
          | Simple =>
              match neighbors with
              | [nei1; nei2] =>
                  do edge1_key <- get_single_edge_key g n nei1;
                  do edge2_key <- get_single_edge_key g n nei2;
                  Ok (nei1, nei2, edge1_key, edge2_key)
              | _ => Raise ValueError
              end
          | Multiple =>
              match neighbors with
              | [] => Raise IndexError
              | nei1 :: _ =>
                  match keys (keydict g n nei1) with
                  | [edge1_key; edge2_key] => Ok (nei1, nei1, edge1_key, edge2_key)
                  | _ => Raise ValueError
                  end
              end
          | Loop => Raise ValueError
          | Unidentified => Raise UnboundLocalError
          end;
  let '(nei1, nei2, edge1_key, edge2_key) := r in
  if nei2 <? nei1
  then Ok (nei2, nei1, edge2_key, edge1_key)
  else Ok (nei1, nei2, edge1_key, edge2_key).

(** [path[-1]] and [path[0]]. *)
Definition last_pixel (p : list pixel) : result pixel :=
  match rev p with
  | [] => Raise IndexError
  | x :: _ => Ok x
  end.

Definition first_pixel (p : list pixel) : result pixel :=
  match p with
  | [] => Raise IndexError
  | x :: _ => Ok x
  end.

(** [make_new_path]; both edges are given as [(node, neighbour, key)]. *)
Definition make_new_path (g : MultiGraph) (n : node) (nei1 : node) (edge1_key : Z)
    (nei2 : node) (edge2_key : Z) : result (list pixel * L) :=
  let pix_size := g_pix_size g in
  do node_center <- center_of g n;
  do edge1_attrs <- get_edge g n nei1 edge1_key;
  do edge2_attrs <- get_edge g n nei2 edge2_key;
  let path_nei1 := if n <? nei1 then rev (path edge1_attrs) else path edge1_attrs in
  let path_nei2 := if nei2 <? n then rev (path edge2_attrs) else path edge2_attrs in
  let new_path := path_nei1 ++ [node_center] ++ path_nei2 in
  do p_last <- last_pixel path_nei1;
  do p_first <- first_pixel path_nei2;
  let length_new_seg := path_length [p_last; node_center; p_first] pix_size in
  let length_new_path :=
    len_add (len_add (length edge1_attrs) length_new_seg) (length edge2_attrs) in
  Ok (new_path, length_new_path).

(** A Python [set] of edge identities, as the list of its members in the
    order of their first insertion.  The order in which Python goes through
    the set only shows in the order of the entries of the queue of
    [remove_branches]. *)
Definition id_mem (i : edge_id) (s : list edge_id) : bool := existsb (eqb_id i) s.

Definition id_add (s : list edge_id) (i : edge_id) : list edge_id :=
  if id_mem i s then s else s ++ [i].

Definition id_remove (s : list edge_id) (i : edge_id) : list edge_id :=
  filter (fun j => negb (eqb_id i j)) s.

(** [branches_to_remove]; the length of an edge is read only when the
    neighbour has degree 1. *)
Definition branch_to_remove (g : MultiGraph) (n nei : node) (edge_key : Z)
    (length_threshold : L) : result (list edge_id) :=
  if (degree g nei =? 1)%nat then
    do a <- get_edge g n nei edge_key;
    if len_ltb (length a) length_threshold
    then if nei <? n then Ok [(nei, n, edge_key)] else Ok [(n, nei, edge_key)]
    else Ok []
  else Ok [].

Definition branches_to_remove (g : MultiGraph) (n : node) (nei1 : node)
    (edge1_key : Z) (nei2 : node) (edge2_key : Z) (length_threshold : L)
    : result (list edge_id) :=
  do l1 <- branch_to_remove g n nei1 edge1_key length_threshold;
  do l2 <- branch_to_remove g n nei2 edge2_key length_threshold;
  Ok (l1 ++ l2).

(** [handle_new_multiedge]: the graph, the work list and [is_branch]. *)
Definition handle_new_multiedge (g : MultiGraph) (nei1 nei2 : node)
    (length_threshold : L) (nodes_to_visit : list node)
    : result (MultiGraph * list node * bool) :=
  do r <- remove_small_mul g nei1 nei2 (len_twice length_threshold);
  let '(g, was_removed) := r in
  if was_removed then
    let nei1_degree := degree g nei1 in
    let '(nodes_to_visit, is_branch) :=
      if (nei1_degree =? 2)%nat then (nodes_to_visit ++ [nei1], false)
      else if (nei1_degree =? 1)%nat then (remove_if_in_list nodes_to_visit nei1, true)
      else (nodes_to_visit, false) in
    let nei2_degree := degree g nei2 in
    let '(nodes_to_visit, is_branch) :=
      if (nei2_degree =? 2)%nat then (nodes_to_visit ++ [nei2], is_branch)
      else if (nei2_degree =? 1)%nat then (remove_if_in_list nodes_to_visit nei2, true)
      else (nodes_to_visit, is_branch) in
    Ok (g, nodes_to_visit, is_branch)
  else Ok (g, nodes_to_visit, false).

(** The variables of the loop of [remove_degree_two_nodes]. *)
Record rd2n_state : Type := mkState {
  st_graph : MultiGraph;
  nodes_to_visit : list node;
  added_branches : list edge_id;
  removed_branches : list edge_id
}.

(** [nodes_to_visit.pop()]: the last element and the rest. *)
Definition pop (l : list node) : option (node * list node) :=
  match rev l with
  | [] => None
  | x :: r => Some (x, rev r)
  end.

(** The cancellation loop over [b_to_rem]. *)
Definition cancel_branches (added removed : list edge_id) (b_to_rem : list edge_id)
    : list edge_id * list edge_id :=
  fold_left
    (fun ar branch =>
       let '(added, removed) := ar in
       if id_mem branch added then (id_remove added branch, removed)
       else (added, id_add removed branch))
    b_to_rem (added, removed).

(** The body of the [while] loop of [remove_degree_two_nodes], after
    [node = nodes_to_visit.pop()]. *)
Definition rd2n_body (length_threshold : L) (return_branch_changes : bool)
    (st : rd2n_state) (n : node) : result rd2n_state :=
  let g := st_graph st in
  do nt <- degree_two_node_type g n;
  do _ <- center_of g n;
  do r <- two_neighbors_data g n (Some nt);
  let '(nei1, nei2, edge1_key, edge2_key) := r in
  do pl <- make_new_path g n nei1 edge1_key nei2 edge2_key;
  let '(new_path, length_new_path) := pl in
  do r <- match nt with
          | Multiple =>
              if (degree g nei1 =? 2)%nat
              then do l <- list_remove (nodes_to_visit st) nei1; Ok (l, false, false)
              else Ok (nodes_to_visit st, false, false)
          | _ =>
              if has_edge g nei1 nei2 then Ok (nodes_to_visit st, true, false)
              else if (degree g nei1 =? 1)%nat || (degree g nei2 =? 1)%nat
                   then Ok (nodes_to_visit st, false, true)
                   else Ok (nodes_to_visit st, false, false)
          end;
  let '(to_visit, has_nei_edge, is_branch) := r in
  do ar <- (if is_branch && return_branch_changes then
              do b_to_rem <- branches_to_remove g n nei1 edge1_key nei2 edge2_key
                               length_threshold;
              Ok (cancel_branches (added_branches st) (removed_branches st)
                    (fold_left id_add b_to_rem []))
            else Ok (added_branches st, removed_branches st));
  let '(added, removed) := ar in
  let g := remove_edges_from g [(n, nei1, edge1_key); (n, nei2, edge2_key)] in
  let g := fst (add_edge g nei1 nei2 (mkAttrs new_path length_new_path is_branch)) in
  do r <- (if has_nei_edge
           then handle_new_multiedge g nei1 nei2 length_threshold to_visit
           else Ok (g, to_visit, is_branch));
  let '(g, to_visit, is_branch) := r in
  if is_branch then
    do nei_edge_key <- get_single_edge_key g nei1 nei2;
    let g := set_is_branch g (nei1, nei2, nei_edge_key) true in
    let added :=
      if return_branch_changes && len_ltb length_new_path length_threshold
      then id_add added (nei1, nei2, nei_edge_key) else added in
    Ok (mkState g to_visit added removed)
  else Ok (mkState g to_visit added removed).

(** The [while] loop; [None] when the fuel runs out. *)
Fixpoint rd2n_loop (fuel : nat) (length_threshold : L) (return_branch_changes : bool)
    (st : rd2n_state) : option (result rd2n_state) :=
  match pop (nodes_to_visit st) with
  | None => Some (Ok st)
  | Some (n, rest) =>
      match fuel with
      | O => None
      | S fuel' =>
          match rd2n_body length_threshold return_branch_changes
                  (mkState (st_graph st) rest (added_branches st) (removed_branches st)) n with
          | Ok st' => rd2n_loop fuel' length_threshold return_branch_changes st'
          | Raise e => Some (Raise e)
          end
      end
  end.

(** The work list at the start of [remove_degree_two_nodes]. *)
Definition rd2n_init (g : MultiGraph) (initial_node : option node) : result (list node) :=
  match initial_node with
  | None => Ok (degree_two_iter g false false)
  | Some n =>
      do nt <- degree_two_node_type g n;
      if node_type_eqb nt Simple then Ok [n] else Ok []
  end.

Definition number_of_edges (g : MultiGraph) : nat := List.length (g_edges g).

(** [remove_degree_two_nodes], on the fuel given. *)
Definition rd2n_run (fuel : nat) (g : MultiGraph) (length_threshold : L)
    (initial_node : option node) (return_branch_changes : bool)
    : option (result rd2n_state) :=
  match rd2n_init g initial_node with
  | Ok l => rd2n_loop fuel length_threshold return_branch_changes (mkState g l [] [])
  | Raise e => Some (Raise e)
  end.

(** [remove_degree_two_nodes]: every turn of the loop takes an edge away,
    so one unit of fuel per edge is enough. *)
Definition remove_degree_two_nodes (g : MultiGraph) (length_threshold : L)
    (initial_node : option node) (return_branch_changes : bool)
    : option (result rd2n_state) :=
  rd2n_run (S (number_of_edges g)) g length_threshold initial_node return_branch_changes.

(** ** The priority queue of the branches *)

(** Modelled from the spec: [pyvane.util.PriorityQueue], which is not part
    of the sources at hand.  The spec asks for a priority queue of edge
    identities keyed by ascending length, ties going by insertion order,
    with removal of an arbitrary element.  The queue is the list of its
    live entries in insertion order; adding a task that is present
    replaces its entry, and removing a task that is absent changes
    nothing. *)
Definition PriorityQueue : Type := list (L * edge_id).

Definition remove_task (q : PriorityQueue) (task : edge_id) : PriorityQueue :=
  filter (fun e => negb (eqb_id task (snd e))) q.

Definition add_task (q : PriorityQueue) (priority : L) (task : edge_id) : PriorityQueue :=
  remove_task q task ++ [(priority, task)].

Fixpoint remove_nth (A : Type) (i : nat) (l : list A) : list A :=
  match i, l with
  | _, [] => []
  | O, _ :: r => r
  | S j, x :: r => x :: remove_nth j r
  end.

(** [pop_task]: the first entry of the smallest priority, and the rest. *)
Definition pop_task (q : PriorityQueue) : option (L * edge_id * PriorityQueue) :=
  match q with
  | [] => None
  | e0 :: _ =>
      match argmin (map fst q) with
      | Ok i => Some (nth i q e0, remove_nth i q)
      | Raise _ => None
      end
  end.

(** [PriorityQueue(lengths, edges)]. *)
Definition new_queue (l : list (L * edge_id)) : PriorityQueue :=
  fold_left (fun q e => add_task q (fst e) (snd e)) l [].

(** ** adjustment.py: the removal of branches *)

(** The edges the queue of [remove_branches] starts with. *)
Definition branch_small_edges (g : MultiGraph) (length_threshold : L)
    : list (L * edge_id) :=
  flat_map
    (fun i =>
       let '(u, v, k) := i in
       match get_edge g u v k with
       | Ok a => if is_branch a && len_ltb (length a) length_threshold
                 then [(length a, i)] else []
       | Raise _ => []
       end)
    (graph_edges g).

(** The update of the queue after a call of [remove_degree_two_nodes]. *)
Fixpoint add_branches (g : MultiGraph) (q : PriorityQueue) (l : list edge_id)
    : result PriorityQueue :=
  match l with
  | [] => Ok q
  | (node1, node2, key) :: r =>
      do a <- get_edge g node1 node2 key;
      add_branches g (add_task q (length a) (node1, node2, key)) r
  end.

(** The body of the [while] loop of [remove_branches], after
    [branch_queue.pop_task()] gave the edge [(node1, node2, key)]; [None]
    when the inner loop runs out of fuel. *)
Definition rb_body (length_threshold : L) (g : MultiGraph) (q : PriorityQueue)
    (i : edge_id) : option (result (MultiGraph * PriorityQueue)) :=
  let '(node1, node2, key) := i in
  match remove_edge g (node1, node2, key) with
  | Raise e => Some (Raise e)
  | Ok g =>
      let target_node := if (degree g node1 =? 0)%nat then node2 else node1 in
      let target_node_degree := degree g target_node in
      if (target_node_degree =? 2)%nat then
        match remove_degree_two_nodes g length_threshold (Some target_node) true with
        | None => None
        | Some (Raise e) => Some (Raise e)
        | Some (Ok st) =>
            Some (do q <- add_branches (st_graph st) q (added_branches st);
                  Ok (st_graph st, fold_left remove_task (removed_branches st) q))
        end
      else if (target_node_degree =? 1)%nat then
        Some (do target_neighbor <- get_single_neighbor g target_node;
              do target_edge_key <- get_single_edge_key g target_node target_neighbor;
              do target_edge <- get_edge g target_node target_neighbor target_edge_key;
              let g := set_is_branch g (target_node, target_neighbor, target_edge_key) true in
              Ok (g, add_task q (length target_edge)
                       (target_node, target_neighbor, target_edge_key)))
      else Some (Ok (g, q))
  end.

(** The [while] loop of [remove_branches]. *)
Fixpoint rb_loop (fuel : nat) (length_threshold : L) (g : MultiGraph)
    (q : PriorityQueue) : option (result MultiGraph) :=
  match pop_task q with
  | None => Some (Ok g)
  | Some (_, i, q') =>
      match fuel with
      | O => None
      | S fuel' =>
          match rb_body length_threshold g q' i with
          | None => None
          | Some (Raise e) => Some (Raise e)
          | Some (Ok (g', q'')) => rb_loop fuel' length_threshold g' q''
          end
      end
  end.

(** [remove_branches]: every turn of the loop removes the edge it pops. *)
Definition remove_branches (g : MultiGraph) (length_threshold : L)
    : option (result MultiGraph) :=
  match branch_small_edges g length_threshold with
  | [] => Some (Ok g)
  | l => rb_loop (S (number_of_edges g)) length_threshold g (new_queue l)
  end.

(** ** The properties of graphs the theorems are about *)

Definition id_of (e : Edge) : edge_id := (e_u e, e_v e, e_key e).

(** No two edges of a pair of nodes carry the same key (keys are the keys
    of a dictionary in networkx). *)
Fixpoint ids_distinct (l : list Edge) : bool :=
  match l with
  | [] => true
  | e :: r => negb (existsb (names (id_of e)) r) && ids_distinct r
  end.

Fixpoint distinct (l : list node) : bool :=
  match l with
  | [] => true
  | x :: r => negb (existsb (Z.eqb x) r) && distinct r
  end.

(** The edges of a pair of nodes are next to each other in the list. *)
Fixpoint drop_pair (u v : node) (l : list Edge) : list Edge :=
  match l with
  | [] => []
  | e :: r => if joins u v e then drop_pair u v r else l
  end.

Fixpoint grouped (l : list Edge) : bool :=
  match l with
  | [] => true
  | e :: r =>
      negb (existsb (joins (e_u e) (e_v e)) (drop_pair (e_u e) (e_v e) r))
      && grouped r
  end.

(** A graph as networkx keeps it: the nodes are the keys of a dictionary,
    so are the keys of the edges of a pair, the end points of every edge
    are nodes, and the edges of a pair are together. *)
Definition well_formed (g : MultiGraph) : bool :=
  distinct (map fst (g_nodes g))
  && ids_distinct (g_edges g)
  && forallb (fun e => has_node g (e_u e) && has_node g (e_v e)) (g_edges g)
  && grouped (g_edges g).

(** [(u, v, k)] is an edge of the graph. *)
Definition is_edge (g : MultiGraph) (i : edge_id) : bool :=
  existsb (names i) (g_edges g).

(** The flag ['is_branch'] of every edge says whether one of its end points
    has degree one. *)
Definition branch_inv (g : MultiGraph) : Prop :=
  forall e, In e (g_edges g) ->
    (is_branch (e_attrs e) = true <->
     degree g (e_u e) = 1%nat \/ degree g (e_v e) = 1%nat).

Definition branch_inv_b (g : MultiGraph) : bool :=
  forallb (fun e => Bool.eqb (is_branch (e_attrs e))
                      ((degree g (e_u e) =? 1)%nat || (degree g (e_v e) =? 1)%nat))
          (g_edges g).

(** The states of the loop of [remove_degree_two_nodes] on [g0]: the state
    before the first turn, and the state after every turn. *)
Inductive rd2n_reach (length_threshold : L) (rbc : bool) (g0 : MultiGraph)
    (initial_node : option node) : rd2n_state -> Prop :=
| rd2n_start l :
    rd2n_init g0 initial_node = Ok l ->
    rd2n_reach length_threshold rbc g0 initial_node (mkState g0 l [] [])
| rd2n_next st n rest st' :
    rd2n_reach length_threshold rbc g0 initial_node st ->
    pop (nodes_to_visit st) = Some (n, rest) ->
    rd2n_body length_threshold rbc
      (mkState (st_graph st) rest (added_branches st) (removed_branches st)) n = Ok st' ->
    rd2n_reach length_threshold rbc g0 initial_node st'.

(** The states of the loop of [remove_branches] on [g0]: the graph and the
    queue before the first turn, and after every turn. *)
Inductive rb_reach (length_threshold : L) (g0 : MultiGraph)
    : MultiGraph -> PriorityQueue -> Prop :=
| rb_start :
    rb_reach length_threshold g0 g0 (new_queue (branch_small_edges g0 length_threshold))
| rb_next g q len i q' g' q'' :
    rb_reach length_threshold g0 g q ->
    pop_task q = Some (len, i, q') ->
    rb_body length_threshold g q' i = Some (Ok (g', q'')) ->
    rb_reach length_threshold g0 g' q''.

(** The states of the same loop when the queue may hand out any of its
    tasks and hold its entries in any order: whatever the order in which
    the edges and the sets of edge identities are gone through, and
    however the queue breaks ties, the states of the loop are among
    these. *)
Inductive rb_reach_any (length_threshold : L) (g0 : MultiGraph)
    : MultiGraph -> PriorityQueue -> Prop :=
| rb_any_start q :
    (forall x, In x q -> In x (branch_small_edges g0 length_threshold)) ->
    rb_reach_any length_threshold g0 g0 q
| rb_any_next g q len i q' g' q'' q3 :
    rb_reach_any length_threshold g0 g q ->
    In (len, i) q ->
    (forall x, In x q' -> In x q) ->
    rb_body length_threshold g q' i = Some (Ok (g', q'')) ->
    (forall x, In x q3 -> In x q'') ->
    rb_reach_any length_threshold g0 g' q3.

(** The two halves of the consistency of the queue with the graph: every
    task is an edge of the graph, and every short branch is a task. *)
Definition queue_sound (g : MultiGraph) (q : PriorityQueue) : bool :=
  forallb (fun e => is_edge g (snd e)) q.

Definition queue_complete (length_threshold : L) (g : MultiGraph)
    (q : PriorityQueue) : bool :=
  forallb
    (fun e =>
       if is_branch (e_attrs e) && len_ltb (length (e_attrs e)) length_threshold
       then existsb (fun t => names (snd t) e) q else true)
    (g_edges g).

End Model.

Arguments EdgeAttrs L : clear implicits.
Arguments Edge L : clear implicits.
Arguments MultiGraph L : clear implicits.
Arguments rd2n_state L : clear implicits.
Arguments PriorityQueue L : clear implicits.

Unset Implicit Arguments.

(** * creation.py: the check of the values of the image *)

(** The skeleton image [img_skel]: its values in row-major order, and its
    shape. *)
Record Image : Type := mkImage {
  img_data : list Z;
  img_shape : list nat
}.

Fixpoint insert_value (x : Z) (l : list Z) : list Z :=
  match l with
  | [] => [x]
  | y :: r => if x <? y then x :: l else if x =? y then l else y :: insert_value x r
  end.

(** Modelled from the spec: [Image.unique], a method of the image class of
    pyvane, which is not part of the sources at hand.  The spec takes a
    skeleton image to be binary, and [create_graph] compares the outcome
    of the method with [(0, 1)]: the method is read as [numpy.unique], the
    distinct values of the image in increasing order. *)
Definition unique (img : Image) : list Z :=
  fold_right insert_value [] (img_data img).

(** [create_graph]: [if tuple(img_skel.unique()) != (0, 1): raise ValueError],
    and then the steps [build_graph] (padding, neighbour counts, interest
    points, tracking of the branches and [to_networkx]), which are a
    function of the image. *)
Definition create_graph {Graph : Type} (build_graph : Image -> result Graph)
    (img_skel : Image) : result Graph :=
  if list_eq_dec Z.eq_dec (unique img_skel) [0; 1]
  then build_graph img_skel
  else Raise ValueError.


(** * creation.py: pixels and their neighbours *)

(** [t[i]] for a tuple or a list [t] and a constant [i >= 0]. *)
Definition item {A : Type} (t : list A) (i : nat) : result A :=
  match nth_error t i with
  | Some x => Ok x
  | None => Raise IndexError
  end.

(** [a and b]: [b] is looked at only when [a] is true. *)
Definition and_then (a b : result bool) : result bool :=
  do x <- a; if x then b else Ok false.

(** [is_inside]. *)
Definition is_inside (pixel_coord : pixel) (img_shape : list Z) : result bool :=
  do is_inside <-
    and_then (do p0 <- item pixel_coord 0; Ok (0 <=? p0))
   (and_then (do p1 <- item pixel_coord 1; Ok (0 <=? p1))
   (and_then (do p0 <- item pixel_coord 0; do s0 <- item img_shape 0; Ok (p0 <? s0))
             (do p1 <- item pixel_coord 1; do s1 <- item img_shape 1; Ok (p1 <? s1))));
  if (List.length img_shape =? 3)%nat then
    and_then (Ok is_inside)
   (and_then (do p2 <- item pixel_coord 2; Ok (0 <=? p2))
             (do p2 <- item pixel_coord 2; do s2 <- item img_shape 2; Ok (p2 <? s2)))
  else Ok is_inside.

(** [iterate_neighbors]: the pixels it yields, in order; with a pixel of
    another number of coordinates the name [neis] is not bound when the
    loop starts. *)
Definition iterate_neighbors (pixel_coords : pixel) : result (list pixel) :=
  match pixel_coords with
  | [p0; p1] =>
      Ok [[p0 - 1; p1 - 1]; [p0 - 1; p1];
          [p0 - 1; p1 + 1]; [p0; p1 - 1];
          [p0; p1 + 1]; [p0 + 1; p1 - 1];
          [p0 + 1; p1]; [p0 + 1; p1 + 1]]
  | [p0; p1; p2] =>
      Ok [[p0 - 1; p1 - 1; p2 - 1]; [p0 - 1; p1 - 1; p2];
          [p0 - 1; p1 - 1; p2 + 1]; [p0 - 1; p1; p2 - 1];
          [p0 - 1; p1; p2]; [p0 - 1; p1; p2 + 1];
          [p0 - 1; p1 + 1; p2 - 1]; [p0 - 1; p1 + 1; p2];
          [p0 - 1; p1 + 1; p2 + 1];
          [p0; p1 - 1; p2 - 1]; [p0; p1 - 1; p2];
          [p0; p1 - 1; p2 + 1]; [p0; p1; p2 - 1];
          [p0; p1; p2 + 1];
          [p0; p1 + 1; p2 - 1]; [p0; p1 + 1; p2];
          [p0; p1 + 1; p2 + 1];
          [p0 + 1; p1 - 1; p2 - 1]; [p0 + 1; p1 - 1; p2];
          [p0 + 1; p1 - 1; p2 + 1]; [p0 + 1; p1; p2 - 1];
          [p0 + 1; p1; p2]; [p0 + 1; p1; p2 + 1];
          [p0 + 1; p1 + 1; p2 - 1]; [p0 + 1; p1 + 1; p2];
          [p0 + 1; p1 + 1; p2 + 1]]
  | _ => Raise UnboundLocalError
  end.

(** The pixel [q] is another pixel in the block of side three around
    [p]: it has the coordinates of [p], each moved by at most one. *)
Definition beside (p q : pixel) : Prop :=
  Forall2 (fun a b => Z.abs (b - a) <= 1) p q /\ q <> p.

(** Every coordinate is at least [0] and below the size of its axis. *)
Definition within (p : pixel) (shape : list Z) : Prop :=
  Forall2 (fun a s => 0 <= a < s) p shape.


(** * creation.py: the tracking of a branch *)

(** The type of an interest point: [create_graph] stores the code, 0 for
    ['bifurcation'] and 1 for ['termination']. *)
Inductive point_type : Type := Bifurcation | Termination.

(** [InterestPoint]: the attributes of an object of the class. *)
Record InterestPoint : Type := mkPoint {
  ip_pixels : list pixel;
  ip_center : pixel;
  ip_type : point_type;
  ip_ndim : nat;
  ip_branches : list pixel
}.

(** The array [img_num_neighbors], as the function from an index tuple to
    the value there; [IndexError] for a tuple that is outside the array. *)
Definition ndarray : Type := pixel -> result Z.

(** [l[i]] for a list [l] and an integer [i]: a negative index counts from
    the end of the list. *)
Definition py_index {A : Type} (l : list A) (i : Z) : result A :=
  if 0 <=? i then item l (Z.to_nat i)
  else if - Z.of_nat (List.length l) <=? i
       then item l (Z.to_nat (Z.of_nat (List.length l) + i))
       else Raise IndexError.

Definition pixel_eqb (p q : pixel) : bool :=
  if list_eq_dec Z.eq_dec p q then true else false.

(** The first loop of [track_branch]: the last neighbour whose value in
    the array is 2. *)
Fixpoint second_point_of (img_num_neighbors : ndarray) (neis : list pixel)
    (second_point : option pixel) : result (option pixel) :=
  match neis with
  | [] => Ok second_point
  | neighbor :: r =>
      do v <- img_num_neighbors neighbor;
      second_point_of img_num_neighbors r
        (if v =? 2 then Some neighbor else second_point)
  end.

(** The [for] loop inside the [while] loop: the first neighbour whose
    value is 2 and that is not the previous point. *)
Fixpoint next_point_of (img_num_neighbors : ndarray) (neis : list pixel)
    (prev_point : pixel) : result (option pixel) :=
  match neis with
  | [] => Ok None
  | neighbor :: r =>
      do v <- img_num_neighbors neighbor;
      if (v =? 2) && negb (pixel_eqb neighbor prev_point) then Ok (Some neighbor)
      else next_point_of img_num_neighbors r prev_point
  end.

(** The [while] loop of [track_branch]; [None] when the fuel runs out. *)
Fixpoint track_loop (fuel : nat) (img_num_neighbors : ndarray) (path : list pixel)
    (prev_point curr_point : pixel) : option (result (list pixel)) :=
  match fuel with
  | O => None
  | S fuel' =>
      match iterate_neighbors curr_point with
      | Raise e => Some (Raise e)
      | Ok neis =>
          match next_point_of img_num_neighbors neis prev_point with
          | Raise e => Some (Raise e)
          | Ok None => Some (Ok path)
          | Ok (Some neighbor) =>
              track_loop fuel' img_num_neighbors (path ++ [neighbor]) curr_point neighbor
          end
      end
  end.

(** [track_branch], on the fuel given. *)
Definition track_branch (fuel : nat) (interest_point : InterestPoint) (branch_index : Z)
    (img_num_neighbors : ndarray) : option (result (list pixel)) :=
  if Z.of_nat (List.length (ip_branches interest_point)) <=? branch_index then Some (Ok [])
  else
    match py_index (ip_branches interest_point) branch_index with
    | Raise e => Some (Raise e)
    | Ok first_point =>
        match iterate_neighbors first_point with
        | Raise e => Some (Raise e)
        | Ok neis =>
            match second_point_of img_num_neighbors neis None with
            | Raise e => Some (Raise e)
            | Ok None => Some (Ok [first_point])
            | Ok (Some second_point) =>
                track_loop fuel img_num_neighbors [first_point; second_point]
                  first_point second_point
            end
        end
    end.

(** A path in which every pixel after the first has the value 2 in the
    array and lies beside the pixel before it, and in which no pixel is
    the pixel two steps before it. *)
Fixpoint walk (img_num_neighbors : ndarray) (path : list pixel) : Prop :=
  match path with
  | a :: ((b :: r) as t) =>
      beside a b /\ img_num_neighbors b = Ok 2 /\
      match r with c :: _ => c <> a | [] => True end /\
      walk img_num_neighbors t
  | _ => True
  end.

(** The path cannot be continued: no neighbour of its last pixel has the
    value 2, the pixel before the last one apart. *)
Definition at_end (img_num_neighbors : ndarray) (path : list pixel) : Prop :=
  match rev path with
  | [] => True
  | last :: r =>
      forall neis q, iterate_neighbors last = Ok neis -> In q neis ->
        img_num_neighbors q = Ok 2 -> match r with prev :: _ => q = prev | [] => False end
  end.


(** * creation.py: the points without an edge *)

(** An edge as [track_branches] returns it: the indices of the two
    interest points, and the path. *)
Definition raw_edge : Type := (nat * nat * list pixel)%type.

Definition in_set (s : list nat) (x : nat) : bool := existsb (Nat.eqb x) s.

(** The dictionary [idx_remap] after the first loop of
    [remove_isolated_points], as the list of its items: an index that is
    not in [nodes] is one of [nodes_to_remove]. *)
Fixpoint idx_remap_from (indices nodes : list nat) (new_idx : Z) : list (nat * Z) :=
  match indices with
  | [] => []
  | idx :: r =>
      if in_set nodes idx then (idx, new_idx) :: idx_remap_from r nodes (new_idx + 1)
      else (idx, -1) :: idx_remap_from r nodes new_idx
  end.

(** [idx_remap[k]]. *)
Definition remap_get (d : list (nat * Z)) (k : nat) : result Z :=
  match find (fun p => Nat.eqb (fst p) k) d with
  | Some p => Ok (snd p)
  | None => Raise KeyError
  end.

(** [for node in nodes: new_ips.append(ips[node])]. *)
Fixpoint points_of (ips : list InterestPoint) (nodes : list nat)
    : result (list InterestPoint) :=
  match nodes with
  | [] => Ok []
  | node :: r =>
      do ip <- item ips node;
      do rest <- points_of ips r;
      Ok (ip :: rest)
  end.

(** The loop that builds [new_edges]. *)
Fixpoint remap_edges (idx_remap : list (nat * Z)) (edges : list raw_edge)
    : result (list (Z * Z * list pixel)) :=
  match edges with
  | [] => Ok []
  | (ip1_idx, ip2_idx, path) :: r =>
      do a <- remap_get idx_remap ip1_idx;
      do b <- remap_get idx_remap ip2_idx;
      do rest <- remap_edges idx_remap r;
      Ok ((a, b, path) :: rest)
  end.

(** [remove_isolated_points]; [nodes] is the set of the end points of the
    edges as a list, in the order in which Python goes through the set. *)
Definition remove_isolated_points (nodes : list nat) (ips : list InterestPoint)
    (edges : list raw_edge)
    : result (list InterestPoint * list (Z * Z * list pixel)) :=
  let ips_indices := seq 0 (List.length ips) in
  let idx_remap := idx_remap_from ips_indices nodes 0 in
  do new_ips <- points_of ips nodes;
  do new_edges <- remap_edges idx_remap edges;
  Ok (new_ips, new_edges).

(** [nodes] lists, each once, the end points of the edges. *)
Definition end_points (nodes : list nat) (edges : list raw_edge) : Prop :=
  NoDup nodes /\
  forall x, In x nodes <->
            exists e, In e edges /\ (x = fst (fst e) \/ x = snd (fst e)).

(** The edge [e'] joins in [new_ips] the points that [e] joins in [ips],
    along the same path. *)
Definition same_points (ips new_ips : list InterestPoint) (e : raw_edge)
    (e' : Z * Z * list pixel) : Prop :=
  0 <= fst (fst e') /\ 0 <= snd (fst e') /\
  nth_error new_ips (Z.to_nat (fst (fst e'))) = nth_error ips (fst (fst e)) /\
  nth_error new_ips (Z.to_nat (snd (fst e'))) = nth_error ips (snd (fst e)) /\
  snd e' = snd e.


(** * creation.py: the branches of an interest point *)

Module Point.

(** [branches.add(neighbor)] on the set [branches], kept as the list of
    its members in the order of their first insertion. *)
Definition set_add (branches : list pixel) (neighbor : pixel) : list pixel :=
  if existsb (pixel_eqb neighbor) branches then branches else branches ++ [neighbor].

(** The inner loop of [add_branches], over the neighbours of one pixel. *)
Fixpoint scan_neighbors (img_num_neighbors : ndarray) (shape : list Z)
    (neis : list pixel) (branches : list pixel) : result (list pixel) :=
  match neis with
  | [] => Ok branches
  | neighbor :: r =>
      do inside <- is_inside neighbor shape;
      if inside then
        do v <- img_num_neighbors neighbor;
        scan_neighbors img_num_neighbors shape r
          (if v =? 2 then set_add branches neighbor else branches)
      else scan_neighbors img_num_neighbors shape r branches
  end.

(** The outer loop, over the pixels of the point. *)
Fixpoint scan_pixels (img_num_neighbors : ndarray) (shape : list Z)
    (pixels : list pixel) (branches : list pixel) : result (list pixel) :=
  match pixels with
  | [] => Ok branches
  | pixel :: r =>
      do neis <- iterate_neighbors pixel;
      do branches <- scan_neighbors img_num_neighbors shape neis branches;
      scan_pixels img_num_neighbors shape r branches
  end.

(** [InterestPoint.add_branches]: the point after the call and what the
    call returns.  [shape] is [img_num_neighbors.shape], and the number of
    its axes is [img_num_neighbors.ndim]; [set_order] gives the order in
    which Python goes through a set with the members given. *)
Definition add_branches (set_order : list pixel -> list pixel) (self : InterestPoint)
    (img_num_neighbors : ndarray) (shape : list Z)
    : result (InterestPoint * list pixel) :=
  if negb (ip_ndim self =? List.length shape)%nat then Raise ValueError
  else if (0 <? List.length (ip_branches self))%nat then Ok (self, ip_branches self)
  else
    do branches <- scan_pixels img_num_neighbors shape (ip_pixels self) [];
    Ok (mkPoint (ip_pixels self) (ip_center self) (ip_type self) (ip_ndim self)
          (set_order branches),
        set_order branches).

End Point.

(** [set_order] lists the members of a set, each once. *)
Definition lists_the_set (set_order : list pixel -> list pixel) : Prop :=
  forall l, NoDup l ->
    NoDup (set_order l) /\ forall x, In x (set_order l) <-> In x l.


(** * creation.py: the map of the branches and the tracking of all branches *)

Module BranchMap.

(** The dictionary [branch_map], as the list of its items in the order in
    which the keys were inserted; a value is a set of indices, kept as the
    list of its members in the order of their first insertion. *)
Definition t : Type := list (pixel * list nat).

(** [branch_map[branch].add(ip_idx)] on the set of a key. *)
Definition idx_add (s : list nat) (ip_idx : nat) : list nat :=
  if in_set s ip_idx then s else s ++ [ip_idx].

(** The body of the inner loop of [__init__]. *)
Fixpoint add (branch_map : t) (branch : pixel) (ip_idx : nat) : t :=
  match branch_map with
  | [] => [(branch, [ip_idx])]
  | (b, s) :: r =>
      if pixel_eqb b branch then (b, idx_add s ip_idx) :: r
      else (b, s) :: add r branch ip_idx
  end.

(** The outer loop of [__init__], over the points from the index [ip_idx]
    on. *)
Fixpoint init_from (ips : list InterestPoint) (ip_idx : nat) (branch_map : t) : t :=
  match ips with
  | [] => branch_map
  | ip :: r =>
      init_from r (S ip_idx)
        (fold_left (fun m branch => add m branch ip_idx) (ip_branches ip) branch_map)
  end.

(** [BranchMap(ips)]. *)
Definition init (ips : list InterestPoint) : t := init_from ips 0 [].

(** [get_ip_ids]: [list(self.branch_map[branch])]; [set_order] gives the
    order in which Python goes through a set with the members given. *)
Definition get_ip_ids (set_order : list nat -> list nat) (self : t) (branch : pixel)
    : result (list nat) :=
  match find (fun p => pixel_eqb (fst p) branch) self with
  | Some p => Ok (set_order (snd p))
  | None => Raise KeyError
  end.

End BranchMap.

(** [set_order] lists the members of a set of indices, each once. *)
Definition lists_the_ids (set_order : list nat -> list nat) : Prop :=
  forall l, NoDup l ->
    NoDup (set_order l) /\ forall x, In x (set_order l) <-> In x l.

(** The loop of [find_path_ip], over the points from the index [idx] on;
    [None] when the loop ends without a [return]. *)
Fixpoint find_ip (last_path_point : pixel) (ips : list InterestPoint) (idx : nat)
    : option nat :=
  match ips with
  | [] => None
  | ip :: r =>
      if existsb (pixel_eqb last_path_point) (ip_branches ip) then Some idx
      else find_ip last_path_point r (S idx)
  end.

(** [find_path_ip]. *)
Definition find_path_ip (path : list pixel) (ips : list InterestPoint)
    : result (option nat) :=
  do last_path_point <- py_index path (-1);
  Ok (find_ip last_path_point ips 0).

(** The choice of [ip2_idx] in [track_branches], among the indices
    [get_ip_ids] gave. *)
Definition other_point (ip2_idx : list nat) (ip1_idx : nat) : result nat :=
  if (List.length ip2_idx =? 2)%nat then
    do first <- item ip2_idx 0;
    if (first =? ip1_idx)%nat then item ip2_idx 1 else item ip2_idx 0
  else item ip2_idx 0.

(** The inner loop of [track_branches], over the branches of the point
    [ip] from the index [branch_idx] on; the set [visited_branches] is
    the list of its members.  [None] when [track_branch] runs out of
    fuel. *)
Fixpoint track_point (fuel : nat) (set_order : list nat -> list nat)
    (branch_map : BranchMap.t) (img_num_neighbors : ndarray) (ip1_idx : nat)
    (ip : InterestPoint) (branches : list pixel) (branch_idx : nat)
    (visited_branches : list pixel) (edges : list raw_edge)
    : option (result (list pixel * list raw_edge)) :=
  match branches with
  | [] => Some (Ok (visited_branches, edges))
  | branch :: r =>
      if existsb (pixel_eqb branch) visited_branches then
        track_point fuel set_order branch_map img_num_neighbors ip1_idx ip r
          (S branch_idx) visited_branches edges
      else
        match track_branch fuel ip (Z.of_nat branch_idx) img_num_neighbors with
        | None => None
        | Some (Raise x) => Some (Raise x)
        | Some (Ok path) =>
            match (do last <- py_index path (-1);
                   do ids <- BranchMap.get_ip_ids set_order branch_map last;
                   do ip2_idx <- other_point ids ip1_idx;
                   Ok (last, ip2_idx)) with
            | Raise x => Some (Raise x)
            | Ok (last, ip2_idx) =>
                track_point fuel set_order branch_map img_num_neighbors ip1_idx ip r
                  (S branch_idx)
                  (Point.set_add (Point.set_add visited_branches branch) last)
                  (edges ++ [(ip1_idx, ip2_idx, path)])
            end
        end
  end.

(** The outer loop of [track_branches], over the points from the index
    [ip1_idx] on. *)
Fixpoint track_points (fuel : nat) (set_order : list nat -> list nat)
    (branch_map : BranchMap.t) (img_num_neighbors : ndarray)
    (ips : list InterestPoint) (ip1_idx : nat)
    (visited_branches : list pixel) (edges : list raw_edge)
    : option (result (list raw_edge)) :=
  match ips with
  | [] => Some (Ok edges)
  | ip :: r =>
      match track_point fuel set_order branch_map img_num_neighbors ip1_idx ip
              (ip_branches ip) 0 visited_branches edges with
      | None => None
      | Some (Raise x) => Some (Raise x)
      | Some (Ok (visited_branches, edges)) =>
          track_points fuel set_order branch_map img_num_neighbors r (S ip1_idx)
            visited_branches edges
      end
  end.

(** [track_branches]; every call of [track_branch] has the fuel given. *)
Definition track_branches (fuel : nat) (set_order : list nat -> list nat)
    (ips : list InterestPoint) (img_num_neighbors : ndarray)
    : option (result (list raw_edge)) :=
  track_points fuel set_order (BranchMap.init ips) img_num_neighbors ips 0 [] [].

(** The first and the last pixel of a path. *)
Definition first_of (path : list pixel) : option pixel := hd_error path.

Definition last_of (path : list pixel) : option pixel := hd_error (rev path).

(** The pixel is a branch of the point of the index given. *)
Definition branch_of (ips : list InterestPoint) (idx : nat) (p : pixel) : Prop :=
  exists ip, nth_error ips idx = Some ip /\ In p (ip_branches ip).


(** What the dictionary [m] holds when it maps a branch to the indices
    that [R] relates to it. *)
Definition maps_ids (m : BranchMap.t) (R : pixel -> nat -> Prop) : Prop :=
  forall b,
    match find (fun p => pixel_eqb (fst p) b) m with
    | None => forall x, ~ R b x
    | Some p => NoDup (snd p) /\ snd p <> [] /\ forall x, In x (snd p) <-> R b x
    end.


(** The edge starts at a branch of the point [a] and ends at a branch of
    the point [b]; when its last pixel is a branch of [a] and of one other
    point and of no third one, [b] is the other point. *)
Definition joins_points (ips : list InterestPoint) (e : raw_edge) : Prop :=
  let '(a, b, path) := e in
  exists first last,
    first_of path = Some first /\ last_of path = Some last /\
    branch_of ips a first /\ branch_of ips b last /\
    forall c, c <> a -> (forall j, branch_of ips j last <-> j = a \/ j = c) -> b = c.

(** No edge of the list starts at the first or at the last pixel of an
    edge before it. *)
Definition fresh_starts (edges : list raw_edge) : Prop :=
  forall l1 e l2, edges = l1 ++ e :: l2 ->
    forall e', In e' l1 ->
      first_of (snd e) <> first_of (snd e') /\ first_of (snd e) <> last_of (snd e').

(** The pixel is the first or the last pixel of an edge of the list. *)
Definition is_end_of (edges : list raw_edge) (p : pixel) : Prop :=
  exists e, In e edges /\ (first_of (snd e) = Some p \/ last_of (snd e) = Some p).

(** The invariant of the loops of [track_branches]. *)
Definition tracked (ips : list InterestPoint) (visited_branches : list pixel)
    (edges : list raw_edge) : Prop :=
  (forall e, In e edges -> joins_points ips e) /\
  (forall p, In p visited_branches <-> is_end_of edges p) /\
  fresh_starts edges.


(** * creation.py: the codes and the names of the point types *)

(** A value given as [point_type]: an integer or a string. *)
Inductive py_value : Type :=
| PyInt (z : Z)
| PyStr (s : String.string).

(** What a call of [map_point_type] does: it returns a value or raises.
    [TypeError] is what Python raises when a dictionary is called. *)
Inductive map_outcome : Type :=
| Returns (v : py_value)
| RaisesValueError
| RaisesTypeError.

(** The class attribute [point_code_to_name], as the list of its items. *)
Definition point_code_to_name : list (Z * String.string) :=
  [(0, "bifurcation"%string); (1, "termination"%string)].

(** [{v:k for k, v in point_code_to_name.items()}]. *)
Definition point_name_to_code : list (String.string * Z) :=
  map (fun kv => (snd kv, fst kv)) point_code_to_name.

(** [InterestPoint.map_point_type]: with [code_to_name] false the last
    line is [cls.point_name_to_code(point_type)], a call of the
    dictionary. *)
Definition map_point_type (value : py_value) (code_to_name : bool) : map_outcome :=
  if code_to_name then
    match value with
    | PyInt c =>
        match find (fun kv => fst kv =? c) point_code_to_name with
        | Some kv => Returns (PyStr (snd kv))
        | None => RaisesValueError
        end
    | PyStr _ => RaisesValueError
    end
  else
    match value with
    | PyStr s =>
        if existsb (fun kv => String.eqb (fst kv) s) point_name_to_code
        then RaisesTypeError else RaisesValueError
    | PyInt _ => RaisesValueError
    end.

(** * Notions of the statements *)

Section Notions.

Context {L : Type} {LO : Lengths L}.

Implicit Types (g : MultiGraph L) (e : Edge L) (n u v : node) (i : edge_id).

(** The graph after [remove_edges_from] and [add_edge] in a turn of the
    loop of [remove_degree_two_nodes]. *)
Definition merged g n nei1 k1 nei2 k2 (a : EdgeAttrs L) : MultiGraph L :=
  fst (add_edge (remove_edges_from g [(n, nei1, k1); (n, nei2, k2)]) nei1 nei2 a).

(** The edge is named by one of the identities. *)
Definition named_by (l : list edge_id) (e : Edge L) : bool :=
  existsb (fun i => names i e) l.

(** The edges with an end point at [n]. *)
Definition touches (n : node) (e : Edge L) : bool :=
  (e_u e =? n) || (e_v e =? n).

Definition incident (g : MultiGraph L) (n : node) : list (Edge L) :=
  filter (touches n) (g_edges g).

(** The two paths as [make_new_path] turns them. *)
Definition oriented_first (n nei1 : node) (a : EdgeAttrs L) : list pixel :=
  if n <? nei1 then rev (path a) else path a.

Definition oriented_second (n nei2 : node) (a : EdgeAttrs L) : list pixel :=
  if nei2 <? n then rev (path a) else path a.

(** Two edges that differ in the flag ['is_branch'] at most. *)
Definition same_but_flag (e e' : Edge L) : Prop :=
  e_u e = e_u e' /\ e_v e = e_v e' /\ e_key e = e_key e' /\
  path (e_attrs e) = path (e_attrs e') /\ length (e_attrs e) = length (e_attrs e').

(** The end points of every edge are nodes. *)
Definition nodes_ok (g : MultiGraph L) : bool :=
  forallb (fun e => has_node g (e_u e) && has_node g (e_v e)) (g_edges g).

(** The flag [add_branch_info] gives an edge, and the edge with that flag. *)
Definition flag_of (g : MultiGraph L) (e : Edge L) : bool :=
  (degree g (e_u e) =? 1)%nat || (degree g (e_v e) =? 1)%nat.

Definition reflag (g : MultiGraph L) (e : Edge L) : Edge L :=
  mkEdge (e_u e) (e_v e) (e_key e)
    (mkAttrs (path (e_attrs e)) (length (e_attrs e)) (flag_of g e)).

(** The length of the edge is below the threshold. *)
Definition short (thr : L) (e : Edge L) : bool := len_ltb (length (e_attrs e)) thr.

(** The key [remove_small_mul_all] spares among the edges of a pair: the
    key of the first edge of the largest length. *)
Definition key_of_longest (g : MultiGraph L) (u v : node) : Z :=
  match argmax (map (fun e => length (e_attrs e)) (keydict g u v)) with
  | Ok ind_larg_edge => nth ind_larg_edge (keys (keydict g u v)) 0
  | Raise _ => 0
  end.

(** What the docstring of [remove_small_mul_all] says is removed: the
    short self-loops, and the short edges of a pair with several edges
    other than the longest of the pair. *)
Definition removed_by_small_mul_all (thr : L) (g : MultiGraph L) (e : Edge L) : bool :=
  if e_u e =? e_v e then short thr e
  else (1 <? List.length (keydict g (e_u e) (e_v e)))%nat
       && short thr e
       && negb (e_key e =? key_of_longest g (e_u e) (e_v e)).

(** The two lists of edges [remove_small_mul_all] hands to
    [remove_edges_from]. *)
Definition short_selfloops (g : MultiGraph L) (thr : L) : list edge_id :=
  flat_map (fun il => if len_ltb (snd il) thr then [fst il] else []) (selfloop_edges g).

Definition short_parallels (g : MultiGraph L) (thr : L) : list edge_id :=
  flat_map (small_parallel_edges g thr) (multiedge_iter g).

(** The other end point of an edge that touches [n] once. *)
Definition other_end (n : node) (e : Edge L) : node :=
  if e_u e =? n then e_v e else e_u e.

(** One of the two updates of the work list in [handle_new_multiedge]. *)
Definition visit_update (g : MultiGraph L) (l : list node) (x : node) : list node :=
  if (degree g x =? 2)%nat then l ++ [x]
  else if (degree g x =? 1)%nat then remove_if_in_list l x
  else l.

(** An edge identity that may be in the queue of [remove_branches]: one of
    its nodes has no edge left (the entry is stale, and popping it raises),
    or it names an edge with an end point of degree one. *)
Definition entry_ok (g : MultiGraph L) (i : edge_id) : Prop :=
  degree g (fst (fst i)) = 0%nat \/ degree g (snd (fst i)) = 0%nat \/
  exists e, In e (g_edges g) /\ names i e = true /\ flag_of g e = true.

(** What a step of the simplification does to the entries. *)
Definition entries_kept (g g' : MultiGraph L) : Prop :=
  (forall x, degree g x = 0%nat -> degree g' x = 0%nat) /\
  (forall e, In e (g_edges g) -> flag_of g e = true ->
     degree g' (e_u e) = 0%nat \/ degree g' (e_v e) = 0%nat \/
     exists e', In e' (g_edges g') /\ id_of e' = id_of e /\ flag_of g' e' = true).

(** The invariant of the loop of [remove_degree_two_nodes]. *)
Definition rd2n_inv (st : rd2n_state L) : Prop :=
  ids_distinct (g_edges (st_graph st)) = true /\
  branch_inv (st_graph st) /\
  NoDup (nodes_to_visit st) /\
  (forall m, In m (nodes_to_visit st) -> degree (st_graph st) m = 2%nat) /\
  (forall i, In i (added_branches st) -> entry_ok (st_graph st) i).

(** What [remove_degree_two_nodes] asks of its arguments: in the
    whole-graph mode the nodes of the graph are distinct; in the
    single-start mode the start node has degree two (the source says
    "Assumes node has degree two"). *)
Definition start_ok (g : MultiGraph L) (initial_node : option node) : Prop :=
  match initial_node with
  | None => NoDup (map fst (g_nodes g))
  | Some n => degree g n = 2%nat
  end.

(** The invariant of the loop of [remove_branches]. *)
Definition rb_inv (g : MultiGraph L) (q : PriorityQueue L) : Prop :=
  ids_distinct (g_edges g) = true /\ branch_inv g /\
  forall x, In x q -> entry_ok g (snd x).


(** [count_multiple_edges]: the dictionary [edge_count], as the list of its
    items in the order in which the keys were inserted. *)
Fixpoint count_edge (d : list (node * node * nat)) (p : node * node)
    : list (node * node * nat) :=
  match d with
  | [] => [(p, 0%nat)]
  | (q, c) :: r =>
      if (fst q =? fst p) && (snd q =? snd p) then (q, S c) :: r
      else (q, c) :: count_edge r p
  end.

Definition count_multiple_edges (g : MultiGraph L) : list (node * node * nat) :=
  fold_left (fun d (i : edge_id) => let '(node1, node2, _) := i in count_edge d (node1, node2))
    (graph_edges g) [].

(** [edge_count[(u, v)]], when the key is there. *)
Fixpoint count_of (d : list (node * node * nat)) (p : node * node) : option nat :=
  match d with
  | [] => None
  | (q, c) :: r =>
      if (fst q =? fst p) && (snd q =? snd p) then Some c else count_of r p
  end.


(** The triple [i] of [graph.edges] is an edge of the pair [p], in the
    orientation of [p]. *)
Definition reports (p : node * node) (i : edge_id) : bool :=
  let '(a, b, _) := i in (a =? fst p) && (b =? snd p).


(** The work list of [remove_degree_two_nodes] and the nodes of degree two:
    every node of the list has degree two, and every node of degree two
    and of type ['simple'] is in the list. *)
Definition worklist_inv (st : rd2n_state L) : Prop :=
  ids_distinct (g_edges (st_graph st)) = true /\
  NoDup (nodes_to_visit st) /\
  (forall m, In m (nodes_to_visit st) -> degree (st_graph st) m = 2%nat) /\
  (forall x, degree (st_graph st) x = 2%nat ->
             degree_two_node_type (st_graph st) x = Ok Simple ->
             In x (nodes_to_visit st)).


(** ** [add_length] *)







(** ** [_remove_branches_old] *)

(** [list(filter(lambda edge: edge[3], graph.edges(data='is_branch',
    keys=True)))]: the edges [graph.edges] reports whose flag is set. *)
Definition branch_edges (g : MultiGraph L) : list edge_id :=
  filter
    (fun i : edge_id =>
       let '(node1, node2, key) := i in
       match get_edge g node1 node2 key with
       | Ok a => is_branch a
       | Raise _ => false
       end)
    (graph_edges g).

(** [[graph[edge[0]][edge[1]][edge[2]]['length'] for edge in branch_edges]]. *)
Fixpoint edge_lengths (g : MultiGraph L) (l : list edge_id) : result (list L) :=
  match l with
  | [] => Ok []
  | (node1, node2, key) :: r =>
      do a <- get_edge g node1 node2 key;
      do ls <- edge_lengths g r;
      Ok (length a :: ls)
  end.

(** The turn of the loop of [_remove_branches_old] from
    [graph.remove_edge(node1, node2, key)] on; [None] when the inner loop
    runs out of fuel. *)
Definition rbo_remove (length_threshold : L) (g : MultiGraph L)
    (smallest_edge : edge_id) : option (result (MultiGraph L)) :=
  let '(node1, node2, key) := smallest_edge in
  match remove_edge g (node1, node2, key) with
  | Raise x => Some (Raise x)
  | Ok g =>
      let target_node := if (degree g node1 =? 0)%nat then node2 else node1 in
      let target_node_degree := degree g target_node in
      if (target_node_degree =? 2)%nat then
        match remove_degree_two_nodes g length_threshold (Some target_node) false with
        | None => None
        | Some (Raise x) => Some (Raise x)
        | Some (Ok st) => Some (Ok (st_graph st))
        end
      else if (target_node_degree =? 1)%nat then
        Some (do target_neighbor <- get_single_neighbor g target_node;
              do target_edge_key <- get_single_edge_key g target_node target_neighbor;
              do _ <- get_edge g target_node target_neighbor target_edge_key;
              Ok (set_is_branch g (target_node, target_neighbor, target_edge_key) true))
      else Some (Ok g)
  end.

(** One turn of the [while] loop of [_remove_branches_old]: the graph and
    the value of [branch_removed] after it. *)
Definition rbo_body (length_threshold : L) (g : MultiGraph L)
    : option (result (MultiGraph L * bool)) :=
  match branch_edges g with
  | [] => Some (Ok (g, false))
  | edge0 :: _ =>
      match edge_lengths g (branch_edges g) with
      | Raise x => Some (Raise x)
      | Ok lengths =>
          match argmin lengths, lengths with
          | Raise x, _ => Some (Raise x)
          | Ok _, [] => Some (Raise IndexError)
          | Ok ind_smal_edge, length0 :: _ =>
              let length_smal_edge := nth ind_smal_edge lengths length0 in
              if len_ltb length_smal_edge length_threshold then
                let smallest_edge := nth ind_smal_edge (branch_edges g) edge0 in
                match rbo_remove length_threshold g smallest_edge with
                | None => None
                | Some (Raise x) => Some (Raise x)
                | Some (Ok g) => Some (Ok (g, true))
                end
              else Some (Ok (g, false))
          end
      end
  end.

(** The [while] loop of [_remove_branches_old]; [None] when the fuel runs
    out. *)
Fixpoint rbo_loop (fuel : nat) (length_threshold : L) (g : MultiGraph L)
    : option (result (MultiGraph L)) :=
  match fuel with
  | O => None
  | S fuel' =>
      match rbo_body length_threshold g with
      | None => None
      | Some (Raise x) => Some (Raise x)
      | Some (Ok (g', true)) => rbo_loop fuel' length_threshold g'
      | Some (Ok (g', false)) => Some (Ok g')
      end
  end.

(** [_remove_branches_old]: every turn but the last removes an edge. *)
Definition _remove_branches_old (g : MultiGraph L) (length_threshold : L)
    : option (result (MultiGraph L)) :=
  rbo_loop (S (number_of_edges g)) length_threshold g.

(** The edge has an end point of degree one. *)
Definition ends_in_termination (g : MultiGraph L) (e : Edge L) : Prop :=
  degree g (e_u e) = 1%nat \/ degree g (e_v e) = 1%nat.

End Notions.

(** * Concrete inputs *)

(** The examples take rational lengths.  The arc length of the examples
    adds, over the steps of a path, the coordinate differences scaled by
    the pixel size: it is the Euclidean arc length of the source whenever
    every step runs along one axis, as the steps of the examples do. *)
Definition Qltb (x y : Q) : bool := negb (Qle_bool y x).

Fixpoint step_length (p p' : pixel) (pix_size : list Q) : Q :=
  match p, p', pix_size with
  | a :: r, a' :: r', s :: t => (inject_Z (Z.abs (a' - a)) * s + step_length r r' t)%Q
  | _, _, _ => 0%Q
  end.

Fixpoint Q_path_length (path : list pixel) (pix_size : list Q) : Q :=
  match path with
  | p :: (p' :: _) as r => (step_length p p' pix_size + Q_path_length r pix_size)%Q
  | _ => 0%Q
  end.

Definition Q_lengths : Lengths Q := {|
  len_ltb := Qltb;
  len_add := Qplus;
  len_twice := fun x => (2 * x)%Q;
  path_length := Q_path_length
|}.

(** Node [n] has its centre at column [10 * n] of row 0; an edge between
    [u] and [v] has a path of one pixel, midway between the two centres. *)
Definition nd (n : node) : node * pixel := (n, [0; 10 * n]).

Definition edge (u v k : Z) (len : Q) (br : bool) : Edge Q :=
  mkEdge u v k (mkAttrs [[0; 5 * (u + v)]] len br).

(** A cycle 0 - 1 - 3 - 2 - 0 of long edges with a short chord 1 - 2. *)
Definition cycle_with_chord : MultiGraph Q :=
  mkGraph [nd 0; nd 1; nd 2; nd 3]
    [edge 0 1 0 50 false; edge 0 2 0 50 false; edge 1 2 0 1 false;
     edge 1 3 0 50 false; edge 2 3 0 50 false] [1%Q; 1%Q].

(** The same with a short branch 0 - 4. *)
Definition cycle_with_branch : MultiGraph Q :=
  mkGraph [nd 0; nd 1; nd 2; nd 3; nd 4]
    [edge 0 1 0 50 false; edge 0 2 0 50 false; edge 1 2 0 1 false;
     edge 1 3 0 50 false; edge 2 3 0 50 false; edge 0 4 0 1 true] [1%Q; 1%Q].

(** Paths 0 - 1 - 2. *)
Definition short_path : MultiGraph Q :=
  mkGraph [nd 0; nd 1; nd 2] [edge 0 1 0 2 true; edge 1 2 0 1 true] [1%Q; 1%Q].

Definition short_long_path : MultiGraph Q :=
  mkGraph [nd 0; nd 1; nd 2] [edge 0 1 0 1 true; edge 1 2 0 100 true] [1%Q; 1%Q].

Definition path_5_7 : MultiGraph Q :=
  mkGraph [nd 0; nd 1; nd 2] [edge 0 1 0 5 true; edge 1 2 0 7 true] [1%Q; 1%Q].

(** The path 0 - 1 - 2 after the elimination of node 1. *)
Definition path_5_7_merged : rd2n_state Q :=
  mkState
    (mkGraph [nd 0; nd 1; nd 2]
       [mkEdge 0 2 0 (mkAttrs [[0; 5]; [0; 10]; [0; 15]] 22%Q true)] [1%Q; 1%Q])
    [] [] [].

(** Two nodes joined by two edges, of lengths 1.0 and 1.5. *)
Definition two_parallel : MultiGraph Q :=
  mkGraph [nd 0; nd 1] [edge 0 1 0 1 false; edge 0 1 1 (3 # 2) false] [1%Q; 1%Q].

(** A node with one self-loop, next to an edge 1 - 2. *)
Definition loop_and_edge : MultiGraph Q :=
  mkGraph [nd 0; nd 1; nd 2] [edge 0 0 0 30 false; edge 1 2 0 30 true] [1%Q; 1%Q].

(** Two images without a skeleton pixel, and the graph without nodes. *)
Definition blank_2x2 : Image := mkImage [0; 0; 0; 0] [2%nat; 2%nat].

Definition blank_1x3 : Image := mkImage [0; 0; 0] [1%nat; 3%nat].

Definition empty_graph : MultiGraph Q := mkGraph [] [] [1%Q; 1%Q].


(** A line of five skeleton pixels in row 1 of an array of 3 by 7: the
    number of the neighbours of every pixel, and the two terminations at
    the ends of the line, each with its branch. *)
Definition line_counts : ndarray :=
  fun p =>
    match p with
    | [r; c] =>
        if (0 <=? r) && (r <? 3) && (0 <=? c) && (c <? 7) then
          if (r =? 1) && (2 <=? c) && (c <=? 4) then Ok 2
          else if (r =? 1) && ((c =? 1) || (c =? 5)) then Ok 1
          else Ok 0
        else Raise IndexError
    | _ => Raise IndexError
    end.

Definition line_points : list InterestPoint :=
  [mkPoint [[1; 1]] [1; 1] Termination 2 [[1; 2]];
   mkPoint [[1; 5]] [1; 5] Termination 2 [[1; 4]]].

(** Two points that share the branch (1, 2). *)
Definition two_points : list InterestPoint :=
  [mkPoint [[1; 1]] [1; 1] Bifurcation 2 [[1; 2]; [2; 1]];
   mkPoint [[1; 3]] [1; 3] Bifurcation 2 [[1; 2]]].

(** * Proofs *)

Section Proofs.

Context {L : Type} {LO : Lengths L}.

Implicit Types (g : MultiGraph L) (e : Edge L) (n u v : node) (i : edge_id).

(** ** The error monad *)

Lemma bind_ok (A B : Type) (r : result A) (k : A -> result B) (b : B) :
  bind r k = Ok b -> exists a, r = Ok a /\ k a = Ok b.
Proof.
  destruct r as [a|x]; simpl; intros H; [exists a; auto | discriminate].
Qed.

Ltac inv_bind H :=
  let a := fresh "a" in
  let Ha := fresh "Ha" in
  apply bind_ok in H; destruct H as (a & Ha & H).

(** ** Lists *)

Lemma length_filter_le (A : Type) (p : A -> bool) (l : list A) :
  (List.length (filter p l) <= List.length l)%nat.
Proof.
  induction l as [|x l IH]; simpl; [lia|]. destruct (p x); simpl; lia.
Qed.

Lemma length_filter_split (A : Type) (p : A -> bool) (l : list A) :
  (List.length (filter p l) + List.length (filter (fun x => negb (p x)) l)
   = List.length l)%nat.
Proof.
  induction l as [|x l IH]; simpl; [lia|]. destruct (p x); simpl; lia.
Qed.

Lemma two_members_length (A : Type) (l : list A) (x y : A) :
  In x l -> In y l -> x <> y -> (2 <= List.length l)%nat.
Proof.
  intros Hx Hy Hxy. destruct l as [|a [|b l]]; simpl in *; try lia.
  destruct Hx as [->|[]], Hy as [->|[]]. contradiction.
Qed.

Lemma filter_filter_le (A : Type) (p q : A -> bool) (l : list A) :
  (List.length (filter p (filter q l)) <= List.length (filter p l))%nat.
Proof.
  induction l as [|x l IH]; simpl; [lia|].
  destruct (q x); simpl; destruct (p x); simpl; lia.
Qed.

Lemma existsb_eqb_In (x : Z) (l : list Z) : existsb (Z.eqb x) l = true <-> In x l.
Proof.
  rewrite existsb_exists. split.
  - intros (y & Hy & E). apply Z.eqb_eq in E. subst. exact Hy.
  - intros H. exists x. split; [exact H | apply Z.eqb_refl].
Qed.

Lemma dedup_In (l seen : list node) (x : node) :
  In x (dedup l seen) <-> In x l /\ ~ In x seen.
Proof.
  revert seen. induction l as [|y l IH]; intros seen; simpl.
  - tauto.
  - destruct (existsb (Z.eqb y) seen) eqn:E.
    + apply existsb_eqb_In in E. rewrite IH. split.
      * intros [H1 H2]. auto.
      * intros [[->|H1] H2]; [contradiction | auto].
    + assert (Hy : ~ In y seen).
      { intros H. apply existsb_eqb_In in H. congruence. }
      simpl. rewrite IH. simpl. split.
      * intros [->|[H1 H2]]; [auto | split; [auto | tauto]].
      * intros [[->|H1] H2]; [auto|].
        destruct (Z.eq_dec y x) as [->|Hne]; [auto | right; split; [auto | tauto]].
Qed.

Lemma dedup_NoDup (l seen : list node) : NoDup (dedup l seen).
Proof.
  revert seen. induction l as [|y l IH]; intros seen; simpl.
  - constructor.
  - destruct (existsb (Z.eqb y) seen); [apply IH|].
    constructor; [|apply IH]. rewrite dedup_In. simpl. tauto.
Qed.

(** ** Edges, degrees and neighbours *)

Lemma joins_sym u v e : joins u v e = joins v u e.
Proof. unfold joins. apply orb_comm. Qed.

Lemma joins_spec u v e :
  joins u v e = true <->
  (e_u e = u /\ e_v e = v) \/ (e_u e = v /\ e_v e = u).
Proof.
  unfold joins. rewrite orb_true_iff, !andb_true_iff, !Z.eqb_eq. tauto.
Qed.

Lemma names_spec u v k e :
  names (u, v, k) e = true <-> joins u v e = true /\ e_key e = k.
Proof. simpl. rewrite andb_true_iff, Z.eqb_eq. tauto. Qed.

Lemma names_id_of e : names (id_of e) e = true.
Proof.
  unfold id_of. apply names_spec. split; [|reflexivity].
  apply joins_spec. auto.
Qed.

Lemma joins_same_pair u a b e :
  joins u a e = true -> joins u b e = true -> a = b.
Proof. rewrite !joins_spec. intros [[? ?]|[? ?]] [[? ?]|[? ?]]; congruence. Qed.

Lemma nbr_of_joins n x e : In x (nbr_of n e) <-> joins n x e = true.
Proof.
  unfold nbr_of. rewrite joins_spec.
  destruct (Z.eqb_spec (e_u e) n) as [E1|E1]; simpl.
  - split; [intros [<-|[]]; auto|]. intros [[_ H]|[H1 H2]]; [auto | left; congruence].
  - destruct (Z.eqb_spec (e_v e) n) as [E2|E2]; simpl.
    + split; [intros [<-|[]]; auto|]. intros [[H _]|[H _]]; [contradiction | auto].
    + split; [tauto|]. intros [[H _]|[_ H]]; contradiction.
Qed.

Lemma neighbors_spec g n x :
  In x (neighbors g n) <-> exists e, In e (g_edges g) /\ joins n x e = true.
Proof.
  unfold neighbors. rewrite dedup_In, in_flat_map. split.
  - intros [(e & He & Hx) _]. exists e. split; [auto | apply nbr_of_joins; auto].
  - intros (e & He & Hx). split; [|tauto]. exists e.
    split; [auto | apply nbr_of_joins; auto].
Qed.

Lemma neighbors_NoDup g n : NoDup (neighbors g n).
Proof. apply dedup_NoDup. Qed.

Lemma keydict_In g u v e :
  In e (keydict g u v) <-> In e (g_edges g) /\ joins u v e = true.
Proof. unfold keydict. apply filter_In. Qed.

Lemma degree_with_edges g (es : list (Edge L)) n :
  degree (with_edges g es) n = list_sum (map (ends_at n) es).
Proof. reflexivity. Qed.

Lemma number_of_edges_with_edges g (es : list (Edge L)) :
  number_of_edges (with_edges g es) = List.length es.
Proof. reflexivity. Qed.

(** [remove_edges_from] leaves the edges that no element of the list
    names. *)
Lemma remove_edge_edges g i g' :
  remove_edge g i = Ok g' ->
  g' = with_edges g (filter (fun e => negb (names i e)) (g_edges g)).
Proof.
  unfold remove_edge. destruct (existsb (names i) (g_edges g)); [|discriminate].
  intros H. injection H as <-. reflexivity.
Qed.

Lemma filter_none (A : Type) (p : A -> bool) (l : list A) :
  existsb p l = false -> filter (fun x => negb (p x)) l = l.
Proof.
  induction l as [|x l IH]; simpl; [auto|].
  destruct (p x); simpl; [discriminate|]. intros H. f_equal. auto.
Qed.

Lemma remove_edges_from_edges g (l : list edge_id) :
  remove_edges_from g l
  = with_edges g (filter (fun e => negb (existsb (fun i => names i e) l)) (g_edges g)).
Proof.
  revert g. induction l as [|i l IH]; intros g; simpl.
  - destruct g as [ns es ps]. unfold remove_edges_from, with_edges. simpl.
    f_equal. induction es as [|e es IHes]; simpl; [auto | f_equal; auto].
  - unfold remove_edges_from in *. simpl. rewrite IH.
    assert (E : (match remove_edge g i with Ok g' => g' | Raise _ => g end)
                = with_edges g (filter (fun e => negb (names i e)) (g_edges g))).
    { unfold remove_edge. destruct (existsb (names i) (g_edges g)) eqn:Ex; [reflexivity|].
      rewrite filter_none by exact Ex. destruct g; reflexivity. }
    rewrite E. unfold with_edges. simpl. f_equal.
    generalize (g_edges g). intros es.
    induction es as [|e es IHes]; simpl; [auto|].
    destruct (names i e); simpl; [auto|].
    destruct (existsb (fun i0 => names i0 e) l); simpl; [auto | f_equal; auto].
Qed.

(** ** The two neighbours of a node *)

Lemma tnd_simple g n nei1 nei2 k1 k2 :
  two_neighbors_data g n (Some Simple) = Ok (nei1, nei2, k1, k2) ->
  exists a b,
    neighbors g n = [a; b] /\
    ((nei1 = a /\ nei2 = b) \/ (nei1 = b /\ nei2 = a)) /\
    nei1 < nei2 /\
    get_single_edge_key g n nei1 = Ok k1 /\
    get_single_edge_key g n nei2 = Ok k2.
Proof.
  unfold two_neighbors_data. simpl. intros H.
  destruct (has_node g n); simpl in H; [|discriminate].
  pose proof (neighbors_NoDup g n) as ND.
  destruct (neighbors g n) as [|a [|b [|c r]]]; simpl in H; try discriminate.
  destruct (get_single_edge_key g n a) as [ka|] eqn:Ea; simpl in H; [|discriminate].
  destruct (get_single_edge_key g n b) as [kb|] eqn:Eb; simpl in H; [|discriminate].
  assert (Hab : a <> b).
  { inversion ND as [|? ? Hn _]; subst. intros ->. apply Hn. left. reflexivity. }
  exists a, b. split; [reflexivity|].
  destruct (Z.ltb_spec b a) as [Hlt|Hge]; injection H as <- <- <- <-.
  - repeat split; auto.
  - repeat split; auto. lia.
Qed.

Lemma tnd_multiple g n nei1 nei2 k1 k2 :
  two_neighbors_data g n (Some Multiple) = Ok (nei1, nei2, k1, k2) ->
  nei1 = nei2 /\
  (exists r, neighbors g n = nei1 :: r) /\
  keys (keydict g n nei1) = [k1; k2].
Proof.
  unfold two_neighbors_data. simpl. intros H.
  destruct (has_node g n); simpl in H; [|discriminate].
  destruct (neighbors g n) as [|a r]; simpl in H; [discriminate|].
  destruct (keys (keydict g n a)) as [|ka [|kb [|kc ks]]] eqn:Ek;
    simpl in H; try discriminate.
  rewrite Z.ltb_irrefl in H. injection H as <- <- <- <-.
  split; [reflexivity|]. split; [exists r; reflexivity | exact Ek].
Qed.

Lemma tnd_type g n nt r :
  two_neighbors_data g n (Some nt) = Ok r -> nt = Simple \/ nt = Multiple.
Proof.
  unfold two_neighbors_data. simpl.
  destruct (has_node g n); simpl; [|discriminate].
  destruct nt; simpl; auto; discriminate.
Qed.

Lemma get_single_edge_key_In g u v k :
  get_single_edge_key g u v = Ok k ->
  exists e, In e (g_edges g) /\ names (u, v, k) e = true /\
            exists r, keydict g u v = e :: r.
Proof.
  unfold get_single_edge_key.
  destruct (keydict g u v) as [|e r] eqn:E; [discriminate|].
  intros H. injection H as <-.
  assert (Hin : In e (keydict g u v)) by (rewrite E; left; reflexivity).
  apply keydict_In in Hin. destruct Hin as [H1 H2].
  exists e. split; [auto|]. split; [apply names_spec; auto | exists r; reflexivity].
Qed.

(** ** The body of the loop of [remove_degree_two_nodes], stage by stage *)

Lemma rd2n_body_inv (thr : L) (rbc : bool) (st st' : rd2n_state L) n :
  rd2n_body thr rbc st n = Ok st' ->
  exists nt nei1 nei2 k1 k2 new_path new_len to_visit has_nei is_br added removed
         g3 tv3 b3,
    degree_two_node_type (st_graph st) n = Ok nt /\
    two_neighbors_data (st_graph st) n (Some nt) = Ok (nei1, nei2, k1, k2) /\
    make_new_path (st_graph st) n nei1 k1 nei2 k2 = Ok (new_path, new_len) /\
    match nt with
    | Multiple =>
        if (degree (st_graph st) nei1 =? 2)%nat
        then do l <- list_remove (nodes_to_visit st) nei1; Ok (l, false, false)
        else Ok (nodes_to_visit st, false, false)
    | _ =>
        if has_edge (st_graph st) nei1 nei2 then Ok (nodes_to_visit st, true, false)
        else if (degree (st_graph st) nei1 =? 1)%nat
                || (degree (st_graph st) nei2 =? 1)%nat
             then Ok (nodes_to_visit st, false, true)
             else Ok (nodes_to_visit st, false, false)
    end = Ok (to_visit, has_nei, is_br) /\
    (if is_br && rbc then
       do b_to_rem <- branches_to_remove (st_graph st) n nei1 k1 nei2 k2 thr;
       Ok (cancel_branches (added_branches st) (removed_branches st)
             (fold_left id_add b_to_rem []))
     else Ok (added_branches st, removed_branches st)) = Ok (added, removed) /\
    (if has_nei
     then handle_new_multiedge
            (merged (st_graph st) n nei1 k1 nei2 k2 (mkAttrs new_path new_len is_br))
            nei1 nei2 thr to_visit
     else Ok (merged (st_graph st) n nei1 k1 nei2 k2 (mkAttrs new_path new_len is_br),
              to_visit, is_br)) = Ok (g3, tv3, b3) /\
    (if b3 then
       exists key,
         get_single_edge_key g3 nei1 nei2 = Ok key /\
         st' = mkState (set_is_branch g3 (nei1, nei2, key) true) tv3
                 (if rbc && len_ltb new_len thr
                  then id_add added (nei1, nei2, key) else added)
                 removed
     else st' = mkState g3 tv3 added removed).
Proof.
  unfold rd2n_body. intros H.
  inv_bind H. rename a into nt.
  inv_bind H.
  inv_bind H. destruct a0 as [[[nei1 nei2] k1] k2].
  inv_bind H. destruct a0 as [new_path new_len].
  inv_bind H. destruct a0 as [[to_visit has_nei] is_br].
  inv_bind H. destruct a0 as [added removed].
  inv_bind H. destruct a0 as [[g3 tv3] b3].
  exists nt, nei1, nei2, k1, k2, new_path, new_len, to_visit, has_nei, is_br,
    added, removed, g3, tv3, b3.
  repeat (split; [assumption|]).
  destruct b3.
  - inv_bind H. exists a0. split; [assumption|]. injection H as <-. reflexivity.
  - injection H as <-. reflexivity.
Qed.

(** ** The place of a new edge *)

Lemma insert_edge_In u v (new x : Edge L) (l : list (Edge L)) :
  In x (insert_edge u v new l) <-> x = new \/ In x l.
Proof.
  induction l as [|e r IH]; simpl.
  - intuition.
  - destruct (joins u v e && negb (existsb (joins u v) r)); simpl.
    + intuition.
    + rewrite IH. intuition.
Qed.

Lemma insert_edge_length u v (new : Edge L) (l : list (Edge L)) :
  List.length (insert_edge u v new l) = S (List.length l).
Proof.
  induction l as [|e r IH]; simpl; [reflexivity|].
  destruct (joins u v e && negb (existsb (joins u v) r)); simpl; [reflexivity|].
  rewrite IH. reflexivity.
Qed.

Lemma insert_edge_filter_out u v (new : Edge L) (p : Edge L -> bool) (l : list (Edge L)) :
  p new = false -> filter p (insert_edge u v new l) = filter p l.
Proof.
  intros Hp. induction l as [|e r IH]; simpl; [rewrite Hp; reflexivity|].
  destruct (joins u v e && negb (existsb (joins u v) r)); simpl.
  - rewrite Hp. reflexivity.
  - rewrite IH. reflexivity.
Qed.

Lemma filter_none_existsb (A : Type) (p : A -> bool) (l : list A) :
  existsb p l = false -> filter p l = [].
Proof.
  induction l as [|x l IH]; simpl; [reflexivity|].
  destruct (p x); simpl; [discriminate | exact IH].
Qed.

Lemma insert_edge_keydict u v (new : Edge L) (l : list (Edge L)) :
  joins u v new = true ->
  filter (joins u v) (insert_edge u v new l) = filter (joins u v) l ++ [new].
Proof.
  intros Hj. induction l as [|e r IH]; simpl; [rewrite Hj; reflexivity|].
  destruct (joins u v e) eqn:J; simpl.
  - destruct (existsb (joins u v) r) eqn:X; simpl.
    + rewrite J, IH. reflexivity.
    + rewrite J, Hj. simpl. rewrite (filter_none_existsb _ _ _ X). reflexivity.
  - rewrite J, IH. reflexivity.
Qed.

Lemma insert_edge_sum u v (new : Edge L) (f : Edge L -> nat) (l : list (Edge L)) :
  list_sum (map f (insert_edge u v new l)) = (list_sum (map f l) + f new)%nat.
Proof.
  induction l as [|e r IH]; simpl; [lia|].
  destruct (joins u v e && negb (existsb (joins u v) r)); simpl; [lia|].
  rewrite IH. lia.
Qed.

Lemma insert_edge_existsb u v (new : Edge L) (p : Edge L -> bool) (l : list (Edge L)) :
  existsb p (insert_edge u v new l) = p new || existsb p l.
Proof.
  induction l as [|e r IH]; simpl; [reflexivity|].
  destruct (joins u v e && negb (existsb (joins u v) r)); simpl.
  - destruct (p e), (p new); reflexivity.
  - rewrite IH. destruct (p e), (p new); reflexivity.
Qed.

(** ** Every turn of the loop takes an edge away *)

Lemma number_of_edges_merged g n nei1 k1 nei2 k2 (a : EdgeAttrs L) :
  (number_of_edges (merged g n nei1 k1 nei2 k2 a)
   + List.length (filter (named_by [(n, nei1, k1); (n, nei2, k2)]) (g_edges g))
   = S (number_of_edges g))%nat.
Proof.
  unfold merged. rewrite remove_edges_from_edges.
  unfold add_edge, number_of_edges. simpl. rewrite insert_edge_length.
  pose proof (length_filter_split _ (named_by [(n, nei1, k1); (n, nei2, k2)]) (g_edges g)) as H.
  unfold named_by in *. simpl in *. lia.
Qed.

Lemma tnd_two_edges g n nt nei1 nei2 k1 k2 :
  two_neighbors_data g n (Some nt) = Ok (nei1, nei2, k1, k2) ->
  (2 <= List.length (filter (named_by [(n, nei1, k1); (n, nei2, k2)]) (g_edges g)))%nat.
Proof.
  intros H. destruct (tnd_type _ _ _ _ H) as [-> | ->].
  - apply tnd_simple in H. destruct H as (a & b & _ & _ & Hlt & H1 & H2).
    apply get_single_edge_key_In in H1. destruct H1 as (e1 & He1 & Hn1 & _).
    apply get_single_edge_key_In in H2. destruct H2 as (e2 & He2 & Hn2 & _).
    apply two_members_length with (x := e1) (y := e2).
    + apply filter_In. split; [auto|]. apply existsb_exists.
      exists (n, nei1, k1). split; [simpl; auto | exact Hn1].
    + apply filter_In. split; [auto|]. apply existsb_exists.
      exists (n, nei2, k2). split; [simpl; auto | exact Hn2].
    + intros ->. apply names_spec in Hn1, Hn2.
      destruct Hn1 as [J1 _], Hn2 as [J2 _].
      pose proof (joins_same_pair _ _ _ _ J1 J2). lia.
  - apply tnd_multiple in H. destruct H as (<- & _ & Hk).
    eapply Nat.le_trans; [|apply filter_filter_le with (q := joins n nei1)].
    fold (keydict g n nei1).
    assert (Hall : forall e, In e (keydict g n nei1) -> joins n nei1 e = true).
    { intros e He. apply keydict_In in He. tauto. }
    destruct (keydict g n nei1) as [|e1 [|e2 [|e3 r]]]; simpl in Hk; try discriminate.
    injection Hk as <- <-.
    assert (J1 : joins n nei1 e1 = true) by (apply Hall; simpl; auto).
    assert (J2 : joins n nei1 e2 = true) by (apply Hall; simpl; auto).
    unfold named_by. simpl. rewrite J1, J2, !Z.eqb_refl. simpl.
    rewrite orb_true_r. simpl. lia.
Qed.

Lemma remove_small_mul_edges g u v (thr : L) g' b :
  remove_small_mul g u v thr = Ok (g', b) ->
  (number_of_edges g' <= number_of_edges g)%nat.
Proof.
  unfold remove_small_mul. destruct (keydict g u v) as [|e0 kd]; [discriminate|].
  intros H. inv_bind H.
  destruct (len_ltb _ thr).
  - inv_bind H. injection H as <- <-. apply remove_edge_edges in Ha0. subst a0.
    unfold number_of_edges. simpl. apply length_filter_le.
  - injection H as <- <-. lia.
Qed.

Lemma handle_new_multiedge_edges g u v (thr : L) (l : list node) g' l' b :
  handle_new_multiedge g u v thr l = Ok (g', l', b) ->
  (number_of_edges g' <= number_of_edges g)%nat.
Proof.
  unfold handle_new_multiedge. intros H. inv_bind H. destruct a as [g1 w].
  apply remove_small_mul_edges in Ha.
  destruct w.
  - destruct (degree g1 u =? 2)%nat, (degree g1 u =? 1)%nat,
      (degree g1 v =? 2)%nat, (degree g1 v =? 1)%nat;
      injection H as <- <- <-; exact Ha.
  - injection H as <- <- <-. exact Ha.
Qed.

Lemma number_of_edges_set_is_branch g i b :
  number_of_edges (set_is_branch g i b) = number_of_edges g.
Proof. unfold number_of_edges, set_is_branch. simpl. apply length_map. Qed.

Lemma rd2n_body_decreases (thr : L) (rbc : bool) (st st' : rd2n_state L) n :
  rd2n_body thr rbc st n = Ok st' ->
  (number_of_edges (st_graph st') < number_of_edges (st_graph st))%nat.
Proof.
  intros H. apply rd2n_body_inv in H.
  destruct H as (nt & nei1 & nei2 & k1 & k2 & new_path & new_len & to_visit & has_nei
                 & is_br & added & removed & g3 & tv3 & b3
                 & _ & Htnd & _ & _ & _ & Hh & Hfin).
  pose proof (tnd_two_edges _ _ _ _ _ _ _ Htnd) as H2.
  pose proof (number_of_edges_merged (st_graph st) n nei1 k1 nei2 k2
                (mkAttrs new_path new_len is_br)) as Hm.
  assert (H3 : (number_of_edges g3
                <= number_of_edges (merged (st_graph st) n nei1 k1 nei2 k2
                                      (mkAttrs new_path new_len is_br)))%nat).
  { destruct has_nei.
    - eapply handle_new_multiedge_edges; eauto.
    - injection Hh as <- _ _. lia. }
  destruct b3.
  - destruct Hfin as (key & _ & ->). simpl.
    rewrite number_of_edges_set_is_branch. lia.
  - subst st'. simpl. lia.
Qed.

(** The loop needs no more turns than the graph has edges. *)
Lemma rd2n_loop_terminates (fuel : nat) (thr : L) (rbc : bool) (st : rd2n_state L) :
  (number_of_edges (st_graph st) < fuel)%nat ->
  exists r, rd2n_loop fuel thr rbc st = Some r.
Proof.
  revert st. induction fuel as [|fuel IH]; intros st Hlt; [lia|].
  simpl. destruct (pop (nodes_to_visit st)) as [[n rest]|]; [|eauto].
  destruct (rd2n_body thr rbc _ n) as [st'|x] eqn:Hb; [|eauto].
  apply IH. apply rd2n_body_decreases in Hb. simpl in Hb. lia.
Qed.

Lemma rd2n_loop_more_fuel (fuel fuel' : nat) (thr : L) (rbc : bool)
    (st : rd2n_state L) r :
  rd2n_loop fuel thr rbc st = Some r -> (fuel <= fuel')%nat ->
  rd2n_loop fuel' thr rbc st = Some r.
Proof.
  revert fuel' st. induction fuel as [|fuel IH]; intros fuel' st H Hle.
  - destruct fuel'; simpl in *;
      destruct (pop (nodes_to_visit st)) as [[n rest]|]; congruence.
  - destruct fuel' as [|fuel']; [lia|]. simpl in *.
    destruct (pop (nodes_to_visit st)) as [[n rest]|]; [|exact H].
    destruct (rd2n_body thr rbc _ n) as [st'|x]; [|exact H].
    apply IH; [exact H | lia].
Qed.

(** ** The edges at a node *)

Lemma touches_spec n e : touches n e = true <-> e_u e = n \/ e_v e = n.
Proof. unfold touches. rewrite orb_true_iff, !Z.eqb_eq. tauto. Qed.

Lemma touches_false n e : touches n e = false <-> e_u e <> n /\ e_v e <> n.
Proof. unfold touches. rewrite orb_false_iff, !Z.eqb_neq. tauto. Qed.

Lemma joins_touches u v e : joins u v e = true -> touches u e = true /\ touches v e = true.
Proof. rewrite joins_spec, !touches_spec. intuition. Qed.

Lemma joins_not_touches u v n e :
  joins u v e = true -> u <> n -> v <> n -> touches n e = false.
Proof. rewrite joins_spec, touches_false. intros [[? ?]|[? ?]] ? ?; split; congruence. Qed.

Lemma nbr_of_not_touches n e : touches n e = false -> nbr_of n e = [].
Proof.
  unfold touches, nbr_of. rewrite orb_false_iff. intros [-> ->]. reflexivity.
Qed.

Lemma ends_at_not_touches n e : touches n e = false -> ends_at n e = 0%nat.
Proof.
  unfold touches, ends_at. rewrite orb_false_iff. intros [-> ->]. reflexivity.
Qed.

Lemma ends_at_touches n e : touches n e = true -> (1 <= ends_at n e)%nat.
Proof.
  unfold touches, ends_at.
  destruct (e_u e =? n), (e_v e =? n); simpl; intros; try lia; discriminate.
Qed.

Lemma flat_map_nbr_incident (es : list (Edge L)) n :
  flat_map (nbr_of n) es = flat_map (nbr_of n) (filter (touches n) es).
Proof.
  induction es as [|e es IH]; simpl; [reflexivity|].
  destruct (touches n e) eqn:T; simpl.
  - f_equal. exact IH.
  - rewrite nbr_of_not_touches by exact T. exact IH.
Qed.

Lemma neighbors_incident g g' n :
  incident g' n = incident g n -> neighbors g' n = neighbors g n.
Proof.
  unfold neighbors, incident. intros H.
  rewrite (flat_map_nbr_incident (g_edges g')), (flat_map_nbr_incident (g_edges g)), H.
  reflexivity.
Qed.

Lemma list_sum_ends_incident (es : list (Edge L)) n :
  list_sum (map (ends_at n) es) = list_sum (map (ends_at n) (filter (touches n) es)).
Proof.
  induction es as [|e es IH]; simpl; [reflexivity|].
  destruct (touches n e) eqn:T; simpl.
  - f_equal. exact IH.
  - rewrite ends_at_not_touches by exact T. exact IH.
Qed.

Lemma degree_incident g n : degree g n = list_sum (map (ends_at n) (incident g n)).
Proof. unfold degree, incident. apply list_sum_ends_incident. Qed.

Lemma degree_same_incident g g' n :
  incident g' n = incident g n -> degree g' n = degree g n.
Proof. intros H. rewrite !degree_incident, H. reflexivity. Qed.

Lemma keydict_incident g u v : keydict g u v = filter (joins u v) (incident g u).
Proof.
  unfold keydict, incident. induction (g_edges g) as [|e es IH]; simpl; [reflexivity|].
  destruct (joins u v e) eqn:J.
  - destruct (joins_touches _ _ _ J) as [-> _]. simpl. rewrite J. f_equal. exact IH.
  - destruct (touches u e); simpl; [rewrite J|]; exact IH.
Qed.

Lemma keydict_same_incident g g' u v :
  incident g' u = incident g u -> keydict g' u v = keydict g u v.
Proof. intros H. rewrite !keydict_incident, H. reflexivity. Qed.

(** The effect of the graph operations on the edges at a node. *)

Lemma incident_with_edges g (es : list (Edge L)) n :
  incident (with_edges g es) n = filter (touches n) es.
Proof. reflexivity. Qed.

Lemma filter_comm (A : Type) (p q : A -> bool) (l : list A) :
  filter p (filter q l) = filter q (filter p l).
Proof.
  induction l as [|x l IH]; simpl; [reflexivity|].
  destruct (q x) eqn:Q, (p x) eqn:P; simpl; rewrite ?Q, ?P, IH; reflexivity.
Qed.

Lemma filter_all (A : Type) (p : A -> bool) (l : list A) :
  (forall x, In x l -> p x = true) -> filter p l = l.
Proof.
  induction l as [|x l IH]; simpl; intros H; [reflexivity|].
  rewrite (H x) by auto. f_equal. apply IH. auto.
Qed.

Lemma incident_filter g (p : Edge L -> bool) n :
  (forall e, In e (g_edges g) -> touches n e = true -> p e = true) ->
  incident (with_edges g (filter p (g_edges g))) n = incident g n.
Proof.
  intros H. rewrite incident_with_edges. unfold incident.
  rewrite filter_comm. apply filter_all. intros e He.
  apply filter_In in He. destruct He. auto.
Qed.

Lemma incident_remove_edge g u v k g' n :
  remove_edge g (u, v, k) = Ok g' -> u <> n -> v <> n ->
  incident g' n = incident g n.
Proof.
  intros H Hu Hv. apply remove_edge_edges in H. subst g'.
  apply incident_filter. intros e _ T.
  destruct (names (u, v, k) e) eqn:N; [|reflexivity].
  apply names_spec in N. destruct N as [J _].
  rewrite (joins_not_touches _ _ _ _ J Hu Hv) in T. discriminate.
Qed.

Lemma incident_remove_edges_from g (l : list edge_id) n :
  (forall u v k, In (u, v, k) l -> u <> n /\ v <> n) ->
  incident (remove_edges_from g l) n = incident g n.
Proof.
  intros H. rewrite remove_edges_from_edges. apply incident_filter.
  intros e _ T. destruct (existsb (fun i => names i e) l) eqn:X; [|reflexivity].
  apply existsb_exists in X. destruct X as ([[u v] k] & Hin & N).
  apply names_spec in N. destruct N as [J _].
  destruct (H _ _ _ Hin) as [Hu Hv].
  rewrite (joins_not_touches _ _ _ _ J Hu Hv) in T. discriminate.
Qed.

Lemma incident_add_edge g u v (a : EdgeAttrs L) n :
  u <> n -> v <> n -> incident (fst (add_edge g u v a)) n = incident g n.
Proof.
  intros Hu Hv. unfold add_edge, incident. simpl.
  apply insert_edge_filter_out. apply touches_false. simpl. auto.
Qed.

Lemma incident_set_is_branch g u v k b n :
  u <> n -> v <> n -> incident (set_is_branch g (u, v, k) b) n = incident g n.
Proof.
  intros Hu Hv. unfold set_is_branch, incident. simpl.
  induction (g_edges g) as [|e es IH]; simpl; [reflexivity|].
  destruct (joins u v e && (e_key e =? k)) eqn:N.
  - apply andb_true_iff in N. destruct N as [J _].
    pose proof (joins_not_touches _ _ _ _ J Hu Hv) as T.
    unfold touches in *. simpl. rewrite T. exact IH.
  - destruct (touches n e); [f_equal|]; exact IH.
Qed.

Lemma incident_remove_small_mul g u v (thr : L) g' b n :
  remove_small_mul g u v thr = Ok (g', b) -> u <> n -> v <> n ->
  incident g' n = incident g n.
Proof.
  unfold remove_small_mul. destruct (keydict g u v) as [|e0 kd]; [discriminate|].
  intros H Hu Hv. inv_bind H. destruct (len_ltb _ thr).
  - inv_bind H. injection H as <- <-. eapply incident_remove_edge; eauto.
  - injection H as <- <-. reflexivity.
Qed.

Lemma incident_handle_new_multiedge g u v (thr : L) (l : list node) g' l' b n :
  handle_new_multiedge g u v thr l = Ok (g', l', b) -> u <> n -> v <> n ->
  incident g' n = incident g n.
Proof.
  unfold handle_new_multiedge. intros H Hu Hv. inv_bind H. destruct a as [g1 w].
  assert (E : g' = g1).
  { destruct w; [|congruence].
    destruct (degree g1 u =? 2)%nat, (degree g1 u =? 1)%nat,
      (degree g1 v =? 2)%nat, (degree g1 v =? 1)%nat; congruence. }
  subst g'. eapply incident_remove_small_mul; eauto.
Qed.

Lemma incident_merged g m nei1 k1 nei2 k2 (a : EdgeAttrs L) n :
  m <> n -> nei1 <> n -> nei2 <> n ->
  incident (merged g m nei1 k1 nei2 k2 a) n = incident g n.
Proof.
  intros Hm H1 H2. unfold merged. rewrite incident_add_edge by assumption.
  apply incident_remove_edges_from. simpl.
  intros u v k [E|[E|[]]]; injection E as <- <- <-; auto.
Qed.

(** ** The nodes of the graph stay as they are *)

Lemma g_nodes_remove_edge g i g' : remove_edge g i = Ok g' -> g_nodes g' = g_nodes g.
Proof. intros H. apply remove_edge_edges in H. subst g'. reflexivity. Qed.

Lemma g_nodes_remove_edges_from g (l : list edge_id) :
  g_nodes (remove_edges_from g l) = g_nodes g.
Proof. rewrite remove_edges_from_edges. reflexivity. Qed.

Lemma g_nodes_merged g n nei1 k1 nei2 k2 (a : EdgeAttrs L) :
  g_nodes (merged g n nei1 k1 nei2 k2 a) = g_nodes g.
Proof.
  unfold merged, add_edge. cbn [fst with_edges g_nodes].
  apply g_nodes_remove_edges_from.
Qed.

Lemma g_nodes_remove_small_mul g u v (thr : L) g' b :
  remove_small_mul g u v thr = Ok (g', b) -> g_nodes g' = g_nodes g.
Proof.
  unfold remove_small_mul. destruct (keydict g u v) as [|e0 kd]; [discriminate|].
  intros H. inv_bind H. destruct (len_ltb _ thr).
  - inv_bind H. injection H as <- <-. eapply g_nodes_remove_edge; eauto.
  - injection H as <- <-. reflexivity.
Qed.

Lemma handle_new_multiedge_graph g u v (thr : L) (l : list node) g' l' b :
  handle_new_multiedge g u v thr l = Ok (g', l', b) ->
  exists w, remove_small_mul g u v (len_twice thr) = Ok (g', w).
Proof.
  unfold handle_new_multiedge. intros H. inv_bind H. destruct a as [g1 w].
  exists w. rewrite Ha. f_equal. f_equal.
  destruct w; [|congruence].
  destruct (degree g1 u =? 2)%nat, (degree g1 u =? 1)%nat,
    (degree g1 v =? 2)%nat, (degree g1 v =? 1)%nat; congruence.
Qed.

Lemma g_nodes_handle_new_multiedge g u v (thr : L) (l : list node) g' l' b :
  handle_new_multiedge g u v thr l = Ok (g', l', b) -> g_nodes g' = g_nodes g.
Proof.
  intros H. apply handle_new_multiedge_graph in H. destruct H as (w & H).
  eapply g_nodes_remove_small_mul; eauto.
Qed.

Lemma g_nodes_rd2n_body (thr : L) (rbc : bool) (st st' : rd2n_state L) n :
  rd2n_body thr rbc st n = Ok st' -> g_nodes (st_graph st') = g_nodes (st_graph st).
Proof.
  intros H. apply rd2n_body_inv in H.
  destruct H as (nt & nei1 & nei2 & k1 & k2 & new_path & new_len & to_visit & has_nei
                 & is_br & added & removed & g3 & tv3 & b3
                 & _ & _ & _ & _ & _ & Hh & Hfin).
  assert (H3 : g_nodes g3 = g_nodes (st_graph st)).
  { destruct has_nei.
    - apply g_nodes_handle_new_multiedge in Hh. rewrite Hh. apply g_nodes_merged.
    - injection Hh as <- _ _. apply g_nodes_merged. }
  destruct b3.
  - destruct Hfin as (key & _ & ->). exact H3.
  - subst st'. exact H3.
Qed.

Lemma has_node_same_nodes g g' n : g_nodes g' = g_nodes g -> has_node g' n = has_node g n.
Proof. unfold has_node. intros ->. reflexivity. Qed.

Lemma center_of_has_node g n : has_node g n = true -> exists c, center_of g n = Ok c.
Proof.
  unfold has_node, center_of. intros H.
  destruct (find (fun p => fst p =? n) (g_nodes g)) as [p|] eqn:F; [eauto|].
  apply existsb_exists in H. destruct H as (p & Hp & E).
  pose proof (find_none _ _ F p Hp) as H. simpl in H. congruence.
Qed.

(** ** Work lists *)

Lemma pop_spec (l : list node) n rest : pop l = Some (n, rest) <-> l = rest ++ [n].
Proof.
  unfold pop. split.
  - destruct (rev l) as [|x r] eqn:E; [discriminate|].
    intros H. injection H as <- <-.
    rewrite <- (rev_involutive l), E. reflexivity.
  - intros ->. rewrite rev_app_distr. simpl. rewrite rev_involutive. reflexivity.
Qed.

Lemma pop_none (l : list node) : pop l = None <-> l = [].
Proof.
  unfold pop. split.
  - destruct (rev l) as [|x r] eqn:E; [|discriminate]. intros _.
    rewrite <- (rev_involutive l), E. reflexivity.
  - intros ->. reflexivity.
Qed.

Lemma list_remove_In (l l' : list node) x y :
  list_remove l x = Ok l' -> In y l' -> In y l.
Proof.
  revert l'. induction l as [|z l IH]; intros l'; simpl; [discriminate|].
  destruct (z =? x).
  - intros H. injection H as <-. auto.
  - destruct (list_remove l x) as [r|]; [|discriminate].
    intros H. injection H as <-. simpl. intros [->|Hy]; [auto | right; eapply IH; eauto].
Qed.

Lemma remove_if_in_list_In (l : list node) x y :
  In y (remove_if_in_list l x) -> In y l.
Proof.
  unfold remove_if_in_list. destruct (list_remove l x) as [r|] eqn:E; [|auto].
  eapply list_remove_In; eauto.
Qed.

Ltac in_visit Hx :=
  repeat match type of Hx with
         | In _ (_ ++ _) => apply in_app_or in Hx; destruct Hx as [Hx|Hx]
         | In _ (remove_if_in_list _ _) => apply remove_if_in_list_In in Hx
         | In _ [_] => destruct Hx as [<-|[]]
         end.

Lemma handle_new_multiedge_visit g u v (thr : L) (l : list node) g' l' b x :
  handle_new_multiedge g u v thr l = Ok (g', l', b) ->
  In x l' -> In x l \/ x = u \/ x = v.
Proof.
  unfold handle_new_multiedge. intros H. inv_bind H. destruct a as [g1 w].
  destruct w; [|injection H as <- <- <-; auto].
  destruct (degree g1 u =? 2)%nat, (degree g1 u =? 1)%nat,
    (degree g1 v =? 2)%nat, (degree g1 v =? 1)%nat;
    injection H as <- <- <-; intros Hx; in_visit Hx; auto.
Qed.

(** ** The outcomes of the loop are states of the loop *)

Lemma rd2n_loop_reach (fuel : nat) (thr : L) (rbc : bool) g0 init
    (st st' : rd2n_state L) :
  rd2n_reach thr rbc g0 init st ->
  rd2n_loop fuel thr rbc st = Some (Ok st') ->
  rd2n_reach thr rbc g0 init st' /\ nodes_to_visit st' = [].
Proof.
  revert st. induction fuel as [|fuel IH]; intros st Hr; simpl.
  - destruct (pop (nodes_to_visit st)) as [[n rest]|] eqn:P; [discriminate|].
    intros H. injection H as <-. split; [exact Hr | apply pop_none; exact P].
  - destruct (pop (nodes_to_visit st)) as [[n rest]|] eqn:P.
    + destruct (rd2n_body thr rbc _ n) as [st1|x] eqn:Hb; [|discriminate].
      apply IH. eapply rd2n_next; eauto.
    + intros H. injection H as <-. split; [exact Hr | apply pop_none; exact P].
Qed.

Lemma rd2n_run_reach (fuel : nat) (thr : L) (rbc : bool) g0 init (st : rd2n_state L) :
  rd2n_run fuel g0 thr init rbc = Some (Ok st) ->
  rd2n_reach thr rbc g0 init st /\ nodes_to_visit st = [].
Proof.
  unfold rd2n_run. destruct (rd2n_init g0 init) as [l|x] eqn:E; [|discriminate].
  apply rd2n_loop_reach. constructor. exact E.
Qed.

(** ** Nodes with a single self-loop *)

Lemma loop_type_spec g n :
  degree_two_node_type g n = Ok Loop <-> has_node g n = true /\ neighbors g n = [n].
Proof.
  unfold degree_two_node_type. destruct (has_node g n); [|split; [discriminate | intros [? _]; discriminate]].
  destruct (neighbors g n) as [|a [|b [|c r]]]; try (split; [discriminate | intros [_ ?]; discriminate]).
  destruct (Z.eqb_spec a n) as [->|Hne].
  - split; auto.
  - split; [discriminate|]. intros [_ H]. congruence.
Qed.

Lemma simple_type_spec g n :
  degree_two_node_type g n = Ok Simple <->
  has_node g n = true /\ exists a b, neighbors g n = [a; b].
Proof.
  unfold degree_two_node_type.
  destruct (has_node g n); [|split; [discriminate | intros [? _]; discriminate]].
  destruct (neighbors g n) as [|a [|b [|c r]]].
  - split; [discriminate | intros [_ (? & ? & ?)]; discriminate].
  - destruct (a =? n); (split; [discriminate | intros [_ (? & ? & ?)]; discriminate]).
  - split; eauto.
  - split; [discriminate | intros [_ (? & ? & ?)]; discriminate].
Qed.

Lemma multiple_type_spec g n :
  degree_two_node_type g n = Ok Multiple <->
  has_node g n = true /\ exists a, neighbors g n = [a] /\ a <> n.
Proof.
  unfold degree_two_node_type.
  destruct (has_node g n); [|split; [discriminate | intros [? _]; discriminate]].
  destruct (neighbors g n) as [|a [|b [|c r]]].
  - split; [discriminate | intros [_ (? & ? & ?)]; discriminate].
  - destruct (Z.eqb_spec a n) as [->|Hne].
    + split; [discriminate | intros [_ (? & E & ?)]; congruence].
    + split; eauto.
  - split; [discriminate | intros [_ (? & ? & ?)]; discriminate].
  - split; [discriminate | intros [_ (? & ? & ?)]; discriminate].
Qed.

Lemma two_neighbors_data_loop g n :
  degree_two_node_type g n = Ok Loop ->
  two_neighbors_data g n None = Raise ValueError /\
  two_neighbors_data g n (Some Loop) = Raise ValueError.
Proof.
  intros H. unfold two_neighbors_data. rewrite H. simpl.
  apply loop_type_spec in H. destruct H as [-> _]. simpl. auto.
Qed.

Lemma rd2n_body_loop (thr : L) (rbc : bool) (st : rd2n_state L) n :
  degree_two_node_type (st_graph st) n = Ok Loop ->
  rd2n_body thr rbc st n = Raise ValueError.
Proof.
  intros H. unfold rd2n_body. rewrite H. simpl.
  destruct (two_neighbors_data_loop _ _ H) as [_ ->].
  apply loop_type_spec in H. destruct H as [H _].
  apply center_of_has_node in H. destruct H as (c & ->). reflexivity.
Qed.

Lemma tnd_neighbors g n nt nei1 nei2 k1 k2 :
  two_neighbors_data g n (Some nt) = Ok (nei1, nei2, k1, k2) ->
  In nei1 (neighbors g n) /\ In nei2 (neighbors g n).
Proof.
  intros H. destruct (tnd_type _ _ _ _ H) as [-> | ->].
  - apply tnd_simple in H. destruct H as (a & b & -> & [[-> ->]|[-> ->]] & _); simpl; auto.
  - apply tnd_multiple in H. destruct H as (<- & (r & ->) & _). simpl; auto.
Qed.

Lemma loop_not_neighbor g n m :
  neighbors g n = [n] -> m <> n -> ~ In n (neighbors g m).
Proof.
  intros Hn Hm Hin. apply neighbors_spec in Hin. destruct Hin as (e & He & J).
  assert (In m (neighbors g n)).
  { apply neighbors_spec. exists e. split; [auto | rewrite joins_sym; auto]. }
  rewrite Hn in H. simpl in H. intuition.
Qed.

Lemma degree_two_iter_simple g x :
  In x (degree_two_iter g false false) ->
  degree_two_node_type g x = Ok Simple /\ degree g x = 2%nat.
Proof.
  unfold degree_two_iter. rewrite in_flat_map. intros (y & _ & H).
  destruct (Nat.eqb_spec (degree g y) 2) as [D|D]; [|contradiction].
  destruct (degree_two_node_type g y) as [[]|] eqn:T; simpl in H; try contradiction.
  destruct H as [<-|[]]. auto.
Qed.

Lemma rd2n_init_simple g init (l : list node) x :
  rd2n_init g init = Ok l -> In x l -> degree_two_node_type g x = Ok Simple.
Proof.
  unfold rd2n_init. destruct init as [n|].
  - intros H. inv_bind H. destruct a; simpl in H; injection H as <-; simpl; try tauto.
    intros [<-|[]]. exact Ha.
  - intros H. injection H as <-. intros Hx. apply degree_two_iter_simple in Hx. tauto.
Qed.

Ltac case_if H :=
  match type of H with
  | context [if ?c then _ else _] => destruct c eqn:?
  end.

Lemma rd2n_pre_visit g (visit : list node) nt nei1 nei2 (to_visit : list node)
    (has_nei is_br : bool) x :
  match nt with
  | Multiple =>
      if (degree g nei1 =? 2)%nat
      then do l <- list_remove visit nei1; Ok (l, false, false)
      else Ok (visit, false, false)
  | _ =>
      if has_edge g nei1 nei2 then Ok (visit, true, false)
      else if (degree g nei1 =? 1)%nat || (degree g nei2 =? 1)%nat
           then Ok (visit, false, true)
           else Ok (visit, false, false)
  end = Ok (to_visit, has_nei, is_br) ->
  In x to_visit -> In x visit.
Proof.
  intros H Hx. destruct nt; repeat case_if H;
    try (injection H as <- _ _; exact Hx).
  inv_bind H. injection H as <- _ _. eapply list_remove_In; eauto.
Qed.

(** One turn of the loop on another node leaves the self-loop alone and
    does not put its node on the work list. *)
Lemma rd2n_body_keeps_loop (thr : L) (rbc : bool) (st st' : rd2n_state L) n m :
  neighbors (st_graph st) n = [n] ->
  ~ In n (nodes_to_visit st) ->
  rd2n_body thr rbc st m = Ok st' ->
  m <> n ->
  incident (st_graph st') n = incident (st_graph st) n /\ ~ In n (nodes_to_visit st').
Proof.
  intros Hn Hv H Hm. apply rd2n_body_inv in H.
  destruct H as (nt & nei1 & nei2 & k1 & k2 & new_path & new_len & to_visit & has_nei
                 & is_br & added & removed & g3 & tv3 & b3
                 & _ & Htnd & _ & Hpre & _ & Hh & Hfin).
  apply tnd_neighbors in Htnd. destruct Htnd as [N1 N2].
  assert (H1 : nei1 <> n).
  { intros ->. exact (loop_not_neighbor _ _ _ Hn Hm N1). }
  assert (H2 : nei2 <> n).
  { intros ->. exact (loop_not_neighbor _ _ _ Hn Hm N2). }
  assert (Hv1 : ~ In n to_visit).
  { intros Hin. apply Hv. eapply rd2n_pre_visit; eauto. }
  assert (H3 : incident g3 n = incident (st_graph st) n /\ ~ In n tv3).
  { destruct has_nei.
    - split.
      + erewrite incident_handle_new_multiedge by eauto.
        apply incident_merged; auto.
      + intros Hin. eapply handle_new_multiedge_visit in Hin; eauto.
        destruct Hin as [?|[?|?]]; auto.
    - injection Hh as <- <- _. split; [apply incident_merged; auto | exact Hv1]. }
  destruct H3 as [H3 H4]. destruct b3.
  - destruct Hfin as (key & _ & ->). simpl. split; [|exact H4].
    rewrite incident_set_is_branch by auto. exact H3.
  - subst st'. simpl. auto.
Qed.

Lemma rd2n_reach_keeps_loop (thr : L) (rbc : bool) g init (st : rd2n_state L) n :
  degree_two_node_type g n = Ok Loop ->
  rd2n_reach thr rbc g init st ->
  incident (st_graph st) n = incident g n /\
  g_nodes (st_graph st) = g_nodes g /\
  ~ In n (nodes_to_visit st).
Proof.
  intros Hl Hr. induction Hr as [l Hi | st m rest st' Hr IH Hp Hb].
  - simpl. split; [reflexivity|]. split; [reflexivity|].
    intros Hin. pose proof (rd2n_init_simple _ _ _ _ Hi Hin). congruence.
  - destruct IH as (I1 & I2 & I3).
    apply pop_spec in Hp.
    assert (Hn : neighbors (st_graph st) n = [n]).
    { rewrite (neighbors_incident _ _ _ I1). apply loop_type_spec in Hl. tauto. }
    assert (Hm : m <> n).
    { intros ->. apply I3. rewrite Hp. apply in_or_app. simpl. auto. }
    assert (Hrest : ~ In n rest).
    { intros Hin. apply I3. rewrite Hp. apply in_or_app. auto. }
    pose proof (g_nodes_rd2n_body _ _ _ _ _ Hb) as G. simpl in G.
    eapply rd2n_body_keeps_loop in Hb; eauto.
    simpl in Hb. destruct Hb as [B1 B2].
    split; [congruence|]. split; [congruence | exact B2].
Qed.

(** ** Termination of [remove_degree_two_nodes] *)

(** C8: [remove_degree_two_nodes] terminates on every graph, in the
    whole-graph mode ([initial_node = None]) and in the single-start mode
    alike.  One turn of the loop per edge is enough: the run on that fuel
    has an outcome (a normal return or a raised exception), every larger
    fuel gives the same outcome, and a normal return leaves the work list
    empty. *)
Theorem remove_degree_two_nodes_terminates g (thr : L) (initial_node : option node)
    (rbc : bool) :
  (exists r, remove_degree_two_nodes g thr initial_node rbc = Some r) /\
  (forall fuel, (number_of_edges g < fuel)%nat ->
     rd2n_run fuel g thr initial_node rbc
     = remove_degree_two_nodes g thr initial_node rbc) /\
  (forall st, remove_degree_two_nodes g thr initial_node rbc = Some (Ok st) ->
     nodes_to_visit st = []).
Proof.
  assert (H : exists r, remove_degree_two_nodes g thr initial_node rbc = Some r).
  { unfold remove_degree_two_nodes, rd2n_run.
    destruct (rd2n_init g initial_node) as [l|x]; [|eauto].
    apply rd2n_loop_terminates. simpl. lia. }
  split; [exact H|]. split.
  - intros fuel Hf. destruct H as (r & H). rewrite H.
    unfold remove_degree_two_nodes, rd2n_run in *.
    destruct (rd2n_init g initial_node) as [l|x]; [|exact H].
    eapply rd2n_loop_more_fuel; [exact H | lia].
  - intros st Hst. apply rd2n_run_reach in Hst. tauto.
Qed.

(** ** Self-loops and the elimination of nodes *)

(** C9: a node whose only neighbour is itself (type ['loop']) makes
    [two_neighbors_data] raise [ValueError], with the type computed or
    passed in; a turn of the loop of [remove_degree_two_nodes] on such a
    node raises [ValueError]; and no run of [remove_degree_two_nodes]
    eliminates it: in every state of the loop the node keeps its edges, is
    still of type ['loop'] and is not on the work list. *)
Theorem loop_node_raises_and_stays g n (thr : L) (rbc : bool) :
  degree_two_node_type g n = Ok Loop ->
  two_neighbors_data g n None = Raise ValueError /\
  two_neighbors_data g n (Some Loop) = Raise ValueError /\
  (forall l added removed,
     rd2n_body thr rbc (mkState g l added removed) n = Raise ValueError) /\
  (forall initial_node st,
     rd2n_reach thr rbc g initial_node st ->
     incident (st_graph st) n = incident g n /\
     degree_two_node_type (st_graph st) n = Ok Loop /\
     ~ In n (nodes_to_visit st)) /\
  (forall initial_node st,
     remove_degree_two_nodes g thr initial_node rbc = Some (Ok st) ->
     incident (st_graph st) n = incident g n).
Proof.
  intros Hl. destruct (two_neighbors_data_loop _ _ Hl) as [T1 T2].
  split; [exact T1|]. split; [exact T2|]. split.
  { intros l added removed. apply rd2n_body_loop. exact Hl. }
  assert (R : forall initial_node st,
             rd2n_reach thr rbc g initial_node st ->
             incident (st_graph st) n = incident g n /\
             degree_two_node_type (st_graph st) n = Ok Loop /\
             ~ In n (nodes_to_visit st)).
  { intros init st Hr.
    destruct (rd2n_reach_keeps_loop _ _ _ _ _ _ Hl Hr) as (I1 & I2 & I3).
    split; [exact I1|]. split; [|exact I3].
    apply loop_type_spec. apply loop_type_spec in Hl. destruct Hl as [N1 N2].
    split.
    - rewrite (has_node_same_nodes _ _ _ I2). exact N1.
    - rewrite (neighbors_incident _ _ _ I1). exact N2. }
  split; [exact R|].
  intros init st Hst. apply rd2n_run_reach in Hst. destruct Hst as [Hr _].
  apply R in Hr. tauto.
Qed.

(** ** The edge that replaces an eliminated node *)

Lemma same_but_flag_refl e : same_but_flag e e.
Proof. unfold same_but_flag. auto. Qed.

Lemma make_new_path_inv g n nei1 k1 nei2 k2 (new_path : list pixel) (new_len : L) :
  make_new_path g n nei1 k1 nei2 k2 = Ok (new_path, new_len) ->
  exists c a1 a2 p_last p_first,
    center_of g n = Ok c /\
    get_edge g n nei1 k1 = Ok a1 /\
    get_edge g n nei2 k2 = Ok a2 /\
    last_pixel (oriented_first n nei1 a1) = Ok p_last /\
    first_pixel (oriented_second n nei2 a2) = Ok p_first /\
    new_path = oriented_first n nei1 a1 ++ [c] ++ oriented_second n nei2 a2 /\
    new_len = len_add (len_add (length a1)
                         (path_length [p_last; c; p_first] (g_pix_size g)))
                (length a2).
Proof.
  unfold make_new_path. intros H.
  inv_bind H. rename a into c. inv_bind H. rename a into a1.
  inv_bind H. rename a into a2. inv_bind H. rename a into p_last.
  inv_bind H. rename a into p_first. injection H as <- <-.
  exists c, a1, a2, p_last, p_first. repeat split; assumption.
Qed.

Lemma g_edges_merged g n nei1 k1 nei2 k2 (a : EdgeAttrs L) :
  g_edges (merged g n nei1 k1 nei2 k2 a)
  = insert_edge nei1 nei2
      (mkEdge nei1 nei2
         (new_edge_key (remove_edges_from g [(n, nei1, k1); (n, nei2, k2)]) nei1 nei2) a)
      (filter (fun e => negb (named_by [(n, nei1, k1); (n, nei2, k2)] e)) (g_edges g)).
Proof.
  unfold merged, add_edge. cbn [fst with_edges g_edges].
  rewrite remove_edges_from_edges at 2. reflexivity.
Qed.

Lemma set_is_branch_same g i b e' :
  In e' (g_edges (set_is_branch g i b)) ->
  exists e, In e (g_edges g) /\ same_but_flag e' e.
Proof.
  unfold set_is_branch. cbn [g_edges with_edges]. rewrite in_map_iff.
  intros (e & <- & He). exists e. split; [exact He|].
  destruct (names i e); [|apply same_but_flag_refl].
  unfold same_but_flag. simpl. auto.
Qed.

Lemma remove_small_mul_sub g u v (thr : L) g' b e :
  remove_small_mul g u v thr = Ok (g', b) -> In e (g_edges g') -> In e (g_edges g).
Proof.
  unfold remove_small_mul. destruct (keydict g u v) as [|e0 kd]; [discriminate|].
  intros H. inv_bind H. destruct (len_ltb _ thr).
  - inv_bind H. injection H as <- <-. apply remove_edge_edges in Ha0. subst a0.
    cbn [g_edges with_edges]. rewrite filter_In. tauto.
  - injection H as <- <-. auto.
Qed.

(** C4: when a turn of the loop of [remove_degree_two_nodes] eliminates a
    node of type ['simple'] or ['multiple'], the two edges
    [two_neighbors_data] names are replaced by one new edge between the
    neighbours, behind the edges the two neighbours already share.  Its
    path is the first oriented path, the centre of the
    node and the second oriented path, and its length is the length of the
    first edge plus the arc length of the connector (last pixel of the
    first oriented path, centre, first pixel of the second oriented path)
    plus the length of the second edge, in the additions of the code.
    Every edge of the graph after the turn is an edge of that merged graph,
    up to its flag. *)
Theorem merged_edge_length (thr : L) (rbc : bool) (st st' : rd2n_state L) n :
  rd2n_body thr rbc st n = Ok st' ->
  exists nt nei1 nei2 k1 k2 a1 a2 c p_last p_first is_br key,
    degree_two_node_type (st_graph st) n = Ok nt /\
    (nt = Simple \/ nt = Multiple) /\
    two_neighbors_data (st_graph st) n (Some nt) = Ok (nei1, nei2, k1, k2) /\
    center_of (st_graph st) n = Ok c /\
    get_edge (st_graph st) n nei1 k1 = Ok a1 /\
    get_edge (st_graph st) n nei2 k2 = Ok a2 /\
    last_pixel (oriented_first n nei1 a1) = Ok p_last /\
    first_pixel (oriented_second n nei2 a2) = Ok p_first /\
    let new_edge :=
      mkEdge nei1 nei2 key
        (mkAttrs (oriented_first n nei1 a1 ++ [c] ++ oriented_second n nei2 a2)
           (len_add (len_add (length a1)
                       (path_length [p_last; c; p_first] (g_pix_size (st_graph st))))
              (length a2))
           is_br) in
    g_edges (merged (st_graph st) n nei1 k1 nei2 k2 (e_attrs new_edge))
    = insert_edge nei1 nei2 new_edge
        (filter (fun e => negb (named_by [(n, nei1, k1); (n, nei2, k2)] e))
           (g_edges (st_graph st))) /\
    forall e', In e' (g_edges (st_graph st')) ->
      exists e, In e (g_edges (merged (st_graph st) n nei1 k1 nei2 k2 (e_attrs new_edge)))
                /\ same_but_flag e' e.
Proof.
  intros H. apply rd2n_body_inv in H.
  destruct H as (nt & nei1 & nei2 & k1 & k2 & new_path & new_len & to_visit & has_nei
                 & is_br & added & removed & g3 & tv3 & b3
                 & Hnt & Htnd & Hmk & _ & _ & Hh & Hfin).
  apply make_new_path_inv in Hmk.
  destruct Hmk as (c & a1 & a2 & p_last & p_first & Hc & H1 & H2 & Hl & Hf & -> & ->).
  exists nt, nei1, nei2, k1, k2, a1, a2, c, p_last, p_first, is_br,
    (new_edge_key (remove_edges_from (st_graph st) [(n, nei1, k1); (n, nei2, k2)])
       nei1 nei2).
  split; [exact Hnt|]. split; [exact (tnd_type _ _ _ _ Htnd)|].
  repeat (split; [assumption|]).
  cbn zeta. cbn [e_attrs]. split; [apply g_edges_merged|].
  assert (H3 : forall e, In e (g_edges g3) ->
               In e (g_edges (merged (st_graph st) n nei1 k1 nei2 k2
                       (mkAttrs (oriented_first n nei1 a1 ++ [c] ++ oriented_second n nei2 a2)
                          (len_add (len_add (length a1)
                             (path_length [p_last; c; p_first] (g_pix_size (st_graph st))))
                             (length a2)) is_br)))).
  { destruct has_nei.
    - apply handle_new_multiedge_graph in Hh. destruct Hh as (w & Hh).
      intros e. eapply remove_small_mul_sub; eauto.
    - injection Hh as <- _ _. auto. }
  intros e' He'. destruct b3.
  - destruct Hfin as (key & _ & ->). cbn [st_graph] in He'.
    apply set_is_branch_same in He'. destruct He' as (e & He & S).
    exists e. split; [apply H3; exact He | exact S].
  - subst st'. cbn [st_graph] in He'. exists e'.
    split; [apply H3; exact He' | apply same_but_flag_refl].
Qed.

(** ** [graph.edges] reports every edge *)

Lemma has_node_In g n : has_node g n = true <-> In n (map fst (g_nodes g)).
Proof.
  unfold has_node. rewrite existsb_exists, in_map_iff. split.
  - intros (p & Hp & E). apply Z.eqb_eq in E. eauto.
  - intros (p & E & Hp). exists p. split; [auto | apply Z.eqb_eq; auto].
Qed.

Lemma edges_from_sound g (ns seen : list node) a b k :
  In (a, b, k) (edges_from g ns seen) ->
  In a ns /\ exists e, In e (g_edges g) /\ names (a, b, k) e = true.
Proof.
  revert seen. induction ns as [|n ns IH]; intros seen; simpl; [tauto|].
  rewrite in_app_iff, in_flat_map. intros [(nbr & Hnbr & H)|H].
  - destruct (existsb (Z.eqb nbr) seen); [contradiction|].
    apply in_map_iff in H. destruct H as (e & E & He). injection E as <- <- <-.
    apply keydict_In in He. destruct He as [He J].
    split; [auto|]. exists e. split; [auto|]. apply names_spec. auto.
  - apply IH in H. destruct H as [H1 H2]. auto.
Qed.

Lemma edges_from_complete g (ns seen : list node) e :
  In e (g_edges g) ->
  In (e_u e) ns -> In (e_v e) ns ->
  ~ In (e_u e) seen -> ~ In (e_v e) seen ->
  exists a b, In (a, b, e_key e) (edges_from g ns seen) /\ joins a b e = true.
Proof.
  intros He. revert seen. induction ns as [|n ns IH]; intros seen Hu Hv Su Sv; [contradiction|].
  simpl.
  assert (Here : forall x, joins n x e = true -> ~ In x seen ->
                   In (n, x, e_key e)
                      (flat_map (fun nbr =>
                                   if existsb (Z.eqb nbr) seen then []
                                   else map (fun e0 => (n, nbr, e_key e0)) (keydict g n nbr))
                                (neighbors g n))).
  { intros x J Sx. apply in_flat_map. exists x. split.
    - apply neighbors_spec. eauto.
    - destruct (existsb (Z.eqb x) seen) eqn:X.
      + apply existsb_eqb_In in X. contradiction.
      + apply in_map_iff. exists e. split; [reflexivity|]. apply keydict_In. auto. }
  destruct (Z.eq_dec (e_u e) n) as [Eu|Nu].
  - exists n, (e_v e). split.
    + apply in_or_app. left. apply Here; [|exact Sv]. apply joins_spec. auto.
    + apply joins_spec. auto.
  - destruct (Z.eq_dec (e_v e) n) as [Ev|Nv].
    + exists n, (e_u e). split.
      * apply in_or_app. left. apply Here; [|exact Su]. apply joins_spec. auto.
      * apply joins_spec. auto.
    + destruct Hu as [Hu|Hu]; [congruence|]. destruct Hv as [Hv|Hv]; [congruence|].
      destruct (IH (n :: seen) Hu Hv) as (a & b & Hin & J).
      * simpl. intros [?|?]; [congruence | contradiction].
      * simpl. intros [?|?]; [congruence | contradiction].
      * exists a, b. split; [apply in_or_app; right; exact Hin | exact J].
Qed.

Lemma well_formed_spec g :
  well_formed g = true -> ids_distinct (g_edges g) = true /\ nodes_ok g = true.
Proof.
  unfold well_formed, nodes_ok. rewrite !andb_true_iff. tauto.
Qed.

Lemma well_formed_intro g :
  distinct (map fst (g_nodes g)) = true ->
  ids_distinct (g_edges g) = true -> nodes_ok g = true ->
  grouped (g_edges g) = true -> well_formed g = true.
Proof.
  unfold well_formed, nodes_ok. rewrite !andb_true_iff. tauto.
Qed.

Lemma well_formed_grouped g : well_formed g = true -> grouped (g_edges g) = true.
Proof. unfold well_formed. rewrite !andb_true_iff. tauto. Qed.

(** ** The edges of a pair stay together *)

Lemma drop_pair_existsb u v (p : Edge L -> bool) (l : list (Edge L)) :
  existsb p l = false -> existsb p (drop_pair u v l) = false.
Proof.
  induction l as [|e r IH]; simpl; [auto|].
  intros H. apply orb_false_iff in H. destruct H as [H1 H2].
  destruct (joins u v e); [auto|]. simpl. rewrite H1, H2. reflexivity.
Qed.

Lemma existsb_filter_false (A : Type) (p q : A -> bool) (l : list A) :
  existsb p l = false -> existsb p (filter q l) = false.
Proof.
  induction l as [|x l IH]; simpl; [auto|].
  intros H. apply orb_false_iff in H. destruct H as [H1 H2].
  destruct (q x); simpl; [rewrite H1|]; auto.
Qed.

Lemma drop_pair_filter u v (p : Edge L -> bool) (l : list (Edge L)) :
  existsb (joins u v) (drop_pair u v l) = false ->
  existsb (joins u v) (drop_pair u v (filter p l)) = false.
Proof.
  induction l as [|e r IH]; simpl; [auto|].
  destruct (joins u v e) eqn:J.
  - intros H. destruct (p e); simpl; [rewrite J|]; auto.
  - intros H. apply drop_pair_existsb. apply existsb_filter_false with (q := p) in H.
    exact H.
Qed.

Lemma grouped_filter (p : Edge L -> bool) (l : list (Edge L)) :
  grouped l = true -> grouped (filter p l) = true.
Proof.
  induction l as [|e r IH]; simpl; [auto|].
  rewrite andb_true_iff, negb_true_iff. intros [H1 H2].
  destruct (p e); simpl; [|auto].
  rewrite (drop_pair_filter _ _ p r H1). simpl. auto.
Qed.

Lemma grouped_map (h : Edge L -> Edge L) (l : list (Edge L)) :
  (forall e, e_u (h e) = e_u e /\ e_v (h e) = e_v e) ->
  grouped (map h l) = grouped l.
Proof.
  intros H.
  assert (J : forall u v e, joins u v (h e) = joins u v e).
  { intros u v e. unfold joins. destruct (H e) as [-> ->]. reflexivity. }
  assert (D : forall u v (r : list (Edge L)),
             existsb (joins u v) (drop_pair u v (map h r))
             = existsb (joins u v) (drop_pair u v r)).
  { intros u v r. induction r as [|x r IHr]; simpl; [reflexivity|].
    rewrite J. destruct (joins u v x) eqn:Jx; [exact IHr|].
    simpl. rewrite J, Jx. simpl.
    clear IHr. induction r as [|y r IHr]; simpl; [reflexivity|].
    rewrite J, IHr. reflexivity. }
  induction l as [|e r IH]; simpl; [reflexivity|].
  destruct (H e) as [-> ->]. rewrite D, IH. reflexivity.
Qed.

Lemma distinct_NoDup (l : list node) : distinct l = true <-> NoDup l.
Proof.
  induction l as [|x l IH]; simpl.
  - split; [constructor | reflexivity].
  - rewrite andb_true_iff, negb_true_iff, IH. split.
    + intros [H1 H2]. constructor; [|exact H2].
      intros Hin. apply existsb_eqb_In in Hin. congruence.
    + intros H. inversion H as [|? ? Hn Hd]; subst. split; [|exact Hd].
      destruct (existsb (Z.eqb x) l) eqn:X; [|reflexivity].
      apply existsb_eqb_In in X. contradiction.
Qed.

Lemma well_formed_nodes g : well_formed g = true -> NoDup (map fst (g_nodes g)).
Proof.
  unfold well_formed. rewrite !andb_true_iff. intros [[[H _] _] _].
  apply distinct_NoDup. exact H.
Qed.

Lemma nodes_ok_spec g e :
  nodes_ok g = true -> In e (g_edges g) ->
  In (e_u e) (map fst (g_nodes g)) /\ In (e_v e) (map fst (g_nodes g)).
Proof.
  unfold nodes_ok. rewrite forallb_forall. intros H He. apply H in He.
  apply andb_true_iff in He. rewrite <- !has_node_In. exact He.
Qed.

Lemma graph_edges_complete g e :
  nodes_ok g = true -> In e (g_edges g) ->
  exists a b, In (a, b, e_key e) (graph_edges g) /\ joins a b e = true.
Proof.
  intros Hn He. destruct (nodes_ok_spec _ _ Hn He) as [Hu Hv].
  apply edges_from_complete; auto.
Qed.

Lemma graph_edges_sound g a b k :
  In (a, b, k) (graph_edges g) ->
  exists e, In e (g_edges g) /\ names (a, b, k) e = true.
Proof. intros H. apply edges_from_sound in H. tauto. Qed.

(** ** [add_branch_info] *)

Lemma ends_at_reflag g n e : ends_at n (reflag g e) = ends_at n e.
Proof. reflexivity. Qed.

Lemma list_sum_map_ext (A : Type) (f h : A -> nat) (l : list A) :
  (forall x, In x l -> f x = h x) -> list_sum (map f l) = list_sum (map h l).
Proof.
  induction l as [|x l IH]; simpl; intros H; [reflexivity|].
  rewrite H by auto. f_equal. apply IH. auto.
Qed.

Lemma degree_map g (h : Edge L -> Edge L) n :
  (forall e, e_u (h e) = e_u e /\ e_v (h e) = e_v e) ->
  degree (with_edges g (map h (g_edges g))) n = degree g n.
Proof.
  intros H. unfold degree. cbn [g_edges with_edges]. rewrite map_map.
  apply list_sum_map_ext. intros e _. unfold ends_at.
  destruct (H e) as [-> ->]. reflexivity.
Qed.

Lemma degree_set_is_branch g i b n : degree (set_is_branch g i b) n = degree g n.
Proof.
  unfold set_is_branch. apply degree_map. intros e. destruct (names i e); auto.
Qed.

Lemma names_flag_of g a b k e :
  names (a, b, k) e = true ->
  (degree g a =? 1)%nat || (degree g b =? 1)%nat = flag_of g e.
Proof.
  intros H. apply names_spec in H. destruct H as [J _]. apply joins_spec in J.
  unfold flag_of. destruct J as [[-> ->]|[-> ->]]; [reflexivity | apply orb_comm].
Qed.

Lemma add_branch_info_fold g (ids : list edge_id) g' :
  (forall n, degree g' n = degree g n) ->
  let step := fun g i =>
    let '(node1, node2, key) := i in
    if (degree g node1 =? 1)%nat || (degree g node2 =? 1)%nat
    then set_is_branch g (node1, node2, key) true
    else set_is_branch g (node1, node2, key) false in
  g_edges (fold_left step ids g')
  = map (fun e => if named_by ids e then reflag g e else e) (g_edges g')
  /\ g_nodes (fold_left step ids g') = g_nodes g'
  /\ g_pix_size (fold_left step ids g') = g_pix_size g'.
Proof.
  intros Hd step. revert g' Hd. induction ids as [|[[a b] k] ids IH]; intros g' Hd.
  - simpl. rewrite map_id. auto.
  - cbn [fold_left].
    assert (Hs : step g' (a, b, k)
                 = set_is_branch g' (a, b, k)
                     ((degree g a =? 1)%nat || (degree g b =? 1)%nat)).
    { unfold step. rewrite !Hd.
      destruct ((degree g a =? 1)%nat || (degree g b =? 1)%nat); reflexivity. }
    rewrite Hs.
    destruct (IH (set_is_branch g' (a, b, k)
                    ((degree g a =? 1)%nat || (degree g b =? 1)%nat))) as (I1 & I2 & I3).
    { intros n. rewrite degree_set_is_branch. apply Hd. }
    split; [|split; [rewrite I2; reflexivity | rewrite I3; reflexivity]].
    rewrite I1. unfold set_is_branch. cbn [g_edges with_edges]. rewrite map_map.
    apply map_ext. intros e.
    destruct (names (a, b, k) e) eqn:N.
    + unfold named_by. cbn [existsb]. rewrite N. cbn [orb].
      rewrite (names_flag_of g _ _ _ _ N).
      match goal with |- (if ?c then _ else _) = _ => destruct c end; reflexivity.
    + unfold named_by. cbn [existsb]. rewrite N. reflexivity.
Qed.

Lemma graph_ext g g' :
  g_nodes g = g_nodes g' -> g_edges g = g_edges g' -> g_pix_size g = g_pix_size g' ->
  g = g'.
Proof. destruct g, g'. simpl. intros -> -> ->. reflexivity. Qed.

Lemma add_branch_info_edges g :
  nodes_ok g = true ->
  add_branch_info g = with_edges g (map (reflag g) (g_edges g)).
Proof.
  intros Hn. unfold add_branch_info.
  destruct (add_branch_info_fold g (graph_edges g) g (fun n => eq_refl)) as (I1 & I2 & I3).
  apply graph_ext; [exact I2 | | exact I3].
  etransitivity; [exact I1|]. cbn [g_edges with_edges].
  apply map_ext_in. intros e He.
  destruct (graph_edges_complete _ _ Hn He) as (a & b & Hin & J).
  assert (N : named_by (graph_edges g) e = true).
  { apply existsb_exists. exists (a, b, e_key e). split; [exact Hin|].
    apply names_spec. auto. }
  rewrite N. reflexivity.
Qed.

Lemma degree_reflag g g0 n :
  degree (with_edges g (map (reflag g0) (g_edges g))) n = degree g n.
Proof. apply degree_map. intros e. auto. Qed.

Lemma branch_inv_reflag g : branch_inv (with_edges g (map (reflag g) (g_edges g))).
Proof.
  intros e' He'. cbn [g_edges with_edges] in He'. apply in_map_iff in He'.
  destruct He' as (e & <- & He). rewrite !degree_reflag. cbn.
  unfold flag_of. rewrite orb_true_iff, !Nat.eqb_eq. tauto.
Qed.

Lemma branch_inv_add_branch_info g :
  nodes_ok g = true -> branch_inv (add_branch_info g).
Proof. intros H. rewrite add_branch_info_edges by exact H. apply branch_inv_reflag. Qed.

(** ** Distinct keys *)

Lemma names_id_of_sym e e' : names (id_of e) e' = true -> names (id_of e') e = true.
Proof.
  unfold id_of. rewrite !names_spec, !joins_spec.
  intros [[[? ?]|[? ?]] ?]; split; auto.
Qed.

Lemma ids_distinct_eq (l : list (Edge L)) e e' :
  ids_distinct l = true -> In e l -> In e' l -> names (id_of e) e' = true -> e = e'.
Proof.
  induction l as [|x l IH]; simpl; [contradiction|].
  rewrite andb_true_iff, negb_true_iff. intros [Hx Hl] [->|He] [->|He'] N; auto.
  - exfalso. assert (existsb (names (id_of e)) l = true); [|congruence].
    apply existsb_exists. eauto.
  - exfalso. assert (existsb (names (id_of e')) l = true); [|congruence].
    apply existsb_exists. exists e. split; [auto | apply names_id_of_sym; auto].
Qed.

Lemma names_unique g i e e' :
  ids_distinct (g_edges g) = true ->
  In e (g_edges g) -> In e' (g_edges g) ->
  names i e = true -> names i e' = true -> e = e'.
Proof.
  intros Hd He He' N N'. apply (ids_distinct_eq _ _ _ Hd He He').
  destruct i as [[a b] k]. apply names_spec in N, N'.
  destruct N as [J <-], N' as [J' K']. unfold id_of. apply names_spec.
  split; [|auto]. apply joins_spec in J, J'. apply joins_spec.
  destruct J as [[? ?]|[? ?]], J' as [[? ?]|[? ?]]; subst; auto.
Qed.

Lemma ids_distinct_filter (p : Edge L -> bool) (l : list (Edge L)) :
  ids_distinct l = true -> ids_distinct (filter p l) = true.
Proof.
  induction l as [|x l IH]; simpl; [auto|].
  rewrite andb_true_iff, negb_true_iff. intros [Hx Hl].
  destruct (p x); simpl; [|auto]. rewrite IH by auto. rewrite andb_true_r.
  apply negb_true_iff. destruct (existsb (names (id_of x)) (filter p l)) eqn:X; [|auto].
  apply existsb_exists in X. destruct X as (y & Hy & N). apply filter_In in Hy.
  assert (existsb (names (id_of x)) l = true); [|congruence].
  apply existsb_exists. exists y. tauto.
Qed.

Lemma nodes_ok_filter g (p : Edge L -> bool) :
  nodes_ok g = true -> nodes_ok (with_edges g (filter p (g_edges g))) = true.
Proof.
  unfold nodes_ok. rewrite !forallb_forall. cbn [g_edges with_edges].
  intros H e He. apply filter_In in He. destruct He as [He _].
  apply H in He. exact He.
Qed.

Lemma keydict_filter g (p : Edge L -> bool) u v :
  keydict (with_edges g (filter p (g_edges g))) u v = filter p (keydict g u v).
Proof. unfold keydict. cbn [g_edges with_edges]. apply filter_comm. Qed.

Lemma keydict_joins g a b e :
  joins a b e = true -> keydict g a b = keydict g (e_u e) (e_v e).
Proof.
  intros J. unfold keydict. apply filter_ext. intros x.
  apply joins_spec in J. destruct J as [[-> ->]|[-> ->]]; [reflexivity | apply joins_sym].
Qed.

(** ** [multiedge_iter] and the edges [remove_small_mul_all] removes *)

Lemma pair_set_add_In (s : list (node * node)) p q :
  In q (pair_set_add s p) <-> In q s \/ q = p.
Proof.
  unfold pair_set_add.
  destruct (existsb (fun q0 => (fst q0 =? fst p) && (snd q0 =? snd p)) s) eqn:X.
  - split; [auto|]. intros [H| ->]; [auto|].
    apply existsb_exists in X. destruct X as ([x y] & Hin & E).
    apply andb_true_iff in E. simpl in E. rewrite !Z.eqb_eq in E.
    destruct p as [p1 p2]. simpl in E. destruct E as [-> ->]. exact Hin.
  - rewrite in_app_iff. simpl. intuition.
Qed.

Lemma multiedge_iter_spec g a b :
  In (a, b) (multiedge_iter g) <->
  (exists k, In (a, b, k) (graph_edges g)) /\ (1 < List.length (keydict g a b))%nat.
Proof.
  unfold multiedge_iter.
  assert (G : forall ids s,
            In (a, b)
               (fold_left
                  (fun s i =>
                     let '(node1, node2, _) := i in
                     if (1 <? List.length (keydict g node1 node2))%nat
                     then pair_set_add s (node1, node2) else s) ids s)
            <-> In (a, b) s \/
                ((exists k, In (a, b, k) ids) /\ (1 < List.length (keydict g a b))%nat)).
  { induction ids as [|[[x y] k] ids IH]; intros s.
    - simpl. split; [auto|]. intros [H|[(k & []) _]]. exact H.
    - cbn [fold_left]. rewrite IH. clear IH.
      destruct (Nat.ltb_spec 1 (List.length (keydict g x y))) as [Hlt|Hge].
      + rewrite pair_set_add_In. split.
        * intros [[H|E]|[(k' & Hk) Hl]]; auto.
          -- injection E as -> ->. right. split; [exists k; simpl; auto | exact Hlt].
          -- right. split; [exists k'; simpl; auto | exact Hl].
        * intros [H|[(k' & [E|Hk]) Hl]]; auto.
          -- injection E as -> -> ->. auto.
          -- right. eauto.
      + split.
        * intros [H|[(k' & Hk) Hl]]; auto. right. split; [exists k'; simpl; auto | exact Hl].
        * intros [H|[(k' & [E|Hk]) Hl]]; auto.
          -- injection E as -> -> ->. lia.
          -- right. eauto. }
  rewrite G. simpl. tauto.
Qed.

Lemma small_parallel_edges_In g (thr : L) a b x y k :
  In (x, y, k) (small_parallel_edges g thr (a, b)) <->
  x = a /\ y = b /\
  exists e, In e (keydict g a b) /\ e_key e = k /\ short thr e = true /\
            e_key e <> key_of_longest g a b.
Proof.
  unfold small_parallel_edges, key_of_longest, short.
  destruct (argmax (map (fun e => length (e_attrs e)) (keydict g a b))) as [i|x0] eqn:A.
  - rewrite in_flat_map. split.
    + intros (e & He & H).
      destruct (len_ltb (length (e_attrs e)) thr) eqn:S; [|contradiction].
      destruct (Z.eqb_spec (e_key e) (nth i (keys (keydict g a b)) 0)) as [E|E];
        simpl in H; [contradiction|].
      destruct H as [H|[]]. injection H as <- <- <-.
      split; [auto|]. split; [auto|]. exists e. auto.
    + intros (-> & -> & e & He & <- & S & Hk). exists e. split; [auto|].
      rewrite S. destruct (Z.eqb_spec (e_key e) (nth i (keys (keydict g a b)) 0));
        [contradiction|]. simpl. auto.
  - split; [contradiction|]. intros (_ & _ & e & He & _).
    destruct (keydict g a b); [contradiction | discriminate].
Qed.

Lemma selfloop_edges_In g a b k (l : L) :
  In ((a, b, k), l) (selfloop_edges g) <->
  a = b /\ In a (map fst (g_nodes g)) /\
  exists e, In e (keydict g a a) /\ e_key e = k /\ length (e_attrs e) = l.
Proof.
  unfold selfloop_edges. rewrite in_flat_map. split.
  - intros (n & Hn & H). apply in_map_iff in H. destruct H as (e & E & He).
    injection E as <- <- <- <-. split; [auto|]. split; [auto|]. eauto.
  - intros (<- & Hn & e & He & <- & <-). exists a. split; [auto|].
    apply in_map_iff. exists e. auto.
Qed.

Lemma filter_filter_and (A : Type) (p q : A -> bool) (l : list A) :
  filter p (filter q l) = filter (fun x => q x && p x) l.
Proof.
  induction l as [|x l IH]; simpl; [reflexivity|].
  destruct (q x); simpl; [destruct (p x); simpl; rewrite IH; reflexivity | exact IH].
Qed.

Lemma remove_edges_from_members g (l l' : list edge_id) :
  (forall i, In i l <-> In i l') -> remove_edges_from g l = remove_edges_from g l'.
Proof.
  intros H. rewrite !remove_edges_from_edges. f_equal.
  apply filter_ext. intros e. f_equal. apply eq_true_iff_eq.
  rewrite !existsb_exists. split; intros (i & Hi & N); exists i; split; auto; apply H; auto.
Qed.

Lemma flat_map_members (A B : Type) (f : A -> list B) (l l' : list A) :
  (forall a, In a l <-> In a l') ->
  forall b, In b (flat_map f l) <-> In b (flat_map f l').
Proof.
  intros H b. rewrite !in_flat_map.
  split; intros (a & Ha & Hb); exists a; split; auto; apply H; auto.
Qed.

Lemma remove_small_mul_all_unfold g (thr : L) :
  remove_small_mul_all g thr
  = add_branch_info
      (remove_edges_from (remove_edges_from g (short_selfloops g thr))
         (short_parallels (remove_edges_from g (short_selfloops g thr)) thr)).
Proof. reflexivity. Qed.

Lemma named_short_selfloops g (thr : L) e :
  well_formed g = true -> In e (g_edges g) ->
  named_by (short_selfloops g thr) e = (e_u e =? e_v e) && short thr e.
Proof.
  intros Hwf He. apply well_formed_spec in Hwf. destruct Hwf as [Hd Hn].
  apply eq_true_iff_eq. unfold named_by, short_selfloops.
  rewrite existsb_exists, andb_true_iff, Z.eqb_eq. split.
  - intros ([[a b] k] & Hin & N). apply in_flat_map in Hin.
    destruct Hin as ([i l] & Hs & Hi). simpl in Hi.
    destruct (len_ltb l thr) eqn:S; [|contradiction].
    destruct Hi as [Hi|[]]. subst i.
    apply selfloop_edges_In in Hs. destruct Hs as (<- & _ & e0 & He0 & K & Hl).
    apply keydict_In in He0. destruct He0 as [He0 J0].
    assert (N0 : names (a, a, k) e0 = true) by (apply names_spec; auto).
    pose proof (names_unique g _ _ _ Hd He He0 N N0) as ->.
    apply joins_spec in J0. unfold short. rewrite Hl.
    split; [destruct J0 as [[? ?]|[? ?]]; congruence | exact S].
  - intros [E S]. exists (e_u e, e_u e, e_key e). split.
    + apply in_flat_map. exists ((e_u e, e_u e, e_key e), length (e_attrs e)). split.
      * apply selfloop_edges_In. split; [reflexivity|]. split.
        -- apply (nodes_ok_spec _ _ Hn He).
        -- exists e. split; [|auto]. apply keydict_In. split; [auto|].
           apply joins_spec. auto.
      * simpl. unfold short in S. rewrite S. simpl. auto.
    + apply names_spec. split; [|reflexivity]. apply joins_spec. auto.
Qed.

Lemma key_of_longest_keydict g g' a b u v :
  keydict g a b = keydict g' u v -> key_of_longest g a b = key_of_longest g' u v.
Proof. unfold key_of_longest. intros ->. reflexivity. Qed.

Lemma named_short_parallels g (thr : L) e :
  well_formed g = true -> In e (g_edges g) ->
  named_by (short_parallels g thr) e
  = (1 <? List.length (keydict g (e_u e) (e_v e)))%nat
    && short thr e
    && negb (e_key e =? key_of_longest g (e_u e) (e_v e)).
Proof.
  intros Hwf He. apply well_formed_spec in Hwf. destruct Hwf as [Hd Hn].
  apply eq_true_iff_eq. unfold named_by, short_parallels.
  rewrite existsb_exists, !andb_true_iff, negb_true_iff, Z.eqb_neq, Nat.ltb_lt. split.
  - intros ([[x y] k] & Hin & N). apply in_flat_map in Hin.
    destruct Hin as ([a b] & Hm & Hs).
    apply small_parallel_edges_In in Hs.
    destruct Hs as (-> & -> & e0 & He0 & K & S & Hk).
    apply multiedge_iter_spec in Hm. destruct Hm as [_ Hlen].
    apply keydict_In in He0. destruct He0 as [He0 J0].
    assert (N0 : names (a, b, k) e0 = true) by (apply names_spec; auto).
    pose proof (names_unique g _ _ _ Hd He He0 N N0) as ->.
    rewrite <- (keydict_joins g _ _ _ J0).
    rewrite <- (key_of_longest_keydict g g _ _ _ _ (keydict_joins g _ _ _ J0)).
    auto.
  - intros [[Hlen S] Hk].
    destruct (graph_edges_complete _ _ Hn He) as (a & b & Hin & J).
    exists (a, b, e_key e). split.
    + apply in_flat_map. exists (a, b). split.
      * apply multiedge_iter_spec. split; [eauto|].
        rewrite (keydict_joins g _ _ _ J). exact Hlen.
      * apply small_parallel_edges_In. split; [auto|]. split; [auto|].
        exists e. split; [apply keydict_In; auto|]. split; [auto|]. split; [auto|].
        rewrite (key_of_longest_keydict g g _ _ _ _ (keydict_joins g _ _ _ J)). exact Hk.
    + apply names_spec. auto.
Qed.

Lemma well_formed_filter g (p : Edge L -> bool) :
  well_formed g = true -> well_formed (with_edges g (filter p (g_edges g))) = true.
Proof.
  intros Hwf. destruct (well_formed_spec _ Hwf) as [Hd Hn].
  apply well_formed_intro.
  - unfold well_formed in Hwf. rewrite !andb_true_iff in Hwf. tauto.
  - cbn [g_edges with_edges]. apply ids_distinct_filter. exact Hd.
  - apply nodes_ok_filter. exact Hn.
  - cbn [g_edges with_edges]. apply grouped_filter, well_formed_grouped, Hwf.
Qed.

(** The edges that are left when [remove_small_mul_all] recomputes the
    flags. *)
Lemma remove_small_mul_all_kept g (thr : L) :
  well_formed g = true ->
  remove_edges_from (remove_edges_from g (short_selfloops g thr))
    (short_parallels (remove_edges_from g (short_selfloops g thr)) thr)
  = with_edges g (filter (fun e => negb (removed_by_small_mul_all thr g e)) (g_edges g)).
Proof.
  intros Hwf. rewrite (remove_edges_from_edges g).
  remember (with_edges g (filter (fun e => negb (existsb (fun i => names i e)
                                                   (short_selfloops g thr))) (g_edges g)))
    as g1 eqn:Eg1.
  assert (Hwf1 : well_formed g1 = true) by (subst g1; apply well_formed_filter; exact Hwf).
  assert (Ee1 : g_edges g1
                = filter (fun e => negb (existsb (fun i => names i e)
                                           (short_selfloops g thr))) (g_edges g))
    by (subst g1; reflexivity).
  rewrite (remove_edges_from_edges g1).
  apply graph_ext; [subst g1; reflexivity | | subst g1; reflexivity].
  cbn [g_edges with_edges]. rewrite Ee1.
  rewrite filter_filter_and. apply filter_ext_in. intros e He.
  fold (named_by (short_selfloops g thr) e).
  rewrite (named_short_selfloops g thr e Hwf He).
  unfold removed_by_small_mul_all.
  destruct (Z.eqb_spec (e_u e) (e_v e)) as [E|E]; cbn [andb negb].
  - destruct (short thr e) eqn:S; cbn [negb andb]; [reflexivity|].
    assert (He1 : In e (g_edges g1)).
    { rewrite Ee1. apply filter_In. split; [exact He|].
      fold (named_by (short_selfloops g thr) e).
      rewrite (named_short_selfloops g thr e Hwf He), S, andb_false_r. reflexivity. }
    fold (named_by (short_parallels g1 thr) e).
    rewrite (named_short_parallels g1 thr e Hwf1 He1), S, andb_false_r. reflexivity.
  - assert (He1 : In e (g_edges g1)).
    { rewrite Ee1. apply filter_In. split; [exact He|].
      fold (named_by (short_selfloops g thr) e).
      rewrite (named_short_selfloops g thr e Hwf He).
      destruct (Z.eqb_spec (e_u e) (e_v e)); [contradiction | reflexivity]. }
    fold (named_by (short_parallels g1 thr) e).
    rewrite (named_short_parallels g1 thr e Hwf1 He1).
    assert (K : keydict g1 (e_u e) (e_v e) = keydict g (e_u e) (e_v e)).
    { rewrite Eg1, keydict_filter. apply filter_all. intros x Hx.
      apply keydict_In in Hx. destruct Hx as [Hx J].
      fold (named_by (short_selfloops g thr) x).
      rewrite (named_short_selfloops g thr x Hwf Hx).
      apply joins_spec in J.
      destruct (Z.eqb_spec (e_u x) (e_v x)) as [Ex|Ex]; [|reflexivity].
      destruct J as [[? ?]|[? ?]]; congruence. }
    rewrite K, (key_of_longest_keydict g1 g _ _ _ _ K). reflexivity.
Qed.

(** ** The longest edge of a pair *)

Section Order.

(** [<] on lengths is a strict order (so it is on floats). *)
Hypothesis ltb_irrefl : forall a : L, len_ltb a a = false.
Hypothesis ltb_trans :
  forall a b c : L, len_ltb a b = true -> len_ltb b c = true -> len_ltb a c = true.

Lemma argmax_from_max (r prefix : list L) (i best : nat) (best_v d : L) :
  i = List.length prefix -> (best < i)%nat -> nth best prefix d = best_v ->
  (forall y, In y prefix -> len_ltb best_v y = false) ->
  (argmax_from r i best best_v < List.length (prefix ++ r))%nat /\
  forall y, In y (prefix ++ r) ->
    len_ltb (nth (argmax_from r i best best_v) (prefix ++ r) d) y = false.
Proof.
  revert prefix i best best_v. induction r as [|x r IH]; intros prefix i best best_v Hi Hb Hn Hm.
  - simpl. rewrite app_nil_r. split; [lia|]. rewrite Hn. exact Hm.
  - cbn [argmax_from].
    replace (prefix ++ x :: r) with ((prefix ++ [x]) ++ r)
      by (rewrite <- app_assoc; reflexivity).
    destruct (len_ltb best_v x) eqn:C.
    + apply IH.
      * rewrite length_app. simpl. lia.
      * lia.
      * subst i. rewrite app_nth2 by lia. rewrite Nat.sub_diag. reflexivity.
      * intros y Hy. apply in_app_or in Hy. destruct Hy as [Hy|[<-|[]]].
        -- destruct (len_ltb x y) eqn:C2; [|reflexivity].
           specialize (Hm y Hy).
           pose proof (ltb_trans _ _ _ C C2). congruence.
        -- apply ltb_irrefl.
    + apply IH.
      * rewrite length_app. simpl. lia.
      * lia.
      * rewrite app_nth1 by lia. exact Hn.
      * intros y Hy. apply in_app_or in Hy. destruct Hy as [Hy|[<-|[]]]; auto.
Qed.

Lemma argmax_max (values : list L) (i : nat) (d : L) :
  argmax values = Ok i ->
  (i < List.length values)%nat /\
  forall y, In y values -> len_ltb (nth i values d) y = false.
Proof.
  destruct values as [|x r]; [discriminate|]. simpl argmax. intros H. injection H as <-.
  apply (argmax_from_max r [x] 1 0 x d); simpl; auto.
  intros y [<-|[]]. apply ltb_irrefl.
Qed.

Lemma longest_kept g (thr : L) u v :
  u <> v -> (1 < List.length (keydict g u v))%nat ->
  exists e, In e (keydict g u v) /\
            e_key e = key_of_longest g u v /\
            removed_by_small_mul_all thr g e = false /\
            forall e', In e' (keydict g u v) ->
              len_ltb (length (e_attrs e)) (length (e_attrs e')) = false.
Proof.
  intros Huv Hlen. unfold key_of_longest.
  destruct (keydict g u v) as [|e0 kd] eqn:K; [simpl in Hlen; lia|].
  destruct (argmax (map (fun e => length (e_attrs e)) (e0 :: kd))) as [i|x] eqn:A;
    [|discriminate].
  destruct (argmax_max _ _ (length (e_attrs e0)) A) as [Hi Hmax].
  rewrite length_map in Hi.
  set (e := nth i (e0 :: kd) e0).
  assert (He : In e (keydict g u v)) by (rewrite K; apply nth_In; exact Hi).
  assert (Hk : e_key e = nth i (keys (e0 :: kd)) 0).
  { unfold keys. rewrite (nth_indep _ 0 (e_key e0)) by (rewrite length_map; exact Hi).
    rewrite map_nth. reflexivity. }
  exists e. rewrite <- K. split; [exact He|]. split; [rewrite K; exact Hk|]. split.
  - unfold removed_by_small_mul_all.
    apply keydict_In in He. destruct He as [_ J]. apply joins_spec in J.
    destruct (Z.eqb_spec (e_u e) (e_v e)) as [E|E];
      [destruct J as [[? ?]|[? ?]]; congruence|].
    assert (Kk : key_of_longest g (e_u e) (e_v e) = e_key e).
    { assert (J' : joins u v e = true) by (apply joins_spec; exact J).
      rewrite <- (key_of_longest_keydict g g _ _ _ _ (keydict_joins g _ _ _ J')).
      unfold key_of_longest. rewrite K, A. symmetry. exact Hk. }
    rewrite Kk, Z.eqb_refl. cbn [negb]. apply andb_false_r.
  - intros e' He'. rewrite K in He'.
    specialize (Hmax (length (e_attrs e'))).
    rewrite (map_nth (fun e => length (e_attrs e))) in Hmax.
    apply Hmax. apply in_map_iff. eauto.
Qed.

(** C5: on a graph as networkx keeps it, [remove_small_mul_all] removes
    exactly the self-loops shorter than the threshold and, for every pair
    of distinct nodes joined by several edges, the edges shorter than the
    threshold other than the one edge the code spares; the edges that are
    left keep their keys, paths and lengths, and the flag of every one of
    them is recomputed.  The spared edge of a pair is never removed, and no
    edge of the pair is longer.  The outcome is the same in whatever order
    the set of [multiedge_iter] yields the pairs. *)
Theorem remove_small_mul_all_spec g (thr : L) :
  well_formed g = true ->
  let kept := filter (fun e => negb (removed_by_small_mul_all thr g e)) (g_edges g) in
  g_edges (remove_small_mul_all g thr) = map (reflag (with_edges g kept)) kept /\
  g_nodes (remove_small_mul_all g thr) = g_nodes g /\
  branch_inv (remove_small_mul_all g thr) /\
  (forall u v, u <> v -> (1 < List.length (keydict g u v))%nat ->
     exists e, In e (keydict g u v) /\
               e_key e = key_of_longest g u v /\
               removed_by_small_mul_all thr g e = false /\
               forall e', In e' (keydict g u v) ->
                 len_ltb (length (e_attrs e)) (length (e_attrs e')) = false) /\
  (let g1 := remove_edges_from g (short_selfloops g thr) in
   forall pairs : list (node * node),
     (forall p, In p pairs <-> In p (multiedge_iter g1)) ->
     add_branch_info
       (remove_edges_from g1 (flat_map (small_parallel_edges g1 thr) pairs))
     = remove_small_mul_all g thr).
Proof.
  intros Hwf kept.
  assert (O : let g1 := remove_edges_from g (short_selfloops g thr) in
              forall pairs : list (node * node),
                (forall p, In p pairs <-> In p (multiedge_iter g1)) ->
                add_branch_info
                  (remove_edges_from g1 (flat_map (small_parallel_edges g1 thr) pairs))
                = remove_small_mul_all g thr).
  { intros g1 pairs Hp. rewrite remove_small_mul_all_unfold. fold g1. f_equal.
    apply remove_edges_from_members. unfold short_parallels.
    apply flat_map_members. exact Hp. }
  rewrite remove_small_mul_all_unfold, remove_small_mul_all_kept in * by exact Hwf.
  fold kept.
  assert (Hn : nodes_ok (with_edges g kept) = true).
  { apply nodes_ok_filter. apply well_formed_spec in Hwf. tauto. }
  rewrite add_branch_info_edges by exact Hn.
  split; [reflexivity|]. split; [reflexivity|]. split; [|split].
  - apply branch_inv_reflag.
  - intros u v. apply longest_kept.
  - fold kept in O. rewrite add_branch_info_edges in O by exact Hn. exact O.
Qed.

End Order.

(** ** Nodes of degree two *)

Lemma ends_at_le_2 n e : (ends_at n e <= 2)%nat.
Proof. unfold ends_at. destruct (e_u e =? n), (e_v e =? n); simpl; lia. Qed.

Lemma ends_at_2 n e : ends_at n e = 2%nat <-> e_u e = n /\ e_v e = n.
Proof.
  unfold ends_at.
  destruct (Z.eqb_spec (e_u e) n), (Z.eqb_spec (e_v e) n); simpl;
    split; try lia; try tauto; intros; lia.
Qed.

Lemma ends_at_1 n e :
  ends_at n e = 1%nat <-> (e_u e = n /\ e_v e <> n) \/ (e_u e <> n /\ e_v e = n).
Proof.
  unfold ends_at.
  destruct (Z.eqb_spec (e_u e) n), (Z.eqb_spec (e_v e) n); simpl;
    split; try lia; try tauto; intros; lia.
Qed.

Lemma incident_touches g n e : In e (incident g n) -> touches n e = true.
Proof. unfold incident. rewrite filter_In. tauto. Qed.

Lemma degree_2_incident g n :
  degree g n = 2%nat ->
  (exists e, incident g n = [e] /\ e_u e = n /\ e_v e = n) \/
  (exists e1 e2, incident g n = [e1; e2] /\ ends_at n e1 = 1%nat /\ ends_at n e2 = 1%nat).
Proof.
  rewrite degree_incident. intros H.
  assert (T : forall e, In e (incident g n) -> (1 <= ends_at n e <= 2)%nat).
  { intros e He. split; [apply ends_at_touches, incident_touches with g; exact He
                        | apply ends_at_le_2]. }
  destruct (incident g n) as [|e1 [|e2 [|e3 r]]]; simpl in H.
  - lia.
  - left. exists e1. split; [reflexivity|]. apply ends_at_2. lia.
  - right. exists e1, e2. split; [reflexivity|].
    pose proof (T e1 (or_introl eq_refl)). pose proof (T e2 (or_intror (or_introl eq_refl))).
    lia.
  - pose proof (T e1 (or_introl eq_refl)). pose proof (T e2 (or_intror (or_introl eq_refl))).
    pose proof (T e3 (or_intror (or_intror (or_introl eq_refl)))). lia.
Qed.

Lemma other_end_spec n e :
  ends_at n e = 1%nat ->
  other_end n e <> n /\ joins n (other_end n e) e = true /\ nbr_of n e = [other_end n e].
Proof.
  intros H. apply ends_at_1 in H. unfold other_end, nbr_of. rewrite joins_spec.
  destruct H as [[Hu Hv]|[Hu Hv]].
  - rewrite Hu, Z.eqb_refl. auto.
  - destruct (Z.eqb_spec (e_u e) n); [contradiction|].
    rewrite Hv, Z.eqb_refl. auto.
Qed.

Lemma neighbors_eq g n : neighbors g n = dedup (flat_map (nbr_of n) (incident g n)) [].
Proof. unfold neighbors, incident. rewrite <- flat_map_nbr_incident. reflexivity. Qed.

(** The outcome of [two_neighbors_data] at a node of degree two: the two
    edges at the node, one for each of the neighbours it returns. *)
Lemma tnd_degree_2 g n nt nei1 nei2 k1 k2 :
  degree g n = 2%nat ->
  two_neighbors_data g n (Some nt) = Ok (nei1, nei2, k1, k2) ->
  nei1 <> n /\ nei2 <> n /\
  (nt = Simple /\ nei1 <> nei2 \/ nt = Multiple /\ nei1 = nei2) /\
  exists f1 f2,
    joins n nei1 f1 = true /\ joins n nei2 f2 = true /\
    e_key f1 = k1 /\ e_key f2 = k2 /\
    (incident g n = [f1; f2] \/ incident g n = [f2; f1]).
Proof.
  intros Hd H.
  destruct (degree_2_incident _ _ Hd) as [(e & Hi & Eu & Ev)|(e1 & e2 & Hi & D1 & D2)].
  - (* a self-loop: [two_neighbors_data] does not return *)
    exfalso.
    assert (Hn : neighbors g n = [n]).
    { rewrite neighbors_eq, Hi. simpl. unfold nbr_of. rewrite Eu, Z.eqb_refl, Ev. reflexivity. }
    destruct (tnd_type _ _ _ _ H) as [-> | ->].
    + apply tnd_simple in H. destruct H as (a & b & Hab & _). congruence.
    + apply tnd_multiple in H. destruct H as (_ & (r & Hr) & Hk).
      rewrite Hn in Hr. injection Hr as <- <-.
      rewrite keydict_incident, Hi in Hk. simpl in Hk.
      destruct (joins n n e); discriminate.
  - destruct (other_end_spec _ _ D1) as (O1 & J1 & N1).
    destruct (other_end_spec _ _ D2) as (O2 & J2 & N2).
    remember (other_end n e1) as x1 eqn:X1. remember (other_end n e2) as x2 eqn:X2.
    clear X1 X2.
    assert (Hn : neighbors g n = if x2 =? x1 then [x1] else [x1; x2]).
    { rewrite neighbors_eq, Hi. simpl. rewrite N1, N2. simpl.
      rewrite orb_false_r. destruct (x2 =? x1); reflexivity. }
    assert (K : forall y, keydict g n y
                          = (if joins n y e1 then [e1] else [])
                            ++ (if joins n y e2 then [e2] else [])).
    { intros y. rewrite keydict_incident, Hi. simpl.
      destruct (joins n y e1), (joins n y e2); reflexivity. }
    destruct (Z.eqb_spec x2 x1) as [E|E].
    + (* one neighbour *)
      destruct (tnd_type _ _ _ _ H) as [-> | ->].
      * apply tnd_simple in H. destruct H as (a & b & Hab & _). congruence.
      * apply tnd_multiple in H. destruct H as (<- & (r & Hr) & Hk).
        rewrite Hn in Hr. injection Hr as <- <-.
        subst x2. rewrite K, J1, J2 in Hk. simpl in Hk. injection Hk as <- <-.
        split; [auto|]. split; [auto|]. split; [right; auto|].
        exists e1, e2. repeat split; auto.
    + (* two neighbours *)
      assert (J12 : joins n x1 e2 = false).
      { destruct (joins n x1 e2) eqn:J; [|reflexivity].
        pose proof (joins_same_pair _ _ _ _ J J2). congruence. }
      assert (J21 : joins n x2 e1 = false).
      { destruct (joins n x2 e1) eqn:J; [|reflexivity].
        pose proof (joins_same_pair _ _ _ _ J J1). congruence. }
      destruct (tnd_type _ _ _ _ H) as [-> | ->].
      * apply tnd_simple in H.
        destruct H as (a & b & Hab & Hor & Hlt & G1 & G2).
        rewrite Hn in Hab. injection Hab as <- <-.
        unfold get_single_edge_key in G1, G2. rewrite K in G1, G2.
        destruct Hor as [[-> ->]|[-> ->]].
        -- rewrite J1, J12 in G1. rewrite J21, J2 in G2. simpl in G1, G2.
           injection G1 as <-. injection G2 as <-.
           split; [auto|]. split; [auto|]. split; [left; split; [auto|lia]|].
           exists e1, e2. repeat split; auto.
        -- rewrite J21, J2 in G1. rewrite J1, J12 in G2. simpl in G1, G2.
           injection G1 as <-. injection G2 as <-.
           split; [auto|]. split; [auto|]. split; [left; split; [auto|lia]|].
           exists e2, e1. repeat split; auto.
      * apply tnd_multiple in H. destruct H as (<- & (r & Hr) & Hk).
        rewrite Hn in Hr. injection Hr as <- <-.
        rewrite K, J1, J12 in Hk. discriminate.
Qed.

(** ** Fresh keys *)

Lemma free_key_spec (ks : list Z) (k : Z) (fuel : nat) :
  ~ In (free_key ks k fuel) ks \/
  (free_key ks k fuel = k + Z.of_nat fuel /\
   forall j, k <= j < k + Z.of_nat fuel -> In j ks).
Proof.
  revert k. induction fuel as [|fuel IH]; intros k.
  - right. simpl. split; [lia | intros j Hj; lia].
  - cbn [free_key]. destruct (existsb (Z.eqb k) ks) eqn:X.
    + apply existsb_eqb_In in X. destruct (IH (k + 1)) as [H|[H1 H2]]; [auto|].
      right. split; [lia|]. intros j Hj.
      destruct (Z.eq_dec j k) as [->|Hne]; [exact X | apply H2; lia].
    + left. intros H. apply existsb_eqb_In in H. congruence.
Qed.

Lemma free_key_fresh (ks : list Z) :
  ~ In (free_key ks (Z.of_nat (List.length ks)) (List.length ks)) ks.
Proof.
  destruct (free_key_spec ks (Z.of_nat (List.length ks)) (List.length ks)) as [H|[H1 H2]];
    [exact H|].
  rewrite H1. intros Hin.
  set (k := Z.of_nat (List.length ks)) in *.
  set (l := map (fun m : nat => k + Z.of_nat m) (seq 0 (S (List.length ks)))).
  assert (ND : NoDup l).
  { unfold l. apply NoDup_map_NoDup_ForallPairs; [|apply seq_NoDup].
    intros x y _ _ Hxy. lia. }
  assert (Hincl : incl l ks).
  { intros j Hj. unfold l in Hj. apply in_map_iff in Hj. destruct Hj as (m & <- & Hi).
    apply in_seq in Hi. destruct (Nat.eq_dec m (List.length ks)) as [->|Hne].
    - exact Hin.
    - apply H2. lia. }
  pose proof (NoDup_incl_length ND Hincl) as Hlen.
  unfold l in Hlen. rewrite length_map, length_seq in Hlen. lia.
Qed.
(** ** The graph after the two edges of a node are merged *)

Lemma list_sum_filter_split (A : Type) (f : A -> nat) (p : A -> bool) (l : list A) :
  list_sum (map f l)
  = (list_sum (map f (filter p l)) + list_sum (map f (filter (fun x => negb (p x)) l)))%nat.
Proof.
  induction l as [|x l IH]; simpl; [reflexivity|].
  destruct (p x); simpl; lia.
Qed.

Lemma ends_at_joins n y x e :
  joins n y e = true -> n <> x -> ends_at x e = if y =? x then 1%nat else 0%nat.
Proof.
  rewrite joins_spec. unfold ends_at. intros [[-> ->]|[-> ->]] Hn;
    destruct (Z.eqb_spec n x); try contradiction; destruct (y =? x); reflexivity.
Qed.

Lemma list_sum_not_touching (es : list (Edge L)) n :
  list_sum (map (ends_at n) (filter (fun e => negb (touches n e)) es)) = 0%nat.
Proof.
  induction es as [|e es IH]; simpl; [reflexivity|].
  destruct (touches n e) eqn:T; simpl; [exact IH|].
  rewrite ends_at_not_touches by exact T. exact IH.
Qed.

Section Merge.

Variables (g : MultiGraph L) (n : node) (nt : node_type) (nei1 nei2 : node) (k1 k2 : Z).
Hypothesis Hdeg : degree g n = 2%nat.
Hypothesis Htnd : two_neighbors_data g n (Some nt) = Ok (nei1, nei2, k1, k2).

Lemma named_touches e :
  In e (g_edges g) -> named_by [(n, nei1, k1); (n, nei2, k2)] e = touches n e.
Proof.
  intros He. destruct (tnd_degree_2 _ _ _ _ _ _ _ Hdeg Htnd)
    as (_ & _ & _ & f1 & f2 & J1 & J2 & K1 & K2 & Hi).
  apply eq_true_iff_eq. unfold named_by. rewrite existsb_exists. split.
  - intros ([[a b] k] & [E|[E|[]]] & N); injection E as <- <- <-;
      apply names_spec in N; destruct N as [J _]; apply (joins_touches _ _ _ J).
  - intros T.
    assert (Hin : In e (incident g n)) by (apply filter_In; auto).
    assert (E : e = f1 \/ e = f2).
    { destruct Hi as [Hi|Hi]; rewrite Hi in Hin; simpl in Hin; intuition. }
    destruct E as [-> | ->].
    + exists (n, nei1, k1). split; [simpl; auto | apply names_spec; auto].
    + exists (n, nei2, k2). split; [simpl; auto | apply names_spec; auto].
Qed.

Lemma g_edges_merged_2 (a : EdgeAttrs L) :
  exists key,
    g_edges (merged g n nei1 k1 nei2 k2 a)
    = insert_edge nei1 nei2 (mkEdge nei1 nei2 key a)
        (filter (fun e => negb (touches n e)) (g_edges g)) /\
    ~ In key (keys (filter (joins nei1 nei2)
                      (filter (fun e => negb (touches n e)) (g_edges g)))).
Proof.
  exists (new_edge_key (remove_edges_from g [(n, nei1, k1); (n, nei2, k2)]) nei1 nei2).
  assert (E : filter (fun e => negb (named_by [(n, nei1, k1); (n, nei2, k2)] e)) (g_edges g)
              = filter (fun e => negb (touches n e)) (g_edges g)).
  { apply filter_ext_in. intros e He. rewrite named_touches by exact He. reflexivity. }
  split.
  - rewrite g_edges_merged, E. reflexivity.
  - unfold new_edge_key, keydict. rewrite remove_edges_from_edges. cbn [g_edges with_edges].
    unfold named_by in E. rewrite E. apply free_key_fresh.
Qed.

Lemma degree_merged (a : EdgeAttrs L) :
  degree (merged g n nei1 k1 nei2 k2 a) n = 0%nat /\
  forall x, x <> n -> degree (merged g n nei1 k1 nei2 k2 a) x = degree g x.
Proof.
  destruct (g_edges_merged_2 a) as (key & E & _).
  destruct (tnd_degree_2 _ _ _ _ _ _ _ Hdeg Htnd)
    as (N1 & N2 & _ & f1 & f2 & J1 & J2 & K1 & K2 & Hi).
  assert (D : forall x,
             degree (merged g n nei1 k1 nei2 k2 a) x
             = (list_sum (map (ends_at x) (filter (fun e => negb (touches n e)) (g_edges g)))
                + ends_at x (mkEdge nei1 nei2 key a))%nat).
  { intros x. unfold degree. rewrite E, insert_edge_sum. reflexivity. }
  split.
  - rewrite D, list_sum_not_touching. unfold ends_at. cbn [e_u e_v].
    destruct (Z.eqb_spec nei1 n), (Z.eqb_spec nei2 n); try contradiction. reflexivity.
  - intros x Hx. rewrite D. unfold degree.
    rewrite (list_sum_filter_split _ (ends_at x) (touches n) (g_edges g)).
    fold (incident g n).
    assert (S : list_sum (map (ends_at x) (incident g n))
                = Nat.add (if nei1 =? x then 1%nat else 0%nat)
                          (if nei2 =? x then 1%nat else 0%nat)).
    { assert (Hxn : n <> x) by auto.
      destruct Hi as [-> | ->]; cbn [map list_sum];
        rewrite (ends_at_joins _ _ _ _ J1 Hxn), (ends_at_joins _ _ _ _ J2 Hxn);
        destruct (nei1 =? x), (nei2 =? x); reflexivity. }
    rewrite S. unfold ends_at at 2. cbn [e_u e_v].
    destruct (nei1 =? x), (nei2 =? x); simpl; lia.
Qed.

End Merge.

(** ** The flags and the degrees *)

Lemma branch_inv_flag g :
  branch_inv g <-> forall e, In e (g_edges g) -> is_branch (e_attrs e) = flag_of g e.
Proof.
  unfold branch_inv, flag_of. split; intros H e He; specialize (H e He).
  - apply eq_true_iff_eq. rewrite orb_true_iff, !Nat.eqb_eq. exact H.
  - rewrite H, orb_true_iff, !Nat.eqb_eq. tauto.
Qed.

Lemma flag_of_same g g' e :
  ((degree g' (e_u e) =? 1) = (degree g (e_u e) =? 1))%nat ->
  ((degree g' (e_v e) =? 1) = (degree g (e_v e) =? 1))%nat ->
  flag_of g' e = flag_of g e.
Proof. unfold flag_of. intros -> ->. reflexivity. Qed.

(** At a node of degree one there is one edge. *)
Lemma degree_1_incident g n :
  degree g n = 1%nat -> exists e, incident g n = [e] /\ ends_at n e = 1%nat.
Proof.
  rewrite degree_incident. intros H.
  assert (T : forall e, In e (incident g n) -> (1 <= ends_at n e)%nat).
  { intros e He. apply ends_at_touches, incident_touches with g. exact He. }
  destruct (incident g n) as [|e1 [|e2 r]]; simpl in H.
  - lia.
  - exists e1. split; [reflexivity | lia].
  - pose proof (T e1 (or_introl eq_refl)). pose proof (T e2 (or_intror (or_introl eq_refl))).
    lia.
Qed.

Lemma degree_1_unique g n e e' :
  degree g n = 1%nat -> In e (g_edges g) -> In e' (g_edges g) ->
  touches n e = true -> touches n e' = true -> e = e'.
Proof.
  intros H He He' T T'. destruct (degree_1_incident _ _ H) as (e0 & Hi & _).
  assert (I1 : In e (incident g n)) by (apply filter_In; auto).
  assert (I2 : In e' (incident g n)) by (apply filter_In; auto).
  rewrite Hi in I1, I2. simpl in I1, I2. intuition congruence.
Qed.

Lemma degree_0_no_edge g n e :
  degree g n = 0%nat -> In e (g_edges g) -> touches n e = false.
Proof.
  rewrite degree_incident. intros H He.
  destruct (touches n e) eqn:T; [|reflexivity].
  assert (I1 : In e (incident g n)) by (apply filter_In; auto).
  pose proof (ends_at_touches _ _ T).
  destruct (incident g n) as [|e1 r]; [contradiction|].
  simpl in H, I1. destruct I1 as [->|I1]; [lia|].
  assert (list_sum (map (ends_at n) r) = 0)%nat by lia.
  clear - H1 I1 H0. induction r as [|y r IH]; [contradiction|].
  simpl in H1, I1. destruct I1 as [->|I1]; [lia | apply IH; auto; lia].
Qed.

Lemma degree_ge_touching g n e :
  In e (g_edges g) -> (ends_at n e <= degree g n)%nat.
Proof.
  unfold degree. induction (g_edges g) as [|x l IH]; simpl; [contradiction|].
  intros [->|H]; [lia | specialize (IH H); lia].
Qed.

Lemma degree_ge_two_touching g n e e' :
  In e (g_edges g) -> In e' (g_edges g) -> e <> e' ->
  (ends_at n e + ends_at n e' <= degree g n)%nat.
Proof.
  unfold degree. induction (g_edges g) as [|x l IH]; simpl; [contradiction|].
  intros [->|H] [->|H'] Hne.
  - contradiction.
  - pose proof (degree_ge_touching (with_edges g l) n e' H') as D.
    unfold degree in D. simpl in D. lia.
  - pose proof (degree_ge_touching (with_edges g l) n e H) as D.
    unfold degree in D. simpl in D. lia.
  - specialize (IH H H' Hne). lia.
Qed.

(** ** Removing one edge by its key *)

Lemma filter_names_unique (l : list (Edge L)) i s :
  ids_distinct l = true -> In s l -> names i s = true -> filter (names i) l = [s].
Proof.
  induction l as [|x l IH]; simpl; [contradiction|].
  rewrite andb_true_iff, negb_true_iff. intros [Hx Hl] Hs N.
  assert (Same : forall y : Edge L, names i x = true -> names i y = true ->
                   names (id_of x) y = true).
  { intros y Nx Ny. destruct i as [[a b] k]. apply names_spec in Nx, Ny.
    destruct Nx as [Jx Kx], Ny as [Jy Ky]. unfold id_of. apply names_spec.
    split; [|congruence]. apply joins_spec in Jx, Jy. apply joins_spec.
    destruct Jx as [[? ?]|[? ?]], Jy as [[? ?]|[? ?]]; subst; auto. }
  destruct (names i x) eqn:Nx.
  - assert (E : filter (names i) l = []).
    { destruct (filter (names i) l) as [|y r] eqn:F; [reflexivity|].
      assert (Hy : In y (filter (names i) l)) by (rewrite F; left; reflexivity).
      apply filter_In in Hy. destruct Hy as [Hy Ny].
      assert (existsb (names (id_of x)) l = true); [|congruence].
      apply existsb_exists. exists y. split; [auto | apply Same; auto]. }
    rewrite E. destruct Hs as [->|Hs]; [reflexivity|].
    exfalso. assert (existsb (names (id_of x)) l = true); [|congruence].
    apply existsb_exists. exists s. split; [auto | apply Same; auto].
  - destruct Hs as [->|Hs]; [congruence|]. apply IH; auto.
Qed.

Lemma degree_remove_unique g i s n :
  ids_distinct (g_edges g) = true -> In s (g_edges g) -> names i s = true ->
  (degree (with_edges g (filter (fun e => negb (names i e)) (g_edges g))) n
   + ends_at n s = degree g n)%nat.
Proof.
  intros Hd Hs N. unfold degree. cbn [g_edges with_edges].
  rewrite (list_sum_filter_split _ (ends_at n) (names i) (g_edges g)).
  rewrite (filter_names_unique _ _ _ Hd Hs N). simpl. lia.
Qed.

Lemma in_remove_unique g i s e :
  ids_distinct (g_edges g) = true -> In s (g_edges g) -> names i s = true ->
  (In e (filter (fun e => negb (names i e)) (g_edges g)) <-> In e (g_edges g) /\ e <> s).
Proof.
  intros Hd Hs N. rewrite filter_In, negb_true_iff. split.
  - intros [He Ne]. split; [auto|]. intros ->. congruence.
  - intros [He Ne]. split; [auto|]. destruct (names i e) eqn:N'; [|reflexivity].
    exfalso. apply Ne. eapply names_unique; eauto.
Qed.

Lemma fresh_not_named (l : list (Edge L)) (new : Edge L) :
  ~ In (e_key new) (keys (filter (joins (e_u new) (e_v new)) l)) ->
  existsb (names (id_of new)) l = false.
Proof.
  intros Hf. destruct (existsb (names (id_of new)) l) eqn:X; [|reflexivity].
  exfalso. apply Hf. apply existsb_exists in X. destruct X as (y & Hy & N).
  unfold id_of in N. apply names_spec in N. destruct N as [J K].
  apply in_map_iff. exists y. split; [exact K|]. apply filter_In. auto.
Qed.

Lemma ids_distinct_insert_new u v (l : list (Edge L)) (new : Edge L) :
  ids_distinct l = true ->
  ~ In (e_key new) (keys (filter (joins (e_u new) (e_v new)) l)) ->
  ids_distinct (insert_edge u v new l) = true.
Proof.
  intros Hl Hf. induction l as [|x l IH]; [reflexivity|].
  assert (Hx' : names (id_of x) new = false).
  { destruct (names (id_of x) new) eqn:N; [|reflexivity].
    exfalso. apply Hf. apply names_id_of_sym in N. unfold id_of in N.
    apply names_spec in N. destruct N as [J K]. cbn [filter]. rewrite J.
    left. exact K. }
  assert (Hf' : ~ In (e_key new) (keys (filter (joins (e_u new) (e_v new)) l))).
  { intros H. apply Hf. cbn [filter].
    destruct (joins (e_u new) (e_v new) x); [right; exact H | exact H]. }
  cbn [ids_distinct] in Hl.
  rewrite andb_true_iff, negb_true_iff in Hl. destruct Hl as [Hx Hl].
  cbn [insert_edge].
  destruct (joins u v x && negb (existsb (joins u v) l)).
  - cbn [ids_distinct existsb]. rewrite Hx', Hx, (fresh_not_named _ _ Hf'), Hl.
    reflexivity.
  - cbn [ids_distinct]. rewrite insert_edge_existsb, Hx', Hx, (IH Hl Hf').
    reflexivity.
Qed.

Lemma ids_distinct_map (h : Edge L -> Edge L) (l : list (Edge L)) :
  (forall e, id_of (h e) = id_of e) ->
  ids_distinct (map h l) = ids_distinct l.
Proof.
  intros H.
  assert (N : forall i e, names i (h e) = names i e).
  { intros [[a b] k] e. specialize (H e). unfold id_of in H. injection H as H1 H2 H3.
    cbn [names]. unfold joins. rewrite H1, H2, H3. reflexivity. }
  assert (X : forall i (l0 : list (Edge L)),
             existsb (names i) (map h l0) = existsb (names i) l0).
  { intros i l0. induction l0 as [|y l0 IHl]; simpl; [reflexivity|].
    rewrite N, IHl. reflexivity. }
  induction l as [|x l IH]; simpl; [reflexivity|].
  rewrite IH, H, X. reflexivity.
Qed.

Lemma ids_distinct_set_is_branch g i b :
  ids_distinct (g_edges (set_is_branch g i b)) = ids_distinct (g_edges g).
Proof.
  unfold set_is_branch. cbn [g_edges with_edges]. apply ids_distinct_map.
  intros e. destruct (names i e); reflexivity.
Qed.

(** ** The work list under [handle_new_multiedge] *)

Lemma list_remove_spec (l l' : list node) x :
  NoDup l -> list_remove l x = Ok l' ->
  NoDup l' /\ forall m, In m l' <-> In m l /\ m <> x.
Proof.
  revert l'. induction l as [|y l IH]; intros l' ND; simpl; [discriminate|].
  inversion ND as [|? ? Hy ND']; subst.
  destruct (Z.eqb_spec y x) as [->|Hne].
  - intros H. injection H as <-. split; [exact ND'|]. intros m. split.
    + intros Hm. split; [auto|]. intros ->. contradiction.
    + intros [[->|Hm] Hn]; [contradiction | exact Hm].
  - destruct (list_remove l x) as [r|] eqn:E; [|discriminate].
    intros H. injection H as <-. destruct (IH r ND' eq_refl) as [ND1 M]. split.
    + constructor; [|exact ND1]. rewrite M. tauto.
    + intros m. simpl. rewrite M. split.
      * intros [->|[Hm Hn]]; auto.
      * intros [[->|Hm] Hn]; auto.
Qed.

Lemma list_remove_absent (l : list node) x :
  ~ In x l -> list_remove l x = Raise ValueError.
Proof.
  induction l as [|y l IH]; simpl; [reflexivity|]. intros H.
  destruct (Z.eqb_spec y x) as [->|Hne]; [tauto|]. rewrite IH by tauto. reflexivity.
Qed.

Lemma list_remove_present (l : list node) x :
  In x l -> exists l', list_remove l x = Ok l'.
Proof.
  induction l as [|y l IH]; simpl; [contradiction|]. intros H.
  destruct (Z.eqb_spec y x) as [->|Hne]; [eauto|].
  destruct H as [->|H]; [contradiction|]. destruct (IH H) as (r & ->). eauto.
Qed.

Lemma remove_if_in_list_spec (l : list node) x :
  NoDup l ->
  NoDup (remove_if_in_list l x) /\
  forall m, In m (remove_if_in_list l x) <-> In m l /\ m <> x.
Proof.
  intros ND. unfold remove_if_in_list.
  destruct (list_remove l x) as [r|e] eqn:E.
  - apply list_remove_spec with (l := l); auto.
  - split; [exact ND|]. intros m. split; [|tauto]. intros Hm. split; [auto|].
    intros ->. destruct (list_remove_present _ _ Hm) as (r & Hr). congruence.
Qed.

Lemma visit_update_spec g (l : list node) x :
  NoDup l -> (In x l -> degree g x = 1%nat) ->
  NoDup (visit_update g l x) /\
  forall m, In m (visit_update g l x) <->
            (m = x /\ degree g x = 2%nat) \/ (m <> x /\ In m l).
Proof.
  intros ND Hx. unfold visit_update.
  destruct (Nat.eqb_spec (degree g x) 2) as [D2|D2].
  - assert (Hn : ~ In x l) by (intros H; apply Hx in H; lia).
    split.
    + apply NoDup_app; [exact ND | constructor; [simpl; tauto | constructor] |].
      intros y Hy [<-|[]]. contradiction.
    + intros m. rewrite in_app_iff. simpl. split.
      * intros [Hm|[<-|[]]]; [right; split; [intros ->; contradiction | auto] | auto].
      * intros [[-> _]|[_ Hm]]; auto.
  - destruct (Nat.eqb_spec (degree g x) 1) as [D1|D1].
    + destruct (remove_if_in_list_spec l x ND) as [ND' M]. split; [exact ND'|].
      intros m. rewrite M. split; [intros [? ?]; auto|].
      intros [[_ ?]|[? ?]]; [contradiction | auto].
    + assert (Hn : ~ In x l) by (intros H; apply Hx in H; lia).
      split; [exact ND|]. intros m. split.
      * intros Hm. right. split; [intros ->; contradiction | auto].
      * intros [[_ ?]|[_ ?]]; [contradiction | auto].
Qed.

Lemma handle_new_multiedge_inv g u v (thr : L) (l : list node) g' l' b :
  handle_new_multiedge g u v thr l = Ok (g', l', b) ->
  exists w, remove_small_mul g u v (len_twice thr) = Ok (g', w) /\
            if w
            then l' = visit_update g' (visit_update g' l u) v /\
                 b = (degree g' u =? 1)%nat || (degree g' v =? 1)%nat
            else l' = l /\ b = false.
Proof.
  unfold handle_new_multiedge, visit_update. intros H. inv_bind H. destruct a as [g1 w].
  exists w. destruct w.
  - destruct (degree g1 u =? 2)%nat eqn:U2, (degree g1 u =? 1)%nat eqn:U1,
      (degree g1 v =? 2)%nat eqn:V2, (degree g1 v =? 1)%nat eqn:V1;
      try (apply Nat.eqb_eq in U2; apply Nat.eqb_eq in U1; lia);
      try (apply Nat.eqb_eq in V2; apply Nat.eqb_eq in V1; lia);
      injection H as <- <- <-; rewrite ?U2, ?U1, ?V2, ?V1; auto.
  - injection H as <- <- <-. auto.
Qed.

Lemma remove_small_mul_inv g u v (thr : L) g' w :
  remove_small_mul g u v thr = Ok (g', w) ->
  if w
  then exists s, In s (keydict g u v) /\
                 g' = with_edges g (filter (fun e => negb (names (u, v, e_key s) e))
                                      (g_edges g))
  else g' = g.
Proof.
  unfold remove_small_mul. destruct (keydict g u v) as [|e0 kd] eqn:K; [discriminate|].
  intros H. inv_bind H.
  destruct (len_ltb _ thr).
  - inv_bind H. injection H as <- <-. apply remove_edge_edges in Ha0.
    exists (nth a (e0 :: kd) e0). split; [|exact Ha0].
    destruct (Nat.lt_ge_cases a (List.length (e0 :: kd))) as [Hlt|Hge].
    + apply nth_In. exact Hlt.
    + rewrite nth_overflow by exact Hge. left. reflexivity.
  - injection H as <- <-. reflexivity.
Qed.

(** ** Setting the flag of the edge that became a branch *)

Lemma flag_of_set_is_branch g i b e : flag_of (set_is_branch g i b) e = flag_of g e.
Proof. unfold flag_of. rewrite !degree_set_is_branch. reflexivity. Qed.

Lemma joins_flag_true g a b e :
  joins a b e = true -> degree g a = 1%nat \/ degree g b = 1%nat -> flag_of g e = true.
Proof.
  intros J H. unfold flag_of. apply joins_spec in J.
  rewrite orb_true_iff, !Nat.eqb_eq. destruct J as [[-> ->]|[-> ->]]; tauto.
Qed.

Lemma finish_flags g nei1 nei2 key :
  get_single_edge_key g nei1 nei2 = Ok key ->
  degree g nei1 = 1%nat \/ degree g nei2 = 1%nat ->
  (forall e, In e (g_edges g) -> joins nei1 nei2 e = false ->
             is_branch (e_attrs e) = flag_of g e) ->
  branch_inv (set_is_branch g (nei1, nei2, key) true).
Proof.
  intros Hk Hd Hf. apply branch_inv_flag. intros e' He'.
  rewrite flag_of_set_is_branch.
  unfold set_is_branch in He'. cbn [g_edges with_edges] in He'.
  apply in_map_iff in He'. destruct He' as (e & <- & He).
  apply get_single_edge_key_In in Hk. destruct Hk as (e0 & He0 & N0 & _).
  destruct (names (nei1, nei2, key) e) eqn:N.
  - cbn [e_attrs is_branch]. symmetry.
    apply names_spec in N. destruct N as [J _].
    apply (joins_flag_true g nei1 nei2); [|exact Hd].
    apply joins_spec. cbn [e_u e_v]. apply joins_spec in J. exact J.
  - destruct (joins nei1 nei2 e) eqn:J; [|apply Hf; auto].
    exfalso. apply names_spec in N0. destruct N0 as [J0 K0].
    destruct (joins_touches _ _ _ J) as [T1 T2].
    destruct (joins_touches _ _ _ J0) as [T01 T02].
    assert (e = e0).
    { destruct Hd as [Hd|Hd];
        [apply (degree_1_unique g nei1) | apply (degree_1_unique g nei2)]; auto. }
    subst e0. rewrite (proj2 (names_spec _ _ _ _) (conj J K0)) in N. discriminate.
Qed.

(** ** [handle_new_multiedge] on a graph that satisfies the invariants *)

Section MultiStep.

Variables (G : MultiGraph L) (nei1 nei2 : node).
Hypothesis Hd : ids_distinct (g_edges G) = true.
Hypothesis Hb : branch_inv G.
Hypothesis Hne : nei1 <> nei2.
Hypothesis D1 : (2 <= degree G nei1)%nat.
Hypothesis D2 : (2 <= degree G nei2)%nat.

Lemma remove_small_mul_true (thr : L) g3 :
  remove_small_mul G nei1 nei2 thr = Ok (g3, true) ->
  exists s, In s (g_edges G) /\ joins nei1 nei2 s = true /\
    (forall e, In e (g_edges g3) <-> In e (g_edges G) /\ e <> s) /\
    (degree g3 nei1 + 1 = degree G nei1)%nat /\
    (degree g3 nei2 + 1 = degree G nei2)%nat /\
    (forall x, x <> nei1 -> x <> nei2 -> degree g3 x = degree G x) /\
    ids_distinct (g_edges g3) = true.
Proof.
  intros H. apply remove_small_mul_inv in H. destruct H as (s & Hs & ->).
  apply keydict_In in Hs. destruct Hs as [Hs J].
  assert (N : names (nei1, nei2, e_key s) s = true) by (apply names_spec; auto).
  exists s. split; [exact Hs|]. split; [exact J|]. split.
  { intros e. cbn [g_edges with_edges]. apply in_remove_unique; auto. }
  assert (J' : joins nei2 nei1 s = true) by (rewrite joins_sym; exact J).
  split; [|split; [|split]].
  - pose proof (degree_remove_unique G _ s nei1 Hd Hs N) as E.
    rewrite (ends_at_joins _ _ _ _ J' (not_eq_sym Hne)), Z.eqb_refl in E. exact E.
  - pose proof (degree_remove_unique G _ s nei2 Hd Hs N) as E.
    rewrite (ends_at_joins _ _ _ _ J Hne), Z.eqb_refl in E. exact E.
  - intros x X1 X2. pose proof (degree_remove_unique G _ s x Hd Hs N) as E.
    rewrite (ends_at_not_touches _ _
               (joins_not_touches _ _ _ _ J (not_eq_sym X1) (not_eq_sym X2))) in E. lia.
  - cbn [g_edges with_edges]. apply ids_distinct_filter. exact Hd.
Qed.

Lemma multi_step (thr : L) (visit : list node) g3 (tv3 : list node) (b3 : bool) :
  NoDup visit -> (forall m, In m visit -> degree G m = 2%nat) ->
  handle_new_multiedge G nei1 nei2 thr visit = Ok (g3, tv3, b3) ->
  ids_distinct (g_edges g3) = true /\
  NoDup tv3 /\ (forall m, In m tv3 -> degree g3 m = 2%nat) /\
  (forall x, degree g3 x <= degree G x)%nat /\
  (forall x, x <> nei1 -> x <> nei2 -> degree g3 x = degree G x) /\
  (forall e, In e (g_edges g3) -> In e (g_edges G)) /\
  (forall e, In e (g_edges G) -> flag_of G e = true -> In e (g_edges g3)) /\
  (b3 = true -> degree g3 nei1 = 1%nat \/ degree g3 nei2 = 1%nat) /\
  (b3 = false -> branch_inv g3) /\
  (b3 = true -> forall key, get_single_edge_key g3 nei1 nei2 = Ok key ->
                branch_inv (set_is_branch g3 (nei1, nei2, key) true)).
Proof.
  intros ND Hv H. apply handle_new_multiedge_inv in H. destruct H as (w & Hr & Hw).
  destruct w.
  - destruct Hw as [-> ->].
    destruct (remove_small_mul_true _ _ Hr) as (s & Hs & J & Hin & E1 & E2 & Eo & Hd3).
    assert (Hle : forall x, (degree g3 x <= degree G x)%nat).
    { intros x. destruct (Z.eq_dec x nei1) as [->|X1]; [lia|].
      destruct (Z.eq_dec x nei2) as [->|X2]; [lia|]. rewrite Eo by auto. lia. }
    (* the work list *)
    destruct (visit_update_spec g3 visit nei1 ND) as [ND1 M1].
    { intros Hm. apply Hv in Hm. lia. }
    destruct (visit_update_spec g3 (visit_update g3 visit nei1) nei2 ND1) as [ND2 M2].
    { intros Hm. apply M1 in Hm. destruct Hm as [[? _]|[_ Hm]]; [congruence|].
      apply Hv in Hm. lia. }
    (* the flags of the edges that stay *)
    assert (Hflag : forall e, In e (g_edges g3) ->
              (degree g3 nei1 <> 1%nat \/ touches nei1 e = false) ->
              (degree g3 nei2 <> 1%nat \/ touches nei2 e = false) ->
              is_branch (e_attrs e) = flag_of g3 e).
    { intros e He T1 T2. apply Hin in He. destruct He as [He _].
      rewrite (proj1 (branch_inv_flag G) Hb e He). symmetry.
      assert (Q : forall x, x = e_u e \/ x = e_v e ->
                    ((degree g3 x =? 1) = (degree G x =? 1))%nat).
      { intros x Hx.
        assert (Tx : touches x e = true) by (apply touches_spec; intuition).
        destruct (Z.eq_dec x nei1) as [->|X1].
        - destruct T1 as [T1|T1]; [|congruence].
          destruct (Nat.eqb_spec (degree g3 nei1) 1), (Nat.eqb_spec (degree G nei1) 1);
            try lia; reflexivity.
        - destruct (Z.eq_dec x nei2) as [->|X2].
          + destruct T2 as [T2|T2]; [|congruence].
            destruct (Nat.eqb_spec (degree g3 nei2) 1), (Nat.eqb_spec (degree G nei2) 1);
              try lia; reflexivity.
          + rewrite Eo by auto. reflexivity. }
      apply flag_of_same; apply Q; auto. }
    split; [exact Hd3|]. split; [exact ND2|]. split.
    { intros m Hm. apply M2 in Hm. destruct Hm as [[-> Hm]|[X2 Hm]]; [exact Hm|].
      apply M1 in Hm. destruct Hm as [[-> Hm]|[X1 Hm]]; [exact Hm|].
      rewrite Eo by auto. apply Hv. exact Hm. }
    split; [exact Hle|]. split; [exact Eo|]. split.
    { intros e He. apply Hin in He. tauto. }
    split.
    { intros e He F. apply Hin. split; [exact He|]. intros ->.
      unfold flag_of in F. apply joins_spec in J.
      rewrite orb_true_iff, !Nat.eqb_eq in F.
      destruct J as [[Ju Jv]|[Ju Jv]]; rewrite Ju, Jv in F; lia. }
    split.
    { rewrite orb_true_iff, !Nat.eqb_eq. tauto. }
    split.
    + rewrite orb_false_iff, !Nat.eqb_neq. intros [N1 N2].
      apply branch_inv_flag. intros e He. apply Hflag; auto.
    + intros Hb3 key Hk. rewrite orb_true_iff, !Nat.eqb_eq in Hb3.
      apply finish_flags; [exact Hk | exact Hb3 |].
      intros e He Je.
      pose proof (get_single_edge_key_In _ _ _ _ Hk) as (e0 & He0 & N0 & _).
      apply names_spec in N0. destruct N0 as [J0 _].
      destruct (joins_touches _ _ _ J0) as [T01 T02].
      assert (Hx : forall x, In x [nei1; nei2] -> degree g3 x = 1%nat ->
                     touches x e = false).
      { intros x Hxin Hx1. destruct (touches x e) eqn:T; [|reflexivity].
        exfalso.
        assert (e = e0).
        { apply (degree_1_unique g3 x); auto.
          destruct Hxin as [<-|[<-|[]]]; auto. }
        subst e0. congruence. }
      apply Hflag; [exact He | |].
      * destruct (Nat.eq_dec (degree g3 nei1) 1) as [E|E]; [right|left; exact E].
        apply Hx; simpl; auto.
      * destruct (Nat.eq_dec (degree g3 nei2) 1) as [E|E]; [right|left; exact E].
        apply Hx; simpl; auto.
  - destruct Hw as [-> ->]. apply remove_small_mul_inv in Hr. subst g3.
    split; [exact Hd|]. split; [exact ND|]. split; [exact Hv|].
    split; [intros; lia|]. split; [reflexivity|]. split; [auto|]. split; [auto|].
    split; [discriminate|]. split; [intros _; exact Hb | discriminate].
Qed.

End MultiStep.

(** ** The merged graph under the invariants *)

Section Merge2.

Variables (g : MultiGraph L) (n : node) (nt : node_type) (nei1 nei2 : node) (k1 k2 : Z).
Hypothesis Hdeg : degree g n = 2%nat.
Hypothesis Htnd : two_neighbors_data g n (Some nt) = Ok (nei1, nei2, k1, k2).
Hypothesis Hd : ids_distinct (g_edges g) = true.
Hypothesis Hb : branch_inv g.

Lemma merged_ids (a : EdgeAttrs L) :
  ids_distinct (g_edges (merged g n nei1 k1 nei2 k2 a)) = true.
Proof.
  destruct (g_edges_merged_2 g n nt nei1 nei2 k1 k2 Hdeg Htnd a) as (key & E & F).
  rewrite E. apply ids_distinct_insert_new.
  - apply ids_distinct_filter. exact Hd.
  - exact F.
Qed.

Lemma merged_in (a : EdgeAttrs L) e :
  In e (g_edges (merged g n nei1 k1 nei2 k2 a)) ->
  (In e (g_edges g) /\ touches n e = false) \/
  (e_u e = nei1 /\ e_v e = nei2 /\ e_attrs e = a).
Proof.
  destruct (g_edges_merged_2 g n nt nei1 nei2 k1 k2 Hdeg Htnd a) as (key & E & F).
  rewrite E, insert_edge_In, filter_In, negb_true_iff.
  intros [->|H]; [right; auto | left; exact H].
Qed.

Lemma merged_in_old (a : EdgeAttrs L) e :
  In e (g_edges g) -> touches n e = false ->
  In e (g_edges (merged g n nei1 k1 nei2 k2 a)).
Proof.
  destruct (g_edges_merged_2 g n nt nei1 nei2 k1 k2 Hdeg Htnd a) as (key & E & F).
  intros He T. rewrite E, insert_edge_In, filter_In, T. auto.
Qed.

Lemma merged_shape (a : EdgeAttrs L) :
  exists key,
    g_edges (merged g n nei1 k1 nei2 k2 a)
    = insert_edge nei1 nei2 (mkEdge nei1 nei2 key a)
        (filter (fun e => negb (touches n e)) (g_edges g)) /\
    (forall h, In h (keydict g nei1 nei2) -> e_key h <> key) /\
    keydict (merged g n nei1 k1 nei2 k2 a) nei1 nei2
    = keydict g nei1 nei2 ++ [mkEdge nei1 nei2 key a].
Proof.
  destruct (g_edges_merged_2 g n nt nei1 nei2 k1 k2 Hdeg Htnd a) as (key & E & F).
  destruct (tnd_degree_2 _ _ _ _ _ _ _ Hdeg Htnd) as (N1 & N2 & _).
  assert (K : filter (joins nei1 nei2) (filter (fun e => negb (touches n e)) (g_edges g))
              = keydict g nei1 nei2).
  { unfold keydict. rewrite filter_comm. apply filter_all. intros e He.
    apply filter_In in He. destruct He as [_ J].
    rewrite (joins_not_touches _ _ _ _ J N1 N2). reflexivity. }
  exists key. split; [exact E|]. split.
  - intros h Hh Hk. apply F. rewrite K. apply in_map_iff. exists h. auto.
  - unfold keydict at 1. rewrite E, insert_edge_keydict, K; [reflexivity|].
    unfold joins. cbn [e_u e_v]. rewrite !Z.eqb_refl. reflexivity.
Qed.

Lemma merged_degree_new (a : EdgeAttrs L) :
  has_edge g nei1 nei2 = true \/ nei1 = nei2 ->
  (2 <= degree g nei1)%nat /\ (2 <= degree g nei2)%nat.
Proof.
  intros H.
  destruct (tnd_degree_2 _ _ _ _ _ _ _ Hdeg Htnd) as (N1 & N2 & _).
  destruct (degree_merged g n nt nei1 nei2 k1 k2 Hdeg Htnd a) as [_ Dm].
  rewrite <- (Dm nei1 N1), <- (Dm nei2 N2).
  destruct (merged_shape a) as (key & E & F & K).
  set (new := mkEdge nei1 nei2 key a) in *.
  assert (Hnew : In new (g_edges (merged g n nei1 k1 nei2 k2 a))).
  { apply (keydict_In _ nei1 nei2). rewrite K. apply in_or_app. simpl. auto. }
  destruct H as [H|H].
  - unfold has_edge in H. destruct (keydict g nei1 nei2) as [|h r] eqn:Kg; [discriminate|].
    assert (Hh : In h (keydict (merged g n nei1 k1 nei2 k2 a) nei1 nei2)).
    { rewrite K. simpl. auto. }
    apply keydict_In in Hh. destruct Hh as [Hh J].
    assert (Hne : h <> new).
    { intros ->. apply (F new); [left; reflexivity | reflexivity]. }
    assert (J' : joins nei1 nei2 new = true).
    { apply joins_spec. simpl. auto. }
    destruct (joins_touches _ _ _ J) as [T1 T2].
    destruct (joins_touches _ _ _ J') as [T1' T2'].
    pose proof (degree_ge_two_touching _ nei1 _ _ Hh Hnew Hne).
    pose proof (degree_ge_two_touching _ nei2 _ _ Hh Hnew Hne).
    pose proof (ends_at_touches _ _ T1). pose proof (ends_at_touches _ _ T2).
    pose proof (ends_at_touches _ _ T1'). pose proof (ends_at_touches _ _ T2').
    lia.
  - pose proof (degree_ge_touching _ nei1 _ Hnew) as D.
    pose proof (degree_ge_touching _ nei2 _ Hnew) as D'.
    assert (E2 : ends_at nei1 new = 2%nat) by (apply ends_at_2; simpl; auto).
    assert (E3 : ends_at nei2 new = 2%nat) by (apply ends_at_2; simpl; auto).
    lia.
Qed.

Lemma merged_flags (p : list pixel) (l : L) (is_br : bool) :
  is_br = (degree g nei1 =? 1)%nat || (degree g nei2 =? 1)%nat ->
  branch_inv (merged g n nei1 k1 nei2 k2 (mkAttrs p l is_br)).
Proof.
  intros Hbr. apply branch_inv_flag. intros e He.
  destruct (tnd_degree_2 _ _ _ _ _ _ _ Hdeg Htnd) as (N1 & N2 & _).
  destruct (degree_merged g n nt nei1 nei2 k1 k2 Hdeg Htnd (mkAttrs p l is_br)) as [_ Dm].
  apply merged_in in He. destruct He as [[He T]|(Eu & Ev & Ea)].
  - rewrite (proj1 (branch_inv_flag g) Hb e He).
    apply touches_false in T. destruct T as [Tu Tv].
    symmetry. apply flag_of_same; rewrite Dm by auto; reflexivity.
  - rewrite Ea. cbn [is_branch]. unfold flag_of. rewrite Eu, Ev, !Dm by auto. exact Hbr.
Qed.

End Merge2.

(** ** Sets of edge identities *)

Lemma eqb_id_spec i i' : eqb_id i i' = true <-> i = i'.
Proof.
  destruct i as [[a b] k], i' as [[a' b'] k']. simpl.
  rewrite !andb_true_iff, !Z.eqb_eq. split.
  - intros [[-> ->] ->]. reflexivity.
  - intros E. injection E as -> -> ->. auto.
Qed.

Lemma id_add_In (s : list edge_id) i j : In j (id_add s i) <-> In j s \/ j = i.
Proof.
  unfold id_add, id_mem. destruct (existsb (eqb_id i) s) eqn:X.
  - split; [auto|]. intros [H| ->]; [auto|].
    apply existsb_exists in X. destruct X as (y & Hy & E).
    apply eqb_id_spec in E. subst. exact Hy.
  - rewrite in_app_iff. simpl. intuition.
Qed.

Lemma id_remove_In (s : list edge_id) i j : In j (id_remove s i) -> In j s.
Proof. unfold id_remove. rewrite filter_In. tauto. Qed.

Lemma cancel_branches_added (added removed b_to_rem : list edge_id) j :
  In j (fst (cancel_branches added removed b_to_rem)) -> In j added.
Proof.
  unfold cancel_branches. revert added removed.
  induction b_to_rem as [|b l IH]; intros added removed; simpl; [auto|].
  destruct (id_mem b added).
  - intros H. apply IH in H. eapply id_remove_In; eauto.
  - apply IH.
Qed.

(** ** Entries of the queue *)

Lemma names_same_id i e e' : id_of e' = id_of e -> names i e' = names i e.
Proof.
  destruct i as [[a b] k]. unfold id_of. intros H. injection H as H1 H2 H3.
  cbn [names]. unfold joins. rewrite H1, H2, H3. reflexivity.
Qed.

Lemma entries_kept_ok g g' i : entries_kept g g' -> entry_ok g i -> entry_ok g' i.
Proof.
  intros [P1 P2] [H|[H|(e & He & N & F)]].
  - left. auto.
  - right. left. auto.
  - destruct i as [[a b] k]. cbn [fst snd].
    assert (J : joins a b e = true) by (apply names_spec in N; tauto).
    apply joins_spec in J.
    destruct (P2 e He F) as [D|[D|(e' & He' & I & F')]].
    + destruct J as [[<- <-]|[<- <-]]; unfold entry_ok; cbn [fst snd]; auto.
    + destruct J as [[<- <-]|[<- <-]]; unfold entry_ok; cbn [fst snd]; auto.
    + right. right. exists e'. split; [auto|]. split; [|auto].
      rewrite (names_same_id _ _ _ I). exact N.
Qed.

Lemma entries_kept_refl g : entries_kept g g.
Proof.
  split; [auto|]. intros e He F. right. right. exists e. auto.
Qed.

Lemma entries_kept_trans g g' g'' :
  entries_kept g g' -> entries_kept g' g'' -> entries_kept g g''.
Proof.
  intros [P1 P2] [Q1 Q2]. split; [auto|]. intros e He F.
  destruct (P2 e He F) as [D|[D|(e' & He' & I & F')]]; [auto | auto |].
  unfold id_of in I. injection I as I1 I2 I3.
  destruct (Q2 e' He' F') as [D|[D|(e'' & He'' & I' & F'')]].
  - left. rewrite <- I1. exact D.
  - right. left. rewrite <- I2. exact D.
  - right. right. exists e''. split; [auto|]. split; [|auto].
    rewrite I'. unfold id_of. congruence.
Qed.

(** ** One turn of the loop of [remove_degree_two_nodes] keeps the invariant *)

Lemma rd2n_body_preserves (thr : L) (rbc : bool) (st st' : rd2n_state L) n :
  ids_distinct (g_edges (st_graph st)) = true ->
  branch_inv (st_graph st) ->
  degree (st_graph st) n = 2%nat ->
  NoDup (nodes_to_visit st) ->
  ~ In n (nodes_to_visit st) ->
  (forall m, In m (nodes_to_visit st) -> degree (st_graph st) m = 2%nat) ->
  (forall i, In i (added_branches st) -> entry_ok (st_graph st) i) ->
  rd2n_body thr rbc st n = Ok st' ->
  rd2n_inv st' /\ entries_kept (st_graph st) (st_graph st').
Proof.
  intros Hd Hb Hdeg ND Hn Hv Ha H.
  apply rd2n_body_inv in H.
  destruct H as (nt & nei1 & nei2 & k1 & k2 & new_path & new_len & to_visit & has_nei
                 & is_br & added & removed & g3 & tv3 & b3
                 & Hnt & Htnd & Hmk & Hpre & Hbc & Hh & Hfin).
  remember (st_graph st) as g eqn:Eg.
  destruct (tnd_degree_2 _ _ _ _ _ _ _ Hdeg Htnd) as (N1 & N2 & Hty & _).
  remember (mkAttrs new_path new_len is_br) as a eqn:Ea.
  remember (merged g n nei1 k1 nei2 k2 a) as g2 eqn:Eg2.
  destruct (degree_merged g n nt nei1 nei2 k1 k2 Hdeg Htnd a) as [Dn Dm].
  rewrite <- Eg2 in Dn, Dm.
  assert (Hd2 : ids_distinct (g_edges g2) = true).
  { rewrite Eg2. eapply merged_ids; eauto. }
  (* what the tests before the merge found *)
  assert (Hvis : NoDup to_visit /\ forall m, In m to_visit -> In m (nodes_to_visit st)).
  { split; [|intros m; eapply rd2n_pre_visit; eauto].
    destruct Hty as [[-> _]|[-> _]].
    - repeat case_if Hpre; injection Hpre as <- _ _; exact ND.
    - case_if Hpre.
      + inv_bind Hpre. injection Hpre as <- _ _.
        apply (list_remove_spec _ _ _ ND Ha0).
      + injection Hpre as <- _ _. exact ND. }
  destruct Hvis as [ND1 Hsub].
  assert (Hbr : is_br = (degree g nei1 =? 1)%nat || (degree g nei2 =? 1)%nat
                /\ (has_nei = true ->
                    nei1 <> nei2 /\ (2 <= degree g nei1)%nat /\ (2 <= degree g nei2)%nat)).
  { assert (Big : has_edge g nei1 nei2 = true \/ nei1 = nei2 ->
                  (degree g nei1 =? 1)%nat || (degree g nei2 =? 1)%nat = false).
    { intros X. destruct (merged_degree_new g n nt nei1 nei2 k1 k2 Hdeg Htnd a X) as [A B].
      apply orb_false_iff. rewrite !Nat.eqb_neq. lia. }
    destruct Hty as [[-> Hne]|[-> He]].
    - destruct (has_edge g nei1 nei2) eqn:X.
      + injection Hpre as _ <- <-. split; [symmetry; apply Big; auto|].
        intros _. split; [exact Hne|].
        apply (merged_degree_new g n Simple nei1 nei2 k1 k2 Hdeg Htnd a). auto.
      + case_if Hpre; injection Hpre as _ <- <-; (split; [auto | discriminate]).
    - assert (is_br = false /\ has_nei = false) as [-> ->].
      { case_if Hpre; [inv_bind Hpre|]; injection Hpre as _ <- <-; auto. }
      split; [symmetry; apply Big; auto | discriminate]. }
  destruct Hbr as [Hbr Hhn].
  assert (Hb2 : branch_inv g2).
  { rewrite Eg2, Ea. eapply merged_flags; eauto. }
  assert (Hv2 : forall m, In m to_visit -> degree g2 m = 2%nat).
  { intros m Hm. apply Hsub in Hm. rewrite Dm; [auto|]. intros ->. contradiction. }
  (* after the new multiple edge is handled *)
  assert (Mid :
    ids_distinct (g_edges g3) = true /\
    NoDup tv3 /\ (forall m, In m tv3 -> degree g3 m = 2%nat) /\
    (forall x, degree g3 x <= degree g2 x)%nat /\
    (forall e, In e (g_edges g2) -> flag_of g2 e = true ->
               In e (g_edges g3) /\ flag_of g3 e = true) /\
    (b3 = true -> degree g3 nei1 = 1%nat \/ degree g3 nei2 = 1%nat) /\
    (b3 = false -> branch_inv g3) /\
    (b3 = true -> forall key, get_single_edge_key g3 nei1 nei2 = Ok key ->
                  branch_inv (set_is_branch g3 (nei1, nei2, key) true))).
  { destruct has_nei.
    - destruct (Hhn eq_refl) as (Hne & A1 & A2).
      rewrite <- (Dm nei1 N1) in A1. rewrite <- (Dm nei2 N2) in A2.
      destruct (multi_step g2 nei1 nei2 Hd2 Hb2 Hne A1 A2 thr to_visit g3 tv3 b3 ND1 Hv2 Hh)
        as (M1 & M2 & M3 & M4 & M5 & M6 & M7 & M8 & M9 & M10).
      repeat (split; [assumption|]).
      split; [|auto].
      intros e He F. split; [apply M7; auto|].
      unfold flag_of in *. rewrite orb_true_iff, !Nat.eqb_eq in *.
      destruct F as [F|F]; [left|right]; rewrite M5; auto; intros X; rewrite X in F; lia.
    - injection Hh as <- <- <-.
      assert (Hone : is_br = true -> degree g2 nei1 = 1%nat \/ degree g2 nei2 = 1%nat).
      { intros Hbt. rewrite Hbt in Hbr. symmetry in Hbr.
        rewrite orb_true_iff, !Nat.eqb_eq in Hbr. rewrite !Dm by auto. exact Hbr. }
      split; [exact Hd2|]. split; [exact ND1|]. split; [exact Hv2|].
      split; [intros; lia|]. split; [intros e He F; auto|].
      split; [exact Hone|]. split; [intros _; exact Hb2|].
      intros Hbt key Hk. apply finish_flags; [exact Hk | auto |].
      intros e He _. apply (proj1 (branch_inv_flag g2) Hb2). exact He. }
  destruct Mid as (M1 & M2 & M3 & M4 & M5 & M6 & M7 & M8).
  (* the entries of the queue *)
  assert (K23 : entries_kept g g3).
  { split.
    - intros x Hx. assert (x <> n) by (intros ->; lia).
      specialize (M4 x). rewrite Dm in M4 by auto. lia.
    - intros e He F. destruct (touches n e) eqn:T.
      + specialize (M4 n). apply touches_spec in T.
        destruct T as [T|T]; rewrite T; [left|right; left]; lia.
      + assert (He2 : In e (g_edges g2)).
        { rewrite Eg2. eapply merged_in_old; eauto. }
        apply touches_false in T. destruct T as [Tu Tv].
        assert (F2 : flag_of g2 e = true).
        { rewrite <- F. apply flag_of_same; rewrite Dm by auto; reflexivity. }
        destruct (M5 e He2 F2) as [He3 F3].
        right. right. exists e. auto. }
  assert (Hadded : forall i, In i added -> entry_ok g3 i).
  { intros i Hi. apply (entries_kept_ok g g3 i K23). apply Ha.
    destruct (is_br && rbc).
    - inv_bind Hbc. injection Hbc as E.
      eapply cancel_branches_added. rewrite E. exact Hi.
    - injection Hbc as <- <-. exact Hi. }
  destruct b3.
  - destruct Hfin as (key & Hk & ->). cbn [st_graph nodes_to_visit added_branches].
    set (gf := set_is_branch g3 (nei1, nei2, key) true).
    assert (K3f : entries_kept g3 gf).
    { split.
      - intros x Hx. unfold gf. rewrite degree_set_is_branch. exact Hx.
      - intros e He F. right. right.
        exists (if names (nei1, nei2, key) e
                then mkEdge (e_u e) (e_v e) (e_key e)
                       (mkAttrs (path (e_attrs e)) (length (e_attrs e)) true)
                else e).
        split; [|split].
        + unfold gf, set_is_branch. cbn [g_edges with_edges]. apply in_map_iff.
          exists e. auto.
        + destruct (names (nei1, nei2, key) e); reflexivity.
        + unfold gf. rewrite flag_of_set_is_branch.
          destruct (names (nei1, nei2, key) e); exact F. }
    split.
    + unfold rd2n_inv. cbn [st_graph nodes_to_visit added_branches]. fold gf.
      split; [unfold gf; rewrite ids_distinct_set_is_branch; exact M1|].
      split; [apply M8; auto|]. split; [exact M2|]. split.
      * intros m Hm. unfold gf. rewrite degree_set_is_branch. auto.
      * intros i Hi.
        assert (Hnew : entry_ok gf (nei1, nei2, key)).
        { right. right.
          pose proof (get_single_edge_key_In _ _ _ _ Hk) as (e0 & He0 & N0 & _).
          exists (mkEdge (e_u e0) (e_v e0) (e_key e0)
                    (mkAttrs (path (e_attrs e0)) (length (e_attrs e0)) true)).
          split; [|split].
          - unfold gf, set_is_branch. cbn [g_edges with_edges]. apply in_map_iff.
            exists e0. rewrite N0. auto.
          - rewrite <- N0. apply names_same_id. reflexivity.
          - unfold gf. rewrite flag_of_set_is_branch.
            apply names_spec in N0. destruct N0 as [J0 _].
            apply (joins_flag_true g3 nei1 nei2); [|auto].
            apply joins_spec. cbn [e_u e_v]. apply joins_spec in J0. exact J0. }
        destruct (rbc && len_ltb new_len thr).
        -- apply id_add_In in Hi. destruct Hi as [Hi| ->]; [|exact Hnew].
           apply (entries_kept_ok g3 gf i K3f). auto.
        -- apply (entries_kept_ok g3 gf i K3f). auto.
    + eapply entries_kept_trans; eauto.
  - subst st'. cbn [st_graph nodes_to_visit added_branches].
    split; [|exact K23].
    unfold rd2n_inv. cbn [st_graph nodes_to_visit added_branches].
    split; [exact M1|]. split; [apply M7; reflexivity|]. split; [exact M2|].
    split; [exact M3 | exact Hadded].
Qed.

(** ** The invariant along the loop of [remove_degree_two_nodes] *)

Lemma flat_map_sub_NoDup (f : node -> list node) (l : list node) :
  NoDup l -> (forall x, f x = [x] \/ f x = []) -> NoDup (flat_map f l).
Proof.
  intros ND Hf. induction ND as [|x l Hx ND IH]; simpl; [constructor|].
  destruct (Hf x) as [-> | ->]; simpl; [|exact IH].
  constructor; [|exact IH]. rewrite in_flat_map. intros (y & Hy & Hin).
  destruct (Hf y) as [E|E]; rewrite E in Hin; simpl in Hin; [|contradiction].
  destruct Hin as [->|[]]. contradiction.
Qed.

Lemma degree_two_iter_NoDup g (b1 b2 : bool) :
  NoDup (map fst (g_nodes g)) -> NoDup (degree_two_iter g b1 b2).
Proof.
  intros ND. unfold degree_two_iter. apply flat_map_sub_NoDup; [exact ND|].
  intros x. destruct (degree g x =? 2)%nat; [|auto].
  destruct (degree_two_node_type g x) as [[]|]; auto;
    [destruct b2 | destruct b1]; auto.
Qed.

Lemma rd2n_init_inv g init (l : list node) :
  start_ok g init -> rd2n_init g init = Ok l ->
  NoDup l /\ forall m, In m l -> degree g m = 2%nat.
Proof.
  unfold start_ok, rd2n_init. destruct init as [n|].
  - intros Hd H. inv_bind H. destruct (node_type_eqb a Simple); injection H as <-.
    + split; [constructor; [simpl; tauto | constructor]|].
      intros m [<-|[]]. exact Hd.
    + split; [constructor | contradiction].
  - intros ND H. injection H as <-. split; [apply degree_two_iter_NoDup; exact ND|].
    intros m Hm. apply degree_two_iter_simple in Hm. tauto.
Qed.

Lemma rd2n_reach_inv (thr : L) (rbc : bool) g0 init (st : rd2n_state L) :
  ids_distinct (g_edges g0) = true -> branch_inv g0 -> start_ok g0 init ->
  rd2n_reach thr rbc g0 init st ->
  rd2n_inv st /\ entries_kept g0 (st_graph st).
Proof.
  intros Hd Hb Hs Hr. induction Hr as [l Hi | st n rest st' Hr IH Hp Hbody].
  - destruct (rd2n_init_inv _ _ _ Hs Hi) as [ND Hv].
    split; [|apply entries_kept_refl].
    unfold rd2n_inv. cbn [st_graph nodes_to_visit added_branches].
    repeat (split; [assumption|]). intros i [].
  - destruct IH as [(I1 & I2 & I3 & I4 & I5) K].
    apply pop_spec in Hp. rewrite Hp in I3, I4.
    apply NoDup_remove in I3. rewrite app_nil_r in I3. destruct I3 as [ND Hn].
    destruct (rd2n_body_preserves thr rbc
                (mkState (st_graph st) rest (added_branches st) (removed_branches st))
                st' n) as [Inv' K']; cbn [st_graph nodes_to_visit added_branches]; auto.
    + apply I4. apply in_or_app. simpl. auto.
    + intros m Hm. apply I4. apply in_or_app. auto.
    + split; [exact Inv'|]. cbn [st_graph] in K'. eapply entries_kept_trans; eauto.
Qed.

(** ** The priority queue *)

Lemma remove_task_In (q : PriorityQueue L) task x : In x (remove_task q task) -> In x q.
Proof. unfold remove_task. rewrite filter_In. tauto. Qed.

Lemma add_task_In (q : PriorityQueue L) (p : L) task x :
  In x (add_task q p task) -> In x q \/ x = (p, task).
Proof.
  unfold add_task. rewrite in_app_iff. simpl.
  intros [H|[<-|[]]]; [left; eapply remove_task_In; eauto | auto].
Qed.

Lemma new_queue_In (l : list (L * edge_id)) x : In x (new_queue l) -> In x l.
Proof.
  unfold new_queue.
  assert (G : forall q : PriorityQueue L,
            In x (fold_left (fun q (t : L * edge_id) => add_task q (fst t) (snd t)) l q) ->
                        In x q \/ In x l).
  { induction l as [|[p t] l IH]; intros q; simpl; [auto|].
    intros H. apply IH in H. destruct H as [H|H]; [|auto].
    apply add_task_In in H. simpl in H. destruct H as [H| ->]; auto. }
  intros H. apply G in H. destruct H as [[]|H]. exact H.
Qed.

Lemma remove_nth_In (A : Type) (j : nat) (l : list A) x : In x (remove_nth j l) -> In x l.
Proof.
  revert j. induction l as [|y l IH]; intros j; destruct j; simpl; auto.
  intros [->|H]; [auto | right; eapply IH; eauto].
Qed.

Lemma nth_In_or_default (A : Type) (j : nat) (l : list A) (d : A) :
  In d l -> In (nth j l d) l.
Proof.
  intros Hd. destruct (Nat.lt_ge_cases j (List.length l)) as [Hlt|Hge].
  - apply nth_In. exact Hlt.
  - rewrite nth_overflow by exact Hge. exact Hd.
Qed.

Lemma pop_task_In (q q' : PriorityQueue L) (len : L) i :
  pop_task q = Some (len, i, q') ->
  In (len, i) q /\ forall x, In x q' -> In x q.
Proof.
  unfold pop_task. destruct q as [|e0 r]; [discriminate|].
  destruct (argmin (map fst (e0 :: r))) as [j|]; [|discriminate].
  intros H. injection H as H <-. split.
  - replace (len, i) with (nth j (e0 :: r) e0) by exact H.
    apply nth_In_or_default. left. reflexivity.
  - intros x. apply remove_nth_In.
Qed.

Lemma fold_remove_task_In (l : list edge_id) (q : PriorityQueue L) x :
  In x (fold_left (@remove_task L) l q) -> In x q.
Proof.
  revert q. induction l as [|t l IH]; intros q; simpl; [auto|].
  intros H. apply IH in H. eapply remove_task_In; eauto.
Qed.

Lemma add_branches_In g (q q2 : PriorityQueue L) (l : list edge_id) x :
  add_branches g q l = Ok q2 -> In x q2 -> In x q \/ In (snd x) l.
Proof.
  revert q. induction l as [|[[a b] k] l IH]; intros q; simpl.
  - intros H. injection H as <-. auto.
  - intros H Hx. inv_bind H. destruct (IH _ H Hx) as [H1|H1]; [|auto].
    apply add_task_In in H1. destruct H1 as [H1| ->]; simpl; auto.
Qed.

Lemma get_edge_In g u v k (a : EdgeAttrs L) :
  get_edge g u v k = Ok a ->
  exists e, In e (g_edges g) /\ names (u, v, k) e = true /\ e_attrs e = a.
Proof.
  unfold get_edge. destruct (find (names (u, v, k)) (g_edges g)) as [e|] eqn:F; [|discriminate].
  intros H. injection H as <-. apply find_some in F. exists e. tauto.
Qed.

(** ** One turn of the loop of [remove_branches] keeps the invariant *)

Lemma entries_kept_set_is_branch g i b : entries_kept g (set_is_branch g i b).
Proof.
  split.
  - intros x Hx. rewrite degree_set_is_branch. exact Hx.
  - intros e He F. right. right.
    exists (if names i e
            then mkEdge (e_u e) (e_v e) (e_key e)
                   (mkAttrs (path (e_attrs e)) (length (e_attrs e)) b)
            else e).
    split; [|split].
    + unfold set_is_branch. cbn [g_edges with_edges]. apply in_map_iff. exists e. auto.
    + destruct (names i e); reflexivity.
    + rewrite flag_of_set_is_branch. destruct (names i e); exact F.
Qed.

Lemma remove_edge_facts g u v k g1 :
  ids_distinct (g_edges g) = true -> remove_edge g (u, v, k) = Ok g1 -> u <> v ->
  exists s, In s (g_edges g) /\ names (u, v, k) s = true /\
    (forall e, In e (g_edges g1) <-> In e (g_edges g) /\ e <> s) /\
    (degree g1 u + 1 = degree g u)%nat /\
    (degree g1 v + 1 = degree g v)%nat /\
    (forall x, x <> u -> x <> v -> degree g1 x = degree g x) /\
    ids_distinct (g_edges g1) = true.
Proof.
  intros Hd H Hne. pose proof (remove_edge_edges _ _ _ H) as ->.
  unfold remove_edge in H.
  destruct (existsb (names (u, v, k)) (g_edges g)) eqn:X; [|discriminate].
  apply existsb_exists in X. destruct X as (s & Hs & N).
  pose proof N as N'. apply names_spec in N'. destruct N' as [J _].
  assert (J' : joins v u s = true) by (rewrite joins_sym; exact J).
  exists s. split; [exact Hs|]. split; [exact N|]. split.
  { intros e. cbn [g_edges with_edges]. apply in_remove_unique; auto. }
  split; [|split; [|split]].
  - pose proof (degree_remove_unique g _ s u Hd Hs N) as E.
    rewrite (ends_at_joins _ _ _ _ J' (not_eq_sym Hne)), Z.eqb_refl in E. exact E.
  - pose proof (degree_remove_unique g _ s v Hd Hs N) as E.
    rewrite (ends_at_joins _ _ _ _ J Hne), Z.eqb_refl in E. exact E.
  - intros x X1 X2. pose proof (degree_remove_unique g _ s x Hd Hs N) as E.
    rewrite (ends_at_not_touches _ _
               (joins_not_touches _ _ _ _ J (not_eq_sym X1) (not_eq_sym X2))) in E. lia.
  - cbn [g_edges with_edges]. apply ids_distinct_filter. exact Hd.
Qed.

Lemma get_single_neighbor_In g n x :
  get_single_neighbor g n = Ok x -> In x (neighbors g n).
Proof.
  unfold get_single_neighbor. destruct (has_node g n); [|discriminate].
  destruct (neighbors g n) as [|y r]; [discriminate|].
  intros H. injection H as <-. left. reflexivity.
Qed.

Lemma rb_body_preserves (thr : L) g (q : PriorityQueue L) i g' (q'' : PriorityQueue L) :
  rb_inv g q -> entry_ok g i ->
  rb_body thr g q i = Some (Ok (g', q'')) ->
  rb_inv g' q''.
Proof.
  intros (Hd & Hb & Hq) Hi H. destruct i as [[node1 node2] key].
  unfold rb_body in H.
  destruct (remove_edge g (node1, node2, key)) as [g1|] eqn:R; [|discriminate].
  (* the popped entry names a branch *)
  assert (Hex : exists e, In e (g_edges g) /\ names (node1, node2, key) e = true).
  { unfold remove_edge in R.
    destruct (existsb (names (node1, node2, key)) (g_edges g)) eqn:X; [|discriminate].
    apply existsb_exists in X. exact X. }
  destruct Hex as (e & He & N).
  pose proof N as N'. apply names_spec in N'. destruct N' as [J _].
  destruct (joins_touches _ _ _ J) as [T1 T2].
  pose proof (degree_ge_touching g node1 e He) as G1.
  pose proof (degree_ge_touching g node2 e He) as G2.
  pose proof (ends_at_touches _ _ T1) as G3. pose proof (ends_at_touches _ _ T2) as G4.
  assert (F : degree g node1 = 1%nat \/ degree g node2 = 1%nat).
  { destruct Hi as [Hi|[Hi|(e' & He' & N1 & F)]]; cbn [fst snd] in *; try lia.
    pose proof (names_unique g _ _ _ Hd He He' N N1) as <-.
    unfold flag_of in F. rewrite orb_true_iff, !Nat.eqb_eq in F.
    apply joins_spec in J. destruct J as [[<- <-]|[<- <-]]; tauto. }
  assert (Hne : node1 <> node2).
  { intros <-. assert (ends_at node1 e = 2%nat); [|lia].
    apply ends_at_2. apply joins_spec in J. tauto. }
  destruct (remove_edge_facts g node1 node2 key g1 Hd R Hne)
    as (s & Hs & Ns & Hin & D1 & D2 & Do & Hd1).
  pose proof (names_unique g _ _ _ Hd He Hs N Ns) as <-.
  remember (if (degree g1 node1 =? 0)%nat then node2 else node1) as t eqn:Et.
  (* the other end point has no edge left *)
  assert (Hz : exists z, degree g1 z = 0%nat /\ z <> t /\
                         (t = node1 /\ z = node2 \/ t = node2 /\ z = node1)).
  { destruct (Nat.eqb_spec (degree g1 node1) 0) as [E|E]; subst t.
    - exists node1. auto.
    - exists node2. split; [lia | auto]. }
  destruct Hz as (z & Z0 & Zt & Ztz).
  assert (Dt : (degree g1 t + 1 = degree g t)%nat).
  { destruct Ztz as [[-> _]|[-> _]]; assumption. }
  assert (Dother : forall x, x <> t -> x <> z -> degree g1 x = degree g x).
  { intros x X1 X2. apply Do; destruct Ztz as [[? ?]|[? ?]]; congruence. }
  assert (Hflag : forall e', In e' (g_edges g1) ->
            (degree g1 t <> 1%nat \/ touches t e' = false) ->
            is_branch (e_attrs e') = flag_of g1 e').
  { intros e' He' Ht. pose proof He' as He1. apply Hin in He'. destruct He' as [He' _].
    rewrite (proj1 (branch_inv_flag g) Hb e' He'). symmetry.
    assert (Q : forall x, x = e_u e' \/ x = e_v e' ->
                  ((degree g1 x =? 1) = (degree g x =? 1))%nat).
    { intros x Hx.
      assert (Tx : touches x e' = true) by (apply touches_spec; intuition).
      destruct (Z.eq_dec x z) as [->|Xz].
      - rewrite (degree_0_no_edge g1 z e' Z0 He1) in Tx. discriminate.
      - destruct (Z.eq_dec x t) as [->|Xt]; [|rewrite Dother by auto; reflexivity].
        destruct Ht as [Ht|Ht]; [|congruence].
        assert (degree g1 t <> 0%nat).
        { intros E0. rewrite (degree_0_no_edge g1 t e' E0 He1) in Tx. discriminate. }
        destruct (Nat.eqb_spec (degree g1 t) 1), (Nat.eqb_spec (degree g t) 1);
          try lia; reflexivity. }
    apply flag_of_same; apply Q; auto. }
  assert (K1 : entries_kept g g1).
  { split.
    - intros x Hx. destruct (Z.eq_dec x t) as [->|Xt]; [lia|].
      destruct (Z.eq_dec x z) as [->|Xz]; [exact Z0|]. rewrite Dother by auto. exact Hx.
    - intros e' He' F'. destruct (names (node1, node2, key) e') eqn:N'.
      + pose proof (names_unique g _ _ _ Hd He He' N N') as <-.
        apply joins_spec in J.
        destruct J as [[Ju Jv]|[Ju Jv]]; rewrite Ju, Jv;
          destruct Ztz as [[_ ->]|[_ ->]]; auto.
      + right. right. exists e'.
        assert (He1 : In e' (g_edges g1)).
        { apply Hin. split; [exact He'|]. intros ->. congruence. }
        split; [exact He1|]. split; [reflexivity|].
        unfold flag_of in *. rewrite orb_true_iff, !Nat.eqb_eq in *.
        assert (Q : forall x, touches x e' = true -> degree g x = 1%nat ->
                      degree g1 x = 1%nat).
        { intros x Tx Dx.
          assert (Hx : x <> node1 /\ x <> node2).
          { split; intros ->.
            - assert (e = e') by (apply (degree_1_unique g node1); auto). congruence.
            - assert (e = e') by (apply (degree_1_unique g node2); auto). congruence. }
          rewrite Do; tauto. }
        destruct F' as [F'|F']; [left|right]; apply Q; auto;
          apply touches_spec; auto. }
  assert (Hq1 : forall x, In x q -> entry_ok g1 (snd x)).
  { intros x Hx. apply (entries_kept_ok g g1 _ K1). auto. }
  destruct (Nat.eqb_spec (degree g1 t) 2) as [E2|E2].
  - (* the target has degree two: it is eliminated *)
    destruct (remove_degree_two_nodes g1 thr (Some t) true) as [[st|]|] eqn:Rd;
      try discriminate.
    apply rd2n_run_reach in Rd. destruct Rd as [Rd _].
    assert (Hb1 : branch_inv g1).
    { apply branch_inv_flag. intros e' He'. apply Hflag; [exact He' | left; lia]. }
    destruct (rd2n_reach_inv thr true g1 (Some t) st Hd1 Hb1 E2 Rd)
      as [(I1 & I2 & _ & _ & I5) K2].
    destruct (add_branches (st_graph st) q (added_branches st)) as [q2|] eqn:A;
      simpl in H; [|discriminate].
    injection H as <- <-. split; [exact I1|]. split; [exact I2|].
    intros x Hx. apply fold_remove_task_In in Hx.
    destruct (add_branches_In _ _ _ _ _ A Hx) as [Hx'|Hx'].
    + apply (entries_kept_ok g1 (st_graph st) _ K2). auto.
    + apply I5. exact Hx'.
  - destruct (Nat.eqb_spec (degree g1 t) 1) as [E1|E1].
    + (* the target has degree one: its edge becomes a branch *)
      destruct (get_single_neighbor g1 t) as [nb|] eqn:Gn; simpl in H; [|discriminate].
      destruct (get_single_edge_key g1 t nb) as [k|] eqn:Gk; simpl in H; [|discriminate].
      destruct (get_edge g1 t nb k) as [a|] eqn:Ge; simpl in H; [|discriminate].
      injection H as <- <-.
      pose proof (get_single_edge_key_In _ _ _ _ Gk) as (e0 & He0 & N0 & _).
      pose proof N0 as N0'. apply names_spec in N0'. destruct N0' as [J0 _].
      destruct (joins_touches _ _ _ J0) as [T0 _].
      split; [rewrite ids_distinct_set_is_branch; exact Hd1|]. split.
      * apply finish_flags; [exact Gk | left; exact E1 |].
        intros e' He' Je'. apply Hflag; [exact He'|]. right.
        destruct (touches t e') eqn:Tt; [|reflexivity].
        assert (e' = e0) by (apply (degree_1_unique g1 t); auto).
        subst e'. congruence.
      * intros x Hx. apply add_task_In in Hx. destruct Hx as [Hx| ->].
        -- apply (entries_kept_ok g1 _ _ (entries_kept_set_is_branch g1 _ _)). auto.
        -- cbn [snd]. right. right.
           exists (mkEdge (e_u e0) (e_v e0) (e_key e0)
                     (mkAttrs (path (e_attrs e0)) (length (e_attrs e0)) true)).
           split; [|split].
           ++ unfold set_is_branch. cbn [g_edges with_edges]. apply in_map_iff.
              exists e0. rewrite N0. auto.
           ++ rewrite <- N0. apply names_same_id. reflexivity.
           ++ rewrite flag_of_set_is_branch.
              apply (joins_flag_true g1 t nb); [|auto].
              apply joins_spec. cbn [e_u e_v]. apply joins_spec in J0. exact J0.
    + injection H as <- <-. split; [exact Hd1|]. split; [|exact Hq1].
      apply branch_inv_flag. intros e' He'. apply Hflag; [exact He' | left; exact E1].
Qed.


(** ** The states of the loop of [remove_branches] *)

Lemma branch_small_edges_entry g (thr : L) x :
  branch_inv g -> In x (branch_small_edges g thr) -> entry_ok g (snd x).
Proof.
  intros Hb Hx. unfold branch_small_edges in Hx. apply in_flat_map in Hx.
  destruct Hx as ([[u v] k] & _ & Hx).
  destruct (get_edge g u v k) as [a|] eqn:G; [|contradiction].
  destruct (is_branch a && len_ltb (length a) thr) eqn:C; [|contradiction].
  destruct Hx as [<-|[]]. cbn [snd].
  apply andb_true_iff in C. destruct C as [C _].
  destruct (get_edge_In _ _ _ _ _ G) as (e & He & Hn & Ha).
  right. right. exists e. split; [exact He|]. split; [exact Hn|].
  rewrite <- (proj1 (branch_inv_flag g) Hb e He), Ha. exact C.
Qed.

Lemma rb_reach_any_inv (thr : L) g0 g (q : PriorityQueue L) :
  ids_distinct (g_edges g0) = true -> branch_inv g0 ->
  rb_reach_any thr g0 g q -> rb_inv g q.
Proof.
  intros Hd Hb Hr.
  induction Hr as [q Hq|g q len i q' g' q'' q3 Hr IH Hin Hsub Hbody Hsub3].
  - split; [exact Hd|]. split; [exact Hb|].
    intros x Hx. eapply branch_small_edges_entry; eauto.
  - destruct IH as (I1 & I2 & I3).
    assert (R : rb_inv g' q'').
    { apply (rb_body_preserves thr g q' i g' q''); [|exact (I3 _ Hin)|exact Hbody].
      split; [exact I1|]. split; [exact I2|]. intros x Hx. apply I3, Hsub, Hx. }
    destruct R as (R1 & R2 & R3).
    split; [exact R1|]. split; [exact R2|]. intros x Hx. apply R3, Hsub3, Hx.
Qed.

Lemma rb_reach_any_of_reach (thr : L) g0 g (q : PriorityQueue L) :
  rb_reach thr g0 g q -> rb_reach_any thr g0 g q.
Proof.
  intros Hr. induction Hr as [|g q len i q' g' q'' Hr IH Hp Hbody].
  - apply rb_any_start. intros x. apply new_queue_In.
  - destruct (pop_task_In _ _ _ _ Hp) as [Hin Hsub].
    apply rb_any_next with (g := g) (q := q) (len := len) (i := i) (q' := q') (q'' := q'');
      auto.
Qed.

Lemma rb_loop_reach (fuel : nat) (thr : L) g0 g (q : PriorityQueue L) g' :
  rb_reach thr g0 g q -> rb_loop fuel thr g q = Some (Ok g') ->
  exists q', rb_reach thr g0 g' q' /\ pop_task q' = None.
Proof.
  revert g q. induction fuel as [|fuel IH]; intros g q Hr; simpl.
  - destruct (pop_task q) as [[[len i] q']|] eqn:P; [discriminate|].
    intros H. injection H as <-. exists q. auto.
  - destruct (pop_task q) as [[[len i] q']|] eqn:P.
    + destruct (rb_body thr g q' i) as [[[g1 q1]|x]|] eqn:B; try discriminate.
      apply IH. eapply rb_next; eauto.
    + intros H. injection H as <-. exists q. auto.
Qed.

Lemma remove_branches_reach (thr : L) g g' :
  remove_branches g thr = Some (Ok g') ->
  exists q', rb_reach thr g g' q' /\ pop_task q' = None.
Proof.
  unfold remove_branches. destruct (branch_small_edges g thr) as [|x l] eqn:E.
  - intros H. injection H as <-. exists (new_queue (branch_small_edges g thr)).
    split; [constructor|]. rewrite E. reflexivity.
  - intros H. eapply rb_loop_reach; [|exact H]. rewrite <- E. constructor.
Qed.

(** ** The graph stays one that networkx could hold *)

Lemma nodes_ok_map g (h : Edge L -> Edge L) (l : list (Edge L)) :
  (forall e, e_u (h e) = e_u e /\ e_v (h e) = e_v e) ->
  nodes_ok (with_edges g (map h l)) = nodes_ok (with_edges g l).
Proof.
  intros H. unfold nodes_ok. cbn [g_edges with_edges].
  transitivity (forallb (fun e => has_node g (e_u e) && has_node g (e_v e)) (map h l));
    [reflexivity|].
  transitivity (forallb (fun e => has_node g (e_u e) && has_node g (e_v e)) l);
    [|reflexivity].
  induction l as [|e l IH]; simpl; [reflexivity|].
  destruct (H e) as [-> ->]. rewrite IH. reflexivity.
Qed.

Lemma well_formed_reflag g g0 :
  well_formed g = true ->
  well_formed (with_edges g (map (reflag g0) (g_edges g))) = true.
Proof.
  intros Hwf. destruct (well_formed_spec _ Hwf) as [Hd Hn].
  apply well_formed_intro.
  - apply distinct_NoDup. exact (well_formed_nodes _ Hwf).
  - cbn [g_edges with_edges]. rewrite ids_distinct_map; [exact Hd | reflexivity].
  - rewrite nodes_ok_map by (intros e; split; reflexivity).
    unfold nodes_ok in *. exact Hn.
  - cbn [g_edges with_edges]. rewrite grouped_map by (intros e; split; reflexivity).
    apply well_formed_grouped, Hwf.
Qed.

Lemma well_formed_add_branch_info g :
  well_formed g = true -> well_formed (add_branch_info g) = true.
Proof.
  intros Hwf. rewrite add_branch_info_edges by (apply well_formed_spec in Hwf; tauto).
  apply well_formed_reflag. exact Hwf.
Qed.

Lemma well_formed_remove_small_mul_all g (thr : L) :
  well_formed g = true -> well_formed (remove_small_mul_all g thr) = true.
Proof.
  intros Hwf.
  rewrite remove_small_mul_all_unfold, remove_small_mul_all_kept by exact Hwf.
  apply well_formed_add_branch_info, well_formed_filter. exact Hwf.
Qed.

Lemma branch_inv_remove_small_mul_all g (thr : L) :
  well_formed g = true -> branch_inv (remove_small_mul_all g thr).
Proof.
  intros Hwf.
  rewrite remove_small_mul_all_unfold, remove_small_mul_all_kept by exact Hwf.
  apply branch_inv_add_branch_info.
  apply (well_formed_spec _ (well_formed_filter g _ Hwf)).
Qed.


(** ** The loop of [remove_branches] ends on the fuel it is given *)

Lemma length_filter_lt (A : Type) (p : A -> bool) (l : list A) :
  existsb p l = true ->
  (List.length (filter (fun x => negb (p x)) l) < List.length l)%nat.
Proof.
  induction l as [|x l IH]; simpl; [discriminate|].
  destruct (p x) eqn:P; simpl.
  - intros _. pose proof (length_filter_le _ (fun y => negb (p y)) l). lia.
  - intros H. apply IH in H. lia.
Qed.

Lemma remove_edge_decreases g i g' :
  remove_edge g i = Ok g' -> (number_of_edges g' < number_of_edges g)%nat.
Proof.
  unfold remove_edge. destruct (existsb (names i) (g_edges g)) eqn:X; [|discriminate].
  intros H. injection H as <-. unfold number_of_edges. cbn [g_edges with_edges].
  apply length_filter_lt. exact X.
Qed.

Lemma rd2n_reach_edges (thr : L) (rbc : bool) g0 init (st : rd2n_state L) :
  rd2n_reach thr rbc g0 init st ->
  (number_of_edges (st_graph st) <= number_of_edges g0)%nat.
Proof.
  intros Hr. induction Hr as [l Hi | st n rest st' Hr IH Hp Hbody]; [simpl; lia|].
  apply rd2n_body_decreases in Hbody. simpl in Hbody. lia.
Qed.

Lemma rd2n_run_total g (thr : L) init (rbc : bool) :
  exists r, remove_degree_two_nodes g thr init rbc = Some r.
Proof.
  unfold remove_degree_two_nodes, rd2n_run.
  destruct (rd2n_init g init) as [l|x]; [|eauto].
  apply rd2n_loop_terminates. simpl. lia.
Qed.

Lemma rb_body_decreases (thr : L) g (q : PriorityQueue L) i g' (q' : PriorityQueue L) :
  rb_body thr g q i = Some (Ok (g', q')) ->
  (number_of_edges g' < number_of_edges g)%nat.
Proof.
  destruct i as [[node1 node2] key]. unfold rb_body.
  destruct (remove_edge g (node1, node2, key)) as [g1|] eqn:R; [|discriminate].
  apply remove_edge_decreases in R.
  remember (if (degree g1 node1 =? 0)%nat then node2 else node1) as t eqn:Et.
  destruct (degree g1 t =? 2)%nat.
  - destruct (remove_degree_two_nodes g1 thr (Some t) true) as [[st|x]|] eqn:D;
      try discriminate.
    intros H. injection H as H. inv_bind H. injection H as <- _.
    unfold remove_degree_two_nodes in D. apply rd2n_run_reach in D.
    destruct D as [D _]. apply rd2n_reach_edges in D. lia.
  - destruct (degree g1 t =? 1)%nat.
    + intros H. injection H as H. inv_bind H. inv_bind H. inv_bind H.
      injection H as <- _. rewrite number_of_edges_set_is_branch. exact R.
    + intros H. injection H as <- _. exact R.
Qed.

Lemma rb_body_some (thr : L) g (q : PriorityQueue L) i :
  exists r, rb_body thr g q i = Some r.
Proof.
  destruct i as [[node1 node2] key]. unfold rb_body.
  destruct (remove_edge g (node1, node2, key)) as [g1|]; [|eauto].
  remember (if (degree g1 node1 =? 0)%nat then node2 else node1) as t eqn:Et.
  destruct (degree g1 t =? 2)%nat.
  - destruct (rd2n_run_total g1 thr (Some t) true) as (r & ->).
    destruct r as [st|x]; eauto.
  - destruct (degree g1 t =? 1)%nat; eauto.
Qed.

Lemma rb_loop_terminates (fuel : nat) (thr : L) g (q : PriorityQueue L) :
  (number_of_edges g < fuel)%nat -> exists r, rb_loop fuel thr g q = Some r.
Proof.
  revert g q. induction fuel as [|fuel IH]; intros g q Hlt; [lia|].
  simpl. destruct (pop_task q) as [[[len i] q']|]; [|eauto].
  destruct (rb_body_some thr g q' i) as (r & Hr). rewrite Hr.
  destruct r as [[g' q'']|x]; [|eauto].
  apply IH. apply rb_body_decreases in Hr. lia.
Qed.

(** [remove_branches] returns or raises: the fuel of the model is enough. *)
Lemma remove_branches_total g (thr : L) : exists r, remove_branches g thr = Some r.
Proof.
  unfold remove_branches. destruct (branch_small_edges g thr); [eauto|].
  apply rb_loop_terminates. lia.
Qed.

(** ** The flag of a branch *)

(** C1: the flag ['is_branch'] of every edge says whether one of its end
    points has degree one
    - after [add_branch_info], on every graph as networkx keeps it;
    - in every state of the loop of [remove_degree_two_nodes], and so after
      every complete call, when it holds of the graph the call is given
      (in the single-start mode the start node has degree two, as the
      source assumes);
    - after every turn of the loop of [remove_branches], and so after the
      call, when it holds of the graph the call is given, whichever task
      the queue hands out and in whatever order the sets are gone through;
    - hence after each of the calls [adjust_graph] makes in a row:
      [add_branch_info], [remove_small_mul_all], [remove_degree_two_nodes]
      and every turn of the loop of [remove_branches]. *)
Theorem branch_flags_invariant (thr : L) :
  (forall g, well_formed g = true -> branch_inv (add_branch_info g)) /\
  (forall g init rbc (st : rd2n_state L),
     ids_distinct (g_edges g) = true -> branch_inv g -> start_ok g init ->
     (rd2n_reach thr rbc g init st -> branch_inv (st_graph st)) /\
     (remove_degree_two_nodes g thr init rbc = Some (Ok st) ->
      branch_inv (st_graph st))) /\
  (forall g g' (q : PriorityQueue L),
     ids_distinct (g_edges g) = true -> branch_inv g ->
     (rb_reach_any thr g g' q -> branch_inv g') /\
     (rb_reach thr g g' q -> branch_inv g') /\
     (remove_branches g thr = Some (Ok g') -> branch_inv g')) /\
  (forall g (st : rd2n_state L) g' (q : PriorityQueue L),
     well_formed g = true ->
     let g1 := remove_small_mul_all (add_branch_info g) (len_twice thr) in
     remove_degree_two_nodes g1 thr None false = Some (Ok st) ->
     rb_reach_any thr (st_graph st) g' q ->
     branch_inv (add_branch_info g) /\ branch_inv g1 /\
     branch_inv (st_graph st) /\ branch_inv g').
Proof.
  assert (A : forall g, well_formed g = true -> branch_inv (add_branch_info g)).
  { intros g Hwf. apply branch_inv_add_branch_info.
    apply (well_formed_spec _ Hwf). }
  assert (B : forall g init rbc (st : rd2n_state L),
             ids_distinct (g_edges g) = true -> branch_inv g -> start_ok g init ->
             rd2n_reach thr rbc g init st ->
             branch_inv (st_graph st) /\ ids_distinct (g_edges (st_graph st)) = true).
  { intros g init rbc st Hd Hb Hs Hr.
    destruct (rd2n_reach_inv thr rbc g init st Hd Hb Hs Hr) as [(I1 & I2 & _) _].
    auto. }
  assert (C : forall g g' (q : PriorityQueue L),
             ids_distinct (g_edges g) = true -> branch_inv g ->
             rb_reach_any thr g g' q -> branch_inv g').
  { intros g g' q Hd Hb Hr.
    destruct (rb_reach_any_inv thr g g' q Hd Hb Hr) as (_ & I2 & _). exact I2. }
  split; [exact A|]. split; [|split].
  - intros g init rbc st Hd Hb Hs. split.
    + intros Hr. apply (B g init rbc st Hd Hb Hs Hr).
    + intros H. unfold remove_degree_two_nodes in H.
      apply rd2n_run_reach in H. destruct H as [Hr _].
      apply (B g init rbc st Hd Hb Hs Hr).
  - intros g g' q Hd Hb. split; [apply C; assumption|]. split.
    + intros Hr. apply (C g g' q Hd Hb). apply rb_reach_any_of_reach. exact Hr.
    + intros H. apply remove_branches_reach in H. destruct H as (q' & Hr & _).
      apply (C g g' q' Hd Hb). apply rb_reach_any_of_reach. exact Hr.
  - intros g st g' q Hwf g1 H Hr.
    assert (Hwf0 : well_formed (add_branch_info g) = true)
      by (apply well_formed_add_branch_info; exact Hwf).
    assert (Hwf1 : well_formed g1 = true)
      by (apply well_formed_remove_small_mul_all; exact Hwf0).
    assert (Hb1 : branch_inv g1)
      by (apply branch_inv_remove_small_mul_all; exact Hwf0).
    unfold remove_degree_two_nodes in H. apply rd2n_run_reach in H.
    destruct H as [Hr1 _].
    destruct (B g1 None false st (proj1 (well_formed_spec _ Hwf1)) Hb1
                (well_formed_nodes _ Hwf1) Hr1) as [Hb2 Hd2].
    split; [apply A; exact Hwf|]. split; [exact Hb1|]. split; [exact Hb2|].
    exact (C (st_graph st) g' q Hd2 Hb2 Hr).
Qed.


(** ** Every step keeps the edges of a pair together *)

Lemma joins_both u v a b (x y : Edge L) :
  joins u v x = true -> joins a b x = true -> joins a b y = joins u v y.
Proof.
  rewrite !joins_spec. unfold joins.
  intros [[X1 X2]|[X1 X2]] [[Y1 Y2]|[Y1 Y2]]; subst u v;
    rewrite <- ?Y1, <- ?Y2; subst; try reflexivity; apply orb_comm.
Qed.

Lemma joins_own e : joins (e_u e) (e_v e) e = true.
Proof. apply joins_spec. auto. Qed.

Lemma drop_pair_ext u v a b (l : list (Edge L)) :
  (forall x : Edge L, joins a b x = joins u v x) -> drop_pair a b l = drop_pair u v l.
Proof.
  intros H. induction l as [|e r IH]; simpl; [reflexivity|].
  rewrite H. destruct (joins u v e); [exact IH | reflexivity].
Qed.

Lemma existsb_joins_ext u v a b (l : list (Edge L)) :
  (forall x : Edge L, joins a b x = joins u v x) ->
  existsb (joins a b) l = existsb (joins u v) l.
Proof.
  intros H. induction l as [|e r IH]; simpl; [reflexivity|].
  rewrite H, IH. reflexivity.
Qed.

(** A pair other than the pair of the new edge. *)
Lemma drop_pair_insert_other a b u v (new : Edge L) (l : list (Edge L)) :
  joins u v new = true -> joins a b new = false ->
  existsb (joins a b) (drop_pair a b (insert_edge u v new l))
  = existsb (joins a b) (drop_pair a b l).
Proof.
  intros Hj Hn. induction l as [|x r IH]; simpl.
  - rewrite Hn. simpl. rewrite Hn. reflexivity.
  - destruct (joins u v x && negb (existsb (joins u v) r)) eqn:C; simpl.
    + apply andb_true_iff in C. destruct C as [Jx _].
      destruct (joins a b x) eqn:Jab.
      * rewrite (joins_both _ _ _ _ _ new Jx Jab) in Hn. congruence.
      * simpl. rewrite Jab, Hn. reflexivity.
    + destruct (joins a b x) eqn:Jab; [exact IH|].
      simpl. rewrite Jab, insert_edge_existsb, Hn. reflexivity.
Qed.

(** The pair of the new edge, when the pair has an edge in the list. *)
Lemma drop_pair_insert_same u v (new : Edge L) (l : list (Edge L)) :
  joins u v new = true ->
  existsb (joins u v) l = true ->
  existsb (joins u v) (drop_pair u v l) = false ->
  existsb (joins u v) (drop_pair u v (insert_edge u v new l)) = false.
Proof.
  intros Hj. induction l as [|x r IH]; simpl; [discriminate|].
  destruct (joins u v x) eqn:Jx; simpl.
  - intros _ H. destruct (existsb (joins u v) r) eqn:X; simpl.
    + rewrite Jx. apply IH; [reflexivity | exact H].
    + rewrite Jx, Hj. exact H.
  - intros X H. simpl in H. rewrite Jx in H. simpl in H. congruence.
Qed.

Lemma grouped_insert_edge u v (new : Edge L) (l : list (Edge L)) :
  e_u new = u -> e_v new = v ->
  grouped l = true -> grouped (insert_edge u v new l) = true.
Proof.
  intros Eu Ev.
  assert (Hj : joins u v new = true) by (subst u v; apply joins_own).
  induction l as [|x r IH]; simpl.
  - intros _. reflexivity.
  - rewrite andb_true_iff, negb_true_iff. intros [H1 H2].
    destruct (joins u v x) eqn:Jx; simpl.
    + assert (P : forall y : Edge L, joins (e_u x) (e_v x) y = joins u v y).
      { intros y. exact (joins_both _ _ _ _ _ y Jx (joins_own x)). }
      destruct (existsb (joins u v) r) eqn:X; simpl.
      * rewrite (IH H2), andb_true_r, negb_true_iff.
        rewrite (drop_pair_ext _ _ _ _ _ P), (existsb_joins_ext _ _ _ _ _ P).
        rewrite (drop_pair_ext _ _ _ _ _ P), (existsb_joins_ext _ _ _ _ _ P) in H1.
        apply drop_pair_insert_same; assumption.
      * rewrite P, Hj. rewrite H1. simpl. rewrite Eu, Ev.
        rewrite (drop_pair_existsb _ _ _ _ X), H2. reflexivity.
    + rewrite (IH H2), andb_true_r, negb_true_iff.
      rewrite drop_pair_insert_other; [exact H1 | exact Hj |].
      destruct (joins (e_u x) (e_v x) new) eqn:N; [|reflexivity].
      rewrite (joins_both _ _ _ _ _ x N Hj), joins_own in Jx. discriminate.
Qed.

Lemma grouped_remove_edge g i g' :
  remove_edge g i = Ok g' -> grouped (g_edges g) = true -> grouped (g_edges g') = true.
Proof.
  intros H. apply remove_edge_edges in H. subst g'. cbn [g_edges with_edges].
  apply grouped_filter.
Qed.

Lemma grouped_merged g n nei1 k1 nei2 k2 (a : EdgeAttrs L) :
  grouped (g_edges g) = true ->
  grouped (g_edges (merged g n nei1 k1 nei2 k2 a)) = true.
Proof.
  intros H. rewrite g_edges_merged.
  apply grouped_insert_edge; [reflexivity | reflexivity |].
  apply grouped_filter. exact H.
Qed.

Lemma grouped_set_is_branch g i b :
  grouped (g_edges (set_is_branch g i b)) = grouped (g_edges g).
Proof.
  unfold set_is_branch. cbn [g_edges with_edges]. apply grouped_map.
  intros e. destruct (names i e); split; reflexivity.
Qed.

Lemma grouped_remove_small_mul g u v (thr : L) g' b :
  remove_small_mul g u v thr = Ok (g', b) ->
  grouped (g_edges g) = true -> grouped (g_edges g') = true.
Proof.
  unfold remove_small_mul. destruct (keydict g u v) as [|e0 kd]; [discriminate|].
  intros H. inv_bind H. destruct (len_ltb _ thr).
  - inv_bind H. injection H as <- <-. eapply grouped_remove_edge; eauto.
  - injection H as <- <-. auto.
Qed.

Lemma rd2n_body_grouped (thr : L) (rbc : bool) (st st' : rd2n_state L) n :
  rd2n_body thr rbc st n = Ok st' ->
  grouped (g_edges (st_graph st)) = true -> grouped (g_edges (st_graph st')) = true.
Proof.
  intros H Hg. apply rd2n_body_inv in H.
  destruct H as (nt & nei1 & nei2 & k1 & k2 & new_path & new_len & to_visit & has_nei
                 & is_br & added & removed & g3 & tv3 & b3
                 & _ & _ & _ & _ & _ & Hh & Hfin).
  assert (G3 : grouped (g_edges g3) = true).
  { destruct has_nei.
    - apply handle_new_multiedge_graph in Hh. destruct Hh as (w & Hh).
      eapply grouped_remove_small_mul; [exact Hh|]. apply grouped_merged. exact Hg.
    - injection Hh as <- _ _. apply grouped_merged. exact Hg. }
  destruct b3.
  - destruct Hfin as (key & _ & ->). cbn [st_graph].
    rewrite grouped_set_is_branch. exact G3.
  - subst st'. exact G3.
Qed.

Lemma rd2n_reach_grouped (thr : L) (rbc : bool) g0 init (st : rd2n_state L) :
  grouped (g_edges g0) = true -> rd2n_reach thr rbc g0 init st ->
  grouped (g_edges (st_graph st)) = true.
Proof.
  intros Hg Hr. induction Hr as [l Hi | st n rest st' Hr IH Hp Hbody]; [exact Hg|].
  eapply rd2n_body_grouped; [exact Hbody|]. exact IH.
Qed.

Lemma rb_body_grouped (thr : L) g (q : PriorityQueue L) i g' (q' : PriorityQueue L) :
  rb_body thr g q i = Some (Ok (g', q')) ->
  grouped (g_edges g) = true -> grouped (g_edges g') = true.
Proof.
  destruct i as [[node1 node2] key]. unfold rb_body.
  destruct (remove_edge g (node1, node2, key)) as [g1|] eqn:R; [|discriminate].
  intros H Hg. pose proof (grouped_remove_edge _ _ _ R Hg) as G1.
  remember (if (degree g1 node1 =? 0)%nat then node2 else node1) as t eqn:Et.
  destruct (degree g1 t =? 2)%nat.
  - destruct (remove_degree_two_nodes g1 thr (Some t) true) as [[st|x]|] eqn:D;
      try discriminate.
    injection H as H. inv_bind H. injection H as <- _.
    unfold remove_degree_two_nodes in D. apply rd2n_run_reach in D.
    destruct D as [D _]. eapply rd2n_reach_grouped; eauto.
  - destruct (degree g1 t =? 1)%nat.
    + injection H as H. inv_bind H. inv_bind H. inv_bind H. injection H as <- _.
      rewrite grouped_set_is_branch. exact G1.
    + injection H as <- _. exact G1.
Qed.

Lemma rb_reach_grouped (thr : L) g0 g (q : PriorityQueue L) :
  grouped (g_edges g0) = true -> rb_reach thr g0 g q -> grouped (g_edges g) = true.
Proof.
  intros Hg Hr. induction Hr as [|g q len i q' g' q'' Hr IH Hp Hbody]; [exact Hg|].
  eapply rb_body_grouped; eauto.
Qed.


(** * Further properties of the functions of adjustment.py *)

(** ** [remove_if_in_list] *)

Lemma list_remove_first (values : list node) (item : node) :
  In item values ->
  exists l1 l2, values = l1 ++ item :: l2 /\ ~ In item l1 /\
                list_remove values item = Ok (l1 ++ l2).
Proof.
  induction values as [|y l IH]; simpl; [contradiction|]. intros H.
  destruct (Z.eqb_spec y item) as [->|Hne].
  - exists [], l. simpl. auto.
  - destruct H as [->|H]; [contradiction|].
    destruct (IH H) as (l1 & l2 & -> & Hn & ->).
    exists (y :: l1), l2. simpl. split; [reflexivity|]. split; [|reflexivity].
    intros [E|E]; [congruence | contradiction].
Qed.

(** X1: [remove_if_in_list] never raises.  When the item is in the list, its
    first occurrence goes and every other element stays in place; when it
    is not, the list is returned as it is (the [ValueError] of
    [values.remove] is swallowed). *)
Theorem remove_if_in_list_first_occurrence (values : list node) (item : node) :
  (~ In item values ->
   list_remove values item = Raise ValueError /\
   remove_if_in_list values item = values) /\
  (In item values ->
   exists l1 l2, values = l1 ++ item :: l2 /\ ~ In item l1 /\
                 remove_if_in_list values item = l1 ++ l2).
Proof.
  split.
  - intros H. unfold remove_if_in_list. rewrite (list_remove_absent _ _ H). auto.
  - intros H. destruct (list_remove_first _ _ H) as (l1 & l2 & E & Hn & R).
    exists l1, l2. unfold remove_if_in_list. rewrite R. auto.
Qed.

(** ** [argmin] and [argmax] *)

Section Extremes.

(** [<] on lengths is a strict order (so it is on floats). *)
Hypothesis ltb_irrefl : forall a : L, len_ltb a a = false.
Hypothesis ltb_trans :
  forall a b c : L, len_ltb a b = true -> len_ltb b c = true -> len_ltb a c = true.

Lemma argmin_from_first (r prefix : list L) (i best : nat) (best_v d : L) :
  i = List.length prefix -> (best < i)%nat -> nth best prefix d = best_v ->
  (forall y, In y prefix -> len_ltb y best_v = false) ->
  (forall k, (k < best)%nat -> nth k prefix d <> best_v) ->
  (argmin_from r i best best_v < List.length (prefix ++ r))%nat /\
  (forall y, In y (prefix ++ r) ->
     len_ltb y (nth (argmin_from r i best best_v) (prefix ++ r) d) = false) /\
  (forall k, (k < argmin_from r i best best_v)%nat ->
     nth k (prefix ++ r) d <> nth (argmin_from r i best best_v) (prefix ++ r) d).
Proof.
  revert prefix i best best_v.
  induction r as [|x r IH]; intros prefix i best best_v Hi Hb Hn Hm Hf.
  - simpl. rewrite app_nil_r. split; [lia|]. rewrite Hn. split; [exact Hm | exact Hf].
  - cbn [argmin_from].
    replace (prefix ++ x :: r) with ((prefix ++ [x]) ++ r)
      by (rewrite <- app_assoc; reflexivity).
    destruct (len_ltb x best_v) eqn:C.
    + apply IH.
      * rewrite length_app. simpl. lia.
      * lia.
      * subst i. rewrite app_nth2 by lia. rewrite Nat.sub_diag. reflexivity.
      * intros y Hy. apply in_app_or in Hy. destruct Hy as [Hy|[<-|[]]].
        -- destruct (len_ltb y x) eqn:C2; [|reflexivity].
           specialize (Hm y Hy).
           pose proof (ltb_trans _ _ _ C2 C). congruence.
        -- apply ltb_irrefl.
      * intros k Hk E. rewrite app_nth1 in E by lia.
        assert (Hin : In (nth k prefix d) prefix) by (apply nth_In; lia).
        specialize (Hm _ Hin). rewrite E in Hm. congruence.
    + apply IH.
      * rewrite length_app. simpl. lia.
      * lia.
      * rewrite app_nth1 by lia. exact Hn.
      * intros y Hy. apply in_app_or in Hy. destruct Hy as [Hy|[<-|[]]]; auto.
      * intros k Hk. rewrite app_nth1 by lia. apply Hf. exact Hk.
Qed.

Lemma argmax_from_first (r prefix : list L) (i best : nat) (best_v d : L) :
  i = List.length prefix -> (best < i)%nat -> nth best prefix d = best_v ->
  (forall y, In y prefix -> len_ltb best_v y = false) ->
  (forall k, (k < best)%nat -> nth k prefix d <> best_v) ->
  (argmax_from r i best best_v < List.length (prefix ++ r))%nat /\
  (forall y, In y (prefix ++ r) ->
     len_ltb (nth (argmax_from r i best best_v) (prefix ++ r) d) y = false) /\
  (forall k, (k < argmax_from r i best best_v)%nat ->
     nth k (prefix ++ r) d <> nth (argmax_from r i best best_v) (prefix ++ r) d).
Proof.
  revert prefix i best best_v.
  induction r as [|x r IH]; intros prefix i best best_v Hi Hb Hn Hm Hf.
  - simpl. rewrite app_nil_r. split; [lia|]. rewrite Hn. split; [exact Hm | exact Hf].
  - cbn [argmax_from].
    replace (prefix ++ x :: r) with ((prefix ++ [x]) ++ r)
      by (rewrite <- app_assoc; reflexivity).
    destruct (len_ltb best_v x) eqn:C.
    + apply IH.
      * rewrite length_app. simpl. lia.
      * lia.
      * subst i. rewrite app_nth2 by lia. rewrite Nat.sub_diag. reflexivity.
      * intros y Hy. apply in_app_or in Hy. destruct Hy as [Hy|[<-|[]]].
        -- destruct (len_ltb x y) eqn:C2; [|reflexivity].
           specialize (Hm y Hy).
           pose proof (ltb_trans _ _ _ C C2). congruence.
        -- apply ltb_irrefl.
      * intros k Hk E. rewrite app_nth1 in E by lia.
        assert (Hin : In (nth k prefix d) prefix) by (apply nth_In; lia).
        specialize (Hm _ Hin). rewrite E in Hm. congruence.
    + apply IH.
      * rewrite length_app. simpl. lia.
      * lia.
      * rewrite app_nth1 by lia. exact Hn.
      * intros y Hy. apply in_app_or in Hy. destruct Hy as [Hy|[<-|[]]]; auto.
      * intros k Hk. rewrite app_nth1 by lia. apply Hf. exact Hk.
Qed.

(** X2: [argmin] and [argmax] raise [ValueError] on the empty list (as
    [min] and [max] of an empty range do).  On any other list [argmin]
    returns an index of the list at which no element of the list is
    smaller, and the first index that holds that value; [argmax]
    likewise with no element larger. *)
Theorem argmin_argmax_first_extreme (values : list L) (d : L) :
  values <> [] ->
  exists a b : nat,
    argmin values = Ok a /\ argmax values = Ok b /\
    (a < List.length values)%nat /\ (b < List.length values)%nat /\
    (forall y, In y values -> len_ltb y (nth a values d) = false) /\
    (forall k, (k < a)%nat -> nth k values d <> nth a values d) /\
    (forall y, In y values -> len_ltb (nth b values d) y = false) /\
    (forall k, (k < b)%nat -> nth k values d <> nth b values d) /\
    @argmin L LO [] = Raise ValueError /\ @argmax L LO [] = Raise ValueError.
Proof.
  destruct values as [|x r]; [congruence|]. intros _.
  exists (argmin_from r 1 0 x), (argmax_from r 1 0 x).
  assert (H0 : forall y, In y [x] -> len_ltb y x = false)
    by (intros y [<-|[]]; apply ltb_irrefl).
  assert (H1 : forall y, In y [x] -> len_ltb x y = false)
    by (intros y [<-|[]]; apply ltb_irrefl).
  assert (H2 : forall k, (k < 0)%nat -> nth k [x] d <> x) by (intros k Hk; lia).
  destruct (argmin_from_first r [x] 1 0 x d eq_refl (Nat.lt_0_succ 0) eq_refl H0 H2)
    as (A1 & A2 & A3).
  destruct (argmax_from_first r [x] 1 0 x d eq_refl (Nat.lt_0_succ 0) eq_refl H1 H2)
    as (B1 & B2 & B3).
  simpl app in *.
  repeat (split; [first [reflexivity | assumption]|]). reflexivity.
Qed.

End Extremes.


(** ** [degree_two_node_type] and [degree_two_iter] *)

Lemma degree_two_type_cases g n :
  has_node g n = true -> degree g n = 2%nat ->
  (degree_two_node_type g n = Ok Loop /\
   exists e, incident g n = [e] /\ e_u e = n /\ e_v e = n) \/
  (degree_two_node_type g n = Ok Multiple /\
   exists e1 e2 a, incident g n = [e1; e2] /\ a <> n /\
                   joins n a e1 = true /\ joins n a e2 = true) \/
  (degree_two_node_type g n = Ok Simple /\
   exists e1 e2 a b, incident g n = [e1; e2] /\ a <> n /\ b <> n /\ a <> b /\
                     joins n a e1 = true /\ joins n b e2 = true).
Proof.
  intros Hn Hd. unfold degree_two_node_type. rewrite Hn, neighbors_eq.
  destruct (degree_2_incident _ _ Hd) as [(e & Hi & Eu & Ev)|(e1 & e2 & Hi & E1 & E2)].
  - left. rewrite Hi. simpl. unfold nbr_of. rewrite Eu, Z.eqb_refl, Ev. simpl.
    rewrite Z.eqb_refl. split; [reflexivity|]. exists e. auto.
  - right. rewrite Hi.
    destruct (other_end_spec _ _ E1) as (A1 & A2 & A3).
    destruct (other_end_spec _ _ E2) as (B1 & B2 & B3).
    simpl. rewrite A3, B3. simpl.
    destruct (Z.eqb_spec (other_end n e2) (other_end n e1)) as [E|E]; simpl.
    + left. destruct (Z.eqb_spec (other_end n e1) n) as [X|X]; [contradiction|].
      split; [reflexivity|]. exists e1, e2, (other_end n e1).
      rewrite E in B2. auto.
    + right. split; [reflexivity|].
      exists e1, e2, (other_end n e1), (other_end n e2). repeat split; auto.
Qed.

(** X3: [degree_two_node_type] raises [KeyError] for a node that is not in
    the graph.  For a node of degree two it never answers ['unidentified']:
    the answer is ['loop'] exactly when the node has one edge, a
    self-loop; ['multiple'] when its two edges lead to one other node;
    ['simple'] when they lead to two different other nodes. *)
Theorem degree_two_node_type_cases g n :
  (has_node g n = false -> degree_two_node_type g n = Raise KeyError) /\
  (has_node g n = true -> degree g n = 2%nat ->
   (degree_two_node_type g n = Ok Loop /\
    exists e, incident g n = [e] /\ e_u e = n /\ e_v e = n) \/
   (degree_two_node_type g n = Ok Multiple /\
    exists e1 e2 a, incident g n = [e1; e2] /\ a <> n /\
                    joins n a e1 = true /\ joins n a e2 = true) \/
   (degree_two_node_type g n = Ok Simple /\
    exists e1 e2 a b, incident g n = [e1; e2] /\ a <> n /\ b <> n /\ a <> b /\
                      joins n a e1 = true /\ joins n b e2 = true)).
Proof.
  split.
  - intros H. unfold degree_two_node_type. rewrite H. reflexivity.
  - apply degree_two_type_cases.
Qed.

Lemma degree_two_iter_In g (self_loops multiple : bool) n :
  In n (degree_two_iter g self_loops multiple) <->
  In n (map fst (g_nodes g)) /\ degree g n = 2%nat /\
  (degree_two_node_type g n = Ok Simple \/
   degree_two_node_type g n = Ok Loop /\ self_loops = true \/
   degree_two_node_type g n = Ok Multiple /\ multiple = true).
Proof.
  unfold degree_two_iter. rewrite in_flat_map. split.
  - intros (x & Hx & H).
    destruct (degree g x =? 2)%nat eqn:D; [|contradiction].
    apply Nat.eqb_eq in D.
    destruct (degree_two_node_type g x) as [[| | |]|] eqn:T; try contradiction.
    + destruct H as [<-|[]]. auto.
    + destruct multiple; [|contradiction]. destruct H as [<-|[]]. auto 6.
    + destruct self_loops; [|contradiction]. destruct H as [<-|[]]. auto 6.
  - intros (Hx & D & T). exists n. split; [exact Hx|].
    rewrite D. simpl.
    destruct T as [T|[[T ->]|[T ->]]]; rewrite T; simpl; auto.
Qed.

(** X4: [degree_two_iter] yields, in the order of the nodes of the graph and
    each node once, the nodes of degree two whose type is ['simple'], or
    ['loop'] when [self_loops] is set, or ['multiple'] when [multiple] is
    set.  With both flags set (the default) these are all the nodes of
    degree two. *)
Theorem degree_two_iter_members g (self_loops multiple : bool) :
  (forall n, In n (degree_two_iter g self_loops multiple) <->
     In n (map fst (g_nodes g)) /\ degree g n = 2%nat /\
     (degree_two_node_type g n = Ok Simple \/
      degree_two_node_type g n = Ok Loop /\ self_loops = true \/
      degree_two_node_type g n = Ok Multiple /\ multiple = true)) /\
  (forall n, In n (degree_two_iter g true true) <->
     In n (map fst (g_nodes g)) /\ degree g n = 2%nat) /\
  (exists keep : node -> bool,
     degree_two_iter g self_loops multiple = filter keep (map fst (g_nodes g))) /\
  (NoDup (map fst (g_nodes g)) -> NoDup (degree_two_iter g self_loops multiple)).
Proof.
  split; [intros n; apply degree_two_iter_In|]. split; [|split].
  - intros n. rewrite degree_two_iter_In. split; [tauto|].
    intros [Hn Hd]. split; [exact Hn|]. split; [exact Hd|].
    assert (H : has_node g n = true) by (apply has_node_In; exact Hn).
    destruct (degree_two_type_cases g n H Hd) as [[T _]|[[T _]|[T _]]]; auto.
  - exists (fun n =>
              (degree g n =? 2)%nat &&
              match degree_two_node_type g n with
              | Ok Simple => true
              | Ok Loop => self_loops
              | Ok Multiple => multiple
              | _ => false
              end).
    unfold degree_two_iter. induction (map fst (g_nodes g)) as [|x l IH]; [reflexivity|].
    simpl. rewrite IH. destruct (degree g x =? 2)%nat; [|reflexivity]. simpl.
    destruct (degree_two_node_type g x) as [[| | |]|]; try reflexivity.
    + destruct multiple; reflexivity.
    + destruct self_loops; reflexivity.
  - apply degree_two_iter_NoDup.
Qed.


(** ** [multiedge_iter], [is_multiple_edge] and [count_multiple_edges] *)

Lemma pair_eqb_spec (q p : node * node) :
  reflect (q = p) ((fst q =? fst p) && (snd q =? snd p)).
Proof.
  destruct q as [q1 q2], p as [p1 p2]. simpl.
  destruct (Z.eqb_spec q1 p1), (Z.eqb_spec q2 p2); simpl; constructor; congruence.
Qed.

Lemma count_of_count_edge (d : list (node * node * nat)) (q p : node * node) :
  count_of (count_edge d q) p
  = if (fst q =? fst p) && (snd q =? snd p)
    then match count_of d p with None => Some 0%nat | Some c => Some (S c) end
    else count_of d p.
Proof.
  induction d as [|[q0 c] r IH]; simpl.
  - destruct (pair_eqb_spec q p); reflexivity.
  - destruct (pair_eqb_spec q0 q) as [E|E]; simpl.
    + subst q0. destruct (pair_eqb_spec q p); reflexivity.
    + rewrite IH. destruct (pair_eqb_spec q0 p) as [E1|E1]; [|reflexivity].
      destruct (pair_eqb_spec q p) as [E2|E2]; [congruence | reflexivity].
Qed.

Lemma count_of_fold (l : list edge_id) (d : list (node * node * nat)) (p : node * node) :
  count_of (fold_left (fun d (i : edge_id) =>
                         let '(node1, node2, _) := i in count_edge d (node1, node2)) l d) p
  = match count_of d p, List.length (filter (reports p) l) with
    | None, O => None
    | None, S c => Some c
    | Some c0, k => Some (c0 + k)%nat
    end.
Proof.
  revert d. induction l as [|[[a b] k] l IH]; intros d.
  - simpl. destruct (count_of d p); [f_equal; lia | reflexivity].
  - cbn [fold_left]. rewrite IH, count_of_count_edge. cbn [filter reports fst snd].
    destruct ((a =? fst p) && (b =? snd p)); destruct (count_of d p); simpl;
      try reflexivity; f_equal; lia.
Qed.

Lemma filter_flat_map (A B : Type) (p : B -> bool) (f : A -> list B) (l : list A) :
  filter p (flat_map f l) = flat_map (fun x => filter p (f x)) l.
Proof.
  induction l as [|x l IH]; simpl; [reflexivity|]. rewrite filter_app, IH. reflexivity.
Qed.

Lemma filter_all_false (A : Type) (p : A -> bool) (l : list A) :
  (forall x, In x l -> p x = false) -> filter p l = [].
Proof.
  induction l as [|x l IH]; simpl; [reflexivity|]. intros H.
  rewrite (H x (or_introl eq_refl)). apply IH. intros y Hy. apply H. auto.
Qed.

Lemma reports_keys n (x a b : node) (kd : list (Edge L)) :
  filter (reports (a, b)) (map (fun e => (n, x, e_key e)) kd)
  = if (n =? a) && (x =? b) then map (fun e => (n, x, e_key e)) kd else [].
Proof.
  induction kd as [|e kd IH]; simpl.
  - destruct ((n =? a) && (x =? b)); reflexivity.
  - rewrite IH. destruct ((n =? a) && (x =? b)); reflexivity.
Qed.

Lemma reports_block g (seen : list node) n (a b : node) (nbs : list node) :
  NoDup nbs ->
  List.length
    (filter (reports (a, b))
       (flat_map (fun nbr => if existsb (Z.eqb nbr) seen then []
                             else map (fun e => (n, nbr, e_key e)) (keydict g n nbr)) nbs))
  = if (n =? a) && existsb (Z.eqb b) nbs && negb (existsb (Z.eqb b) seen)
    then List.length (keydict g a b) else 0%nat.
Proof.
  pose proof (reports_keys n) as RK. unfold edge_id, node in *.
  induction nbs as [|x nbs IH]; intros ND.
  - simpl. rewrite andb_false_r. reflexivity.
  - inversion ND as [|? ? Hx ND']; subst.
    simpl flat_map. rewrite filter_app, length_app, (IH ND'). clear IH.
    cbn [existsb]. destruct (Z.eqb_spec b x) as [E|E].
    + subst x.
      assert (Xb : existsb (Z.eqb b) nbs = false).
      { destruct (existsb (Z.eqb b) nbs) eqn:X; [|reflexivity].
        apply existsb_eqb_In in X. contradiction. }
      rewrite Xb, andb_false_r. cbn [orb andb]. rewrite andb_true_r.
      destruct (existsb (Z.eqb b) seen); simpl.
      * rewrite andb_false_r. reflexivity.
      * rewrite andb_true_r, RK, Z.eqb_refl, andb_true_r.
        destruct (Z.eqb_spec n a) as [->|_]; [rewrite length_map; lia | reflexivity].
    + cbn [orb].
      assert (H0 : filter (reports (a, b))
                     (if existsb (Z.eqb x) seen then []
                      else map (fun e => (n, x, e_key e)) (keydict g n x)) = []).
      { destruct (existsb (Z.eqb x) seen); [reflexivity|].
        rewrite RK. destruct (Z.eqb_spec x b) as [->|_]; [congruence|].
        rewrite andb_false_r. reflexivity. }
      unfold edge_id, node in H0. rewrite H0. reflexivity.
Qed.

Lemma edges_from_not_seen g (ns seen : list node) a b k :
  In (a, b, k) (edges_from g ns seen) -> ~ In b seen /\ In b (neighbors g a).
Proof.
  revert seen. induction ns as [|n ns IH]; intros seen; simpl; [tauto|].
  rewrite in_app_iff, in_flat_map. intros [(nbr & Hnbr & H)|H].
  - destruct (existsb (Z.eqb nbr) seen) eqn:X; [contradiction|].
    apply in_map_iff in H. destruct H as (e & E & He). injection E as <- <- <-.
    split; [|exact Hnbr]. intros Hin. apply existsb_eqb_In in Hin. congruence.
  - apply IH in H. destruct H as [H1 H2]. split; [|exact H2].
    intros Hin. apply H1. simpl. auto.
Qed.

Lemma edges_from_block g (seen : list node) n a b k :
  In (a, b, k)
     (flat_map (fun nbr => if existsb (Z.eqb nbr) seen then []
                           else map (fun e => (n, nbr, e_key e)) (keydict g n nbr))
               (neighbors g n)) ->
  a = n /\ In b (neighbors g n) /\ existsb (Z.eqb b) seen = false.
Proof.
  rewrite in_flat_map. intros (nbr & Hnbr & H).
  destruct (existsb (Z.eqb nbr) seen) eqn:X; [contradiction|].
  apply in_map_iff in H. destruct H as (e & E & He). injection E as <- <- <-. auto.
Qed.

Lemma reports_edges_from_out g (ns seen : list node) a b :
  ~ In a ns -> filter (reports (a, b)) (edges_from g ns seen) = [].
Proof.
  intros Ha. apply filter_all_false. intros [[x y] k] Hin.
  apply edges_from_sound in Hin. destruct Hin as [Hx _].
  simpl. destruct (Z.eqb_spec x a) as [->|_]; [contradiction | reflexivity].
Qed.

Lemma reports_edges_from g (ns seen : list node) a b k :
  NoDup ns -> In (a, b, k) (edges_from g ns seen) ->
  List.length (filter (reports (a, b)) (edges_from g ns seen))
  = List.length (keydict g a b).
Proof.
  revert seen. induction ns as [|n ns IH]; intros seen ND; [contradiction|].
  inversion ND as [|? ? Hn ND']; subst.
  pose proof (reports_block g seen n a b (neighbors g n) (neighbors_NoDup g n)) as RB.
  cbn [edges_from]. rewrite in_app_iff, filter_app, length_app.
  unfold edge_id, node in *. rewrite RB. clear RB.
  intros [H|H].
  - apply edges_from_block in H. destruct H as (-> & Hb & Sb).
    pose proof (reports_edges_from_out g ns (n :: seen) n b Hn) as RO.
    unfold edge_id, node in RO. rewrite RO.
    rewrite Z.eqb_refl, Sb. apply existsb_eqb_In in Hb. rewrite Hb. simpl. lia.
  - pose proof (edges_from_sound _ _ _ _ _ _ H) as [Ha _].
    destruct (Z.eqb_spec n a) as [->|_]; [contradiction|].
    simpl. apply IH; assumption.
Qed.

Lemma edges_from_one_way g (ns seen : list node) a b k k' :
  In (a, b, k) (edges_from g ns seen) -> In (b, a, k') (edges_from g ns seen) -> a = b.
Proof.
  revert seen. induction ns as [|n ns IH]; intros seen; [contradiction|].
  cbn [edges_from]. rewrite !in_app_iff. intros [H1|H1] [H2|H2].
  - apply edges_from_block in H1. apply edges_from_block in H2.
    destruct H1 as [-> _], H2 as [-> _]. reflexivity.
  - apply edges_from_block in H1. destruct H1 as [-> _].
    apply edges_from_not_seen in H2. destruct H2 as [H2 _]. simpl in H2. tauto.
  - apply edges_from_block in H2. destruct H2 as [-> _].
    apply edges_from_not_seen in H1. destruct H1 as [H1 _]. simpl in H1. tauto.
  - exact (IH _ H1 H2).
Qed.

Lemma pair_set_add_NoDup (s : list (node * node)) p : NoDup s -> NoDup (pair_set_add s p).
Proof.
  intros ND. unfold pair_set_add.
  destruct (existsb (fun q => (fst q =? fst p) && (snd q =? snd p)) s) eqn:X; [exact ND|].
  apply NoDup_app; [exact ND | constructor; [simpl; tauto | constructor] |].
  intros q Hq [<-|[]].
  assert (T : existsb (fun q0 => (fst q0 =? fst p) && (snd q0 =? snd p)) s = true).
  { apply existsb_exists. exists p. split; [exact Hq|]. rewrite !Z.eqb_refl. reflexivity. }
  congruence.
Qed.

Lemma multiedge_iter_NoDup g : NoDup (multiedge_iter g).
Proof.
  unfold multiedge_iter.
  assert (G : forall (ids : list edge_id) (s : list (node * node)),
            NoDup s ->
            NoDup (fold_left
                     (fun s i =>
                        let '(node1, node2, _) := i in
                        if (1 <? List.length (keydict g node1 node2))%nat
                        then pair_set_add s (node1, node2) else s) ids s)).
  { induction ids as [|[[x y] k] ids IH]; intros s ND; [exact ND|].
    cbn [fold_left]. apply IH.
    destruct (1 <? List.length (keydict g x y))%nat; [apply pair_set_add_NoDup|]; exact ND. }
  apply G. constructor.
Qed.

Lemma count_multiple_edges_spec g a b :
  NoDup (map fst (g_nodes g)) ->
  count_of (count_multiple_edges g) (a, b)
  = if existsb (reports (a, b)) (graph_edges g)
    then Some (List.length (keydict g a b) - 1)%nat else None.
Proof.
  intros ND. unfold count_multiple_edges. rewrite count_of_fold. cbn [count_of].
  destruct (existsb (reports (a, b)) (graph_edges g)) eqn:X.
  - apply existsb_exists in X. destruct X as ([[x y] k] & Hin & R).
    simpl in R. apply andb_true_iff in R. rewrite !Z.eqb_eq in R. destruct R as [-> ->].
    unfold graph_edges in *. rewrite (reports_edges_from g _ [] a b k ND Hin).
    assert (Hpos : (0 < List.length (keydict g a b))%nat).
    { apply edges_from_sound in Hin. destruct Hin as (_ & e & He & N).
      apply names_spec in N. destruct N as [J _].
      assert (Hk : In e (keydict g a b)) by (apply keydict_In; auto).
      destruct (keydict g a b); [contradiction | simpl; lia]. }
    destruct (List.length (keydict g a b)); [lia|]. f_equal. lia.
  - rewrite filter_all_false; [reflexivity|].
    intros i Hi. destruct (reports (a, b) i) eqn:R; [|reflexivity].
    assert (T : existsb (reports (a, b)) (graph_edges g) = true)
      by (apply existsb_exists; eauto).
    congruence.
Qed.

Lemma reports_In (l : list edge_id) a b :
  existsb (reports (a, b)) l = true <-> exists k, In (a, b, k) l.
Proof.
  rewrite existsb_exists. split.
  - intros ([[x y] k] & Hin & R). simpl in R. apply andb_true_iff in R.
    rewrite !Z.eqb_eq in R. destruct R as [-> ->]. eauto.
  - intros (k & Hin). exists (a, b, k). split; [exact Hin|]. simpl.
    rewrite !Z.eqb_refl. reflexivity.
Qed.

Lemma joins_same_pair_cases (a b x y : node) e :
  joins a b e = true -> joins x y e = true -> (x = a /\ y = b) \/ (x = b /\ y = a).
Proof. rewrite !joins_spec. intros [[? ?]|[? ?]] [[? ?]|[? ?]]; subst; auto. Qed.

(** X5: on a graph networkx can hold, [multiedge_iter] yields every pair of
    nodes joined by more than one edge exactly once and in one orientation
    only; [is_multiple_edge] is true of a yielded pair in both orientations,
    every pair it is true of is yielded in one of them, and it raises
    [KeyError] for two nodes that no edge joins.  [count_multiple_edges] has
    exactly the pairs that [graph.edges] reports as keys, each with the
    number of its edges minus one, and a pair is yielded by [multiedge_iter]
    exactly when its count is positive. *)
Theorem multiple_edges_views g :
  well_formed g = true ->
  NoDup (multiedge_iter g) /\
  (forall a b, In (a, b) (multiedge_iter g) ->
     is_multiple_edge g a b = Ok true /\ is_multiple_edge g b a = Ok true /\
     (a <> b -> ~ In (b, a) (multiedge_iter g))) /\
  (forall a b, is_multiple_edge g a b = Ok true ->
     In (a, b) (multiedge_iter g) \/ In (b, a) (multiedge_iter g)) /\
  (forall a b, has_edge g a b = false -> is_multiple_edge g a b = Raise KeyError) /\
  (forall a b k, In (a, b, k) (graph_edges g) ->
     count_of (count_multiple_edges g) (a, b)
     = Some (List.length (keydict g a b) - 1)%nat) /\
  (forall a b, (forall k, ~ In (a, b, k) (graph_edges g)) ->
     count_of (count_multiple_edges g) (a, b) = None) /\
  (forall a b, In (a, b) (multiedge_iter g) <->
     exists c, count_of (count_multiple_edges g) (a, b) = Some (S c)).
Proof.
  intros Hwf. pose proof (well_formed_nodes _ Hwf) as ND.
  destruct (well_formed_spec _ Hwf) as [_ Hn].
  assert (M : forall a b, (1 < List.length (keydict g a b))%nat ->
                is_multiple_edge g a b = Ok true).
  { intros a b H. unfold is_multiple_edge.
    destruct (keydict g a b) as [|e r] eqn:K; [simpl in H; lia|].
    apply Nat.ltb_lt in H. rewrite H. reflexivity. }
  assert (S : forall a b, List.length (keydict g b a) = List.length (keydict g a b)).
  { intros a b. unfold keydict. f_equal. apply filter_ext. intros e. apply joins_sym. }
  split; [apply multiedge_iter_NoDup|].
  split; [|split; [|split; [|split; [|split]]]].
  - intros a b H. apply multiedge_iter_spec in H. destruct H as [(k & Hk) Hl].
    split; [apply M; exact Hl|]. split; [apply M; rewrite S; exact Hl|].
    intros Hab H'. apply multiedge_iter_spec in H'. destruct H' as [(k' & Hk') _].
    apply Hab. exact (edges_from_one_way _ _ _ _ _ _ _ Hk Hk').
  - intros a b H. unfold is_multiple_edge in H.
    destruct (keydict g a b) as [|e r] eqn:K; [discriminate|].
    injection H as H. apply Nat.ltb_lt in H.
    assert (He : In e (keydict g a b)) by (rewrite K; simpl; auto).
    apply keydict_In in He. destruct He as [He J].
    destruct (graph_edges_complete _ _ Hn He) as (x & y & Hin & J').
    destruct (joins_same_pair_cases a b x y e J J') as [[-> ->]|[-> ->]].
    + left. apply multiedge_iter_spec. split; [eauto|]. rewrite K. exact H.
    + right. apply multiedge_iter_spec. split; [eauto|]. rewrite S, K. exact H.
  - intros a b H. unfold has_edge in H. unfold is_multiple_edge.
    destruct (keydict g a b); [reflexivity | discriminate].
  - intros a b k H. rewrite (count_multiple_edges_spec g a b ND).
    assert (T : existsb (reports (a, b)) (graph_edges g) = true)
      by (apply reports_In; eauto).
    rewrite T. reflexivity.
  - intros a b H. rewrite (count_multiple_edges_spec g a b ND).
    destruct (existsb (reports (a, b)) (graph_edges g)) eqn:T; [|reflexivity].
    apply reports_In in T. destruct T as (k & Hk). destruct (H k Hk).
  - intros a b. rewrite multiedge_iter_spec, (count_multiple_edges_spec g a b ND).
    rewrite <- reports_In. split.
    + intros [T Hl]. rewrite T. exists (List.length (keydict g a b) - 2)%nat.
      f_equal. lia.
    + intros (c & H). destruct (existsb (reports (a, b)) (graph_edges g)); [|discriminate].
      split; [reflexivity|]. injection H as H. lia.
Qed.


(** ** [get_single_neighbor] and [get_single_edge_key] *)

Lemma nbr_of_other n (a : node) e : joins n a e = true -> a <> n -> nbr_of n e = [a].
Proof.
  rewrite joins_spec. unfold nbr_of. intros [[Hu Hv]|[Hu Hv]] Ha.
  - rewrite Hu, Z.eqb_refl, Hv. reflexivity.
  - destruct (Z.eqb_spec (e_u e) n) as [E|_]; [congruence|].
    rewrite Hv, Z.eqb_refl, Hu. reflexivity.
Qed.

Lemma keydict_sym g (a b : node) : keydict g a b = keydict g b a.
Proof. unfold keydict. apply filter_ext. intros e. apply joins_sym. Qed.

(** X6: [get_single_neighbor] raises [KeyError] for a node that is not in
    the graph and [IndexError] for a node without an edge.  At a node of
    degree one it returns the other end of the only edge of the node, and
    [get_single_edge_key] returns the key of that edge, with the two nodes
    given in either order.  [get_single_edge_key] raises [KeyError] for two
    nodes that no edge joins, and the key it returns is the key of an edge
    between the two nodes. *)
Theorem single_neighbor_and_key g n :
  (has_node g n = false -> get_single_neighbor g n = Raise KeyError) /\
  (has_node g n = true -> degree g n = 0%nat ->
   get_single_neighbor g n = Raise IndexError) /\
  (has_node g n = true -> degree g n = 1%nat ->
   exists e x, incident g n = [e] /\ x <> n /\ joins n x e = true /\
     get_single_neighbor g n = Ok x /\
     get_single_edge_key g n x = Ok (e_key e) /\
     get_single_edge_key g x n = Ok (e_key e)) /\
  (forall a b : node, has_edge g a b = false ->
     get_single_edge_key g a b = Raise KeyError) /\
  (forall (a b : node) (k : Z), get_single_edge_key g a b = Ok k ->
     exists e, In e (g_edges g) /\ names (a, b, k) e = true).
Proof.
  split; [|split; [|split; [|split]]].
  - intros H. unfold get_single_neighbor. rewrite H. reflexivity.
  - intros H Hd. unfold get_single_neighbor. rewrite H, neighbors_eq.
    assert (Hi : incident g n = []).
    { unfold incident. apply filter_all_false. intros e He.
      exact (degree_0_no_edge _ _ _ Hd He). }
    rewrite Hi. reflexivity.
  - intros H Hd. destruct (degree_1_incident _ _ Hd) as (e & Hi & He).
    destruct (other_end_spec _ _ He) as (O1 & O2 & O3).
    exists e, (other_end n e). split; [exact Hi|]. split; [exact O1|].
    split; [exact O2|].
    assert (K : keydict g n (other_end n e) = [e]).
    { rewrite keydict_incident, Hi. simpl. rewrite O2. reflexivity. }
    split; [|split].
    + unfold get_single_neighbor. rewrite H, neighbors_eq, Hi. simpl. rewrite O3.
      reflexivity.
    + unfold get_single_edge_key. rewrite K. reflexivity.
    + unfold get_single_edge_key. rewrite keydict_sym, K. reflexivity.
  - intros a b H. unfold has_edge in H. unfold get_single_edge_key.
    destruct (keydict g a b); [reflexivity | discriminate].
  - intros a b k H. apply get_single_edge_key_In in H.
    destruct H as (e & He & N & _). eauto.
Qed.

(** ** [two_neighbors_data] *)

(** X8: [two_neighbors_data] raises [KeyError] for a node that is not in
    the graph when it has to find the type itself, and [NetworkXError] when
    the type is given; with a type that is none of the three it raises
    [UnboundLocalError].  At a node of degree two it raises [ValueError]
    when the node is of type ['loop'], and otherwise returns two
    neighbours, the smaller one first, neither of them the node itself,
    with the keys of the two edges of the node: the first key is the key of
    the edge to the first neighbour, the second key that of the edge to the
    second. *)
Theorem two_neighbors_data_cases g n :
  (has_node g n = false -> two_neighbors_data g n None = Raise KeyError) /\
  (forall t, has_node g n = false ->
     two_neighbors_data g n (Some t) = Raise NetworkXError) /\
  (has_node g n = true ->
     two_neighbors_data g n (Some Unidentified) = Raise UnboundLocalError) /\
  (has_node g n = true -> degree g n = 2%nat ->
   (degree_two_node_type g n = Ok Loop /\
    two_neighbors_data g n None = Raise ValueError) \/
   (exists (nei1 nei2 : node) (k1 k2 : Z),
      two_neighbors_data g n None = Ok (nei1, nei2, k1, k2) /\
      nei1 <= nei2 /\ nei1 <> n /\ nei2 <> n /\
      (degree_two_node_type g n = Ok Simple /\ nei1 < nei2 \/
       degree_two_node_type g n = Ok Multiple /\ nei1 = nei2) /\
      exists f1 f2,
        joins n nei1 f1 = true /\ joins n nei2 f2 = true /\
        e_key f1 = k1 /\ e_key f2 = k2 /\
        (incident g n = [f1; f2] \/ incident g n = [f2; f1]))).
Proof.
  split; [|split; [|split]].
  - intros H. unfold two_neighbors_data, degree_two_node_type. rewrite H. reflexivity.
  - intros t H. unfold two_neighbors_data. rewrite H. reflexivity.
  - intros H. unfold two_neighbors_data. rewrite H. reflexivity.
  - intros H Hd.
    destruct (degree_two_type_cases _ _ H Hd)
      as [(T & e & Hi & Eu & Ev)
         |[(T & e1 & e2 & a & Hi & Ha & J1 & J2)
          |(T & e1 & e2 & a & b & Hi & Ha & Hb & Hab & J1 & J2)]].
    + left. split; [exact T|]. unfold two_neighbors_data. rewrite T, H. reflexivity.
    + right. exists a, a, (e_key e1), (e_key e2).
      assert (Hn : neighbors g n = [a]).
      { rewrite neighbors_eq, Hi. simpl.
        rewrite (nbr_of_other _ _ _ J1 Ha), (nbr_of_other _ _ _ J2 Ha). simpl.
        rewrite Z.eqb_refl. reflexivity. }
      assert (K : keydict g n a = [e1; e2]).
      { rewrite keydict_incident, Hi. simpl. rewrite J1, J2. reflexivity. }
      split.
      { unfold two_neighbors_data. rewrite T, H. cbn [bind]. rewrite Hn, K.
        simpl. rewrite Z.ltb_irrefl. reflexivity. }
      split; [lia|]. split; [exact Ha|]. split; [exact Ha|].
      split; [right; auto|]. exists e1, e2. auto 10.
    + right.
      assert (Hn : neighbors g n = [a; b]).
      { rewrite neighbors_eq, Hi. simpl.
        rewrite (nbr_of_other _ _ _ J1 Ha), (nbr_of_other _ _ _ J2 Hb). simpl.
        destruct (Z.eqb_spec b a) as [E|_]; [congruence | reflexivity]. }
      assert (J12 : joins n a e2 = false).
      { destruct (joins n a e2) eqn:J; [|reflexivity].
        pose proof (joins_same_pair _ _ _ _ J J2). congruence. }
      assert (J21 : joins n b e1 = false).
      { destruct (joins n b e1) eqn:J; [|reflexivity].
        pose proof (joins_same_pair _ _ _ _ J J1). congruence. }
      assert (Ka : keydict g n a = [e1]).
      { rewrite keydict_incident, Hi. simpl. rewrite J1, J12. reflexivity. }
      assert (Kb : keydict g n b = [e2]).
      { rewrite keydict_incident, Hi. simpl. rewrite J21, J2. reflexivity. }
      assert (R : two_neighbors_data g n None
                  = if b <? a then Ok (b, a, e_key e2, e_key e1)
                    else Ok (a, b, e_key e1, e_key e2)).
      { unfold two_neighbors_data, get_single_edge_key. rewrite T, H. cbn [bind].
        rewrite Hn, Ka, Kb. reflexivity. }
      destruct (Z.ltb_spec b a) as [Hlt|Hge].
      * exists b, a, (e_key e2), (e_key e1). split; [exact R|].
        split; [lia|]. split; [exact Hb|]. split; [exact Ha|].
        split; [left; split; [exact T | lia]|]. exists e2, e1. auto 10.
      * exists a, b, (e_key e1), (e_key e2). split; [exact R|].
        split; [lia|]. split; [exact Ha|]. split; [exact Hb|].
        split; [left; split; [exact T | lia]|]. exists e1, e2. auto 10.
Qed.

(** ** [remove_small_mul] *)

Section Smallest.

(** [<] on lengths is a strict order (so it is on floats). *)
Hypothesis ltb_irrefl : forall a : L, len_ltb a a = false.
Hypothesis ltb_trans :
  forall a b c : L, len_ltb a b = true -> len_ltb b c = true -> len_ltb a c = true.

(** X7: [remove_small_mul] raises [KeyError] for two nodes that no edge
    joins.  Otherwise it looks at one edge between the two nodes than which
    none is shorter: when that edge is shorter than the threshold it is
    removed, it alone, the nodes stay and the answer is [True]; when it is
    not, the graph is left as it is and the answer is [False]. *)
Theorem remove_small_mul_outcome g (node1 node2 : node) (thr : L) :
  ids_distinct (g_edges g) = true ->
  (has_edge g node1 node2 = false ->
   remove_small_mul g node1 node2 thr = Raise KeyError) /\
  (has_edge g node1 node2 = true ->
   exists s, In s (keydict g node1 node2) /\
     (forall y, In y (keydict g node1 node2) ->
        len_ltb (length (e_attrs y)) (length (e_attrs s)) = false) /\
     (len_ltb (length (e_attrs s)) thr = true ->
      exists g', remove_small_mul g node1 node2 thr = Ok (g', true) /\
        g_nodes g' = g_nodes g /\
        (forall x, In x (g_edges g') <-> In x (g_edges g) /\ x <> s)) /\
     (len_ltb (length (e_attrs s)) thr = false ->
      remove_small_mul g node1 node2 thr = Ok (g, false))).
Proof.
  intros Hd. split.
  - intros H. unfold has_edge in H. unfold remove_small_mul.
    destruct (keydict g node1 node2); [reflexivity | discriminate].
  - intros H. unfold has_edge in H. unfold remove_small_mul.
    destruct (keydict g node1 node2) as [|e0 kd] eqn:K; [discriminate|]. clear H.
    set (f := fun e : Edge L => length (e_attrs e)).
    cbn [map argmin bind].
    set (a := argmin_from (map f kd) 1 0 (f e0)).
    assert (H0 : forall y, In y [f e0] -> len_ltb y (f e0) = false)
      by (intros y [<-|[]]; apply ltb_irrefl).
    assert (H2 : forall k, (k < 0)%nat -> nth k [f e0] (f e0) <> f e0)
      by (intros k Hk; lia).
    destruct (argmin_from_first ltb_irrefl ltb_trans (map f kd) [f e0] 1 0 (f e0) (f e0)
                eq_refl (Nat.lt_0_succ 0) eq_refl H0 H2) as (A1 & A2 & _).
    fold a in A1, A2. change ([f e0] ++ map f kd) with (map f (e0 :: kd)) in A1, A2.
    rewrite length_map in A1. rewrite map_nth in A2.
    set (s := nth a (e0 :: kd) e0) in *.
    assert (Hs : In s (e0 :: kd)) by (apply nth_In; exact A1).
    exists s. split; [exact Hs|]. split.
    { intros y Hy. apply (A2 (f y)). apply in_map. exact Hy. }
    assert (Hk : In s (keydict g node1 node2)) by (rewrite K; exact Hs).
    apply keydict_In in Hk. destruct Hk as [Hg J].
    assert (N : names (node1, node2, e_key s) s = true)
      by (apply names_spec; auto).
    split.
    + intros C. fold (f s). unfold f at 1. rewrite C.
      unfold remove_edge.
      assert (X : existsb (names (node1, node2, e_key s)) (g_edges g) = true)
        by (apply existsb_exists; eauto).
      rewrite X. cbn [bind]. eexists. split; [reflexivity|].
      split; [reflexivity|]. intros x. cbn [g_edges with_edges].
      rewrite filter_In, negb_true_iff. split.
      * intros [Hx Nx]. split; [exact Hx|]. intros ->. congruence.
      * intros [Hx Nx]. split; [exact Hx|].
        destruct (names (node1, node2, e_key s) x) eqn:Nx'; [|reflexivity].
        destruct Nx. exact (names_unique _ _ _ _ Hd Hx Hg Nx' N).
    + intros C. fold (f s). unfold f at 1. rewrite C. reflexivity.
Qed.

End Smallest.


(** ** [remove_degree_two_nodes]: what is left of the graph *)

Lemma ids_distinct_NoDup (l : list (Edge L)) : ids_distinct l = true -> NoDup l.
Proof.
  induction l as [|x l IH]; simpl; [constructor|].
  rewrite andb_true_iff, negb_true_iff. intros [Hx Hl]. constructor; [|auto].
  intros Hin. assert (T : existsb (names (id_of x)) l = true).
  { apply existsb_exists. exists x. split; [exact Hin | apply names_id_of]. }
  congruence.
Qed.

Lemma type_same_incident g g' (x : node) :
  g_nodes g' = g_nodes g -> incident g' x = incident g x ->
  degree_two_node_type g' x = degree_two_node_type g x.
Proof.
  intros Hn Hi. unfold degree_two_node_type.
  rewrite (has_node_same_nodes _ _ x Hn), (neighbors_incident _ _ _ Hi). reflexivity.
Qed.

Lemma type_set_is_branch g i (b : bool) (x : node) :
  degree_two_node_type (set_is_branch g i b) x = degree_two_node_type g x.
Proof.
  unfold degree_two_node_type.
  assert (N : neighbors (set_is_branch g i b) x = neighbors g x).
  { unfold neighbors, set_is_branch. cbn [g_edges with_edges]. f_equal.
    induction (g_edges g) as [|e l IH]; simpl; [reflexivity|]. rewrite IH. f_equal.
    destruct (names i e); reflexivity. }
  rewrite N. reflexivity.
Qed.

Lemma type_has_node g (x : node) (t : node_type) :
  degree_two_node_type g x = Ok t -> has_node g x = true.
Proof.
  unfold degree_two_node_type. destruct (has_node g x); [reflexivity | discriminate].
Qed.

(** A neighbour of a node of type ['simple'] that has degree two is of
    type ['simple'] itself. *)
Lemma simple_neighbour_type g n (nei1 nei2 x : node) (f1 f2 : Edge L) :
  ids_distinct (g_edges g) = true ->
  incident g n = [f1; f2] \/ incident g n = [f2; f1] ->
  joins n nei1 f1 = true -> joins n nei2 f2 = true ->
  nei1 <> nei2 -> x <> n -> x = nei1 \/ x = nei2 ->
  has_node g x = true -> degree g x = 2%nat ->
  degree_two_node_type g x = Ok Simple.
Proof.
  intros Hd Hi J1 J2 Hne Hxn Hx Hn D.
  assert (Hf : exists fx, In fx (incident g n) /\ joins n x fx = true).
  { destruct Hx as [-> | ->]; [exists f1 | exists f2]; (split; [|assumption]);
      destruct Hi as [-> | ->]; simpl; auto. }
  destruct Hf as (fx & Hfx & Jx).
  assert (Hfx' : In fx (incident g x)).
  { apply filter_In in Hfx. destruct Hfx as [Hg _]. apply filter_In. split; [exact Hg|].
    apply (joins_touches _ _ _ Jx). }
  destruct (degree_two_type_cases _ _ Hn D)
    as [(T & e & He & Eu & Ev)|[(T & e1 & e2 & a & He & Ha & Ja1 & Ja2)|(T & _)]];
    [| |exact T]; exfalso.
  - rewrite He in Hfx'. destruct Hfx' as [<-|[]].
    apply joins_spec in Jx. destruct Jx as [[A B]|[A B]]; congruence.
  - assert (Jx' : joins x n fx = true) by (rewrite joins_sym; exact Jx).
    assert (Ea : a = n).
    { rewrite He in Hfx'. destruct Hfx' as [<-|[<-|[]]].
      - exact (joins_same_pair _ _ _ _ Ja1 Jx').
      - exact (joins_same_pair _ _ _ _ Ja2 Jx'). }
    subst a.
    assert (ND : NoDup (incident g x)) by (apply NoDup_filter, ids_distinct_NoDup; exact Hd).
    rewrite He in ND. inversion ND as [|? ? N12 _]; subst.
    assert (I : forall y, In y (incident g x) -> joins x n y = true -> In y (incident g n)).
    { intros y Hy Jy. apply filter_In in Hy. destruct Hy as [Hg _].
      apply filter_In. split; [exact Hg | apply (joins_touches _ _ _ Jy)]. }
    assert (I1 : In e1 (incident g n)) by (apply I; [rewrite He; simpl; auto | exact Ja1]).
    assert (I2 : In e2 (incident g n)) by (apply I; [rewrite He; simpl; auto | exact Ja2]).
    assert (Both : joins x n f1 = true /\ joins x n f2 = true).
    { destruct Hi as [Hi|Hi]; rewrite Hi in I1, I2; simpl in I1, I2, N12;
        destruct I1 as [E1|[E1|[]]], I2 as [E2|[E2|[]]]; subst;
        try (split; assumption); exfalso; apply N12; auto. }
    destruct Both as [B1 B2]. rewrite joins_sym in B1, B2.
    apply Hne. rewrite (joins_same_pair _ _ _ _ J1 B1), (joins_same_pair _ _ _ _ J2 B2).
    reflexivity.
Qed.

(** A node with a self-loop is not of type ['simple']. *)
Lemma loop_not_simple g (a : node) e :
  In e (g_edges g) -> e_u e = a -> e_v e = a -> degree g a = 2%nat ->
  degree_two_node_type g a <> Ok Simple.
Proof.
  intros He Eu Ev D T. pose proof (type_has_node _ _ _ T) as Hn.
  destruct (degree_two_type_cases _ _ Hn D)
    as [(T' & _)|[(T' & _)|(_ & e1 & e2 & p & q & Hi & Hp & Hq & _ & J1 & J2)]];
    [congruence | congruence |].
  assert (Hin : In e (incident g a)).
  { apply filter_In. split; [exact He|]. apply touches_spec. auto. }
  rewrite Hi in Hin. apply joins_spec in J1, J2.
  destruct Hin as [<-|[<-|[]]]; [destruct J1 as [[? ?]|[? ?]] | destruct J2 as [[? ?]|[? ?]]];
    congruence.
Qed.

(** [handle_new_multiedge] and the work list. *)
Lemma handle_new_multiedge_worklist g (nei1 nei2 : node) (thr : L) (visit : list node)
    g3 (tv3 : list node) (b3 : bool) :
  ids_distinct (g_edges g) = true -> nei1 <> nei2 ->
  (2 <= degree g nei1)%nat -> (2 <= degree g nei2)%nat ->
  NoDup visit -> (forall m, In m visit -> degree g m = 2%nat) ->
  handle_new_multiedge g nei1 nei2 thr visit = Ok (g3, tv3, b3) ->
  ids_distinct (g_edges g3) = true /\ NoDup tv3 /\
  (forall m, In m tv3 -> degree g3 m = 2%nat) /\
  (forall x, degree g3 x <= degree g x)%nat /\
  (forall x, x <> nei1 -> x <> nei2 -> In x visit -> In x tv3) /\
  (forall x, x = nei1 \/ x = nei2 -> degree g3 x = 2%nat ->
     In x tv3 \/ (g3 = g /\ tv3 = visit)) /\
  (forall x, x <> nei1 -> x <> nei2 -> incident g3 x = incident g x) /\
  (forall e, In e (g_edges g3) -> In e (g_edges g)).
Proof.
  intros Hd Hne D1 D2 ND Hv H.
  pose proof (fun x X1 X2 => incident_handle_new_multiedge _ _ _ _ _ _ _ _ x H X1 X2) as Hinc.
  apply handle_new_multiedge_inv in H. destruct H as (w & Hr & Hw).
  destruct w.
  - destruct Hw as [-> ->].
    destruct (remove_small_mul_true g nei1 nei2 Hd Hne D1 D2 _ _ Hr)
      as (s & Hs & J & Hin & E1 & E2 & Eo & Hd3).
    assert (Hle : forall x, (degree g3 x <= degree g x)%nat).
    { intros x. destruct (Z.eq_dec x nei1) as [->|X1]; [lia|].
      destruct (Z.eq_dec x nei2) as [->|X2]; [lia|]. rewrite Eo by auto. lia. }
    destruct (visit_update_spec g3 visit nei1 ND) as [ND1 M1].
    { intros Hm. apply Hv in Hm. lia. }
    destruct (visit_update_spec g3 (visit_update g3 visit nei1) nei2 ND1) as [ND2 M2].
    { intros Hm. apply M1 in Hm. destruct Hm as [[? _]|[_ Hm]]; [congruence|].
      apply Hv in Hm. lia. }
    split; [exact Hd3|]. split; [exact ND2|]. split.
    { intros m Hm. apply M2 in Hm. destruct Hm as [[-> Hm]|[X2 Hm]]; [exact Hm|].
      apply M1 in Hm. destruct Hm as [[-> Hm]|[X1 Hm]]; [exact Hm|].
      rewrite Eo by auto. apply Hv. exact Hm. }
    split; [exact Hle|]. split.
    { intros x X1 X2 Hx. apply M2. right. split; [exact X2|]. apply M1. right. auto. }
    split.
    { intros x Hx Dx. left. apply M2. destruct (Z.eq_dec x nei2) as [->|X2]; [left; auto|].
      right. split; [exact X2|]. apply M1. left. destruct Hx as [->| ->]; [auto | congruence]. }
    split; [intros x X1 X2; apply Hinc; auto|].
    intros e He. apply Hin in He. tauto.
  - destruct Hw as [-> _]. apply remove_small_mul_inv in Hr. subst g3.
    split; [exact Hd|]. split; [exact ND|]. split; [exact Hv|].
    split; [intros; lia|]. split; [auto|]. split; [auto|]. split; auto.
Qed.

(** One turn of the loop keeps the work list in step with the nodes of
    degree two, and no degree goes up. *)
Lemma rd2n_body_worklist (thr : L) (rbc : bool) (st st' : rd2n_state L) n :
  ids_distinct (g_edges (st_graph st)) = true ->
  degree (st_graph st) n = 2%nat ->
  NoDup (nodes_to_visit st) ->
  ~ In n (nodes_to_visit st) ->
  (forall m, In m (nodes_to_visit st) -> degree (st_graph st) m = 2%nat) ->
  rd2n_body thr rbc st n = Ok st' ->
  ids_distinct (g_edges (st_graph st')) = true /\
  NoDup (nodes_to_visit st') /\
  (forall m, In m (nodes_to_visit st') -> degree (st_graph st') m = 2%nat) /\
  (forall x, degree (st_graph st') x <= degree (st_graph st) x)%nat /\
  degree (st_graph st') n = 0%nat /\
  (number_of_edges (st_graph st') < number_of_edges (st_graph st))%nat /\
  ((forall x, x <> n -> degree (st_graph st) x = 2%nat ->
              degree_two_node_type (st_graph st) x = Ok Simple ->
              In x (nodes_to_visit st)) ->
   forall x, degree (st_graph st') x = 2%nat ->
             degree_two_node_type (st_graph st') x = Ok Simple ->
             In x (nodes_to_visit st')).
Proof.
  intros Hd Hdeg ND Hn Hv H.
  pose proof (g_nodes_rd2n_body _ _ _ _ _ H) as Hnodes.
  pose proof (rd2n_body_decreases _ _ _ _ _ H) as Hless.
  apply rd2n_body_inv in H.
  destruct H as (nt & nei1 & nei2 & k1 & k2 & new_path & new_len & to_visit & has_nei
                 & is_br & added & removed & g3 & tv3 & b3
                 & Hnt & Htnd & Hmk & Hpre & Hbc & Hh & Hfin).
  remember (st_graph st) as g eqn:Eg.
  destruct (tnd_degree_2 _ _ _ _ _ _ _ Hdeg Htnd)
    as (N1 & N2 & Hty & f1 & f2 & J1 & J2 & K1 & K2 & Hi).
  remember (mkAttrs new_path new_len is_br) as a eqn:Ea.
  remember (merged g n nei1 k1 nei2 k2 a) as g2 eqn:Eg2.
  destruct (degree_merged g n nt nei1 nei2 k1 k2 Hdeg Htnd a) as [Dn Dm].
  rewrite <- Eg2 in Dn, Dm.
  assert (Hd2 : ids_distinct (g_edges g2) = true).
  { rewrite Eg2. eapply merged_ids; eauto. }
  assert (Hvis : NoDup to_visit /\ forall m, In m to_visit -> In m (nodes_to_visit st)).
  { split; [|intros m; eapply rd2n_pre_visit; eauto].
    destruct Hty as [[-> _]|[-> _]].
    - repeat case_if Hpre; injection Hpre as <- _ _; exact ND.
    - case_if Hpre.
      + inv_bind Hpre. injection Hpre as <- _ _.
        apply (list_remove_spec _ _ _ ND Ha).
      + injection Hpre as <- _ _. exact ND. }
  destruct Hvis as [ND1 Hsub].
  assert (Hhn : has_nei = true ->
                nei1 <> nei2 /\ (2 <= degree g nei1)%nat /\ (2 <= degree g nei2)%nat).
  { destruct Hty as [[-> Hne]|[-> He]].
    - destruct (has_edge g nei1 nei2) eqn:X.
      + intros _. split; [lia|].
        apply (merged_degree_new g n Simple nei1 nei2 k1 k2 Hdeg Htnd a). auto.
      + case_if Hpre; injection Hpre as _ <- _; discriminate.
    - case_if Hpre; [inv_bind Hpre|]; injection Hpre as _ <- _; discriminate. }
  assert (Hv2 : forall m, In m to_visit -> degree g2 m = 2%nat).
  { intros m Hm. apply Hsub in Hm. rewrite Dm; [auto|]. intros ->. contradiction. }
  (* the list before the new multiple edge is handled *)
  assert (Hkeep : forall x, x <> nei1 -> x <> nei2 -> In x (nodes_to_visit st) ->
                            In x to_visit).
  { intros x X1 X2 Hx. destruct Hty as [[-> _]|[-> _]].
    - repeat case_if Hpre; injection Hpre as <- _ _; exact Hx.
    - case_if Hpre.
      + inv_bind Hpre. injection Hpre as <- _ _.
        apply (list_remove_spec _ _ _ ND Ha). auto.
      + injection Hpre as <- _ _. exact Hx. }
  assert (Mid :
    ids_distinct (g_edges g3) = true /\ NoDup tv3 /\
    (forall m, In m tv3 -> degree g3 m = 2%nat) /\
    (forall x, degree g3 x <= degree g2 x)%nat /\
    (forall x, x <> nei1 -> x <> nei2 -> In x to_visit -> In x tv3) /\
    (forall x, x = nei1 \/ x = nei2 -> degree g3 x = 2%nat ->
       In x tv3 \/ (g3 = g2 /\ tv3 = to_visit)) /\
    (forall x, x <> nei1 -> x <> nei2 -> incident g3 x = incident g2 x)).
  { destruct has_nei.
    - destruct (Hhn eq_refl) as (Hne & A1 & A2).
      rewrite <- (Dm nei1 N1) in A1. rewrite <- (Dm nei2 N2) in A2.
      destruct (handle_new_multiedge_worklist g2 nei1 nei2 thr to_visit g3 tv3 b3
                  Hd2 Hne A1 A2 ND1 Hv2 Hh)
        as (M1 & M2 & M3 & M4 & M5 & M6 & M7 & _).
      repeat (split; [assumption|]). assumption.
    - injection Hh as <- <- _.
      split; [exact Hd2|]. split; [exact ND1|]. split; [exact Hv2|].
      split; [intros; lia|]. split; [auto|]. split; auto. }
  destruct Mid as (M1 & M2 & M3 & M4 & M5 & M6 & M7).
  (* the graph of the new state *)
  assert (Hgf : nodes_to_visit st' = tv3 /\
                ids_distinct (g_edges (st_graph st')) = true /\
                (forall x, degree (st_graph st') x = degree g3 x) /\
                (forall x, degree_two_node_type (st_graph st') x
                           = degree_two_node_type g3 x) /\
                g_nodes g3 = g_nodes g).
  { assert (H3 : g_nodes g3 = g_nodes g).
    { destruct has_nei.
      - apply g_nodes_handle_new_multiedge in Hh. rewrite Hh, Eg2. apply g_nodes_merged.
      - injection Hh as <- _ _. rewrite Eg2. apply g_nodes_merged. }
    destruct b3.
    - destruct Hfin as (key & _ & ->). cbn [st_graph nodes_to_visit].
      split; [reflexivity|]. split; [rewrite ids_distinct_set_is_branch; exact M1|].
      split; [intros x; apply degree_set_is_branch|].
      split; [intros x; apply type_set_is_branch | exact H3].
    - subst st'. cbn [st_graph nodes_to_visit]. auto. }
  destruct Hgf as (Etv & Hdf & Df & Tf & H3).
  assert (Dle : forall x, (degree (st_graph st') x <= degree g x)%nat).
  { intros x. rewrite Df. specialize (M4 x).
    destruct (Z.eq_dec x n) as [->|Hx]; [lia|]. rewrite Dm in M4 by exact Hx. exact M4. }
  rewrite Etv.
  split; [exact Hdf|]. split; [exact M2|].
  split; [intros m Hm; rewrite Df; auto|]. split; [exact Dle|].
  split; [specialize (Dle n); rewrite Df in *; specialize (M4 n); lia|].
  split; [exact Hless|].
  intros Hc x Dx Tx. rewrite Df in Dx. rewrite Tf in Tx.
  pose proof (type_has_node _ _ _ Tx) as Hx3.
  assert (Hxg : has_node g x = true).
  { rewrite <- Hx3. symmetry. apply has_node_same_nodes. exact H3. }
  destruct (Z.eq_dec x n) as [->|Xn].
  { specialize (M4 n). lia. }
  destruct (Z.eq_dec x nei1) as [X1|X1]; [|destruct (Z.eq_dec x nei2) as [X2|X2]].
  3:{ (* a node away from the merge *)
      assert (I3 : incident g3 x = incident g x).
      { rewrite M7 by assumption. rewrite Eg2. apply incident_merged; auto. }
      apply M5; [assumption | assumption |]. apply Hkeep; [assumption | assumption |].
      apply Hc; [exact Xn | |].
      - rewrite <- Dx. symmetry. apply degree_same_incident. exact I3.
      - rewrite <- Tx. symmetry. apply type_same_incident; [exact H3 | exact I3]. }
  all: assert (Hx12 : x = nei1 \/ x = nei2) by auto.
  all: destruct (M6 x Hx12 Dx) as [Hin|[E3 Et]]; [exact Hin|].
  all: rewrite Et; subst g3.
  all: assert (Dg : degree g x = 2%nat) by (rewrite <- (Dm x Xn); exact Dx).
  all: destruct Hty as [[-> Hne]|[-> He]].
  all: try (assert (Ev : to_visit = nodes_to_visit st)
              by (repeat case_if Hpre; injection Hpre as <- _ _; reflexivity);
            rewrite Ev; apply Hc; [exact Xn | exact Dg |];
            apply (simple_neighbour_type g n nei1 nei2 x f1 f2); auto;
            destruct Hi as [Hi|Hi]; auto).
  all: exfalso.
  all: destruct (g_edges_merged_2 g n Multiple nei1 nei2 k1 k2 Hdeg Htnd a) as (key & E & _).
  all: apply (loop_not_simple g2 x (mkEdge nei1 nei2 key a)); cbn [e_u e_v];
         [rewrite Eg2, E; apply insert_edge_In; auto | congruence | congruence
         | exact Dx | exact Tx].
Qed.

Lemma rd2n_reach_worklist (thr : L) (rbc : bool) g0 init (st : rd2n_state L) :
  ids_distinct (g_edges g0) = true -> start_ok g0 init ->
  rd2n_reach thr rbc g0 init st ->
  ids_distinct (g_edges (st_graph st)) = true /\
  NoDup (nodes_to_visit st) /\
  (forall m, In m (nodes_to_visit st) -> degree (st_graph st) m = 2%nat) /\
  (forall x, degree (st_graph st) x <= degree g0 x)%nat /\
  (number_of_edges (st_graph st) <= number_of_edges g0)%nat /\
  g_nodes (st_graph st) = g_nodes g0 /\
  (init = None -> worklist_inv st).
Proof.
  intros Hd Hs Hr. induction Hr as [l Hi | st n rest st' Hr IH Hp Hbody].
  - destruct (rd2n_init_inv _ _ _ Hs Hi) as [ND Hv].
    cbn [st_graph nodes_to_visit].
    split; [exact Hd|]. split; [exact ND|]. split; [exact Hv|].
    split; [intros; lia|]. split; [lia|]. split; [reflexivity|].
    intros ->. cbn [rd2n_init] in Hi. injection Hi as <-.
    unfold worklist_inv. cbn [st_graph nodes_to_visit].
    split; [exact Hd|]. split; [exact ND|]. split; [exact Hv|].
    intros x Dx Tx. apply degree_two_iter_In. split.
    + apply has_node_In. exact (type_has_node _ _ _ Tx).
    + split; [exact Dx | auto].
  - destruct IH as (I1 & I2 & I3 & Dle & Ele & Hnodes & Hw).
    apply pop_spec in Hp. rewrite Hp in I2, I3.
    apply NoDup_remove in I2. rewrite app_nil_r in I2. destruct I2 as [ND Hn].
    destruct (rd2n_body_worklist thr rbc
                (mkState (st_graph st) rest (added_branches st) (removed_branches st)) st' n)
      as (W1 & W2 & W3 & D & _ & E & C); cbn [st_graph nodes_to_visit]; try assumption.
    + apply I3. apply in_or_app. right. simpl. auto.
    + intros m Hm. apply I3. apply in_or_app. auto.
    + cbn [st_graph nodes_to_visit] in D, E, C.
      split; [exact W1|]. split; [exact W2|]. split; [exact W3|]. split.
      * intros x. specialize (D x). specialize (Dle x). lia.
      * split; [lia|]. split.
        -- rewrite <- Hnodes. exact (g_nodes_rd2n_body _ _ _ _ _ Hbody).
        -- intros Ei. destruct (Hw Ei) as (_ & _ & _ & I4). rewrite Hp in I4.
           unfold worklist_inv. split; [exact W1|]. split; [exact W2|].
           split; [exact W3|]. apply C.
           intros x Xn Dx Tx. specialize (I4 x Dx Tx). apply in_app_or in I4.
           destruct I4 as [I4|[I4|[]]]; [exact I4 | congruence].
Qed.

(** X9: on a graph with distinct nodes and edge keys, a call of
    [remove_degree_two_nodes] on the whole graph that returns leaves no
    node of degree two and of type ['simple']: every node of degree two
    that is left has a self-loop or two edges to one neighbour.  The nodes
    of the graph are the ones it had, no node has a higher degree than
    before, and the graph has no more edges than before. *)
Theorem remove_degree_two_nodes_result g (thr : L) (rbc : bool) (st : rd2n_state L) :
  ids_distinct (g_edges g) = true -> NoDup (map fst (g_nodes g)) ->
  remove_degree_two_nodes g thr None rbc = Some (Ok st) ->
  (forall x, degree (st_graph st) x = 2%nat ->
     degree_two_node_type (st_graph st) x = Ok Loop \/
     degree_two_node_type (st_graph st) x = Ok Multiple \/
     has_node (st_graph st) x = false) /\
  degree_two_iter (st_graph st) false false = [] /\
  g_nodes (st_graph st) = g_nodes g /\
  (forall x, degree (st_graph st) x <= degree g x)%nat /\
  (number_of_edges (st_graph st) <= number_of_edges g)%nat.
Proof.
  intros Hd Hnd H. unfold remove_degree_two_nodes in H.
  apply rd2n_run_reach in H. destruct H as [Hr Hv].
  destruct (rd2n_reach_worklist thr rbc g None st Hd Hnd Hr) as (_ & _ & _ & D & E & N & W).
  destruct (W eq_refl) as (_ & _ & _ & C). rewrite Hv in C.
  assert (S : forall x, degree (st_graph st) x = 2%nat ->
                degree_two_node_type (st_graph st) x <> Ok Simple).
  { intros x Dx Tx. exact (C x Dx Tx). }
  split; [|split; [|auto]].
  - intros x Dx. destruct (has_node (st_graph st) x) eqn:Hn; [|auto].
    destruct (degree_two_type_cases _ _ Hn Dx) as [(T & _)|[(T & _)|(T & _)]]; auto.
    destruct (S x Dx T).
  - destruct (degree_two_iter (st_graph st) false false) as [|x r] eqn:I; [reflexivity|].
    assert (Hx : In x (degree_two_iter (st_graph st) false false))
      by (rewrite I; simpl; auto).
    apply degree_two_iter_simple in Hx. destruct Hx as [T Dx]. destruct (S x Dx T).
Qed.


(** ** [remove_branches]: what is left of the graph *)

Lemma degree_filter_le g (p : Edge L -> bool) (x : node) :
  (degree (with_edges g (filter p (g_edges g))) x <= degree g x)%nat.
Proof.
  rewrite degree_with_edges. unfold degree.
  rewrite (list_sum_filter_split _ (ends_at x) p (g_edges g)). lia.
Qed.

Lemma rb_body_frame (thr : L) g (q : PriorityQueue L) i g' (q' : PriorityQueue L) :
  rb_body thr g q i = Some (Ok (g', q')) ->
  g_nodes g' = g_nodes g /\
  (ids_distinct (g_edges g) = true ->
   ids_distinct (g_edges g') = true /\
   forall x, (degree g' x <= degree g x)%nat).
Proof.
  destruct i as [[node1 node2] key]. unfold rb_body.
  destruct (remove_edge g (node1, node2, key)) as [g1|] eqn:R; [|discriminate].
  apply remove_edge_edges in R.
  assert (N1 : g_nodes g1 = g_nodes g) by (subst g1; reflexivity).
  assert (F1 : ids_distinct (g_edges g) = true ->
               ids_distinct (g_edges g1) = true /\
               forall x, (degree g1 x <= degree g x)%nat).
  { intros Hd. subst g1. split; [apply ids_distinct_filter; exact Hd|].
    intros x. apply degree_filter_le. }
  clear R.
  remember (if (degree g1 node1 =? 0)%nat then node2 else node1) as t eqn:Et.
  destruct (Nat.eqb_spec (degree g1 t) 2) as [D2|D2].
  - destruct (remove_degree_two_nodes g1 thr (Some t) true) as [[st|x]|] eqn:D;
      try discriminate.
    intros H. injection H as H. inv_bind H. injection H as <- _.
    unfold remove_degree_two_nodes in D. apply rd2n_run_reach in D. destruct D as [D _].
    split.
    + rewrite <- N1. clear - D.
      induction D as [l Hi | st n rest st' Hr IH Hp Hbody]; [reflexivity|].
      rewrite <- IH. exact (g_nodes_rd2n_body _ _ _ _ _ Hbody).
    + intros Hd. destruct (F1 Hd) as [Hd1 Dle].
      destruct (rd2n_reach_worklist thr true g1 (Some t) st Hd1 D2 D)
        as (W1 & _ & _ & W4 & _).
      split; [exact W1|]. intros x. specialize (W4 x). specialize (Dle x). lia.
  - destruct (degree g1 t =? 1)%nat.
    + intros H. injection H as H. inv_bind H. inv_bind H. inv_bind H.
      injection H as <- _. split; [exact N1|]. intros Hd. destruct (F1 Hd) as [Hd1 Dle].
      split; [rewrite ids_distinct_set_is_branch; exact Hd1|].
      intros x. rewrite degree_set_is_branch. apply Dle.
    + intros H. injection H as <- _. split; [exact N1 | exact F1].
Qed.

Lemma rb_reach_any_frame (thr : L) g0 g (q : PriorityQueue L) :
  rb_reach_any thr g0 g q ->
  g_nodes g = g_nodes g0 /\
  (number_of_edges g <= number_of_edges g0)%nat /\
  (ids_distinct (g_edges g0) = true ->
   ids_distinct (g_edges g) = true /\
   forall x, (degree g x <= degree g0 x)%nat).
Proof.
  intros Hr. induction Hr as [q Hq | g q len i q' g' q'' q3 Hr IH Hin Hsub Hbody Hq3].
  - split; [reflexivity|]. split; [lia|]. intros Hd. split; [exact Hd | intros; lia].
  - destruct IH as (N & E & F). destruct (rb_body_frame _ _ _ _ _ _ Hbody) as [N' F'].
    apply rb_body_decreases in Hbody.
    split; [rewrite N'; exact N|]. split; [lia|].
    intros Hd. destruct (F Hd) as [Hd1 Dle]. destruct (F' Hd1) as [Hd2 Dle'].
    split; [exact Hd2|]. intros x. specialize (Dle x). specialize (Dle' x). lia.
Qed.

Lemma rb_loop_edges (fuel : nat) (thr : L) g (q : PriorityQueue L) g' :
  rb_loop fuel thr g q = Some (Ok g') ->
  (number_of_edges g' <= number_of_edges g)%nat /\
  (pop_task q <> None -> (number_of_edges g' < number_of_edges g)%nat).
Proof.
  revert g q. induction fuel as [|fuel IH]; intros g q; simpl.
  - destruct (pop_task q) as [[[len i] q']|] eqn:P; [discriminate|].
    intros H. injection H as <-. split; [lia | congruence].
  - destruct (pop_task q) as [[[len i] q']|] eqn:P.
    + destruct (rb_body thr g q' i) as [[[g1 q1]|x]|] eqn:B; try discriminate.
      intros H. apply IH in H. destruct H as [H _].
      apply rb_body_decreases in B. split; [lia | intros _; lia].
    + intros H. injection H as <-. split; [lia | congruence].
Qed.

Lemma new_queue_not_empty (x : L * edge_id) (l : list (L * edge_id)) :
  pop_task (new_queue (x :: l)) <> None.
Proof.
  assert (G : forall (r : list (L * edge_id)) (q : PriorityQueue L),
            q <> [] -> fold_left (fun q (t : L * edge_id) => add_task q (fst t) (snd t)) r q <> []).
  { induction r as [|y r IH]; intros q Hq; [exact Hq|].
    cbn [fold_left]. apply IH. unfold add_task. intros E.
    apply app_eq_nil in E. destruct E as [_ E]. discriminate. }
  unfold new_queue. cbn [fold_left].
  specialize (G l (add_task [] (fst x) (snd x))).
  destruct (fold_left _ l _) as [|e0 r] eqn:E.
  - exfalso. apply G; [|reflexivity]. unfold add_task. simpl. discriminate.
  - unfold pop_task. cbn [map argmin]. discriminate.
Qed.

(** X10: [remove_branches] always comes to an end (it returns or raises);
    with no short edge flagged as a branch it returns at once and leaves
    the graph as it is.  When it returns, the nodes of the graph are the
    ones it had and the graph has no more edges than before, and fewer
    when a short edge was flagged as a branch; with distinct edge keys no
    node has a higher degree than before. *)
Theorem remove_branches_frame g (thr : L) :
  (exists r, remove_branches g thr = Some r) /\
  (branch_small_edges g thr = [] -> remove_branches g thr = Some (Ok g)) /\
  (forall g', remove_branches g thr = Some (Ok g') ->
     g_nodes g' = g_nodes g /\
     (number_of_edges g' <= number_of_edges g)%nat /\
     (branch_small_edges g thr <> [] ->
      (number_of_edges g' < number_of_edges g)%nat) /\
     (ids_distinct (g_edges g) = true ->
      forall x, (degree g' x <= degree g x)%nat)).
Proof.
  split; [apply remove_branches_total|]. split.
  - intros E. unfold remove_branches. rewrite E. reflexivity.
  - intros g' H. pose proof (remove_branches_reach _ _ _ H) as (q' & Hr & _).
    apply rb_reach_any_of_reach in Hr. apply rb_reach_any_frame in Hr.
    destruct Hr as (N & E & F). split; [exact N|]. split; [exact E|]. split.
    + intros Hne. unfold remove_branches in H.
      destruct (branch_small_edges g thr) as [|x l]; [congruence|].
      apply rb_loop_edges in H. destruct H as [_ H]. apply H. apply new_queue_not_empty.
    + intros Hd. apply (F Hd).
Qed.


(** ** [add_branch_info]: only the flags change *)

Lemma with_edges_same g : with_edges g (g_edges g) = g.
Proof. destruct g. reflexivity. Qed.

Lemma reflag_fixed g e : is_branch (e_attrs e) = flag_of g e -> reflag g e = e.
Proof.
  intros H. unfold reflag. rewrite <- H. destruct e as [u v k [p l b]]. reflexivity.
Qed.

Lemma nodes_ok_reflag g g0 :
  nodes_ok (with_edges g (map (reflag g0) (g_edges g))) = nodes_ok g.
Proof.
  rewrite <- (with_edges_same g) at 3. apply nodes_ok_map. intros e. auto.
Qed.

Lemma add_branch_info_idem g :
  nodes_ok g = true -> add_branch_info (add_branch_info g) = add_branch_info g.
Proof.
  intros Hn. rewrite (add_branch_info_edges g Hn).
  set (g1 := with_edges g (map (reflag g) (g_edges g))).
  assert (Hn1 : nodes_ok g1 = true) by (unfold g1; rewrite nodes_ok_reflag; exact Hn).
  rewrite (add_branch_info_edges g1 Hn1).
  assert (E : map (reflag g1) (g_edges g1) = g_edges g1).
  { rewrite <- (map_id (g_edges g1)) at 2. apply map_ext_in. intros e He.
    apply reflag_fixed. apply (proj1 (branch_inv_flag g1)); [|exact He].
    unfold g1. apply branch_inv_reflag. }
  rewrite E. apply with_edges_same.
Qed.

(** X11: on a graph whose edges end at nodes of the graph,
    [add_branch_info] changes nothing but the flags ['is_branch']: the
    nodes, the pixel size, the degrees and, edge by edge and in the same
    order, the end points, the key, the path and the length stay.  A
    second call changes nothing, and neither does a call on a graph whose
    flags are already right. *)
Theorem add_branch_info_frame g :
  nodes_ok g = true ->
  g_nodes (add_branch_info g) = g_nodes g /\
  g_pix_size (add_branch_info g) = g_pix_size g /\
  Forall2 same_but_flag (g_edges g) (g_edges (add_branch_info g)) /\
  (forall x : node, degree (add_branch_info g) x = degree g x) /\
  add_branch_info (add_branch_info g) = add_branch_info g /\
  (branch_inv g -> add_branch_info g = g).
Proof.
  intros Hn. split; [|split; [|split; [|split; [|split]]]].
  - rewrite (add_branch_info_edges g Hn). reflexivity.
  - rewrite (add_branch_info_edges g Hn). reflexivity.
  - rewrite (add_branch_info_edges g Hn). cbn [g_edges with_edges].
    induction (g_edges g) as [|e l IH]; simpl; constructor; [|exact IH].
    unfold same_but_flag. cbn. auto.
  - intros x. rewrite (add_branch_info_edges g Hn). apply degree_reflag.
  - apply add_branch_info_idem. exact Hn.
  - intros Hb. rewrite (add_branch_info_edges g Hn).
    assert (E : map (reflag g) (g_edges g) = g_edges g).
    { rewrite <- (map_id (g_edges g)) at 2. apply map_ext_in. intros e He.
      apply reflag_fixed. apply (proj1 (branch_inv_flag g)); assumption. }
    rewrite E. apply with_edges_same.
Qed.


(** ** [remove_small_mul_all]: what a call leaves to a second call *)

Lemma keydict_map_reflag g g0 (u v : node) :
  keydict (with_edges g (map (reflag g0) (g_edges g))) u v
  = map (reflag g0) (keydict g u v).
Proof.
  unfold keydict. cbn [g_edges with_edges].
  induction (g_edges g) as [|e l IH]; simpl; [reflexivity|].
  change (joins u v (reflag g0 e)) with (joins u v e).
  destruct (joins u v e); simpl; rewrite IH; reflexivity.
Qed.

Lemma remove_small_mul_all_shape g (thr : L) :
  well_formed g = true ->
  let gk := with_edges g (filter (fun e => negb (removed_by_small_mul_all thr g e))
                            (g_edges g)) in
  remove_small_mul_all g thr = with_edges gk (map (reflag gk) (g_edges gk)) /\
  remove_small_mul_all g thr = add_branch_info gk /\
  nodes_ok gk = true.
Proof.
  intros Hwf gk.
  assert (Hn : nodes_ok gk = true).
  { apply nodes_ok_filter. apply well_formed_spec in Hwf. tauto. }
  rewrite remove_small_mul_all_unfold, remove_small_mul_all_kept by exact Hwf.
  fold gk. split; [apply add_branch_info_edges; exact Hn | auto].
Qed.

Lemma keydict_remove_small_mul_all g (thr : L) (u v : node) :
  well_formed g = true ->
  exists h : Edge L -> Edge L,
    (forall e, e_u (h e) = e_u e /\ e_v (h e) = e_v e /\ e_key (h e) = e_key e /\
               length (e_attrs (h e)) = length (e_attrs e)) /\
    keydict (remove_small_mul_all g thr) u v
    = map h (filter (fun e => negb (removed_by_small_mul_all thr g e)) (keydict g u v)) /\
    g_edges (remove_small_mul_all g thr)
    = map h (filter (fun e => negb (removed_by_small_mul_all thr g e)) (g_edges g)).
Proof.
  intros Hwf. destruct (remove_small_mul_all_shape g thr Hwf) as (E & _ & _).
  cbv zeta in E. rewrite E.
  exists (reflag (with_edges g (filter (fun e => negb (removed_by_small_mul_all thr g e))
                                  (g_edges g)))).
  split; [intros e; cbn; auto|]. split; [|reflexivity].
  rewrite keydict_map_reflag, keydict_filter. reflexivity.
Qed.

(** A single edge between two different nodes is not removed. *)
Lemma single_kept g (thr : L) (u v : node) e :
  u <> v -> keydict g u v = [e] -> removed_by_small_mul_all thr g e = false.
Proof.
  intros Huv K.
  assert (He : In e (keydict g u v)) by (rewrite K; simpl; auto).
  apply keydict_In in He. destruct He as [_ J].
  unfold removed_by_small_mul_all.
  rewrite <- (keydict_joins g _ _ _ J), K.
  apply joins_spec in J.
  destruct (Z.eqb_spec (e_u e) (e_v e)) as [E|E];
    [destruct J as [[? ?]|[? ?]]; congruence | reflexivity].
Qed.

Section Again.

(** [<] on lengths is a strict order in which every two lengths compare
    (so it is on floats that are numbers). *)
Hypothesis ltb_irrefl : forall a : L, len_ltb a a = false.
Hypothesis ltb_trans :
  forall a b c : L, len_ltb a b = true -> len_ltb b c = true -> len_ltb a c = true.
Hypothesis ltb_below :
  forall a b c : L, len_ltb a c = true -> len_ltb b c = false -> len_ltb a b = true.

Lemma nothing_left_to_remove g (thr : L) e :
  well_formed g = true ->
  In e (g_edges (remove_small_mul_all g thr)) ->
  removed_by_small_mul_all thr (remove_small_mul_all g thr) e = false.
Proof.
  intros Hwf He'. destruct (well_formed_spec _ Hwf) as [Hd Hn].
  destruct (keydict_remove_small_mul_all g thr (e_u e) (e_v e) Hwf) as (h & Hh & K & E).
  rewrite E in He'. apply in_map_iff in He'. destruct He' as (e0 & <- & He0).
  apply filter_In in He0. destruct He0 as [He0 Keep]. apply negb_true_iff in Keep.
  destruct (Hh e0) as (Hu & Hv & Hk & Hl).
  rewrite Hu, Hv in K.
  unfold removed_by_small_mul_all in *. rewrite Hu, Hv, Hk.
  assert (S : short thr (h e0) = short thr e0) by (unfold short; rewrite Hl; reflexivity).
  rewrite S.
  destruct (Z.eqb_spec (e_u e0) (e_v e0)) as [Euv|Euv]; [exact Keep|].
  destruct (short thr e0) eqn:Sh; [|rewrite andb_false_r; reflexivity].
  destruct (Nat.ltb_spec 1 (List.length (keydict (remove_small_mul_all g thr)
                                           (e_u e0) (e_v e0)))) as [M|M];
    [|reflexivity].
  exfalso. rewrite K, length_map in M.
  set (kd := keydict g (e_u e0) (e_v e0)) in *.
  set (keep := fun e : Edge L =>
                 negb (if e_u e =? e_v e then short thr e
                       else (1 <? List.length (keydict g (e_u e) (e_v e)))%nat
                            && short thr e
                            && negb (e_key e =? key_of_longest g (e_u e) (e_v e)))) in *.
  assert (Hlen : (1 < List.length kd)%nat).
  { pose proof (length_filter_le _ keep kd). lia. }
  assert (Hin0 : In e0 kd) by (apply keydict_In; split; [exact He0 | apply joins_own]).
  (* the edge is the spared one, than which none is longer *)
  assert (Hkey : e_key e0 = key_of_longest g (e_u e0) (e_v e0)).
  { pose proof (proj2 (Nat.ltb_lt _ _) Hlen) as Hlb. rewrite Hlb in Keep. cbn [andb] in Keep.
    apply negb_false_iff in Keep. apply Z.eqb_eq in Keep. exact Keep. }
  destruct (longest_kept ltb_irrefl ltb_trans g thr (e_u e0) (e_v e0) Euv Hlen)
    as (el & Hel & Kel & _ & Hmax).
  assert (Eel : el = e0).
  { apply keydict_In in Hel. destruct Hel as [Hel Jel].
    apply (names_unique g (e_u e0, e_v e0, e_key e0) el e0 Hd Hel He0).
    - apply names_spec. split; [exact Jel | congruence].
    - apply names_spec. split; [apply joins_own | reflexivity]. }
  subst el.
  (* another edge of the pair that is left *)
  assert (Hx : exists x, In x kd /\ keep x = true /\ e_key x <> e_key e0).
  { assert (ND : NoDup (filter keep kd)).
    { apply NoDup_filter. unfold kd, keydict. apply NoDup_filter, ids_distinct_NoDup.
      exact Hd. }
    destruct (filter keep kd) as [|x1 [|x2 r]] eqn:F; simpl in M; try lia.
    assert (I1 : In x1 (filter keep kd)) by (rewrite F; simpl; auto).
    assert (I2 : In x2 (filter keep kd)) by (rewrite F; simpl; auto).
    apply filter_In in I1, I2. destruct I1 as [I1 K1], I2 as [I2 K2].
    inversion ND as [|? ? N12 _]; subst.
    assert (Hne : e_key x1 <> e_key x2).
    { intros Ek. apply N12. left.
      pose proof (proj1 (keydict_In _ _ _ _) I1) as [G1 J1].
      pose proof (proj1 (keydict_In _ _ _ _) I2) as [G2 J2].
      symmetry.
      apply (names_unique g (e_u e0, e_v e0, e_key x1) x1 x2 Hd G1 G2);
        apply names_spec; auto. }
    destruct (Z.eq_dec (e_key x1) (e_key e0)) as [E1|E1].
    - exists x2. split; [exact I2|]. split; [exact K2 | congruence].
    - exists x1. split; [exact I1|]. split; [exact K1 | exact E1]. }
  destruct Hx as (x & Ix & Kx & Nx).
  assert (Sx : short thr x = false).
  { pose proof (proj1 (keydict_In _ _ _ _) Ix) as [Gx Jx].
    unfold keep in Kx. apply negb_true_iff in Kx.
    rewrite <- (keydict_joins g _ _ _ Jx) in Kx.
    rewrite <- (key_of_longest_keydict g g _ _ _ _ (keydict_joins g _ _ _ Jx)) in Kx.
    fold kd in Kx. rewrite <- Hkey in Kx.
    assert (Ex : (e_u x =? e_v x) = false).
    { apply Z.eqb_neq. apply joins_spec in Jx. destruct Jx as [[? ?]|[? ?]]; congruence. }
    rewrite Ex in Kx. pose proof (proj2 (Nat.ltb_lt _ _) Hlen) as Hlb.
    rewrite Hlb in Kx. cbn [andb] in Kx.
    destruct (Z.eqb_spec (e_key x) (e_key e0)) as [?|_]; [contradiction|].
    cbn [negb] in Kx. rewrite andb_true_r in Kx. exact Kx. }
  unfold short in Sh, Sx.
  pose proof (ltb_below _ _ _ Sh Sx) as Lt.
  rewrite (Hmax x Ix) in Lt. discriminate.
Qed.

(** X12: on a graph networkx can hold, with lengths that are totally
    ordered, [remove_small_mul_all] never cuts the link between two
    different nodes (two nodes joined by an edge before the call are joined
    by one after it, and the other way round), leaves no self-loop shorter
    than the threshold, and leaves a graph on which a second call changes
    nothing. *)
Theorem remove_small_mul_all_again g (thr : L) :
  well_formed g = true ->
  (forall u v : node, u <> v ->
     has_edge (remove_small_mul_all g thr) u v = has_edge g u v) /\
  (forall e, In e (g_edges (remove_small_mul_all g thr)) -> e_u e = e_v e ->
     short thr e = false) /\
  well_formed (remove_small_mul_all g thr) = true /\
  remove_small_mul_all (remove_small_mul_all g thr) thr = remove_small_mul_all g thr.
Proof.
  intros Hwf.
  pose proof (well_formed_remove_small_mul_all g thr Hwf) as Hwf'.
  split; [|split; [|split; [exact Hwf'|]]].
  - intros u v Huv.
    destruct (keydict_remove_small_mul_all g thr u v Hwf) as (h & _ & K & _).
    unfold has_edge. rewrite K.
    destruct (keydict g u v) as [|e0 [|e1 r]] eqn:Kd; [reflexivity | |].
    + cbn [filter]. rewrite (single_kept g thr u v e0 Huv Kd). reflexivity.
    + assert (Hlen : (1 < List.length (keydict g u v))%nat) by (rewrite Kd; simpl; lia).
      destruct (longest_kept ltb_irrefl ltb_trans g thr u v Huv Hlen)
        as (el & Hel & _ & Rel & _).
      rewrite Kd in Hel.
      assert (Hin : In el (filter (fun e => negb (removed_by_small_mul_all thr g e))
                             (e0 :: e1 :: r))).
      { apply filter_In. split; [exact Hel|]. rewrite Rel. reflexivity. }
      destruct (filter _ (e0 :: e1 :: r)); [contradiction | reflexivity].
  - intros e He Euv.
    pose proof (nothing_left_to_remove g thr e Hwf He) as R.
    unfold removed_by_small_mul_all in R.
    apply Z.eqb_eq in Euv. rewrite Euv in R. exact R.
  - destruct (remove_small_mul_all_shape (remove_small_mul_all g thr) thr Hwf')
      as (_ & E & _).
    cbv zeta in E. rewrite E.
    rewrite filter_all.
    + rewrite with_edges_same.
      destruct (remove_small_mul_all_shape g thr Hwf) as (_ & E0 & Hn0).
      cbv zeta in E0, Hn0. rewrite E0. apply add_branch_info_idem. exact Hn0.
    + intros e He. rewrite (nothing_left_to_remove g thr e Hwf He). reflexivity.
Qed.

End Again.


(** ** [branches_to_remove] *)







(** ** [handle_new_multiedge] *)

Lemma remove_small_mul_short g (u v : node) (thr : L) g' :
  remove_small_mul g u v thr = Ok (g', true) ->
  exists s, In s (keydict g u v) /\ short thr s = true /\
            g' = with_edges g (filter (fun e => negb (names (u, v, e_key s) e))
                                 (g_edges g)).
Proof.
  unfold remove_small_mul. destruct (keydict g u v) as [|e0 kd] eqn:K; [discriminate|].
  intros H. inv_bind H.
  destruct (len_ltb (length (e_attrs (nth a (e0 :: kd) e0))) thr) eqn:S;
    [|discriminate].
  inv_bind H. injection H as <-. apply remove_edge_edges in Ha0.
  exists (nth a (e0 :: kd) e0). split; [|split; [exact S | exact Ha0]].
  destruct (Nat.lt_ge_cases a (List.length (e0 :: kd))) as [Hlt|Hge].
  - apply nth_In. exact Hlt.
  - rewrite nth_overflow by exact Hge. left. reflexivity.
Qed.

(** X18: [handle_new_multiedge] is called on two different nodes that
    both have two edges or more, with a work list of distinct nodes of
    degree two.  It raises [KeyError] when no edge joins the two nodes.
    Otherwise either it leaves the graph and the work list as they are and
    answers [False], or it removes one edge between the two nodes, an edge
    shorter than twice the threshold: the two nodes lose one degree and no
    other degree changes, the work list becomes the list of its former
    members other than the two nodes together with each of the two nodes
    that now has degree two, and the answer is [True] exactly when one of
    the two nodes now has degree one. *)
Theorem handle_new_multiedge_outcome g (nei1 nei2 : node) (thr : L) (visit : list node) :
  ids_distinct (g_edges g) = true -> nei1 <> nei2 ->
  (2 <= degree g nei1)%nat -> (2 <= degree g nei2)%nat ->
  NoDup visit -> (forall m, In m visit -> degree g m = 2%nat) ->
  (has_edge g nei1 nei2 = false ->
   handle_new_multiedge g nei1 nei2 thr visit = Raise KeyError) /\
  (forall g3 (tv3 : list node) (b3 : bool),
     handle_new_multiedge g nei1 nei2 thr visit = Ok (g3, tv3, b3) ->
     (g3 = g /\ tv3 = visit /\ b3 = false) \/
     (exists s,
        In s (keydict g nei1 nei2) /\ short (len_twice thr) s = true /\
        (forall e, In e (g_edges g3) <-> In e (g_edges g) /\ e <> s) /\
        g_nodes g3 = g_nodes g /\
        (degree g3 nei1 + 1 = degree g nei1)%nat /\
        (degree g3 nei2 + 1 = degree g nei2)%nat /\
        (forall x, x <> nei1 -> x <> nei2 -> degree g3 x = degree g x) /\
        NoDup tv3 /\
        (forall m, In m tv3 <->
                   ((m = nei1 \/ m = nei2) /\ degree g3 m = 2%nat) \/
                   (m <> nei1 /\ m <> nei2 /\ In m visit)) /\
        (b3 = true <-> degree g3 nei1 = 1%nat \/ degree g3 nei2 = 1%nat))).
Proof.
  intros Hd Hne D1 D2 ND Hv. split.
  - intros H. unfold has_edge in H. unfold handle_new_multiedge, remove_small_mul.
    destruct (keydict g nei1 nei2); [reflexivity | discriminate].
  - intros g3 tv3 b3 H.
    pose proof (g_nodes_handle_new_multiedge _ _ _ _ _ _ _ _ H) as Hnodes.
    apply handle_new_multiedge_inv in H. destruct H as (w & Hr & Hw).
    destruct w.
    + right. destruct Hw as [-> ->].
      destruct (remove_small_mul_short _ _ _ _ _ Hr) as (s0 & Hs0 & Sh & Eg).
      destruct (remove_small_mul_true g nei1 nei2 Hd Hne D1 D2 _ _ Hr)
        as (s & Hs & J & Hin & E1 & E2 & Eo & Hd3).
      assert (Es : s0 = s).
      { pose proof (proj1 (keydict_In _ _ _ _) Hs0) as [G0 J0].
        destruct (Z.eq_dec (e_key s0) (e_key s)) as [Ek|Ek].
        - apply (names_unique g (nei1, nei2, e_key s0) s0 s Hd G0 Hs);
            apply names_spec; auto.
        - exfalso. assert (Hs3 : In s (g_edges g3)).
          { rewrite Eg. cbn [g_edges with_edges]. apply filter_In. split; [exact Hs|].
            apply negb_true_iff. destruct (names (nei1, nei2, e_key s0) s) eqn:N;
              [|reflexivity].
            apply names_spec in N. destruct N as [_ N]. congruence. }
          apply Hin in Hs3. destruct Hs3 as [_ Hs3]. apply Hs3. reflexivity. }
      subst s0. exists s. split; [exact Hs0|]. split; [exact Sh|].
      split; [exact Hin|]. split; [exact Hnodes|]. split; [exact E1|].
      split; [exact E2|]. split; [exact Eo|].
      destruct (visit_update_spec g3 visit nei1 ND) as [ND1 M1].
      { intros Hm. apply Hv in Hm. lia. }
      destruct (visit_update_spec g3 (visit_update g3 visit nei1) nei2 ND1) as [ND2 M2].
      { intros Hm. apply M1 in Hm. destruct Hm as [[? _]|[_ Hm]]; [congruence|].
        apply Hv in Hm. lia. }
      split; [exact ND2|]. split.
      * intros m. rewrite M2, M1. split.
        -- intros [[-> Dm]|[X2 [[-> Dm]|[X1 Hm]]]]; auto.
        -- intros [[[-> | ->] Dm]|(X1 & X2 & Hm)]; auto.
      * rewrite orb_true_iff, !Nat.eqb_eq. tauto.
    + left. destruct Hw as [-> ->]. apply remove_small_mul_inv in Hr. auto.
Qed.


(** ** [add_length] *)








(** ** [_remove_branches_old] *)

Lemma degree_pos_edge g n :
  (0 < degree g n)%nat -> exists e, In e (g_edges g) /\ touches n e = true.
Proof.
  unfold degree. induction (g_edges g) as [|x l IH]; simpl; [lia|].
  intros H. destruct (touches n x) eqn:T.
  - exists x. auto.
  - rewrite (ends_at_not_touches _ _ T) in H.
    destruct (IH H) as (e' & He' & T'). exists e'. auto.
Qed.

Lemma nodes_ok_below g g' :
  nodes_ok g = true -> g_nodes g' = g_nodes g ->
  (forall x, (degree g' x <= degree g x)%nat) -> nodes_ok g' = true.
Proof.
  intros Hn N D. unfold nodes_ok. apply forallb_forall. intros e He.
  assert (P : forall x, touches x e = true -> has_node g' x = true).
  { intros x T. apply has_node_In. rewrite N.
    pose proof (degree_ge_touching g' x e He) as G.
    pose proof (ends_at_touches _ _ T) as G'. specialize (D x).
    destruct (degree_pos_edge g x) as (e0 & He0 & T0); [lia|].
    destruct (nodes_ok_spec _ _ Hn He0) as [Hu Hv].
    apply touches_spec in T0. destruct T0 as [<-|<-]; assumption. }
  rewrite !P; [reflexivity | |]; apply touches_spec; auto.
Qed.

Lemma rbo_remove_preserves (thr : L) g (i : edge_id) e g' :
  ids_distinct (g_edges g) = true -> branch_inv g ->
  In e (g_edges g) -> names i e = true -> is_branch (e_attrs e) = true ->
  rbo_remove thr g i = Some (Ok g') ->
  ids_distinct (g_edges g') = true /\ branch_inv g'.
Proof.
  intros Hd Hb He N Fl H. destruct i as [[node1 node2] key].
  unfold rbo_remove in H.
  destruct (remove_edge g (node1, node2, key)) as [g1|] eqn:R; [|discriminate].
  pose proof N as N'. apply names_spec in N'. destruct N' as [J _].
  destruct (joins_touches _ _ _ J) as [T1 T2].
  pose proof (degree_ge_touching g node1 e He) as G1.
  pose proof (degree_ge_touching g node2 e He) as G2.
  pose proof (ends_at_touches _ _ T1) as G3. pose proof (ends_at_touches _ _ T2) as G4.
  assert (F : degree g node1 = 1%nat \/ degree g node2 = 1%nat).
  { apply (Hb e He) in Fl. apply joins_spec in J.
    destruct J as [[<- <-]|[<- <-]]; tauto. }
  assert (Hne : node1 <> node2).
  { intros <-. assert (ends_at node1 e = 2%nat); [|lia].
    apply ends_at_2. apply joins_spec in J. tauto. }
  destruct (remove_edge_facts g node1 node2 key g1 Hd R Hne)
    as (s & Hs & Ns & Hin & D1 & D2 & Do & Hd1).
  pose proof (names_unique g _ _ _ Hd He Hs N Ns) as <-.
  remember (if (degree g1 node1 =? 0)%nat then node2 else node1) as t eqn:Et.
  assert (Hz : exists z, degree g1 z = 0%nat /\ z <> t /\
                         (t = node1 /\ z = node2 \/ t = node2 /\ z = node1)).
  { destruct (Nat.eqb_spec (degree g1 node1) 0) as [E|E]; subst t.
    - exists node1. auto.
    - exists node2. split; [lia | auto]. }
  destruct Hz as (z & Z0 & Zt & Ztz).
  assert (Dt : (degree g1 t + 1 = degree g t)%nat).
  { destruct Ztz as [[-> _]|[-> _]]; assumption. }
  assert (Dother : forall x, x <> t -> x <> z -> degree g1 x = degree g x).
  { intros x X1 X2. apply Do; destruct Ztz as [[? ?]|[? ?]]; congruence. }
  assert (Hflag : forall e', In e' (g_edges g1) ->
            (degree g1 t <> 1%nat \/ touches t e' = false) ->
            is_branch (e_attrs e') = flag_of g1 e').
  { intros e' He' Ht. pose proof He' as He1. apply Hin in He'. destruct He' as [He' _].
    rewrite (proj1 (branch_inv_flag g) Hb e' He'). symmetry.
    assert (Q : forall x, x = e_u e' \/ x = e_v e' ->
                  ((degree g1 x =? 1) = (degree g x =? 1))%nat).
    { intros x Hx.
      assert (Tx : touches x e' = true) by (apply touches_spec; intuition).
      destruct (Z.eq_dec x z) as [->|Xz].
      - rewrite (degree_0_no_edge g1 z e' Z0 He1) in Tx. discriminate.
      - destruct (Z.eq_dec x t) as [->|Xt]; [|rewrite Dother by auto; reflexivity].
        destruct Ht as [Ht|Ht]; [|congruence].
        assert (degree g1 t <> 0%nat).
        { intros E0. rewrite (degree_0_no_edge g1 t e' E0 He1) in Tx. discriminate. }
        destruct (Nat.eqb_spec (degree g1 t) 1), (Nat.eqb_spec (degree g t) 1);
          try lia; reflexivity. }
    apply flag_of_same; apply Q; auto. }
  destruct (Nat.eqb_spec (degree g1 t) 2) as [E2|E2].
  - destruct (remove_degree_two_nodes g1 thr (Some t) false) as [[st|]|] eqn:Rd;
      try discriminate.
    apply rd2n_run_reach in Rd. destruct Rd as [Rd _].
    assert (Hb1 : branch_inv g1).
    { apply branch_inv_flag. intros e' He'. apply Hflag; [exact He' | left; lia]. }
    destruct (rd2n_reach_inv thr false g1 (Some t) st Hd1 Hb1 E2 Rd)
      as [(I1 & I2 & _) _].
    injection H as <-. split; [exact I1 | exact I2].
  - destruct (Nat.eqb_spec (degree g1 t) 1) as [E1|E1].
    + destruct (get_single_neighbor g1 t) as [nb|] eqn:Gn; simpl in H; [|discriminate].
      destruct (get_single_edge_key g1 t nb) as [k|] eqn:Gk; simpl in H; [|discriminate].
      destruct (get_edge g1 t nb k) as [a|] eqn:Ge; simpl in H; [|discriminate].
      injection H as <-.
      pose proof (get_single_edge_key_In _ _ _ _ Gk) as (e0 & He0 & N0 & _).
      pose proof N0 as N0'. apply names_spec in N0'. destruct N0' as [J0 _].
      destruct (joins_touches _ _ _ J0) as [T0 _].
      split; [rewrite ids_distinct_set_is_branch; exact Hd1|].
      apply finish_flags; [exact Gk | left; exact E1 |].
      intros e' He' Je'. apply Hflag; [exact He'|]. right.
      destruct (touches t e') eqn:Tt; [|reflexivity].
      assert (e' = e0) by (apply (degree_1_unique g1 t); auto).
      subst e'. congruence.
    + injection H as <-. split; [exact Hd1|].
      apply branch_inv_flag. intros e' He'. apply Hflag; [exact He' | left; exact E1].
Qed.

Lemma rbo_remove_frame (thr : L) g (i : edge_id) g' :
  rbo_remove thr g i = Some (Ok g') ->
  g_nodes g' = g_nodes g /\
  (number_of_edges g' < number_of_edges g)%nat /\
  (ids_distinct (g_edges g) = true -> forall x, (degree g' x <= degree g x)%nat).
Proof.
  destruct i as [[node1 node2] key]. unfold rbo_remove.
  destruct (remove_edge g (node1, node2, key)) as [g1|] eqn:R; [|discriminate].
  pose proof (remove_edge_decreases _ _ _ R) as Lt.
  apply remove_edge_edges in R.
  assert (N1 : g_nodes g1 = g_nodes g) by (subst g1; reflexivity).
  assert (F1 : ids_distinct (g_edges g) = true ->
               ids_distinct (g_edges g1) = true /\
               forall x, (degree g1 x <= degree g x)%nat).
  { intros Hd. subst g1. split; [apply ids_distinct_filter; exact Hd|].
    intros x. apply degree_filter_le. }
  clear R.
  remember (if (degree g1 node1 =? 0)%nat then node2 else node1) as t eqn:Et.
  destruct (Nat.eqb_spec (degree g1 t) 2) as [D2|D2].
  - destruct (remove_degree_two_nodes g1 thr (Some t) false) as [[st|x]|] eqn:D;
      try discriminate.
    intros H. injection H as <-.
    unfold remove_degree_two_nodes in D. apply rd2n_run_reach in D. destruct D as [D _].
    split; [|split].
    + rewrite <- N1. clear - D.
      induction D as [l Hi | st n rest st' Hr IH Hp Hbody]; [reflexivity|].
      rewrite <- IH. exact (g_nodes_rd2n_body _ _ _ _ _ Hbody).
    + pose proof (rd2n_reach_edges _ _ _ _ _ D). lia.
    + intros Hd. destruct (F1 Hd) as [Hd1 Dle].
      destruct (rd2n_reach_worklist thr false g1 (Some t) st Hd1 D2 D)
        as (_ & _ & _ & W4 & _).
      intros x. specialize (W4 x). specialize (Dle x). lia.
  - destruct (degree g1 t =? 1)%nat.
    + intros H. injection H as H. inv_bind H. inv_bind H. inv_bind H.
      injection H as <-. split; [exact N1|]. split.
      * rewrite number_of_edges_set_is_branch. exact Lt.
      * intros Hd. destruct (F1 Hd) as [_ Dle].
        intros x. rewrite degree_set_is_branch. apply Dle.
    + intros H. injection H as <-. split; [exact N1|]. split; [exact Lt|].
      intros Hd. apply (F1 Hd).
Qed.

Lemma rbo_remove_some (thr : L) g (i : edge_id) : exists r, rbo_remove thr g i = Some r.
Proof.
  destruct i as [[node1 node2] key]. unfold rbo_remove.
  destruct (remove_edge g (node1, node2, key)) as [g1|]; [|eauto].
  remember (if (degree g1 node1 =? 0)%nat then node2 else node1) as t eqn:Et.
  destruct (degree g1 t =? 2)%nat.
  - destruct (rd2n_run_total g1 thr (Some t) false) as (r & ->).
    destruct r as [st|x]; eauto.
  - destruct (degree g1 t =? 1)%nat; eauto.
Qed.

(** The flagged edges, and their lengths. *)
Lemma branch_edges_In g (a b : node) (k : Z) :
  In (a, b, k) (branch_edges g) ->
  exists e, In e (g_edges g) /\ names (a, b, k) e = true /\
            is_branch (e_attrs e) = true.
Proof.
  unfold branch_edges. rewrite filter_In. intros [_ H].
  destruct (get_edge g a b k) as [x|] eqn:G; [|discriminate].
  apply get_edge_In in G. destruct G as (e & He & N & <-). eauto.
Qed.

Lemma branch_edges_complete g e :
  ids_distinct (g_edges g) = true -> nodes_ok g = true ->
  In e (g_edges g) -> is_branch (e_attrs e) = true ->
  exists a b, In (a, b, e_key e) (branch_edges g) /\
              get_edge g a b (e_key e) = Ok (e_attrs e).
Proof.
  intros Hd Hn He Fl.
  destruct (graph_edges_complete g e Hn He) as (a & b & Hin & J).
  assert (N : names (a, b, e_key e) e = true).
  { apply names_spec. split; [exact J | reflexivity]. }
  assert (G : get_edge g a b (e_key e) = Ok (e_attrs e)).
  { unfold get_edge.
    destruct (find (names (a, b, e_key e)) (g_edges g)) as [e'|] eqn:Fd.
    - apply find_some in Fd. destruct Fd as [He' N'].
      rewrite (names_unique g _ _ _ Hd He He' N N'). reflexivity.
    - exfalso. pose proof (find_none _ _ Fd e He) as C. congruence. }
  exists a, b. split; [|exact G].
  unfold branch_edges. apply filter_In. split; [exact Hin|].
  rewrite G. exact Fl.
Qed.

Lemma edge_lengths_spec g (l : list edge_id) (ls : list L) :
  edge_lengths g l = Ok ls ->
  List.length ls = List.length l /\
  (forall (a b : node) (k : Z) (x : EdgeAttrs L),
     In (a, b, k) l -> get_edge g a b k = Ok x -> In (length x) ls) /\
  (forall y, In y ls ->
     exists (a b : node) (k : Z) (x : EdgeAttrs L),
       In (a, b, k) l /\ get_edge g a b k = Ok x /\ length x = y).
Proof.
  revert ls. induction l as [|[[u0 v0] k0] l IH]; intros ls H; simpl in H.
  - injection H as <-. split; [reflexivity|]. split; [intros ? ? ? ? []|intros ? []].
  - apply bind_ok in H. destruct H as (x0 & G0 & H).
    apply bind_ok in H. destruct H as (ls0 & E0 & H). injection H as <-.
    destruct (IH _ E0) as (I1 & I2 & I3). split; [simpl; lia|]. split.
    + intros u1 v1 k1 x [E|Hin] G.
      * injection E as <- <- <-. left. congruence.
      * right. eapply I2; eauto.
    + intros y [<-|Hy].
      * exists u0, v0, k0, x0. simpl. auto.
      * destruct (I3 y Hy) as (u1 & v1 & k1 & x & Hin & G & E).
        exists u1, v1, k1, x. simpl. auto.
Qed.

Lemma edge_lengths_ok g (l : list edge_id) :
  (forall (a b : node) (k : Z), In (a, b, k) l -> exists x, get_edge g a b k = Ok x) ->
  exists ls, edge_lengths g l = Ok ls.
Proof.
  induction l as [|[[a0 b0] k0] l IH]; intros H; simpl; [eauto|].
  destruct (H a0 b0 k0) as (x & ->); [simpl; auto|].
  destruct IH as (ls & ->); [intros; apply H; simpl; auto|]. simpl. eauto.
Qed.

(** The turns of the loop: the one that stops leaves the graph as it is,
    every other one removes a flagged edge. *)
Lemma rbo_body_cases (thr : L) g g' (b : bool) :
  rbo_body thr g = Some (Ok (g', b)) ->
  (b = false /\ g' = g) \/
  (b = true /\ exists j, In j (branch_edges g) /\ rbo_remove thr g j = Some (Ok g')).
Proof.
  unfold rbo_body. destruct (branch_edges g) as [|edge0 r] eqn:B.
  - intros H. injection H as <- <-. auto.
  - destruct (edge_lengths g (edge0 :: r)) as [ls|]; [|discriminate].
    destruct (argmin ls) as [ind|]; [|discriminate].
    destruct ls as [|l0 ls]; [discriminate|].
    destruct (len_ltb _ thr); [|intros H; injection H as <- <-; auto].
    destruct (rbo_remove thr g (nth ind (edge0 :: r) edge0)) as [[g1|]|] eqn:R;
      try discriminate.
    intros H. injection H as <- <-. right. split; [reflexivity|].
    exists (nth ind (edge0 :: r) edge0). split; [|exact R].
    destruct (Nat.lt_ge_cases ind (List.length (edge0 :: r))) as [Hlt|Hge].
    + apply nth_In. exact Hlt.
    + rewrite nth_overflow by exact Hge. simpl. auto.
Qed.

Lemma rbo_body_some (thr : L) g : exists r, rbo_body thr g = Some r.
Proof.
  unfold rbo_body. destruct (branch_edges g) as [|edge0 r]; [eauto|].
  destruct (edge_lengths g (edge0 :: r)) as [ls|]; [|eauto].
  destruct (argmin ls) as [ind|]; [|eauto].
  destruct ls as [|l0 ls]; [eauto|].
  destruct (len_ltb _ thr); [|eauto].
  destruct (rbo_remove_some thr g (nth ind (edge0 :: r) edge0)) as (x & ->).
  destruct x; eauto.
Qed.

Lemma rbo_loop_terminates (fuel : nat) (thr : L) g :
  (number_of_edges g < fuel)%nat -> exists r, rbo_loop fuel thr g = Some r.
Proof.
  revert g. induction fuel as [|fuel IH]; intros g Hlt; [lia|].
  simpl. destruct (rbo_body_some thr g) as (r & Hr). rewrite Hr.
  destruct r as [[g' [|]]|x]; [|eauto|eauto].
  apply IH. apply rbo_body_cases in Hr.
  destruct Hr as [[Hr _]|(_ & j & _ & Hr)]; [discriminate|].
  apply rbo_remove_frame in Hr. lia.
Qed.

Lemma rbo_loop_inv (fuel : nat) (thr : L) g g' :
  ids_distinct (g_edges g) = true -> branch_inv g ->
  rbo_loop fuel thr g = Some (Ok g') ->
  ids_distinct (g_edges g') = true /\ branch_inv g' /\
  g_nodes g' = g_nodes g /\
  (number_of_edges g' <= number_of_edges g)%nat /\
  (forall x, (degree g' x <= degree g x)%nat) /\
  rbo_body thr g' = Some (Ok (g', false)).
Proof.
  revert g. induction fuel as [|fuel IH]; intros g Hd Hb; simpl; [discriminate|].
  destruct (rbo_body thr g) as [[[g1 [|]]|x]|] eqn:B; try discriminate.
  - intros H. pose proof B as B'. apply rbo_body_cases in B'.
    destruct B' as [[B' _]|(_ & [[a b] k] & Hj & R)]; [discriminate|].
    destruct (branch_edges_In _ _ _ _ Hj) as (e & He & N & Fl).
    destruct (rbo_remove_preserves thr g _ e g1 Hd Hb He N Fl R) as [Hd1 Hb1].
    destruct (rbo_remove_frame _ _ _ _ R) as (N1 & E1 & D1).
    destruct (IH g1 Hd1 Hb1 H) as (I1 & I2 & I3 & I4 & I5 & I6).
    split; [exact I1|]. split; [exact I2|]. split; [congruence|].
    split; [lia|]. split; [|exact I6].
    intros x. specialize (I5 x). specialize (D1 Hd x). lia.
  - intros H. injection H as <-. pose proof B as B'. apply rbo_body_cases in B'.
    destruct B' as [[_ ->]|[B' _]]; [|discriminate].
    split; [exact Hd|]. split; [exact Hb|]. split; [reflexivity|].
    split; [lia|]. split; [intros; lia | exact B].
Qed.

Section Shortest.

(** [<] on lengths is a strict order in which every two lengths compare
    (so it is on floats that are numbers). *)
Hypothesis ltb_irrefl : forall a : L, len_ltb a a = false.
Hypothesis ltb_trans :
  forall a b c : L, len_ltb a b = true -> len_ltb b c = true -> len_ltb a c = true.
Hypothesis ltb_below :
  forall a b c : L, len_ltb a c = true -> len_ltb b c = false -> len_ltb a b = true.

Lemma argmin_least (l0 : L) (ls : list L) (ind : nat) :
  argmin (l0 :: ls) = Ok ind ->
  In (nth ind (l0 :: ls) l0) (l0 :: ls) /\
  forall y, In y (l0 :: ls) -> len_ltb y (nth ind (l0 :: ls) l0) = false.
Proof.
  unfold argmin. intros H. injection H as <-.
  destruct (argmin_from_first ltb_irrefl ltb_trans ls [l0] 1 0 l0 l0) as (B & M & _);
    try reflexivity.
  - lia.
  - intros y [<-|[]]. apply ltb_irrefl.
  - intros k Hk. lia.
  - cbn [app] in B, M. split; [apply nth_In; exact B | exact M].
Qed.

(** When the loop stops, no flagged edge is shorter than the threshold. *)
Lemma rbo_stop_no_short (thr : L) g e :
  ids_distinct (g_edges g) = true -> nodes_ok g = true ->
  rbo_body thr g = Some (Ok (g, false)) ->
  In e (g_edges g) -> is_branch (e_attrs e) = true ->
  len_ltb (length (e_attrs e)) thr = false.
Proof.
  intros Hd Hn B He Fl.
  destruct (branch_edges_complete g e Hd Hn He Fl) as (a & b & Hin & G).
  unfold rbo_body in B. destruct (branch_edges g) as [|edge0 r] eqn:Be; [contradiction|].
  destruct (edge_lengths g (edge0 :: r)) as [ls|] eqn:El; [|discriminate].
  destruct (edge_lengths_spec _ _ _ El) as (_ & I2 & _).
  specialize (I2 _ _ _ _ Hin G).
  destruct (argmin ls) as [ind|] eqn:A; [|discriminate].
  destruct ls as [|l0 ls]; [contradiction|].
  destruct (argmin_least _ _ _ A) as [_ M]. specialize (M _ I2).
  destruct (len_ltb (nth ind (l0 :: ls) l0) thr) eqn:C.
  - destruct (rbo_remove thr g (nth ind (edge0 :: r) edge0)) as [[g1|]|];
      discriminate.
  - destruct (len_ltb (length (e_attrs e)) thr) eqn:S; [|reflexivity].
    rewrite (ltb_below _ _ _ S C) in M. discriminate.
Qed.

(** With no short flagged edge the first turn of the loop stops. *)
Lemma rbo_body_no_short (thr : L) g :
  branch_small_edges g thr = [] -> rbo_body thr g = Some (Ok (g, false)).
Proof.
  intros Hs. unfold rbo_body. destruct (branch_edges g) as [|edge0 r] eqn:Be; [reflexivity|].
  assert (Hall : forall (a b : node) (k : Z), In (a, b, k) (edge0 :: r) ->
            exists x, get_edge g a b k = Ok x /\ is_branch x = true /\
                      In (a, b, k) (graph_edges g)).
  { intros a b k Hin. rewrite <- Be in Hin. unfold branch_edges in Hin.
    apply filter_In in Hin. destruct Hin as [Hin Fl].
    destruct (get_edge g a b k) as [x|]; [|discriminate]. eauto. }
  destruct (edge_lengths_ok g (edge0 :: r)) as (ls & El).
  { intros a b k Hin. destruct (Hall a b k Hin) as (x & G & _). eauto. }
  rewrite El. destruct (edge_lengths_spec _ _ _ El) as (Hlen & _ & I3).
  destruct ls as [|l0 ls]; [discriminate|].
  destruct (argmin (l0 :: ls)) as [ind|] eqn:A; [|discriminate].
  destruct (argmin_least _ _ _ A) as [Hmin _].
  destruct (I3 _ Hmin) as (a & b & k & x & Hin & G & E).
  destruct (Hall a b k Hin) as (x' & G' & Fl & Hge).
  assert (x' = x) by congruence. subst x'.
  destruct (len_ltb (nth ind (l0 :: ls) l0) thr) eqn:C; [|reflexivity].
  exfalso.
  assert (Hm : In (length x, (a, b, k)) (branch_small_edges g thr)).
  { unfold branch_small_edges. apply in_flat_map. exists (a, b, k).
    split; [exact Hge|]. rewrite G, Fl, E, C. simpl. auto. }
  rewrite Hs in Hm. contradiction.
Qed.

(** X21: [_remove_branches_old] always comes to an end (it returns or
    raises), and without a short edge flagged as a branch it returns the
    graph as it is.  Given a graph networkx can hold whose flags
    ['is_branch'] are right and lengths that are totally ordered, when it
    returns: the flags are right again, no edge with an end point of
    degree one is shorter than the threshold, a second call changes
    nothing, the nodes are the ones the graph had, and no node has a
    higher degree and the graph no more edges than before. *)
Theorem remove_branches_old_result g (thr : L) :
  well_formed g = true -> branch_inv g ->
  (exists r, _remove_branches_old g thr = Some r) /\
  (branch_small_edges g thr = [] -> _remove_branches_old g thr = Some (Ok g)) /\
  (forall g', _remove_branches_old g thr = Some (Ok g') ->
     branch_inv g' /\
     (forall e, In e (g_edges g') -> ends_in_termination g' e ->
                len_ltb (length (e_attrs e)) thr = false) /\
     _remove_branches_old g' thr = Some (Ok g') /\
     g_nodes g' = g_nodes g /\
     (number_of_edges g' <= number_of_edges g)%nat /\
     (forall x, (degree g' x <= degree g x)%nat)).
Proof.
  intros Hwf Hb. destruct (well_formed_spec _ Hwf) as [Hd Hn].
  split; [apply rbo_loop_terminates; lia|]. split.
  - intros Hs. unfold _remove_branches_old. cbn [rbo_loop].
    rewrite (rbo_body_no_short thr g Hs). reflexivity.
  - intros g' H. unfold _remove_branches_old in H.
    destruct (rbo_loop_inv _ _ _ _ Hd Hb H) as (I1 & I2 & I3 & I4 & I5 & I6).
    pose proof (nodes_ok_below g g' Hn I3 I5) as Hn'.
    split; [exact I2|]. split; [|split; [|auto]].
    + intros e He T. apply (rbo_stop_no_short thr g' e I1 Hn' I6 He).
      apply (I2 e He). exact T.
    + unfold _remove_branches_old. cbn [rbo_loop]. rewrite I6. reflexivity.
Qed.

End Shortest.


Lemma branch_inv_b_spec g : branch_inv_b g = true -> branch_inv g.
Proof.
  unfold branch_inv_b, branch_inv. rewrite forallb_forall. intros H e He.
  specialize (H e He). apply eqb_prop in H.
  rewrite H, orb_true_iff, !Nat.eqb_eq. tauto.
Qed.

End Proofs.

(** * creation.py: images without a skeleton pixel *)

Lemma insert_value_In (x y : Z) (l : list Z) :
  In y (insert_value x l) -> y = x \/ In y l.
Proof.
  induction l as [|z l IH]; simpl.
  - intros [<-|[]]. auto.
  - destruct (x <? z); [simpl; intros [<-|H]; auto|].
    destruct (x =? z); [auto|].
    simpl. intros [<-|H]; [auto|]. destruct (IH H); auto.
Qed.

Lemma unique_In (img : Image) (y : Z) : In y (unique img) -> In y (img_data img).
Proof.
  unfold unique. induction (img_data img) as [|x l IH]; simpl; [auto|].
  intros H. apply insert_value_In in H. destruct H as [->|H]; auto.
Qed.

(** C6, as the code has it: on an image whose pixels are all 0,
    [create_graph] raises [ValueError] at the check of the values, whatever
    the later steps would do; it returns no graph. *)
Theorem create_graph_blank_image (Graph : Type) (build_graph : Image -> result Graph)
    (img : Image) :
  forallb (fun x => x =? 0) (img_data img) = true ->
  create_graph build_graph img = Raise ValueError.
Proof.
  intros H. unfold create_graph.
  destruct (list_eq_dec Z.eq_dec (unique img) [0; 1]) as [E|E]; [|reflexivity].
  exfalso. assert (H1 : In 1 (unique img)) by (rewrite E; simpl; auto).
  apply unique_In in H1. rewrite forallb_forall in H. apply H in H1. discriminate.
Qed.

(** * The code on the concrete inputs *)

#[export] Existing Instance Q_lengths.

Lemma Qltb_irrefl (a : Q) : Qltb a a = false.
Proof.
  unfold Qltb. apply negb_false_iff. apply Qle_bool_iff. apply Qle_refl.
Qed.

Lemma Qltb_lt (a b : Q) : Qltb a b = true <-> (a < b)%Q.
Proof.
  unfold Qltb. rewrite negb_true_iff. split.
  - intros H. apply Qnot_le_lt. intros Hle. apply Qle_bool_iff in Hle. congruence.
  - intros H. destruct (Qle_bool b a) eqn:E; [|reflexivity].
    apply Qle_bool_iff in E. exfalso. exact (Qle_not_lt _ _ E H).
Qed.

Lemma Qltb_trans (a b c : Q) : Qltb a b = true -> Qltb b c = true -> Qltb a c = true.
Proof. rewrite !Qltb_lt. apply Qlt_trans. Qed.

(** ** The removal from the work list in the ['multiple'] case *)

(** C10: [remove_degree_two_nodes], started at node 0 of the cycle with a
    chord, raises [ValueError].  After two turns the work list is [[1]],
    node 1 has type ['multiple'] with the one neighbour 3, and node 3 has
    degree two but is not in the work list: [nodes_to_visit.remove(nei1)]
    raises, where [remove_if_in_list] would leave the list as it is.
    [remove_branches] reaches the same call on the graph with the short
    branch, by removing the branch. *)
Theorem worklist_remove_raises :
  remove_degree_two_nodes cycle_with_chord 10%Q (Some 0) false = Some (Raise ValueError) /\
  remove_branches cycle_with_branch 10%Q = Some (Raise ValueError) /\
  exists st : rd2n_state Q,
    rd2n_reach 10%Q false cycle_with_chord (Some 0) st /\
    pop (nodes_to_visit st) = Some (1, []) /\
    degree_two_node_type (st_graph st) 1 = Ok Multiple /\
    neighbors (st_graph st) 1 = [3] /\
    degree (st_graph st) 3 = 2%nat /\
    list_remove [] 3 = Raise ValueError /\
    remove_if_in_list [] 3 = [] /\
    rd2n_body 10%Q false (mkState (st_graph st) [] [] []) 1 = Raise ValueError.
Proof.
  split; [vm_compute; reflexivity|]. split; [vm_compute; reflexivity|].
  destruct (rd2n_body 10%Q false (mkState cycle_with_chord [] [] []) 0) as [s1|] eqn:B1;
    [|vm_compute in B1; discriminate].
  destruct (rd2n_body 10%Q false (mkState (st_graph s1) [1] [] []) 2) as [s2|] eqn:B2.
  2:{ vm_compute in B1. injection B1 as <-. vm_compute in B2. discriminate. }
  exists s2. split.
  - apply rd2n_next with (st := s1) (n := 2) (rest := [1]).
    + apply rd2n_next with (st := mkState cycle_with_chord [0] [] []) (n := 0) (rest := []).
      * apply rd2n_start. vm_compute. reflexivity.
      * reflexivity.
      * exact B1.
    + vm_compute in B1. injection B1 as <-. reflexivity.
    + vm_compute in B1. injection B1 as <-. exact B2.
  - vm_compute in B1. injection B1 as <-. vm_compute in B2. injection B2 as <-.
    repeat split; vm_compute; reflexivity.
Qed.

(** ** The queue of [remove_branches] *)

(** C2: on the path 0 - 1 - 2 with the lengths 2 and 1 and the threshold
    10, the first turn removes the edge (1, 2, 0) and adds the edge that is
    left to the queue as (1, 0, 0), next to its entry (0, 1, 0).  The
    second turn pops (0, 1, 0) and removes the edge; at the start of the
    third turn the queue holds (1, 0, 0), which is no edge of the graph,
    and the call ends in the [NetworkXError] of [remove_edge]. *)
Theorem stale_queue_entry :
  (exists g (q : PriorityQueue Q),
     rb_reach 10%Q short_path g q /\
     g_edges g = [edge 0 1 0 2 true] /\
     q = [(2%Q, (0, 1, 0)); (2%Q, (1, 0, 0))]) /\
  (exists g (q : PriorityQueue Q),
     rb_reach 10%Q short_path g q /\
     g_edges g = [] /\
     q = [(2%Q, (1, 0, 0))] /\
     queue_sound g q = false) /\
  remove_branches short_path 10%Q = Some (Raise NetworkXError).
Proof.
  assert (R1 : rb_reach 10%Q short_path (with_edges short_path [edge 0 1 0 2 true])
                 [(2%Q, (0, 1, 0)); (2%Q, (1, 0, 0))]).
  { apply rb_next with (g := short_path)
      (q := new_queue (branch_small_edges short_path 10%Q))
      (len := 1%Q) (i := (1, 2, 0)) (q' := [(2%Q, (0, 1, 0))]).
    - apply rb_start.
    - vm_compute. reflexivity.
    - vm_compute. reflexivity. }
  split; [|split].
  - eexists. eexists. split; [exact R1|]. split; reflexivity.
  - exists (with_edges short_path []), [(2%Q, (1, 0, 0))].
    split; [|repeat split; vm_compute; reflexivity].
    apply rb_next with (g := with_edges short_path [edge 0 1 0 2 true])
      (q := [(2%Q, (0, 1, 0)); (2%Q, (1, 0, 0))])
      (len := 2%Q) (i := (0, 1, 0)) (q' := [(2%Q, (1, 0, 0))]); [exact R1| |].
    + vm_compute. reflexivity.
    + vm_compute. reflexivity.
  - vm_compute. reflexivity.
Qed.

(** C3: on the path 0 - 1 - 2 with the lengths 1 and 100 and the threshold
    10, the first turn removes the edge (0, 1, 0), which leaves node 1 with
    degree one; its edge, of length 100, is flagged and enters the queue
    although 100 is not below 10, and the next turn removes it: the call
    returns the graph without any edge. *)
Theorem long_branch_queued :
  (exists g (q : PriorityQueue Q),
     rb_reach 10%Q short_long_path g q /\
     g_edges g = [edge 1 2 0 100 true] /\
     q = [(100%Q, (1, 2, 0))] /\
     len_ltb 100%Q 10%Q = false) /\
  remove_branches short_long_path 10%Q = Some (Ok (with_edges short_long_path [])).
Proof.
  split; [|vm_compute; reflexivity].
  exists (with_edges short_long_path [edge 1 2 0 100 true]), [(100%Q, (1, 2, 0))].
  split; [|repeat split; vm_compute; reflexivity].
  apply rb_next with (g := short_long_path)
    (q := new_queue (branch_small_edges short_long_path 10%Q))
    (len := 1%Q) (i := (0, 1, 0)) (q' := []).
  - apply rb_start.
  - vm_compute. reflexivity.
  - vm_compute. reflexivity.
Qed.

(** ** The theorems on concrete inputs *)

(** The flags along the calls of [adjust_graph] on the cycle with a chord
    and a short branch. *)
Lemma branch_flags_invariant_witness :
  well_formed cycle_with_branch = true /\
  branch_inv (add_branch_info cycle_with_branch) /\
  exists st : rd2n_state Q,
    remove_degree_two_nodes
      (remove_small_mul_all (add_branch_info cycle_with_branch) (len_twice 10%Q))
      10%Q None false = Some (Ok st) /\
    branch_inv (st_graph st).
Proof.
  assert (Hwf : well_formed cycle_with_branch = true) by reflexivity.
  destruct (branch_flags_invariant 10%Q) as (A & _ & _ & D).
  split; [exact Hwf|]. split; [exact (A _ Hwf)|].
  destruct (remove_degree_two_nodes
              (remove_small_mul_all (add_branch_info cycle_with_branch) (len_twice 10%Q))
              10%Q None false) as [[st|x]|] eqn:E;
    [| vm_compute in E; discriminate | vm_compute in E; discriminate].
  exists st. split; [reflexivity|].
  destruct (D cycle_with_branch st (st_graph st)
              (new_queue (branch_small_edges (st_graph st) 10%Q)) Hwf E
              (rb_reach_any_of_reach _ _ _ _ (rb_start 10%Q (st_graph st))))
    as (_ & _ & H & _).
  exact H.
Defined.

(** The elimination of node 1 of the path 0 - 1 - 2 with the lengths 5 and
    7: the new edge has length 5 + (5 + 5) + 7. *)
Lemma merged_edge_length_witness :
  rd2n_body 10%Q false (mkState path_5_7 [] [] []) 1 = Ok path_5_7_merged /\
  exists nt nei1 nei2 k1 k2 a1 a2 c p_last p_first is_br key,
    degree_two_node_type path_5_7 1 = Ok nt /\
    (nt = Simple \/ nt = Multiple) /\
    two_neighbors_data path_5_7 1 (Some nt) = Ok (nei1, nei2, k1, k2) /\
    center_of path_5_7 1 = Ok c /\
    get_edge path_5_7 1 nei1 k1 = Ok a1 /\
    get_edge path_5_7 1 nei2 k2 = Ok a2 /\
    last_pixel (oriented_first 1 nei1 a1) = Ok p_last /\
    first_pixel (oriented_second 1 nei2 a2) = Ok p_first /\
    let new_edge :=
      mkEdge nei1 nei2 key
        (mkAttrs (oriented_first 1 nei1 a1 ++ [c] ++ oriented_second 1 nei2 a2)
           (len_add (len_add (length a1)
                       (path_length [p_last; c; p_first] (g_pix_size path_5_7)))
              (length a2))
           is_br) in
    g_edges (merged path_5_7 1 nei1 k1 nei2 k2 (e_attrs new_edge))
    = insert_edge nei1 nei2 new_edge
        (filter (fun e => negb (named_by [(1, nei1, k1); (1, nei2, k2)] e))
           (g_edges path_5_7)) /\
    forall e', In e' (g_edges (st_graph path_5_7_merged)) ->
      exists e, In e (g_edges (merged path_5_7 1 nei1 k1 nei2 k2 (e_attrs new_edge)))
                /\ same_but_flag e' e.
Proof.
  assert (H : rd2n_body 10%Q false (mkState path_5_7 [] [] []) 1 = Ok path_5_7_merged)
    by (vm_compute; reflexivity).
  split; [exact H|].
  exact (merged_edge_length 10%Q false (mkState path_5_7 [] [] []) path_5_7_merged 1 H).
Defined.

(** Two parallel edges of lengths 1.0 and 1.5 and the threshold 2.0: the
    edge of length 1.0 is removed, the edge of length 1.5 is kept and
    flagged as a branch. *)
Lemma remove_small_mul_all_spec_witness :
  well_formed two_parallel = true /\
  g_edges (remove_small_mul_all two_parallel 2%Q) = [edge 0 1 1 (3 # 2) true] /\
  branch_inv (remove_small_mul_all two_parallel 2%Q) /\
  removed_by_small_mul_all 2%Q two_parallel (edge 0 1 0 1 false) = true /\
  removed_by_small_mul_all 2%Q two_parallel (edge 0 1 1 (3 # 2) false) = false.
Proof.
  assert (Hwf : well_formed two_parallel = true) by reflexivity.
  pose proof (@remove_small_mul_all_spec Q Q_lengths Qltb_irrefl Qltb_trans
                two_parallel 2%Q Hwf) as H.
  cbv zeta in H. destruct H as (H1 & _ & H3 & _ & _).
  split; [exact Hwf|]. split; [rewrite H1; vm_compute; reflexivity|].
  split; [exact H3|]. split; vm_compute; reflexivity.
Defined.

(** Node 0 with its self-loop, next to the edge 1 - 2. *)
Lemma loop_node_raises_and_stays_witness :
  degree_two_node_type loop_and_edge 0 = Ok Loop /\
  two_neighbors_data loop_and_edge 0 None = Raise ValueError /\
  two_neighbors_data loop_and_edge 0 (Some Loop) = Raise ValueError /\
  rd2n_body 10%Q false (mkState loop_and_edge [0] [] []) 0 = Raise ValueError /\
  forall st : rd2n_state Q,
    remove_degree_two_nodes loop_and_edge 10%Q None false = Some (Ok st) ->
    incident (st_graph st) 0 = incident loop_and_edge 0.
Proof.
  assert (H : degree_two_node_type loop_and_edge 0 = Ok Loop) by reflexivity.
  destruct (loop_node_raises_and_stays loop_and_edge 0 10%Q false H)
    as (H1 & H2 & H3 & _ & H5).
  split; [exact H|]. split; [exact H1|]. split; [exact H2|]. split; [apply H3|].
  intros st. apply (H5 None).
Defined.

(** The image of two rows of two zeros. *)
Lemma create_graph_blank_image_witness :
  forallb (fun x => x =? 0) (img_data blank_2x2) = true /\
  create_graph (fun _ => Ok empty_graph) blank_2x2 = Raise ValueError.
Proof.
  split; [reflexivity|]. apply create_graph_blank_image. reflexivity.
Defined.

(** C6, read as a promise of a graph without nodes and edges, fails on
    the image of one row of three zeros:
    its values are [(0,)], not [(0, 1)], and [create_graph] raises before
    any later step runs, even when the later steps would give the graph
    without nodes and edges. *)
Lemma create_graph_blank_raises :
  forallb (fun x => x =? 0) (img_data blank_1x3) = true /\
  unique blank_1x3 = [0] /\
  create_graph (fun _ => Ok empty_graph) blank_1x3 = Raise ValueError /\
  is_ok (create_graph (fun _ => Ok empty_graph) blank_1x3) = false.
Proof. repeat split. Qed.

(** ** The further properties on the concrete inputs *)

Lemma Qltb_below (a b c : Q) : Qltb a c = true -> Qltb b c = false -> Qltb a b = true.
Proof.
  rewrite !Qltb_lt. unfold Qltb. rewrite negb_false_iff. intros Hac Hcb.
  apply Qle_bool_iff in Hcb. exact (Qlt_le_trans _ _ _ Hac Hcb).
Qed.

(** The list 3, 1, 2, 1: the smallest value is first met at index 1, the
    largest at index 0. *)
Lemma argmin_argmax_first_extreme_witness :
  [3; 1; 2; 1]%Q <> [] /\
  argmin [3; 1; 2; 1]%Q = Ok 1%nat /\ argmax [3; 1; 2; 1]%Q = Ok 0%nat /\
  exists a b : nat,
    argmin [3; 1; 2; 1]%Q = Ok a /\ argmax [3; 1; 2; 1]%Q = Ok b /\
    (a < 4)%nat /\ (b < 4)%nat.
Proof.
  assert (H : [3; 1; 2; 1]%Q <> []) by discriminate.
  destruct (@argmin_argmax_first_extreme Q Q_lengths Qltb_irrefl Qltb_trans
              [3; 1; 2; 1]%Q 0%Q H) as (a & b & Ha & Hb & La & Lb & _).
  split; [exact H|]. split; [reflexivity|]. split; [reflexivity|].
  exists a, b. auto.
Defined.

(** The two parallel edges between 0 and 1: the pair is yielded once and
    its count is one. *)
Lemma multiple_edges_views_witness :
  well_formed two_parallel = true /\
  NoDup (multiedge_iter two_parallel) /\
  is_multiple_edge two_parallel 0 1 = Ok true /\
  is_multiple_edge two_parallel 1 0 = Ok true /\
  count_of (count_multiple_edges two_parallel) (0, 1) = Some 1%nat.
Proof.
  assert (Hwf : well_formed two_parallel = true) by reflexivity.
  destruct (multiple_edges_views two_parallel Hwf) as (H1 & H2 & _ & _ & H5 & _).
  assert (Hin : In (0, 1) (multiedge_iter two_parallel)) by (vm_compute; auto).
  destruct (H2 0 1 Hin) as (A & B & _).
  split; [exact Hwf|]. split; [exact H1|]. split; [exact A|]. split; [exact B|].
  apply (H5 0 1 0). vm_compute. auto.
Defined.

(** The two parallel edges of lengths 1.0 and 1.5: with the threshold 2.0
    an edge is removed; between the nodes 0 and 2, which no edge joins,
    the call raises. *)
Lemma remove_small_mul_outcome_witness :
  ids_distinct (g_edges two_parallel) = true /\
  remove_small_mul two_parallel 0 2 2%Q = Raise KeyError /\
  exists g', remove_small_mul two_parallel 0 1 2%Q = Ok (g', true) /\
             g_nodes g' = g_nodes two_parallel.
Proof.
  assert (Hd : ids_distinct (g_edges two_parallel) = true) by reflexivity.
  destruct (@remove_small_mul_outcome Q Q_lengths Qltb_irrefl Qltb_trans
              two_parallel 0 2 2%Q Hd) as [A _].
  destruct (@remove_small_mul_outcome Q Q_lengths Qltb_irrefl Qltb_trans
              two_parallel 0 1 2%Q Hd) as [_ B].
  split; [exact Hd|]. split; [apply A; reflexivity|].
  destruct (B eq_refl) as (s & Hs & _ & Hshort & _).
  assert (C : len_ltb (length (e_attrs s)) 2%Q = true).
  { vm_compute in Hs. destruct Hs as [<-|[<-|[]]]; reflexivity. }
  destruct (Hshort C) as (g' & Hg & Hn & _). exists g'. auto.
Defined.

(** The path 0 - 1 - 2: node 1 is eliminated and no node of degree two is
    left. *)
Lemma remove_degree_two_nodes_result_witness :
  ids_distinct (g_edges path_5_7) = true /\
  NoDup (map fst (g_nodes path_5_7)) /\
  exists st, remove_degree_two_nodes path_5_7 10%Q None false = Some (Ok st) /\
             degree_two_iter (st_graph st) false false = [] /\
             g_nodes (st_graph st) = g_nodes path_5_7.
Proof.
  assert (Hd : ids_distinct (g_edges path_5_7) = true) by reflexivity.
  assert (Hn : NoDup (map fst (g_nodes path_5_7))).
  { apply distinct_NoDup. reflexivity. }
  assert (E : exists st, remove_degree_two_nodes path_5_7 10%Q None false = Some (Ok st)).
  { vm_compute. eexists. reflexivity. }
  destruct E as (st & E).
  destruct (remove_degree_two_nodes_result path_5_7 10%Q false st Hd Hn E)
    as (_ & A & B & _).
  split; [exact Hd|]. split; [exact Hn|]. exists st. auto.
Defined.

(** The two parallel edges: a second call of [add_branch_info] changes
    nothing. *)
Lemma add_branch_info_frame_witness :
  nodes_ok two_parallel = true /\
  add_branch_info (add_branch_info two_parallel) = add_branch_info two_parallel /\
  g_nodes (add_branch_info two_parallel) = g_nodes two_parallel.
Proof.
  assert (Hn : nodes_ok two_parallel = true) by reflexivity.
  destruct (add_branch_info_frame two_parallel Hn) as (A & _ & _ & _ & B & _).
  auto.
Defined.

(** The two parallel edges of lengths 1.0 and 1.5 and the threshold 2.0:
    the nodes 0 and 1 stay joined, and a second call changes nothing. *)
Lemma remove_small_mul_all_again_witness :
  well_formed two_parallel = true /\
  has_edge (remove_small_mul_all two_parallel 2%Q) 0 1 = true /\
  remove_small_mul_all (remove_small_mul_all two_parallel 2%Q) 2%Q
  = remove_small_mul_all two_parallel 2%Q.
Proof.
  assert (Hwf : well_formed two_parallel = true) by reflexivity.
  destruct (@remove_small_mul_all_again Q Q_lengths Qltb_irrefl Qltb_trans Qltb_below
              two_parallel 2%Q Hwf) as (A & _ & _ & B).
  split; [exact Hwf|]. split; [|exact B].
  rewrite A by discriminate. reflexivity.
Defined.

(** * Further properties of the functions of creation.py *)

(** ** [iterate_neighbors] and [is_inside] *)

Lemma beside_2 (r c a b : Z) :
  beside [r; c] [a; b] <->
  Z.abs (a - r) <= 1 /\ Z.abs (b - c) <= 1 /\ (a <> r \/ b <> c).
Proof.
  unfold beside. split.
  - intros [F N]. inversion F as [|? ? ? ? H1 F1]; subst.
    inversion F1 as [|? ? ? ? H2 F2]; subst.
    split; [exact H1|]. split; [exact H2|].
    destruct (Z.eq_dec a r) as [->|]; [|auto]. right. intros ->. apply N. reflexivity.
  - intros (H1 & H2 & N). split; [repeat constructor; assumption|].
    intros E. injection E as -> ->. destruct N as [N|N]; apply N; reflexivity.
Qed.

Lemma beside_3 (r c z a b d : Z) :
  beside [r; c; z] [a; b; d] <->
  Z.abs (a - r) <= 1 /\ Z.abs (b - c) <= 1 /\ Z.abs (d - z) <= 1 /\
  (a <> r \/ b <> c \/ d <> z).
Proof.
  unfold beside. split.
  - intros [F N]. inversion F as [|? ? ? ? H1 F1]; subst.
    inversion F1 as [|? ? ? ? H2 F2]; subst.
    inversion F2 as [|? ? ? ? H3 F3]; subst.
    split; [exact H1|]. split; [exact H2|]. split; [exact H3|].
    destruct (Z.eq_dec a r) as [->|]; [|auto]. right.
    destruct (Z.eq_dec b c) as [->|]; [|auto]. right.
    intros ->. apply N. reflexivity.
  - intros (H1 & H2 & H3 & N). split; [repeat constructor; assumption|].
    intros E. injection E as -> -> ->. destruct N as [N|[N|N]]; apply N; reflexivity.
Qed.

Lemma beside_length (p q : pixel) : beside p q -> List.length q = List.length p.
Proof. intros [F _]. symmetry. exact (Forall2_length F). Qed.

Lemma beside_sym (p q : pixel) : beside p q -> beside q p.
Proof.
  intros [F N]. split; [|intros E; apply N; symmetry; exact E].
  clear N. induction F as [|a b p q H F IH]; constructor; [lia | exact IH].
Qed.

Ltac pick_member := repeat (first [left; reflexivity | right]).

Ltac all_apart :=
  repeat (constructor;
          [simpl;
           let H := fresh "H" in
           intros H;
           repeat (destruct H as [H|H]; [injection H; intros; lia|]);
           exact H|]);
  constructor.

Lemma iterate_neighbors_2 (r c : Z) :
  exists l, iterate_neighbors [r; c] = Ok l /\ NoDup l /\ List.length l = 8%nat /\
            forall q, In q l <-> beside [r; c] q.
Proof.
  eexists. split; [reflexivity|]. split; [all_apart|]. split; [reflexivity|].
  intros q. split.
  - intros H. simpl in H.
    repeat (destruct H as [<-|H]; [apply beside_2; lia|]). contradiction.
  - intros H. pose proof (beside_length _ _ H) as Hl.
    destruct q as [|a [|b [|? ?]]]; try discriminate.
    apply beside_2 in H. destruct H as (H1 & H2 & N).
    assert (Ha : a = r - 1 \/ a = r \/ a = r + 1) by lia.
    assert (Hb : b = c - 1 \/ b = c \/ b = c + 1) by lia.
    destruct Ha as [->|[->| ->]], Hb as [->|[->| ->]]; simpl;
      first [exfalso; lia | pick_member].
Qed.

Lemma iterate_neighbors_3 (r c z : Z) :
  exists l, iterate_neighbors [r; c; z] = Ok l /\ NoDup l /\ List.length l = 26%nat /\
            forall q, In q l <-> beside [r; c; z] q.
Proof.
  eexists. split; [reflexivity|]. split; [all_apart|]. split; [reflexivity|].
  intros q. split.
  - intros H. simpl in H.
    repeat (destruct H as [<-|H]; [apply beside_3; lia|]). contradiction.
  - intros H. pose proof (beside_length _ _ H) as Hl.
    destruct q as [|a [|b [|d [|? ?]]]]; try discriminate.
    apply beside_3 in H. destruct H as (H1 & H2 & H3 & N).
    assert (Ha : a = r - 1 \/ a = r \/ a = r + 1) by lia.
    assert (Hb : b = c - 1 \/ b = c \/ b = c + 1) by lia.
    assert (Hd : d = z - 1 \/ d = z \/ d = z + 1) by lia.
    destruct Ha as [->|[->| ->]], Hb as [->|[->| ->]], Hd as [->|[->| ->]]; simpl;
      first [exfalso; lia | pick_member].
Qed.

Lemma iterate_neighbors_block (p : pixel) :
  List.length p = 2%nat \/ List.length p = 3%nat ->
  exists l, iterate_neighbors p = Ok l /\ NoDup l /\
            List.length l = (3 ^ List.length p - 1)%nat /\
            forall q, In q l <-> beside p q.
Proof.
  intros [H|H].
  - destruct p as [|r [|c [|? ?]]]; try discriminate. apply iterate_neighbors_2.
  - destruct p as [|r [|c [|z [|? ?]]]]; try discriminate. apply iterate_neighbors_3.
Qed.

(** X13: for a pixel of two or three coordinates [iterate_neighbors]
    yields, each once, exactly the other pixels of the block of side three
    around it (8 in the plane, 26 in space); a pixel is yielded for another
    exactly when that one is yielded for it.  For a pixel of any other
    number of coordinates the call raises [UnboundLocalError]. *)
Theorem iterate_neighbors_around (p : pixel) :
  (List.length p = 2%nat \/ List.length p = 3%nat ->
   exists l, iterate_neighbors p = Ok l /\ NoDup l /\
     List.length l = (3 ^ List.length p - 1)%nat /\
     (forall q, In q l <-> beside p q) /\
     (forall q, In q l -> exists l', iterate_neighbors q = Ok l' /\ In p l')) /\
  (List.length p <> 2%nat -> List.length p <> 3%nat ->
   iterate_neighbors p = Raise UnboundLocalError).
Proof.
  split.
  - intros Hp. destruct (iterate_neighbors_block p Hp) as (l & E & ND & Hl & Hin).
    exists l. repeat (split; [assumption|]).
    intros q Hq. apply Hin in Hq.
    assert (Hlq : List.length q = 2%nat \/ List.length q = 3%nat)
      by (rewrite (beside_length _ _ Hq); exact Hp).
    destruct (iterate_neighbors_block q Hlq) as (l' & E' & _ & _ & Hin').
    exists l'. split; [exact E'|]. apply Hin'. apply beside_sym. exact Hq.
  - intros H2 H3. destruct p as [|r [|c [|z [|? ?]]]]; simpl in *; try reflexivity; lia.
Qed.

Lemma within_2 (r c h w : Z) :
  within [r; c] [h; w] <-> 0 <= r < h /\ 0 <= c < w.
Proof.
  unfold within. split.
  - intros F. inversion F as [|? ? ? ? H1 F1]; subst.
    inversion F1 as [|? ? ? ? H2 F2]; subst. auto.
  - intros [H1 H2]. repeat constructor; lia.
Qed.

Lemma within_3 (r c z h w d : Z) :
  within [r; c; z] [h; w; d] <-> 0 <= r < h /\ 0 <= c < w /\ 0 <= z < d.
Proof.
  unfold within. split.
  - intros F. inversion F as [|? ? ? ? H1 F1]; subst.
    inversion F1 as [|? ? ? ? H2 F2]; subst.
    inversion F2 as [|? ? ? ? H3 F3]; subst. auto.
  - intros (H1 & H2 & H3). repeat constructor; lia.
Qed.

Lemma is_inside_2 (r c h w : Z) :
  is_inside [r; c] [h; w] = Ok ((0 <=? r) && (0 <=? c) && (r <? h) && (c <? w)).
Proof.
  unfold is_inside, and_then, item. simpl.
  destruct (0 <=? r), (0 <=? c), (r <? h), (c <? w); reflexivity.
Qed.

Lemma is_inside_3 (r c z h w d : Z) :
  is_inside [r; c; z] [h; w; d]
  = Ok ((0 <=? r) && (0 <=? c) && (r <? h) && (c <? w) && (0 <=? z) && (z <? d)).
Proof.
  unfold is_inside, and_then, item. simpl.
  destruct (0 <=? r), (0 <=? c), (r <? h), (c <? w), (0 <=? z), (z <? d); reflexivity.
Qed.

Lemma is_inside_within (p : pixel) (shape : list Z) :
  List.length p = List.length shape ->
  List.length shape = 2%nat \/ List.length shape = 3%nat ->
  exists b, is_inside p shape = Ok b /\ (b = true <-> within p shape).
Proof.
  intros Hl [Hs|Hs].
  - destruct shape as [|h [|w [|? ?]]]; try discriminate.
    destruct p as [|r [|c [|? ?]]]; try discriminate.
    eexists. split; [apply is_inside_2|].
    rewrite within_2, !andb_true_iff, !Z.leb_le, !Z.ltb_lt. tauto.
  - destruct shape as [|h [|w [|d [|? ?]]]]; try discriminate.
    destruct p as [|r [|c [|z [|? ?]]]]; try discriminate.
    eexists. split; [apply is_inside_3|].
    rewrite within_3, !andb_true_iff, !Z.leb_le, !Z.ltb_lt. tauto.
Qed.

(** X14: for a pixel and a shape of the same two or three axes
    [is_inside] answers, and answers [True] exactly when every coordinate
    is at least 0 and below the size of its axis; every pixel that
    [iterate_neighbors] yields for a pixel at least one step away from
    every face of the image is inside.  With a shape of two axes a third
    coordinate is not looked at; a pixel of two coordinates with a shape of
    three axes gives [False] when it is outside in the first two axes and
    [IndexError] otherwise; a pixel without coordinates gives
    [IndexError]. *)
Theorem is_inside_decides :
  (forall (p : pixel) (shape : list Z),
     List.length p = List.length shape ->
     List.length shape = 2%nat \/ List.length shape = 3%nat ->
     exists b, is_inside p shape = Ok b /\ (b = true <-> within p shape)) /\
  (forall (p q : pixel) (shape : list Z) (l : list pixel),
     List.length shape = 2%nat \/ List.length shape = 3%nat ->
     Forall2 (fun a s => 1 <= a <= s - 2) p shape ->
     iterate_neighbors p = Ok l -> In q l -> is_inside q shape = Ok true) /\
  (forall r c z h w : Z, is_inside [r; c; z] [h; w] = is_inside [r; c] [h; w]) /\
  (forall r c h w d : Z,
     is_inside [r; c] [h; w; d]
     = if (0 <=? r) && (0 <=? c) && (r <? h) && (c <? w)
       then Raise IndexError else Ok false) /\
  (forall shape : list Z, is_inside [] shape = Raise IndexError).
Proof.
  split; [exact is_inside_within|]. split; [|split; [|split]].
  - intros p q shape l Hs F E Hq.
    assert (Hl : List.length p = List.length shape) by exact (Forall2_length F).
    assert (Hp : List.length p = 2%nat \/ List.length p = 3%nat) by (rewrite Hl; exact Hs).
    destruct (iterate_neighbors_block p Hp) as (l0 & E0 & _ & _ & Hin).
    rewrite E in E0. injection E0 as <-. apply Hin in Hq.
    pose proof (beside_length _ _ Hq) as Hlq.
    destruct Hs as [Hs|Hs].
    + destruct shape as [|h [|w [|? ?]]]; try discriminate.
      destruct p as [|r [|c [|? ?]]]; try discriminate.
      destruct q as [|a [|b [|? ?]]]; try discriminate.
      apply beside_2 in Hq.
      inversion F as [|? ? ? ? H1 F1]; subst. inversion F1 as [|? ? ? ? H2 F2]; subst.
      rewrite is_inside_2. f_equal.
      rewrite !andb_true_iff, !Z.leb_le, !Z.ltb_lt. lia.
    + destruct shape as [|h [|w [|d [|? ?]]]]; try discriminate.
      destruct p as [|r [|c [|z [|? ?]]]]; try discriminate.
      destruct q as [|a [|b [|e [|? ?]]]]; try discriminate.
      apply beside_3 in Hq.
      inversion F as [|? ? ? ? H1 F1]; subst. inversion F1 as [|? ? ? ? H2 F2]; subst.
      inversion F2 as [|? ? ? ? H3 F3]; subst.
      rewrite is_inside_3. f_equal.
      rewrite !andb_true_iff, !Z.leb_le, !Z.ltb_lt. lia.
  - intros r c z h w. unfold is_inside, and_then, item. reflexivity.
  - intros r c h w d. unfold is_inside, and_then, item. simpl.
    destruct (0 <=? r), (0 <=? c), (r <? h), (c <? w); reflexivity.
  - intros shape. reflexivity.
Qed.

(** ** [track_branch] *)

Lemma iterate_neighbors_beside (p q : pixel) (l : list pixel) :
  iterate_neighbors p = Ok l -> In q l -> beside p q.
Proof.
  intros E Hq.
  assert (Hp : List.length p = 2%nat \/ List.length p = 3%nat).
  { destruct p as [|r [|c [|z [|? ?]]]]; simpl in E; try discriminate; auto. }
  destruct (iterate_neighbors_block p Hp) as (l0 & E0 & _ & _ & Hin).
  rewrite E in E0. injection E0 as <-. apply Hin. exact Hq.
Qed.

Lemma pixel_eqb_spec (p q : pixel) : reflect (p = q) (pixel_eqb p q).
Proof. unfold pixel_eqb. destruct (list_eq_dec Z.eq_dec p q); constructor; assumption. Qed.

Lemma next_point_of_some (count : ndarray) (neis : list pixel) (prev x : pixel) :
  next_point_of count neis prev = Ok (Some x) ->
  In x neis /\ count x = Ok 2 /\ x <> prev.
Proof.
  induction neis as [|y r IH]; simpl; [discriminate|].
  destruct (count y) as [v|] eqn:C; simpl; [|discriminate].
  destruct (Z.eqb_spec v 2) as [->|Hv]; simpl.
  - destruct (pixel_eqb_spec y prev) as [E|E]; simpl.
    + intros H. destruct (IH H) as (A & B & D). auto.
    + intros H. injection H as <-. auto.
  - intros H. destruct (IH H) as (A & B & D). auto.
Qed.

Lemma next_point_of_none (count : ndarray) (neis : list pixel) (prev : pixel) :
  next_point_of count neis prev = Ok None ->
  forall q, In q neis -> count q = Ok 2 -> q = prev.
Proof.
  induction neis as [|y r IH]; simpl; [intros _ q []|].
  destruct (count y) as [v|] eqn:C; simpl; [|discriminate].
  destruct (Z.eqb_spec v 2) as [->|Hv]; simpl.
  - destruct (pixel_eqb_spec y prev) as [E|E]; simpl; [|discriminate].
    intros H q [<-|Hq] Cq; [exact E | exact (IH H q Hq Cq)].
  - intros H q [<-|Hq] Cq; [congruence | exact (IH H q Hq Cq)].
Qed.

Lemma second_point_of_some (count : ndarray) (neis : list pixel) (acc : option pixel)
    (x : pixel) :
  second_point_of count neis acc = Ok (Some x) ->
  (In x neis /\ count x = Ok 2) \/ acc = Some x.
Proof.
  revert acc. induction neis as [|y r IH]; intros acc; simpl.
  - intros H. injection H as ->. auto.
  - destruct (count y) as [v|] eqn:C; simpl; [|discriminate].
    intros H. apply IH in H. destruct H as [[A B]|H]; [auto|].
    destruct (Z.eqb_spec v 2) as [->|Hv]; [|auto].
    injection H as <-. auto.
Qed.

Lemma second_point_of_none (count : ndarray) (neis : list pixel) (acc : option pixel) :
  second_point_of count neis acc = Ok None ->
  acc = None /\ forall q, In q neis -> count q <> Ok 2.
Proof.
  revert acc. induction neis as [|y r IH]; intros acc; simpl.
  - intros H. injection H as ->. split; [reflexivity | intros q []].
  - destruct (count y) as [v|] eqn:C; simpl; [|discriminate].
    intros H. apply IH in H. destruct H as [A B].
    destruct (Z.eqb_spec v 2) as [->|Hv]; [discriminate|].
    split; [exact A|]. intros q [<-|Hq]; [congruence | auto].
Qed.

Lemma walk_snoc (count : ndarray) (l : list pixel) (prev curr x : pixel) :
  walk count (l ++ [prev; curr]) -> beside curr x -> count x = Ok 2 -> x <> prev ->
  walk count (l ++ [prev; curr; x]).
Proof.
  intros W B C N. induction l as [|a l IH].
  - simpl in *. tauto.
  - destruct l as [|b l].
    + simpl in *. tauto.
    + change ((a :: b :: l) ++ [prev; curr]) with (a :: b :: (l ++ [prev; curr])) in W.
      change ((a :: b :: l) ++ [prev; curr; x]) with (a :: b :: (l ++ [prev; curr; x])).
      cbn [walk] in W |- *. destruct W as (W1 & W2 & W3 & W4).
      split; [exact W1|]. split; [exact W2|]. split.
      * destruct l; exact W3.
      * apply IH. exact W4.
Qed.

Lemma track_loop_walk (count : ndarray) (fuel : nat) (l : list pixel)
    (prev curr : pixel) (path : list pixel) :
  walk count (l ++ [prev; curr]) ->
  track_loop fuel count (l ++ [prev; curr]) prev curr = Some (Ok path) ->
  walk count path /\ at_end count path /\ exists t, path = l ++ [prev; curr] ++ t.
Proof.
  revert l prev curr. induction fuel as [|fuel IH]; intros l prev curr W; simpl;
    [discriminate|].
  destruct (iterate_neighbors curr) as [neis|] eqn:E; [|discriminate].
  destruct (next_point_of count neis prev) as [[x|]|] eqn:Nx; [| |discriminate].
  - destruct (next_point_of_some _ _ _ _ Nx) as (Hin & C & N).
    pose proof (iterate_neighbors_beside _ _ _ E Hin) as B.
    replace ((l ++ [prev; curr]) ++ [x]) with ((l ++ [prev]) ++ [curr; x])
      by (rewrite <- !app_assoc; reflexivity).
    intros H. apply IH in H.
    + destruct H as (A1 & A2 & t & ->). split; [exact A1|]. split; [exact A2|].
      exists (x :: t). rewrite <- !app_assoc. reflexivity.
    + rewrite <- app_assoc. apply walk_snoc; assumption.
  - intros H. injection H as <-. split; [exact W|]. split.
    + unfold at_end. rewrite rev_app_distr. simpl.
      intros neis' q E' Hq Cq. rewrite E in E'. injection E' as <-.
      exact (next_point_of_none _ _ _ Nx q Hq Cq).
    + exists []. reflexivity.
Qed.

Lemma track_loop_more_fuel (count : ndarray) (fuel k : nat) (path : list pixel)
    (prev curr : pixel) (r : result (list pixel)) :
  track_loop fuel count path prev curr = Some r ->
  track_loop (fuel + k) count path prev curr = Some r.
Proof.
  revert path prev curr. induction fuel as [|fuel IH]; intros path prev curr; simpl;
    [discriminate|].
  destruct (iterate_neighbors curr) as [neis|]; [|auto].
  destruct (next_point_of count neis prev) as [[x|]|]; auto.
Qed.

(** X15: [track_branch] returns the empty list when the interest point
    has no branch of the index asked for.  Otherwise a path it returns
    starts at that branch; every later pixel of the path is one of the
    pixels [iterate_neighbors] yields for the pixel before it, has the
    value 2 in the array, and is not the pixel two steps back; and the path
    stops where no neighbour of its last pixel has the value 2, the pixel
    before the last one apart.  A call that comes to an end on some fuel
    gives the same outcome on more. *)
Theorem track_branch_path (interest_point : InterestPoint) (branch_index : Z)
    (img_num_neighbors : ndarray) :
  (forall fuel : nat,
     Z.of_nat (List.length (ip_branches interest_point)) <= branch_index ->
     track_branch fuel interest_point branch_index img_num_neighbors = Some (Ok [])) /\
  (forall (fuel : nat) (path : list pixel),
     branch_index < Z.of_nat (List.length (ip_branches interest_point)) ->
     track_branch fuel interest_point branch_index img_num_neighbors = Some (Ok path) ->
     exists first t,
       py_index (ip_branches interest_point) branch_index = Ok first /\
       path = first :: t /\
       walk img_num_neighbors path /\ at_end img_num_neighbors path) /\
  (forall (fuel k : nat) (r : result (list pixel)),
     track_branch fuel interest_point branch_index img_num_neighbors = Some r ->
     track_branch (fuel + k) interest_point branch_index img_num_neighbors = Some r).
Proof.
  split; [|split].
  - intros fuel H. unfold track_branch. apply Z.leb_le in H. rewrite H. reflexivity.
  - intros fuel path H. unfold track_branch.
    destruct (Z.leb_spec (Z.of_nat (List.length (ip_branches interest_point))) branch_index)
      as [Hle|_]; [lia|].
    destruct (py_index (ip_branches interest_point) branch_index) as [first|] eqn:P;
      [|discriminate].
    destruct (iterate_neighbors first) as [neis|] eqn:E; [|discriminate].
    destruct (second_point_of img_num_neighbors neis None) as [[second|]|] eqn:S;
      [| |discriminate].
    + intros T. destruct (second_point_of_some _ _ _ _ S) as [[Hin C]|X]; [|discriminate].
      pose proof (iterate_neighbors_beside _ _ _ E Hin) as B.
      assert (W : walk img_num_neighbors ([] ++ [first; second])) by (simpl; auto).
      destruct (track_loop_walk img_num_neighbors fuel [] first second path W T)
        as (A1 & A2 & t & ->).
      exists first, (second :: t). auto.
    + intros T. injection T as <-. exists first, []. split; [reflexivity|].
      split; [reflexivity|]. split; [exact I|].
      unfold at_end. simpl. intros neis' q E' Hq Cq. rewrite E in E'. injection E' as <-.
      destruct (second_point_of_none _ _ _ S) as [_ Hno]. exact (Hno q Hq Cq).
  - intros fuel k r. unfold track_branch.
    destruct (Z.of_nat (List.length (ip_branches interest_point)) <=? branch_index);
      [auto|].
    destruct (py_index (ip_branches interest_point) branch_index) as [first|]; [|auto].
    destruct (iterate_neighbors first) as [neis|]; [|auto].
    destruct (second_point_of img_num_neighbors neis None) as [[second|]|]; auto.
    apply track_loop_more_fuel.
Qed.

(** ** [remove_isolated_points] *)

Lemma in_set_In (s : list nat) (x : nat) : in_set s x = true <-> In x s.
Proof.
  unfold in_set. rewrite existsb_exists. split.
  - intros (y & Hy & E). apply Nat.eqb_eq in E. subst. exact Hy.
  - intros H. exists x. split; [exact H | apply Nat.eqb_refl].
Qed.

(** The number of the members of [nodes] below [k]. *)
Lemma remap_get_seq (nodes : list nat) (n s : nat) (c : Z) (k : nat) :
  remap_get (idx_remap_from (seq s n) nodes c) k
  = if (s <=? k)%nat && (k <? s + n)%nat
    then Ok (if in_set nodes k
             then c + Z.of_nat (List.length (filter (in_set nodes) (seq s (k - s))))
             else -1)
    else Raise KeyError.
Proof.
  revert s c. induction n as [|n IH]; intros s c.
  - simpl. destruct (Nat.leb_spec s k), (Nat.ltb_spec k (s + 0)); simpl; try reflexivity; lia.
  - cbn [seq idx_remap_from].
    assert (G : forall c' : Z,
              (if in_set nodes s then c' = c + 1 else c' = c) ->
              remap_get ((s, if in_set nodes s then c else -1)
                           :: idx_remap_from (seq (S s) n) nodes c') k
              = if (s <=? k)%nat && (k <? s + S n)%nat
                then Ok (if in_set nodes k
                         then c + Z.of_nat (List.length
                                              (filter (in_set nodes) (seq s (k - s))))
                         else -1)
                else Raise KeyError).
    { intros c' Hc'. unfold remap_get. cbn [find fst snd].
      destruct (Nat.eqb_spec s k) as [->|Hsk].
      - replace (k <=? k)%nat with true by (symmetry; apply Nat.leb_le; lia).
        replace (k <? k + S n)%nat with true by (symmetry; apply Nat.ltb_lt; lia).
        rewrite Nat.sub_diag. simpl. destruct (in_set nodes k); f_equal; lia.
      - fold (remap_get (idx_remap_from (seq (S s) n) nodes c') k). rewrite IH.
        destruct (Nat.leb_spec (S s) k) as [H1|H1], (Nat.leb_spec s k) as [H2|H2];
          try lia; cbn [andb]; [|reflexivity].
        replace (k <? S s + n)%nat with (k <? s + S n)%nat by (f_equal; lia).
        destruct (k <? s + S n)%nat; [|reflexivity]. f_equal.
        destruct (in_set nodes k); [|reflexivity].
        replace (k - s)%nat with (S (k - S s)) by lia. cbn [seq filter].
        destruct (in_set nodes s); subst c'; simpl List.length; lia. }
    destruct (in_set nodes s) eqn:Hs.
    + apply (G (c + 1)). reflexivity.
    + apply (G c). reflexivity.
Qed.

Lemma below_lt (nodes : list nat) (k : nat) :
  NoDup nodes -> In k nodes ->
  (List.length (filter (in_set nodes) (seq 0 k)) < List.length nodes)%nat.
Proof.
  intros ND Hk.
  set (F := filter (in_set nodes) (seq 0 k)).
  assert (NF : NoDup (k :: F)).
  { constructor.
    - unfold F. rewrite filter_In, in_seq. lia.
    - apply NoDup_filter, seq_NoDup. }
  assert (I : incl (k :: F) nodes).
  { intros x [<-|Hx]; [exact Hk|]. unfold F in Hx. apply filter_In in Hx.
    apply in_set_In. tauto. }
  pose proof (NoDup_incl_length NF I) as H. simpl in H. lia.
Qed.

Lemma below_cons (a : nat) (r : list nat) (k : nat) :
  ~ In a r ->
  List.length (filter (in_set (a :: r)) (seq 0 k))
  = (List.length (filter (in_set r) (seq 0 k)) + (if (a <? k)%nat then 1 else 0))%nat.
Proof.
  intros Ha. induction k as [|k IH]; [reflexivity|].
  rewrite seq_S, !filter_app, !length_app, IH. cbn [filter Nat.add].
  unfold in_set at 2. cbn [existsb]. fold (in_set r k).
  destruct (Nat.eqb_spec k a) as [->|Hka].
  - assert (E : in_set r a = false).
    { destruct (in_set r a) eqn:X; [|reflexivity]. apply in_set_In in X. contradiction. }
    rewrite E. cbn [orb List.length].
    destruct (Nat.ltb_spec a a), (Nat.ltb_spec a (S a)); lia.
  - cbn [orb]. destruct (in_set r k); cbn [List.length];
      destruct (Nat.ltb_spec a k), (Nat.ltb_spec a (S k)); lia.
Qed.

Lemma sorted_position (nodes : list nat) (k : nat) :
  StronglySorted lt nodes -> In k nodes ->
  nth_error nodes (List.length (filter (in_set nodes) (seq 0 k))) = Some k.
Proof.
  intros S. induction S as [|a r S IH Ha]; intros Hk; [contradiction|].
  assert (Nar : ~ In a r).
  { intros H. rewrite Forall_forall in Ha. specialize (Ha a H). lia. }
  rewrite (below_cons a r k Nar).
  destruct Hk as [<-|Hk].
  - assert (E : filter (in_set r) (seq 0 a) = []).
    { apply filter_all_false. intros x Hx. apply in_seq in Hx.
      destruct (in_set r x) eqn:X; [|reflexivity]. apply in_set_In in X.
      rewrite Forall_forall in Ha. specialize (Ha x X). lia. }
    rewrite E. destruct (Nat.ltb_spec a a); [lia|]. reflexivity.
  - rewrite Forall_forall in Ha. pose proof (Ha k Hk) as Hlt.
    destruct (Nat.ltb_spec a k); [|lia].
    rewrite Nat.add_1_r. simpl. apply IH. exact Hk.
Qed.

Lemma points_of_ok (ips : list InterestPoint) (nodes : list nat) :
  (forall x, In x nodes -> (x < List.length ips)%nat) ->
  exists new_ips, points_of ips nodes = Ok new_ips /\
    List.length new_ips = List.length nodes /\
    forall (j x : nat), nth_error nodes j = Some x ->
                        nth_error new_ips j = nth_error ips x.
Proof.
  induction nodes as [|node r IH]; intros H.
  - exists []. split; [reflexivity|]. split; [reflexivity|]. intros [|j] x; discriminate.
  - destruct IH as (rest & E & Hl & Hn); [intros x Hx; apply H; simpl; auto|].
    assert (Hnode : (node < List.length ips)%nat) by (apply H; simpl; auto).
    destruct (nth_error ips node) as [ip|] eqn:N;
      [|apply nth_error_None in N; lia].
    exists (ip :: rest). cbn [points_of]. unfold item. rewrite N. cbn [bind]. rewrite E.
    split; [reflexivity|]. split; [simpl; lia|].
    intros [|j] x Hj; simpl in Hj |- *; [injection Hj as <-; auto | auto].
Qed.

Lemma points_of_raise (ips : list InterestPoint) (nodes : list nat) :
  (exists x, In x nodes /\ (List.length ips <= x)%nat) ->
  points_of ips nodes = Raise IndexError.
Proof.
  induction nodes as [|node r IH]; intros (x & Hx & Hlen); [contradiction|].
  cbn [points_of]. unfold item.
  destruct (nth_error ips node) as [ip|] eqn:N; [|reflexivity]. cbn [bind].
  destruct Hx as [->|Hx].
  - assert (nth_error ips x <> None) by congruence.
    apply nth_error_Some in H. lia.
  - rewrite IH by eauto. reflexivity.
Qed.

Lemma remap_edges_ok (d : list (nat * Z)) (edges : list raw_edge) :
  (forall e, In e edges ->
     exists a b, remap_get d (fst (fst e)) = Ok a /\ remap_get d (snd (fst e)) = Ok b) ->
  exists new_edges, remap_edges d edges = Ok new_edges /\
    Forall2 (fun (e : raw_edge) (e' : Z * Z * list pixel) =>
               remap_get d (fst (fst e)) = Ok (fst (fst e')) /\
               remap_get d (snd (fst e)) = Ok (snd (fst e')) /\
               snd e' = snd e) edges new_edges.
Proof.
  induction edges as [|[[a b] path] r IH]; intros H.
  - exists []. split; [reflexivity | constructor].
  - destruct IH as (rest & E & F); [intros e He; apply H; simpl; auto|].
    destruct (H (a, b, path) (or_introl eq_refl)) as (a' & b' & Ea & Eb).
    simpl in Ea, Eb.
    exists ((a', b', path) :: rest). cbn [remap_edges]. rewrite Ea, Eb. cbn [bind]. rewrite E.
    split; [reflexivity|]. constructor; [simpl; auto | exact F].
Qed.

(** X16: [remove_isolated_points] raises [IndexError] when an edge ends
    at an index that is not an index of the list of points.  Otherwise it
    returns one point for every end point of an edge, the points without
    an edge being left out, and as many edges as it was given, with the
    same paths in the same order and with end points that are indices of
    the new list.  When Python goes through the set of the end points in
    increasing order, every new edge joins the points its edge joined; for
    another order of the set this need not be so. *)
Theorem remove_isolated_points_remap :
  (forall (nodes : list nat) (ips : list InterestPoint) (edges : list raw_edge),
     end_points nodes edges ->
     ((exists x, In x nodes /\ (List.length ips <= x)%nat) ->
      remove_isolated_points nodes ips edges = Raise IndexError) /\
     ((forall x, In x nodes -> (x < List.length ips)%nat) ->
      exists new_ips new_edges,
        remove_isolated_points nodes ips edges = Ok (new_ips, new_edges) /\
        List.length new_ips = List.length nodes /\
        (forall ip, In ip new_ips <->
                    exists x, In x nodes /\ nth_error ips x = Some ip) /\
        map snd new_edges = map snd edges /\
        Forall (fun e' : Z * Z * list pixel =>
                  0 <= fst (fst e') < Z.of_nat (List.length new_ips) /\
                  0 <= snd (fst e') < Z.of_nat (List.length new_ips)) new_edges /\
        (StronglySorted lt nodes ->
         Forall2 (same_points ips new_ips) edges new_edges))) /\
  (exists (nodes : list nat) (ips : list InterestPoint) (edges : list raw_edge)
          new_ips new_edges,
     end_points nodes edges /\
     remove_isolated_points nodes ips edges = Ok (new_ips, new_edges) /\
     ~ Forall2 (same_points ips new_ips) edges new_edges).
Proof.
  split.
  - intros nodes ips edges [ND Hen]. split.
    + intros H. unfold remove_isolated_points. rewrite (points_of_raise ips nodes H).
      reflexivity.
    + intros Hlt. destruct (points_of_ok ips nodes Hlt) as (new_ips & Ep & Hl & Hn).
      set (d := idx_remap_from (seq 0 (List.length ips)) nodes 0).
      assert (Hget : forall k, In k nodes ->
                remap_get d k
                = Ok (Z.of_nat (List.length (filter (in_set nodes) (seq 0 k))))).
      { intros k Hk. unfold d. rewrite remap_get_seq.
        pose proof (Hlt k Hk) as Hkl.
        replace (0 <=? k)%nat with true by (symmetry; apply Nat.leb_le; lia).
        replace (k <? 0 + List.length ips)%nat with true
          by (symmetry; apply Nat.ltb_lt; lia).
        cbn [andb]. rewrite (proj2 (in_set_In nodes k) Hk), Nat.sub_0_r. reflexivity. }
      assert (Hends : forall e, In e edges ->
                In (fst (fst e)) nodes /\ In (snd (fst e)) nodes).
      { intros e He. split; apply Hen; exists e; auto. }
      destruct (remap_edges_ok d edges) as (new_edges & Ee & F).
      { intros e He. destruct (Hends e He) as [H1 H2].
        rewrite (Hget _ H1), (Hget _ H2). eauto. }
      exists new_ips, new_edges. unfold remove_isolated_points. fold d.
      rewrite Ep. cbn [bind]. rewrite Ee. cbn [bind].
      split; [reflexivity|]. split; [exact Hl|]. split; [|split; [|split]].
      * intros ip. split.
        -- intros Hip. apply In_nth_error in Hip. destruct Hip as (j & Hj).
           assert (Hjl : (j < List.length nodes)%nat).
           { rewrite <- Hl. apply nth_error_Some. congruence. }
           destruct (nth_error nodes j) as [x|] eqn:Nx;
             [|apply nth_error_None in Nx; lia].
           exists x. split; [exact (nth_error_In _ _ Nx)|].
           rewrite <- (Hn j x Nx). exact Hj.
        -- intros (x & Hx & Nx). apply In_nth_error in Hx. destruct Hx as (j & Hj).
           apply (nth_error_In new_ips j). rewrite (Hn j x Hj). exact Nx.
      * clear - F. induction F as [|e e' l l' (_ & _ & H) F IH]; simpl; [reflexivity|].
        rewrite H, IH. reflexivity.
      * assert (G : forall e e', In e edges ->
                  remap_get d (fst (fst e)) = Ok (fst (fst e')) /\
                  remap_get d (snd (fst e)) = Ok (snd (fst e')) /\ snd e' = snd e ->
                  0 <= fst (fst e') < Z.of_nat (List.length new_ips) /\
                  0 <= snd (fst e') < Z.of_nat (List.length new_ips)).
        { intros e e' He (A & B & _). destruct (Hends e He) as [H1 H2].
          rewrite (Hget _ H1) in A. rewrite (Hget _ H2) in B.
          injection A as <-. injection B as <-. rewrite Hl.
          pose proof (below_lt nodes _ ND H1). pose proof (below_lt nodes _ ND H2). lia. }
        clear - F G. induction F as [|e e' l l' H F IH]; constructor.
        -- apply (G e e'); [simpl; auto | exact H].
        -- apply IH. intros x x' Hx. apply G. simpl. auto.
      * intros Hs.
        assert (G : forall e e', In e edges ->
                  remap_get d (fst (fst e)) = Ok (fst (fst e')) /\
                  remap_get d (snd (fst e)) = Ok (snd (fst e')) /\ snd e' = snd e ->
                  same_points ips new_ips e e').
        { intros e e' He (A & B & P). destruct (Hends e He) as [H1 H2].
          rewrite (Hget _ H1) in A. rewrite (Hget _ H2) in B.
          injection A as A. injection B as B. unfold same_points.
          rewrite <- A, <- B, !Nat2Z.id.
          split; [lia|]. split; [lia|].
          split; [apply Hn; apply sorted_position; assumption|].
          split; [apply Hn; apply sorted_position; assumption | exact P]. }
        clear - F G. induction F as [|e e' l l' H F IH]; constructor.
        -- apply (G e e'); [simpl; auto | exact H].
        -- apply IH. intros x x' Hx. apply G. simpl. auto.
  - pose (pt := fun k : Z => mkPoint [[k; k]] [k; k] Termination 2 []).
    exists [8; 1; 9]%nat, (map pt [0; 1; 2; 3; 4; 5; 6; 7; 8; 9]),
      [(1%nat, 8%nat, [[1; 2]]); (8%nat, 9%nat, [[8; 8]])].
    eexists. eexists. split; [|split; [vm_compute; reflexivity|]].
    + split.
      * repeat constructor; simpl; intuition discriminate.
      * intros x. split.
        -- intros [<-|[<-|[<-|[]]]];
             [exists (8%nat, 9%nat, [[8; 8]]) | exists (1%nat, 8%nat, [[1; 2]])
             | exists (8%nat, 9%nat, [[8; 8]])]; simpl; auto.
        -- intros (e & [<-|[<-|[]]] & [->| ->]); simpl; auto.
    + intros F. inversion F as [|? ? ? ? _ F1]; subst.
      inversion F1 as [|? ? ? ? H _]; subst.
      destruct H as (_ & _ & H & _). vm_compute in H. discriminate.
Qed.

(** ** [InterestPoint.add_branches] *)

Lemma set_add_spec (l : list pixel) (x : pixel) :
  NoDup l ->
  NoDup (Point.set_add l x) /\ forall y, In y (Point.set_add l x) <-> In y l \/ y = x.
Proof.
  intros ND. unfold Point.set_add.
  destruct (existsb (pixel_eqb x) l) eqn:X.
  - split; [exact ND|]. intros y. split; [auto|]. intros [H| ->]; [exact H|].
    apply existsb_exists in X. destruct X as (z & Hz & E).
    destruct (pixel_eqb_spec x z) as [->|]; [exact Hz | discriminate].
  - assert (Hx : ~ In x l).
    { intros H. assert (T : existsb (pixel_eqb x) l = true).
      { apply existsb_exists. exists x. split; [exact H|].
        destruct (pixel_eqb_spec x x); [reflexivity | congruence]. }
      congruence. }
    split.
    + apply NoDup_app; [exact ND | constructor; [simpl; tauto | constructor] |].
      intros y Hy [<-|[]]. contradiction.
    + intros y. rewrite in_app_iff. simpl. intuition.
Qed.

Section Scan.

Variables (img : ndarray) (shape : list Z).
Hypothesis Hshape : List.length shape = 2%nat \/ List.length shape = 3%nat.
Hypothesis Himg : forall q, within q shape -> exists v, img q = Ok v.

Lemma scan_neighbors_spec (neis acc : list pixel) :
  (forall q, In q neis -> List.length q = List.length shape) -> NoDup acc ->
  exists out, Point.scan_neighbors img shape neis acc = Ok out /\ NoDup out /\
    forall y, In y out <->
              In y acc \/ (In y neis /\ within y shape /\ img y = Ok 2).
Proof.
  revert acc. induction neis as [|q r IH]; intros acc Hl ND.
  - exists acc. split; [reflexivity|]. split; [exact ND|]. intros y. simpl. tauto.
  - destruct (is_inside_within q shape (Hl q (or_introl eq_refl)) Hshape) as (b & Eb & Hb).
    cbn [Point.scan_neighbors]. rewrite Eb. cbn [bind]. destruct b.
    + assert (W : within q shape) by (apply Hb; reflexivity).
      destruct (Himg q W) as (v & Ev). rewrite Ev. cbn [bind].
      destruct (set_add_spec acc q ND) as [ND' Hin'].
      destruct (Z.eqb_spec v 2) as [->|Hv].
      * destruct (IH (Point.set_add acc q)) as (out & E & NDo & Hout);
          [intros; apply Hl; simpl; auto | exact ND' |].
        exists out. split; [exact E|]. split; [exact NDo|].
        intros y. rewrite Hout, Hin'. simpl. split.
        -- intros [[H| ->]|(H1 & H2 & H3)]; auto 6.
        -- intros [H|([<-|H1] & H2 & H3)]; auto 6.
      * destruct (IH acc) as (out & E & NDo & Hout);
          [intros; apply Hl; simpl; auto | exact ND |].
        exists out. split; [exact E|]. split; [exact NDo|].
        intros y. rewrite Hout. simpl. split.
        -- intros [H|(H1 & H2 & H3)]; auto 6.
        -- intros [H|([<-|H1] & H2 & H3)]; auto 6.
           rewrite Ev in H3. injection H3 as ->. contradiction.
    + destruct (IH acc) as (out & E & NDo & Hout);
        [intros; apply Hl; simpl; auto | exact ND |].
      exists out. split; [exact E|]. split; [exact NDo|].
      intros y. rewrite Hout. simpl. split.
      * intros [H|(H1 & H2 & H3)]; auto 6.
      * intros [H|([<-|H1] & H2 & H3)]; auto 6.
        apply Hb in H2. discriminate.
Qed.

Lemma scan_pixels_spec (pixels acc : list pixel) :
  (forall p, In p pixels -> List.length p = List.length shape) -> NoDup acc ->
  exists out, Point.scan_pixels img shape pixels acc = Ok out /\ NoDup out /\
    forall y, In y out <->
              In y acc \/
              exists p, In p pixels /\ beside p y /\ within y shape /\ img y = Ok 2.
Proof.
  revert acc. induction pixels as [|p r IH]; intros acc Hl ND.
  - exists acc. split; [reflexivity|]. split; [exact ND|].
    intros y. split; [auto|]. intros [H|(p & [] & _)]. exact H.
  - assert (Hp : List.length p = 2%nat \/ List.length p = 3%nat).
    { rewrite (Hl p (or_introl eq_refl)). exact Hshape. }
    destruct (iterate_neighbors_block p Hp) as (neis & En & _ & _ & Hneis).
    cbn [Point.scan_pixels]. rewrite En. cbn [bind].
    destruct (scan_neighbors_spec neis acc) as (mid & Em & NDm & Hmid); [|exact ND|].
    { intros q Hq. apply Hneis in Hq. rewrite (beside_length _ _ Hq).
      apply Hl. simpl. auto. }
    rewrite Em. cbn [bind].
    destruct (IH mid) as (out & E & NDo & Hout);
      [intros; apply Hl; simpl; auto | exact NDm |].
    exists out. split; [exact E|]. split; [exact NDo|].
    intros y. rewrite Hout, Hmid. split.
    + intros [[H|(H1 & H2 & H3)]|(p0 & H0 & H1)]; [auto | |].
      * right. exists p. rewrite <- Hneis. simpl. auto.
      * right. exists p0. simpl. tauto.
    + intros [H|(p0 & [<-|H0] & H1 & H2 & H3)]; [auto | |].
      * left. right. rewrite Hneis. auto.
      * right. exists p0. auto.
Qed.

End Scan.

(** X20: [InterestPoint.add_branches] raises [ValueError] when the point
    and the array do not have the same number of axes, and returns the
    branches the point has when it has some.  Otherwise, on an array of
    two or three axes that holds a value at every index inside it, it sets
    and returns as the branches of the point, each once, exactly the
    pixels inside the array that have the value 2 and lie beside a pixel
    of the point; the other attributes of the point stay. *)
Theorem add_branches_members (set_order : list pixel -> list pixel)
    (self : InterestPoint) (img_num_neighbors : ndarray) (shape : list Z) :
  lists_the_set set_order ->
  (ip_ndim self <> List.length shape ->
   Point.add_branches set_order self img_num_neighbors shape = Raise ValueError) /\
  (ip_ndim self = List.length shape -> ip_branches self <> [] ->
   Point.add_branches set_order self img_num_neighbors shape
   = Ok (self, ip_branches self)) /\
  (ip_ndim self = List.length shape -> ip_branches self = [] ->
   List.length shape = 2%nat \/ List.length shape = 3%nat ->
   (forall p, In p (ip_pixels self) -> List.length p = List.length shape) ->
   (forall q, within q shape -> exists v, img_num_neighbors q = Ok v) ->
   exists branches,
     Point.add_branches set_order self img_num_neighbors shape
     = Ok (mkPoint (ip_pixels self) (ip_center self) (ip_type self) (ip_ndim self)
             branches, branches) /\
     NoDup branches /\
     forall y, In y branches <->
               exists p, In p (ip_pixels self) /\ beside p y /\ within y shape /\
                         img_num_neighbors y = Ok 2).
Proof.
  intros Hset. unfold Point.add_branches. split; [|split].
  - intros H. apply Nat.eqb_neq in H. rewrite H. reflexivity.
  - intros H Hb. apply Nat.eqb_eq in H. rewrite H. cbn [negb].
    destruct (ip_branches self); [congruence | reflexivity].
  - intros H Hb Hshape Hpix Himg. apply Nat.eqb_eq in H. rewrite H, Hb. cbn [negb].
    destruct (scan_pixels_spec img_num_neighbors shape Hshape Himg (ip_pixels self) []
                Hpix (NoDup_nil _)) as (out & E & ND & Hout).
    simpl. rewrite E. cbn [bind]. destruct (Hset out ND) as [NDs Hs].
    exists (set_order out). split; [reflexivity|]. split; [exact NDs|].
    intros y. rewrite Hs, Hout. simpl. tauto.
Qed.

(** ** [BranchMap] and [find_path_ip] *)

Lemma pixel_mem_In (p : pixel) (l : list pixel) :
  existsb (pixel_eqb p) l = true <-> In p l.
Proof.
  rewrite existsb_exists. split.
  - intros (q & Hq & E). destruct (pixel_eqb_spec p q) as [->|]; [exact Hq | discriminate].
  - intros H. exists p. split; [exact H|].
    destruct (pixel_eqb_spec p p); [reflexivity | congruence].
Qed.

(** [path[-1]] is the last pixel of the path. *)
Lemma py_index_last (path : list pixel) :
  py_index path (-1)
  = match last_of path with Some x => Ok x | None => Raise IndexError end.
Proof.
  unfold last_of. induction path as [|x l _] using rev_ind; [reflexivity|].
  rewrite rev_app_distr. cbn [rev app hd_error]. unfold py_index.
  rewrite length_app. cbn [List.length].
  destruct (Z.leb_spec 0 (-1)) as [H|_]; [lia|].
  destruct (Z.leb_spec (- Z.of_nat (List.length l + 1)) (-1)) as [_|H]; [|lia].
  replace (Z.to_nat (Z.of_nat (List.length l + 1) + -1)) with (List.length l) by lia.
  unfold item. rewrite nth_error_app2 by lia. rewrite Nat.sub_diag. reflexivity.
Qed.

Lemma idx_add_spec (s : list nat) (x : nat) :
  NoDup s ->
  NoDup (BranchMap.idx_add s x) /\
  forall y, In y (BranchMap.idx_add s x) <-> In y s \/ y = x.
Proof.
  intros ND. unfold BranchMap.idx_add. destruct (in_set s x) eqn:M.
  - apply in_set_In in M. split; [exact ND|]. intros y. split; [auto|].
    intros [H| ->]; assumption.
  - assert (Hn : ~ In x s) by (rewrite <- in_set_In; congruence).
    split.
    + apply NoDup_app; [exact ND | repeat constructor; intros [] |].
      intros y Hy [<-|[]]. contradiction.
    + intros y. rewrite in_app_iff. simpl. intuition.
Qed.

Lemma find_add (m : BranchMap.t) (branch : pixel) (ip_idx : nat) (b : pixel) :
  find (fun p => pixel_eqb (fst p) b) (BranchMap.add m branch ip_idx)
  = if pixel_eqb branch b
    then Some (match find (fun p => pixel_eqb (fst p) b) m with
               | Some p => (fst p, BranchMap.idx_add (snd p) ip_idx)
               | None => (branch, [ip_idx])
               end)
    else find (fun p => pixel_eqb (fst p) b) m.
Proof.
  induction m as [|[b0 s0] m IH]; simpl.
  - destruct (pixel_eqb branch b); reflexivity.
  - destruct (pixel_eqb_spec b0 branch) as [->|Hne]; simpl.
    + destruct (pixel_eqb branch b); reflexivity.
    + destruct (pixel_eqb_spec b0 b) as [->|Hnb]; simpl.
      * destruct (pixel_eqb_spec branch b) as [->|]; [congruence | reflexivity].
      * exact IH.
Qed.

Lemma maps_ids_ext (m : BranchMap.t) (R R' : pixel -> nat -> Prop) :
  maps_ids m R -> (forall b x, R b x <-> R' b x) -> maps_ids m R'.
Proof.
  intros H E b. specialize (H b).
  destruct (find (fun p => pixel_eqb (fst p) b) m) as [p|].
  - destruct H as (ND & Hne & Hm). split; [exact ND|]. split; [exact Hne|].
    intros x. rewrite Hm. apply E.
  - intros x Hx. apply (H x). apply E. exact Hx.
Qed.

Lemma maps_ids_add (m : BranchMap.t) (R : pixel -> nat -> Prop) (branch : pixel)
    (ip_idx : nat) :
  maps_ids m R ->
  maps_ids (BranchMap.add m branch ip_idx)
    (fun b x => R b x \/ (b = branch /\ x = ip_idx)).
Proof.
  intros H b. rewrite find_add. specialize (H b).
  destruct (pixel_eqb_spec branch b) as [->|Hne].
  - destruct (find (fun p => pixel_eqb (fst p) b) m) as [p|]; cbn [fst snd].
    + destruct H as (ND & _ & Hm).
      destruct (idx_add_spec (snd p) ip_idx ND) as [ND' Hm'].
      split; [exact ND'|]. split.
      * intros E. assert (Hin : In ip_idx (BranchMap.idx_add (snd p) ip_idx))
          by (apply Hm'; auto).
        rewrite E in Hin. contradiction.
      * intros x. rewrite Hm', Hm. intuition.
    + split; [repeat constructor; intros []|]. split; [discriminate|].
      intros x. simpl. split.
      * intros [<-|[]]. auto.
      * intros [Hx|[_ ->]]; [destruct (H x Hx) | auto].
  - destruct (find (fun p => pixel_eqb (fst p) b) m) as [p|].
    + destruct H as (ND & Hn & Hm). split; [exact ND|]. split; [exact Hn|].
      intros x. rewrite Hm. intuition congruence.
    + intros x [Hx|[E _]]; [exact (H x Hx) | congruence].
Qed.

Lemma maps_ids_fold (l : list pixel) (m : BranchMap.t) (R : pixel -> nat -> Prop)
    (k : nat) :
  maps_ids m R ->
  maps_ids (fold_left (fun m branch => BranchMap.add m branch k) l m)
    (fun b x => R b x \/ (In b l /\ x = k)).
Proof.
  revert m R. induction l as [|a l IH]; intros m R H; simpl.
  - apply (maps_ids_ext _ _ _ H). intros b x. tauto.
  - apply (maps_ids_ext _ _ _ (IH _ _ (maps_ids_add _ _ a k H))).
    intros b x. intuition congruence.
Qed.

Lemma maps_ids_init_from (ips : list InterestPoint) (k : nat) (m : BranchMap.t)
    (R : pixel -> nat -> Prop) :
  maps_ids m R ->
  maps_ids (BranchMap.init_from ips k m)
    (fun b x => R b x \/
       exists j ip, nth_error ips j = Some ip /\ In b (ip_branches ip) /\ x = (k + j)%nat).
Proof.
  revert k m R. induction ips as [|ip0 r IH]; intros k m R H; simpl.
  - apply (maps_ids_ext _ _ _ H). intros b x. split; [auto|].
    intros [Hx|(j & ip & E & _)]; [exact Hx|]. destruct j; discriminate.
  - apply (maps_ids_ext _ _ _ (IH (S k) _ _ (maps_ids_fold (ip_branches ip0) _ _ k H))).
    intros b x. split.
    + intros [[Hx|[Hb ->]]|(j & ip & E & Hb & ->)]; [auto| |].
      * right. exists 0%nat, ip0. split; [reflexivity|]. split; [exact Hb | lia].
      * right. exists (S j), ip. split; [exact E|]. split; [exact Hb | lia].
    + intros [Hx|(j & ip & E & Hb & ->)]; [auto|]. destruct j as [|j].
      * simpl in E. injection E as <-. left. right. split; [exact Hb | lia].
      * right. exists j, ip. split; [exact E|]. split; [exact Hb | lia].
Qed.

Lemma maps_ids_init (ips : list InterestPoint) :
  maps_ids (BranchMap.init ips) (fun b x => branch_of ips x b).
Proof.
  unfold BranchMap.init.
  assert (H0 : maps_ids [] (fun _ _ => False)) by (intros b x []).
  apply (maps_ids_ext _ _ _ (maps_ids_init_from ips 0 [] _ H0)).
  intros b x. unfold branch_of. split.
  - intros [[]|(j & ip & E & Hb & ->)]. exists ip. auto.
  - intros (ip & E & Hb). right. exists x, ip. auto.
Qed.

Lemma get_ip_ids_ok (set_order : list nat -> list nat) (ips : list InterestPoint)
    (branch : pixel) (ids : list nat) :
  lists_the_ids set_order ->
  BranchMap.get_ip_ids set_order (BranchMap.init ips) branch = Ok ids ->
  NoDup ids /\ ids <> [] /\ forall idx, In idx ids <-> branch_of ips idx branch.
Proof.
  intros Hso. unfold BranchMap.get_ip_ids. pose proof (maps_ids_init ips branch) as H.
  destruct (find (fun p => pixel_eqb (fst p) branch) (BranchMap.init ips)) as [p|];
    [|discriminate].
  intros E. injection E as <-. destruct H as (ND & Hne & Hm).
  destruct (Hso _ ND) as [ND' Hm']. split; [exact ND'|]. split.
  - intros E. destruct (snd p) as [|x s] eqn:Sp; [congruence|].
    assert (Hin : In x (set_order (x :: s))) by (apply Hm'; simpl; auto).
    rewrite E in Hin. contradiction.
  - intros idx. rewrite Hm'. apply Hm.
Qed.

Lemma get_ip_ids_raise (set_order : list nat -> list nat) (ips : list InterestPoint)
    (branch : pixel) (x : exn) :
  BranchMap.get_ip_ids set_order (BranchMap.init ips) branch = Raise x ->
  x = KeyError /\ forall idx, ~ branch_of ips idx branch.
Proof.
  unfold BranchMap.get_ip_ids. pose proof (maps_ids_init ips branch) as H.
  destruct (find (fun p => pixel_eqb (fst p) branch) (BranchMap.init ips)) as [p|];
    [discriminate|].
  intros E. injection E as <-. split; [reflexivity | exact H].
Qed.

Lemma find_ip_some (b : pixel) (ips : list InterestPoint) (k idx : nat) :
  find_ip b ips k = Some idx ->
  exists j, idx = (k + j)%nat /\ branch_of ips j b /\
            forall j', branch_of ips j' b -> (j <= j')%nat.
Proof.
  revert k. induction ips as [|ip0 r IH]; intros k; simpl; [discriminate|].
  destruct (existsb (pixel_eqb b) (ip_branches ip0)) eqn:X.
  - intros E. injection E as <-. exists 0%nat. split; [lia|]. split; [|intros; lia].
    exists ip0. split; [reflexivity|]. apply pixel_mem_In. exact X.
  - intros E. destruct (IH _ E) as (j & -> & (ip & En & Hb) & Hmin).
    exists (S j). split; [lia|]. split; [exists ip; auto|].
    intros [|j'] (ip' & En' & Hb'); simpl in En'.
    + injection En' as <-. apply pixel_mem_In in Hb'. congruence.
    + assert (j <= j')%nat by (apply Hmin; exists ip'; auto). lia.
Qed.

Lemma find_ip_none (b : pixel) (ips : list InterestPoint) (k : nat) :
  find_ip b ips k = None -> forall j, ~ branch_of ips j b.
Proof.
  revert k. induction ips as [|ip0 r IH]; intros k; simpl.
  - intros _ j (ip & E & _). destruct j; discriminate.
  - destruct (existsb (pixel_eqb b) (ip_branches ip0)) eqn:X; [discriminate|].
    intros E [|j] (ip & En & Hb); simpl in En.
    + injection En as <-. apply pixel_mem_In in Hb. congruence.
    + apply (IH _ E j). exists ip. auto.
Qed.

(** X22: the map [BranchMap(ips)] gives for a pixel, each once, the
    indices of the interest points that have the pixel among their
    branches, and raises [KeyError] exactly when no point has it.
    [find_path_ip] agrees with it: for a path that ends in the pixel it
    returns the smallest of these indices, and [None] exactly when the map
    raises; on the empty path it raises [IndexError]. *)
Theorem branch_map_lookup (set_order : list nat -> list nat)
    (ips : list InterestPoint) (branch : pixel) :
  lists_the_ids set_order ->
  (forall ids, BranchMap.get_ip_ids set_order (BranchMap.init ips) branch = Ok ids ->
     NoDup ids /\ ids <> [] /\ forall idx, In idx ids <-> branch_of ips idx branch) /\
  (forall x, BranchMap.get_ip_ids set_order (BranchMap.init ips) branch = Raise x ->
     x = KeyError /\ forall idx, ~ branch_of ips idx branch) /\
  (forall path, last_of path = Some branch ->
     match find_path_ip path ips with
     | Ok (Some idx) =>
         exists ids,
           BranchMap.get_ip_ids set_order (BranchMap.init ips) branch = Ok ids /\
           In idx ids /\ forall j, In j ids -> (idx <= j)%nat
     | Ok None =>
         BranchMap.get_ip_ids set_order (BranchMap.init ips) branch = Raise KeyError
     | Raise _ => False
     end) /\
  find_path_ip [] ips = Raise IndexError.
Proof.
  intros Hso. split; [|split; [|split; [|reflexivity]]].
  - intros ids. apply get_ip_ids_ok. exact Hso.
  - intros x. apply get_ip_ids_raise.
  - intros path Hl. unfold find_path_ip. rewrite py_index_last, Hl. cbn [bind].
    destruct (find_ip branch ips 0) as [idx|] eqn:F.
    + destruct (find_ip_some _ _ _ _ F) as (j & -> & Hb & Hmin). cbn [Nat.add].
      destruct (BranchMap.get_ip_ids set_order (BranchMap.init ips) branch)
        as [ids|x] eqn:G.
      * destruct (get_ip_ids_ok _ _ _ _ Hso G) as (_ & _ & Hm).
        exists ids. split; [reflexivity|]. split; [apply Hm; exact Hb|].
        intros j' Hj'. apply Hmin. apply Hm. exact Hj'.
      * destruct (get_ip_ids_raise _ _ _ _ G) as [_ Hno]. destruct (Hno j Hb).
    + destruct (BranchMap.get_ip_ids set_order (BranchMap.init ips) branch)
        as [ids|x] eqn:G.
      * destruct (get_ip_ids_ok _ _ _ _ Hso G) as (_ & Hne & Hm).
        destruct ids as [|i0 r]; [congruence|].
        destruct (find_ip_none _ _ _ F i0). apply Hm. simpl. auto.
      * destruct (get_ip_ids_raise _ _ _ _ G) as [-> _]. reflexivity.
Qed.

(** ** [track_branches] *)

Lemma set_add_In (l : list pixel) (x y : pixel) :
  In y (Point.set_add l x) <-> In y l \/ y = x.
Proof.
  unfold Point.set_add. destruct (existsb (pixel_eqb x) l) eqn:X.
  - apply pixel_mem_In in X. split; [auto|]. intros [H| ->]; assumption.
  - rewrite in_app_iff. simpl. intuition.
Qed.

Lemma track_loop_prefix (count : ndarray) (fuel : nat) (path : list pixel)
    (prev curr : pixel) (path' : list pixel) :
  track_loop fuel count path prev curr = Some (Ok path') ->
  exists t, path' = path ++ t.
Proof.
  revert path prev curr. induction fuel as [|fuel IH]; intros path prev curr; simpl;
    [discriminate|].
  destruct (iterate_neighbors curr) as [neis|]; [|discriminate].
  destruct (next_point_of count neis prev) as [[x|]|]; [| |discriminate].
  - intros H. destruct (IH _ _ _ H) as (t & ->). exists (x :: t).
    rewrite <- app_assoc. reflexivity.
  - intros H. injection H as <-. exists []. rewrite app_nil_r. reflexivity.
Qed.

Lemma track_branch_first (fuel : nat) (ip : InterestPoint) (k : nat) (count : ndarray)
    (path : list pixel) (b : pixel) :
  nth_error (ip_branches ip) k = Some b ->
  track_branch fuel ip (Z.of_nat k) count = Some (Ok path) ->
  exists t, path = b :: t.
Proof.
  intros Hn. unfold track_branch.
  assert (Hlt : (k < List.length (ip_branches ip))%nat)
    by (apply nth_error_Some; congruence).
  destruct (Z.leb_spec (Z.of_nat (List.length (ip_branches ip))) (Z.of_nat k)) as [H|_];
    [lia|].
  assert (P : py_index (ip_branches ip) (Z.of_nat k) = Ok b).
  { unfold py_index. destruct (Z.leb_spec 0 (Z.of_nat k)) as [_|H]; [|lia].
    rewrite Nat2Z.id. unfold item. rewrite Hn. reflexivity. }
  rewrite P. destruct (iterate_neighbors b) as [neis|]; [|discriminate].
  destruct (second_point_of count neis None) as [[second|]|]; [| |discriminate].
  - intros T. apply track_loop_prefix in T. destruct T as (t & ->).
    exists (second :: t). reflexivity.
  - intros T. injection T as <-. exists []. reflexivity.
Qed.

Lemma track_branch_more_fuel (fuel k : nat) (ip : InterestPoint) (i : Z) (count : ndarray)
    (r : result (list pixel)) :
  track_branch fuel ip i count = Some r -> track_branch (fuel + k) ip i count = Some r.
Proof.
  unfold track_branch.
  destruct (Z.of_nat (List.length (ip_branches ip)) <=? i); [auto|].
  destruct (py_index (ip_branches ip) i) as [first|]; [|auto].
  destruct (iterate_neighbors first) as [neis|]; [|auto].
  destruct (second_point_of count neis None) as [[second|]|]; auto.
  apply track_loop_more_fuel.
Qed.

Lemma other_point_spec (ids : list nat) (a b : nat) :
  NoDup ids -> other_point ids a = Ok b ->
  In b ids /\
  forall c, c <> a -> (forall j, In j ids <-> j = a \/ j = c) -> b = c.
Proof.
  intros ND. unfold other_point, item.
  destruct ids as [|x [|y [|z r]]]; simpl; try discriminate.
  - intros E. injection E as ->. split; [auto|]. intros c Hc H.
    assert (Ha : In a [b]) by (apply H; auto).
    assert (Hx : In c [b]) by (apply H; auto).
    simpl in Ha, Hx. intuition congruence.
  - assert (Hxy : x <> y).
    { inversion ND as [|? ? Hn _]; subst. simpl in Hn. intuition. }
    destruct (Nat.eqb_spec x a) as [->|Hne]; intros E; injection E as ->.
    + split; [auto|]. intros c Hc H.
      assert (Hb : b = a \/ b = c) by (apply H; simpl; auto).
      destruct Hb as [Hb|Hb]; [congruence | exact Hb].
    + split; [auto|]. intros c Hc H.
      assert (Hb : b = a \/ b = c) by (apply H; simpl; auto).
      destruct Hb as [Hb|Hb]; [congruence | exact Hb].
  - intros E. injection E as ->. split; [auto|]. intros c Hc H.
    inversion ND as [|? ? Hn ND1]; subst. inversion ND1 as [|? ? Hn1 _]; subst.
    simpl in Hn, Hn1.
    assert (H1 : b = a \/ b = c) by (apply H; simpl; auto).
    assert (H2 : y = a \/ y = c) by (apply H; simpl; auto).
    assert (H3 : z = a \/ z = c) by (apply H; simpl; auto).
    assert (b <> y /\ b <> z /\ y <> z) by intuition.
    lia.
Qed.

Lemma is_end_of_app (edges : list raw_edge) (e : raw_edge) (p : pixel) :
  is_end_of (edges ++ [e]) p <->
  is_end_of edges p \/ first_of (snd e) = Some p \/ last_of (snd e) = Some p.
Proof.
  unfold is_end_of. split.
  - intros (x & Hx & H). apply in_app_or in Hx. destruct Hx as [Hx|[<-|[]]]; eauto.
  - intros [(x & Hx & H)|H].
    + exists x. split; [apply in_or_app; auto | exact H].
    + exists e. split; [apply in_or_app; simpl; auto | exact H].
Qed.

Lemma fresh_starts_app (edges : list raw_edge) (e : raw_edge) :
  fresh_starts edges ->
  (forall e', In e' edges ->
     first_of (snd e) <> first_of (snd e') /\ first_of (snd e) <> last_of (snd e')) ->
  fresh_starts (edges ++ [e]).
Proof.
  intros F H l1 x l2 E. destruct l2 as [|y l2 _] using rev_ind.
  - apply app_inj_tail in E. destruct E as [<- <-]. exact H.
  - change (x :: l2 ++ [y]) with ((x :: l2) ++ [y]) in E. rewrite app_assoc in E.
    apply app_inj_tail in E. destruct E as [E _]. exact (F _ _ _ E).
Qed.

Lemma track_point_inv (fuel : nat) (set_order : list nat -> list nat)
    (ips : list InterestPoint) (count : ndarray) (a : nat) (ip : InterestPoint)
    (branches done visited : list pixel) (edges : list raw_edge)
    (visited' : list pixel) (edges' : list raw_edge) :
  lists_the_ids set_order -> nth_error ips a = Some ip ->
  ip_branches ip = done ++ branches ->
  tracked ips visited edges -> (forall p, In p done -> In p visited) ->
  track_point fuel set_order (BranchMap.init ips) count a ip branches (List.length done)
    visited edges = Some (Ok (visited', edges')) ->
  tracked ips visited' edges' /\
  (forall p, In p visited -> In p visited') /\
  (forall p, In p (ip_branches ip) -> In p visited').
Proof.
  intros Hso Ha. revert done visited edges.
  induction branches as [|branch r IH]; intros done visited edges Hb Inv Hd.
  - simpl. intros H. injection H as <- <-. split; [exact Inv|]. split; [auto|].
    rewrite Hb, app_nil_r. exact Hd.
  - assert (Hb' : ip_branches ip = (done ++ [branch]) ++ r)
      by (rewrite <- app_assoc; exact Hb).
    assert (Hl : List.length (done ++ [branch]) = S (List.length done))
      by (rewrite length_app; simpl; lia).
    cbn [track_point]. destruct (existsb (pixel_eqb branch) visited) eqn:V.
    + rewrite <- Hl. apply IH; [exact Hb' | exact Inv |].
      intros p Hp. apply in_app_or in Hp. destruct Hp as [Hp|[<-|[]]]; [auto|].
      apply pixel_mem_In. exact V.
    + destruct (track_branch fuel ip (Z.of_nat (List.length done)) count)
        as [[path|]|] eqn:T; try discriminate.
      assert (Hn : nth_error (ip_branches ip) (List.length done) = Some branch).
      { rewrite Hb, nth_error_app2 by lia. rewrite Nat.sub_diag. reflexivity. }
      destruct (track_branch_first _ _ _ _ _ _ Hn T) as (t & ->).
      rewrite py_index_last.
      destruct (last_of (branch :: t)) as [last|] eqn:Hlast; cbn [bind];
        [|discriminate].
      destruct (BranchMap.get_ip_ids set_order (BranchMap.init ips) last)
        as [ids|] eqn:G; cbn [bind]; [|discriminate].
      destruct (other_point ids a) as [b|] eqn:O; cbn [bind]; [|discriminate].
      destruct (get_ip_ids_ok _ _ _ _ Hso G) as (ND & _ & Hm).
      destruct (other_point_spec _ _ _ ND O) as [Hin Hc].
      destruct Inv as (I1 & I2 & I3).
      assert (Hnv : ~ In branch visited).
      { rewrite <- pixel_mem_In. congruence. }
      assert (Inv' : tracked ips
                       (Point.set_add (Point.set_add visited branch) last)
                       (edges ++ [(a, b, branch :: t)])).
      { split; [|split].
        - intros e He. apply in_app_or in He. destruct He as [He|[<-|[]]]; [auto|].
          exists branch, last. split; [reflexivity|]. split; [exact Hlast|].
          split; [exists ip; split; [exact Ha | rewrite Hb; apply in_or_app; simpl; auto]|].
          split; [apply Hm; exact Hin|].
          intros c Hca H. apply Hc; [exact Hca|]. intros j. rewrite Hm. apply H.
        - intros p. rewrite !set_add_In, is_end_of_app, I2. cbn [snd first_of hd_error].
          rewrite Hlast. split.
          + intros [[H| ->]| ->]; auto.
          + intros [H|[H|H]]; [auto | injection H as <-; auto | injection H as <-; auto].
        - apply fresh_starts_app; [exact I3|]. intros e' He'. cbn [snd first_of hd_error].
          split; intros E; apply Hnv; apply I2; exists e'; auto. }
      rewrite <- Hl. intros H.
      assert (Hd' : forall p, In p (done ++ [branch]) ->
                In p (Point.set_add (Point.set_add visited branch) last)).
      { intros p Hp. rewrite !set_add_In. apply in_app_or in Hp.
        destruct Hp as [Hp|[<-|[]]]; auto. }
      destruct (IH (done ++ [branch]) _ _ Hb' Inv' Hd' H) as (J1 & J2 & J3).
      split; [exact J1|]. split; [|exact J3].
      intros p Hp. apply J2. rewrite !set_add_In. auto.
Qed.

Lemma track_points_inv (fuel : nat) (set_order : list nat -> list nat)
    (ips : list InterestPoint) (count : ndarray) (rest pre : list InterestPoint)
    (visited : list pixel) (edges edges' : list raw_edge) :
  lists_the_ids set_order -> ips = pre ++ rest ->
  tracked ips visited edges ->
  (forall j ip p, nth_error pre j = Some ip -> In p (ip_branches ip) -> In p visited) ->
  track_points fuel set_order (BranchMap.init ips) count rest (List.length pre)
    visited edges = Some (Ok edges') ->
  exists visited',
    tracked ips visited' edges' /\ forall j p, branch_of ips j p -> In p visited'.
Proof.
  intros Hso. revert pre visited edges.
  induction rest as [|ip r IH]; intros pre visited edges Hi Inv Hd.
  - simpl. intros H. injection H as <-. exists visited. split; [exact Inv|].
    intros j p (ip & E & Hp). rewrite Hi, app_nil_r in E. eauto.
  - cbn [track_points].
    destruct (track_point fuel set_order (BranchMap.init ips) count (List.length pre) ip
                (ip_branches ip) 0 visited edges) as [[[v1 e1]|]|] eqn:T;
      try discriminate.
    assert (Ha : nth_error ips (List.length pre) = Some ip).
    { rewrite Hi, nth_error_app2 by lia. rewrite Nat.sub_diag. reflexivity. }
    destruct (track_point_inv fuel set_order ips count (List.length pre) ip
                (ip_branches ip) [] visited edges v1 e1 Hso Ha eq_refl Inv)
      as (J1 & J2 & J3); [intros p [] | exact T |].
    assert (Hl : List.length (pre ++ [ip]) = S (List.length pre))
      by (rewrite length_app; simpl; lia).
    rewrite <- Hl. apply IH; [rewrite <- app_assoc; exact Hi | exact J1 |].
    intros j ip' p E Hp. destruct (Nat.lt_ge_cases j (List.length pre)) as [Hlt|Hge].
    + rewrite nth_error_app1 in E by exact Hlt. apply J2. eauto.
    + rewrite nth_error_app2 in E by exact Hge.
      destruct (j - List.length pre)%nat as [|m]; simpl in E.
      * injection E as <-. apply J3. exact Hp.
      * destruct m; discriminate.
Qed.

Lemma track_point_more_fuel (fuel k : nat) (set_order : list nat -> list nat)
    (m : BranchMap.t) (count : ndarray) (a : nat) (ip : InterestPoint)
    (branches : list pixel) (i : nat) (visited : list pixel) (edges : list raw_edge)
    (r : result (list pixel * list raw_edge)) :
  track_point fuel set_order m count a ip branches i visited edges = Some r ->
  track_point (fuel + k) set_order m count a ip branches i visited edges = Some r.
Proof.
  revert i visited edges. induction branches as [|branch l IH]; intros i visited edges;
    cbn [track_point]; [auto|].
  destruct (existsb (pixel_eqb branch) visited); [apply IH|].
  destruct (track_branch fuel ip (Z.of_nat i) count) as [x|] eqn:T; [|discriminate].
  rewrite (track_branch_more_fuel _ k _ _ _ _ T).
  destruct x as [path|]; [|auto].
  destruct (bind (py_index path (-1)) _) as [[last b]|]; [apply IH | auto].
Qed.

Lemma track_points_more_fuel (fuel k : nat) (set_order : list nat -> list nat)
    (m : BranchMap.t) (count : ndarray) (ips : list InterestPoint) (a : nat)
    (visited : list pixel) (edges : list raw_edge) (r : result (list raw_edge)) :
  track_points fuel set_order m count ips a visited edges = Some r ->
  track_points (fuel + k) set_order m count ips a visited edges = Some r.
Proof.
  revert a visited edges. induction ips as [|ip l IH]; intros a visited edges;
    cbn [track_points]; [auto|].
  destruct (track_point fuel set_order m count a ip (ip_branches ip) 0 visited edges)
    as [x|] eqn:T; [|discriminate].
  rewrite (track_point_more_fuel _ k _ _ _ _ _ _ _ _ _ _ T).
  destruct x as [[v1 e1]|]; [apply IH | auto].
Qed.

(** X23: in the list [track_branches] returns, every edge starts at a
    branch of its first point and ends at a branch of its second point,
    and when its last pixel is a branch of the first point and of one
    other point only, the second point is that other one.  No edge starts
    at the first or the last pixel of an edge before it, and every branch
    of every point is the first or the last pixel of an edge.  A call
    that comes to an end on some fuel gives the same outcome on more. *)
Theorem track_branches_edges (set_order : list nat -> list nat)
    (ips : list InterestPoint) (img_num_neighbors : ndarray) :
  lists_the_ids set_order ->
  (forall (fuel : nat) (edges : list raw_edge),
     track_branches fuel set_order ips img_num_neighbors = Some (Ok edges) ->
     (forall e, In e edges -> joins_points ips e) /\
     fresh_starts edges /\
     (forall idx p, branch_of ips idx p -> is_end_of edges p)) /\
  (forall (fuel k : nat) (r : result (list raw_edge)),
     track_branches fuel set_order ips img_num_neighbors = Some r ->
     track_branches (fuel + k) set_order ips img_num_neighbors = Some r).
Proof.
  intros Hso. split.
  - intros fuel edges H. unfold track_branches in H.
    destruct (track_points_inv fuel set_order ips img_num_neighbors ips [] [] [] edges
                Hso eq_refl) as (v & (I1 & I2 & I3) & Hall).
    + split; [intros e []|]. split.
      * intros p. split; [intros [] | intros (e & [] & _)].
      * intros l1 e l2 E. destruct l1; discriminate.
    + intros j ip p E. destruct j; discriminate.
    + exact H.
    + split; [exact I1|]. split; [exact I3|].
      intros idx p Hp. apply I2. eapply Hall. exact Hp.
  - intros fuel k r. unfold track_branches. apply track_points_more_fuel.
Qed.

(** ** [InterestPoint.map_point_type] *)

(** X24: [map_point_type] gives the name of the codes 0 and 1 and raises
    [ValueError] for every other value.  In the other direction
    ([code_to_name] false) it never returns: it raises [TypeError] for the
    two names and [ValueError] for every other value, so no name it gives
    can be mapped back to its code. *)
Theorem map_point_type_never_code :
  (forall value r, map_point_type value false <> Returns r) /\
  (forall value,
     map_point_type value false = RaisesTypeError <->
     value = PyStr "bifurcation"%string \/ value = PyStr "termination"%string) /\
  (forall value r,
     map_point_type value true = Returns r <->
     (value = PyInt 0 /\ r = PyStr "bifurcation"%string) \/
     (value = PyInt 1 /\ r = PyStr "termination"%string)) /\
  (forall value r,
     map_point_type value true = Returns r -> map_point_type r false = RaisesTypeError).
Proof.
  assert (A : forall value,
            map_point_type value false = RaisesTypeError <->
            value = PyStr "bifurcation"%string \/ value = PyStr "termination"%string).
  { intros [c|s]; unfold map_point_type, point_name_to_code, point_code_to_name;
      cbn [map existsb fst snd].
    - split; [discriminate | intros [H|H]; discriminate].
    - destruct (String.eqb_spec "bifurcation"%string s) as [<-|N1]; cbn [orb].
      + split; auto.
      + destruct (String.eqb_spec "termination"%string s) as [<-|N2]; cbn [orb].
        * split; auto.
        * split; [discriminate|]. intros [H|H]; injection H as ->; congruence. }
  assert (B : forall value r,
            map_point_type value true = Returns r <->
            (value = PyInt 0 /\ r = PyStr "bifurcation"%string) \/
            (value = PyInt 1 /\ r = PyStr "termination"%string)).
  { intros [c|s] r; unfold map_point_type, point_code_to_name; cbn [find fst snd].
    - destruct (Z.eqb_spec 0 c) as [<-|N0]; cbn [snd].
      + split.
        * intros H. injection H as <-. auto.
        * intros [[_ ->]|[H _]]; [reflexivity | discriminate].
      + destruct (Z.eqb_spec 1 c) as [<-|N1]; cbn [snd].
        * split.
          -- intros H. injection H as <-. auto.
          -- intros [[H _]|[_ ->]]; [discriminate | reflexivity].
        * split; [discriminate|].
          intros [[H _]|[H _]]; injection H as ->; congruence.
    - split; [discriminate|]. intros [[H _]|[H _]]; discriminate. }
  split; [|split; [exact A|split; [exact B|]]].
  - intros [c|s] r; unfold map_point_type; [discriminate|].
    destruct (existsb _ point_name_to_code); discriminate.
  - intros value r H. apply B in H. apply A.
    destruct H as [[_ ->]|[_ ->]]; auto.
Qed.

(** ** Further concrete inputs *)


(** The two parallel edges between 0 and 1 and an empty work list. *)
Lemma handle_new_multiedge_outcome_witness :
  ids_distinct (g_edges two_parallel) = true /\
  (2 <= degree two_parallel 0%Z)%nat /\ (2 <= degree two_parallel 1%Z)%nat /\
  exists g3 tv3 b3,
    handle_new_multiedge two_parallel 0 1 2%Q [] = Ok (g3, tv3, b3) /\
    g_nodes g3 = g_nodes two_parallel.
Proof.
  assert (Hd : ids_distinct (g_edges two_parallel) = true) by reflexivity.
  assert (D1 : (2 <= degree two_parallel 0%Z)%nat) by (vm_compute; lia).
  assert (D2 : (2 <= degree two_parallel 1%Z)%nat) by (vm_compute; lia).
  assert (Hne : 0 <> 1) by discriminate.
  assert (Hv : forall m : node, In m [] -> degree two_parallel m = 2%nat)
    by (intros m []).
  destruct (handle_new_multiedge_outcome two_parallel 0 1 2%Q [] Hd Hne D1 D2
              (NoDup_nil node) Hv) as [_ A].
  assert (E : exists r, handle_new_multiedge two_parallel 0 1 2%Q [] = Ok r).
  { vm_compute. eexists. reflexivity. }
  destruct E as ([[g3 tv3] b3] & E).
  split; [exact Hd|]. split; [exact D1|]. split; [exact D2|].
  exists g3, tv3, b3. split; [exact E|].
  destruct (A g3 tv3 b3 E) as [(-> & _)|(s & _ & _ & _ & Hn & _)];
    [reflexivity | exact Hn].
Defined.


(** A point at the pixel (1, 1) of an array of 3 by 3 that holds 2 at
    (1, 2) and 0 elsewhere: the point gets the one branch (1, 2). *)
Lemma add_branches_members_witness :
  lists_the_set (fun l => l) /\
  exists branches,
    Point.add_branches (fun l => l) (mkPoint [[1; 1]] [1; 1] Termination 2 [])
      (fun q => if pixel_eqb q [1; 2] then Ok 2 else Ok 0) [3; 3]
    = Ok (mkPoint [[1; 1]] [1; 1] Termination 2 branches, branches) /\
    NoDup branches /\ In [1; 2] branches.
Proof.
  assert (Hset : lists_the_set (fun l => l)).
  { intros l ND. split; [exact ND | intros x; tauto]. }
  destruct (add_branches_members (fun l => l) (mkPoint [[1; 1]] [1; 1] Termination 2 [])
              (fun q => if pixel_eqb q [1; 2] then Ok 2 else Ok 0) [3; 3] Hset)
    as (_ & _ & A).
  destruct A as (branches & E & ND & Hin).
  - reflexivity.
  - reflexivity.
  - left. reflexivity.
  - intros p [<-|[]]. reflexivity.
  - intros q _. destruct (pixel_eqb q [1; 2]); eauto.
  - split; [exact Hset|]. exists branches. split; [exact E|]. split; [exact ND|].
    apply Hin. exists [1; 1]. split; [simpl; auto|]. split.
    + apply beside_2. lia.
    + split; [apply within_2; lia | reflexivity].
Defined.

(** The path 0 - 1 - 2 with the lengths 2 and 1 and the threshold 10, on
    which [remove_branches] ends in a [NetworkXError]:
    [_remove_branches_old] removes the two edges and returns. *)
Lemma remove_branches_old_result_witness :
  well_formed short_path = true /\ branch_inv short_path /\
  _remove_branches_old short_path 10%Q = Some (Ok (with_edges short_path [])) /\
  branch_inv (with_edges short_path []) /\
  _remove_branches_old (with_edges short_path []) 10%Q
  = Some (Ok (with_edges short_path [])).
Proof.
  assert (Hwf : well_formed short_path = true) by reflexivity.
  assert (Hb : branch_inv short_path) by (apply branch_inv_b_spec; reflexivity).
  assert (E : _remove_branches_old short_path 10%Q
              = Some (Ok (with_edges short_path []))) by (vm_compute; reflexivity).
  destruct (@remove_branches_old_result Q Q_lengths Qltb_irrefl Qltb_trans Qltb_below
              short_path 10%Q Hwf Hb) as (_ & _ & P).
  destruct (P _ E) as (A & _ & B & _).
  split; [exact Hwf|]. split; [exact Hb|]. split; [exact E|]. split; [exact A | exact B].
Defined.

(** The two points that share the branch (1, 2): the map gives the
    indices 0 and 1 for it, and [find_path_ip] the index 0. *)
Lemma branch_map_lookup_witness :
  lists_the_ids (fun l => l) /\
  BranchMap.get_ip_ids (fun l => l) (BranchMap.init two_points) [1; 2]
  = Ok [0%nat; 1%nat] /\
  (forall idx, In idx [0%nat; 1%nat] <-> branch_of two_points idx [1; 2]) /\
  find_path_ip [[2; 1]; [1; 2]] two_points = Ok (Some 0%nat).
Proof.
  assert (Hso : lists_the_ids (fun l => l)).
  { intros l ND. split; [exact ND | intros x; tauto]. }
  destruct (branch_map_lookup (fun l => l) two_points [1; 2] Hso) as (A & _ & _ & _).
  assert (E : BranchMap.get_ip_ids (fun l => l) (BranchMap.init two_points) [1; 2]
              = Ok [0%nat; 1%nat]) by reflexivity.
  destruct (A _ E) as (_ & _ & Hm).
  split; [exact Hso|]. split; [exact E|]. split; [exact Hm | reflexivity].
Defined.

(** The line of five pixels: the one edge runs from the branch of the
    first termination to the branch of the second. *)
Lemma track_branches_edges_witness :
  lists_the_ids (fun l => l) /\
  track_branches 5 (fun l => l) line_points line_counts
  = Some (Ok [(0%nat, 1%nat, [[1; 2]; [1; 3]; [1; 4]])]) /\
  joins_points line_points (0%nat, 1%nat, [[1; 2]; [1; 3]; [1; 4]]) /\
  is_end_of [(0%nat, 1%nat, [[1; 2]; [1; 3]; [1; 4]])] [1; 4].
Proof.
  assert (Hso : lists_the_ids (fun l => l)).
  { intros l ND. split; [exact ND | intros x; tauto]. }
  destruct (track_branches_edges (fun l => l) line_points line_counts Hso) as [A _].
  assert (E : track_branches 5 (fun l => l) line_points line_counts
              = Some (Ok [(0%nat, 1%nat, [[1; 2]; [1; 3]; [1; 4]])]))
    by (vm_compute; reflexivity).
  destruct (A _ _ E) as (J & _ & C).
  split; [exact Hso|]. split; [exact E|]. split.
  - apply J. simpl. auto.
  - apply (C 1%nat). exists (mkPoint [[1; 5]] [1; 5] Termination 2 [[1; 4]]).
    split; [reflexivity | simpl; auto].
Defined.
